(** * Import Map Explorer: the dependency-graph builder and the node layout

  A shallow embedding of [src/importAnalyzer.ts] (GitignoreParser and
  ImportAnalyzer) and of the layout and conversion code of
  [src/importMapPanel.ts], with the properties of the specification
  stated and settled against it.

  Conventions of the embedding.
  - JavaScript strings are [string]s whose characters are code units
    below 256; file contents and paths are plain text.
  - The file system the analyzer reads is an interface ([FileSystem]):
    what a path names, and the typed listing of a directory, in which a
    directory entry carries the listing found below it. Node's [path]
    module is an interface ([PathApi]) with a POSIX instance, and
    [JSON.parse] is an interface ([Json]) that answers the one question
    asked of a parsed [package.json].
  - A [Map<string, T>] is an association list in insertion order, as
    iteration order is observable ([importedBy] is filled while
    iterating).
  - Exceptions are modelled where the source can raise them:
    [readFileSync] and [readdirSync] return an [option], and the
    directory scan [getAllFiles], which catches nothing, may throw.
  - Layout numbers are exact rationals ([Q]); [Math.cos], [Math.sin]
    and [Math.PI] are parameters of the layout section. *)

From Stdlib Require Import Ascii String List Bool Arith ZArith QArith Qabs Qround Lia Lqa.
From stdpp Require Import base option list strings gmap.


(* ================================================================= *)
(** ** JavaScript string helpers *)

Module Js.

Definition code (c : ascii) : nat := nat_of_ascii c.

Definition ascii_eqb (a b : ascii) : bool := Ascii.eqb a b.

(** [s.startsWith(p)] *)
Definition startsWith (s p : string) : bool := String.prefix p s.

Fixpoint rev_acc (s acc : string) : string :=
  match s with
  | EmptyString => acc
  | String c s' => rev_acc s' (String c acc)
  end.

Definition rev (s : string) : string := rev_acc s EmptyString.

(** [s.endsWith(p)] *)
Definition endsWith (s p : string) : bool := String.prefix (rev p) (rev s).

(** [s.substring(n)] for [0 <= n] *)
Fixpoint drop (n : nat) (s : string) : string :=
  match n, s with
  | O, _ => s
  | S n', String _ s' => drop n' s'
  | S _, EmptyString => EmptyString
  end.

(** [s.substring(0, n)] *)
Fixpoint take (n : nat) (s : string) : string :=
  match n, s with
  | S n', String c s' => String c (take n' s')
  | _, _ => EmptyString
  end.

(** [s.substring(0, s.length - 1)] and [s.slice(0, -1)] *)
Definition dropLast (s : string) : string := take (String.length s - 1) s.

(** [s.includes(p)] *)
Fixpoint includes (s p : string) : bool :=
  String.prefix p s ||
  match s with
  | EmptyString => false
  | String _ s' => includes s' p
  end.

(** [s.indexOf(c)] for a one-character needle; [None] is -1. *)
Fixpoint indexOf (c : ascii) (s : string) : option nat :=
  match s with
  | EmptyString => None
  | String d s' =>
      if ascii_eqb c d then Some O
      else match indexOf c s' with Some i => Some (S i) | None => None end
  end.

(** White space and line terminators among the code units below 256:
    TAB, LF, VT, FF, CR, space and the no-break space. *)
Definition is_space (c : ascii) : bool :=
  let n := code c in
  ((9 <=? n) && (n <=? 13)) || (n =? 32) || (n =? 160).

Fixpoint trimStart (s : string) : string :=
  match s with
  | String c s' => if is_space c then trimStart s' else s
  | EmptyString => EmptyString
  end.

(** [s.trim()] *)
Definition trim (s : string) : string := rev (trimStart (rev (trimStart s))).

(** [s.split(sep)] for a one-character separator. *)
Fixpoint split_acc (sep : ascii) (s cur : string) : list string :=
  match s with
  | EmptyString => [rev cur]
  | String c s' =>
      if ascii_eqb c sep then rev cur :: split_acc sep s' EmptyString
      else split_acc sep s' (String c cur)
  end.

Definition split (sep : ascii) (s : string) : list string :=
  split_acc sep s EmptyString.

(** [parts.join(sep)] *)
Fixpoint join (sep : string) (parts : list string) : string :=
  match parts with
  | [] => EmptyString
  | [p] => p
  | p :: rest => p +:+ sep +:+ join sep rest
  end.

(** [s.replace(/c/g, d)] for single characters. *)
Fixpoint replaceChar (c d : ascii) (s : string) : string :=
  match s with
  | EmptyString => EmptyString
  | String e s' => String (if ascii_eqb e c then d else e) (replaceChar c d s')
  end.

(** [s.replace(pattern, replacement)] for a text pattern: the first
    occurrence only. *)
Fixpoint replaceFirst (pattern replacement s : string) : string :=
  if String.prefix pattern s then
    replacement +:+ drop (String.length pattern) s
  else
    match s with
    | EmptyString => EmptyString
    | String c s' => String c (replaceFirst pattern replacement s')
    end.

(** Truthiness of a string: only the empty string is falsy. *)
Definition nonempty (s : string) : bool :=
  match s with EmptyString => false | _ => true end.

(** Truthiness of an optional string: [undefined] and the empty string
    are falsy. *)
Definition truthy (o : option string) : bool :=
  match o with
  | Some (String _ _) => true
  | _ => false
  end.

(** [a || b] on optional strings. *)
Definition or (a b : option string) : option string :=
  if truthy a then a else b.

End Js.

(* ================================================================= *)
(** ** Regular expressions

  A backtracking matcher with the priorities of the JavaScript engine:
  the left alternative first, greedy quantifiers longest first, lazy
  quantifiers shortest first. Every quantifier of the patterns in the
  source is applied to a one-character class, which is what [Rep]
  offers. *)

Module Regex.

Definition cls := ascii -> bool.

Inductive re : Type :=
| Eps
| Chr (p : cls)                        (* one character of a class *)
| Rep (greedy : bool) (p : cls)        (* p* (greedy) or p*? (lazy) *)
| Seq (r1 r2 : re)
| Alt (r1 r2 : re)
| Grp (i : nat) (r : re).              (* capturing group number i *)

(** Captured groups, latest first. *)
Definition caps := list (nat * string).

Fixpoint group (i : nat) (c : caps) : option string :=
  match c with
  | [] => None
  | (j, s) :: c' => if Nat.eqb i j then Some s else group i c'
  end.

Section Match.
Context {R : Type}.

Fixpoint rep_greedy (p : cls) (s : string) (k : string -> option R) : option R :=
  match s with
  | String c s' =>
      if p c then
        match rep_greedy p s' k with
        | Some r => Some r
        | None => k s
        end
      else k s
  | EmptyString => k s
  end.

Fixpoint rep_lazy (p : cls) (s : string) (k : string -> option R) : option R :=
  match k s with
  | Some r => Some r
  | None =>
      match s with
      | String c s' => if p c then rep_lazy p s' k else None
      | EmptyString => None
      end
  end.

(** [run r s c k]: match [r] at the start of [s] and continue with
    [k] on the rest; [k] failing makes the matcher backtrack. *)
Fixpoint run (r : re) (s : string) (c : caps)
         (k : string -> caps -> option R) : option R :=
  match r with
  | Eps => k s c
  | Chr p =>
      match s with
      | String a s' => if p a then k s' c else None
      | EmptyString => None
      end
  | Rep true p => rep_greedy p s (fun s' => k s' c)
  | Rep false p => rep_lazy p s (fun s' => k s' c)
  | Seq r1 r2 => run r1 s c (fun s' c' => run r2 s' c' k)
  | Alt r1 r2 =>
      match run r1 s c k with
      | Some x => Some x
      | None => run r2 s c k
      end
  | Grp i r1 =>
      run r1 s c (fun s' c' =>
        k s' ((i, Js.take (String.length s - String.length s') s) :: c'))
  end.
End Match.

(** One match attempt at the start of [s]: the groups and the rest. *)
Definition match_here (r : re) (s : string) : option (caps * string) :=
  run r s [] (fun s' c => Some (c, s')).

(** [new RegExp('^' + r + '$').test(s)] *)
Definition test_whole (r : re) (s : string) : bool :=
  match run r s [] (fun s' _ => match s' with EmptyString => Some tt | _ => None end) with
  | Some _ => true
  | None => false
  end.

(** The successive results of [r.exec(s)] for a global pattern: the
    leftmost match from [lastIndex], then from its end. For each match
    the groups and the matched text. [skip] counts the characters still
    covered by the previous match. Every pattern of the source
    consumes at least one character per match. *)
Fixpoint exec_from (r : re) (s : string) (skip : nat) : list (caps * string) :=
  match skip with
  | S skip' =>
      match s with
      | String _ s' => exec_from r s' skip'
      | EmptyString => []
      end
  | O =>
      match match_here r s with
      | Some (c, rest) =>
          let len := String.length s - String.length rest in
          (c, Js.take len s) ::
          match s with
          | String _ s' => exec_from r s' (len - 1)
          | EmptyString => []
          end
      | None =>
          match s with
          | String _ s' => exec_from r s' O
          | EmptyString => []
          end
      end
  end.

Definition exec_all (r : re) (s : string) : list (caps * string) :=
  exec_from r s O.

(** [s.replace(r, rep)] for a global pattern [r] and a replacement text
    without group references. *)
Fixpoint replace_from (r : re) (rep : string) (s : string) (skip : nat) : string :=
  match skip with
  | S skip' =>
      match s with
      | String _ s' => replace_from r rep s' skip'
      | EmptyString => EmptyString
      end
  | O =>
      match match_here r s with
      | Some (_, rest) =>
          let len := String.length s - String.length rest in
          rep +:+
          match s with
          | String a s' =>
              match len with
              | O => String a (replace_from r rep s' O)
              | S l => replace_from r rep s' l
              end
          | EmptyString => EmptyString
          end
      | None =>
          match s with
          | String a s' => String a (replace_from r rep s' O)
          | EmptyString => EmptyString
          end
      end
  end.

Definition replace_all (r : re) (rep : string) (s : string) : string :=
  replace_from r rep s O.

(** *** Pattern combinators *)

Definition seq (rs : list re) : re := fold_right Seq Eps rs.

Definition chr_is (c : ascii) : cls := fun a => Js.ascii_eqb a c.
Definition one_of (cs : list ascii) : cls := fun a => existsb (Js.ascii_eqb a) cs.
Definition none_of (cs : list ascii) : cls := fun a => negb (existsb (Js.ascii_eqb a) cs).
Definition any : cls := fun _ => true.

Fixpoint lit (s : string) : re :=
  match s with
  | EmptyString => Eps
  | String c s' => Seq (Chr (chr_is c)) (lit s')
  end.

(** ASCII lower-casing, for patterns with the [i] flag. *)
Definition lower (a : ascii) : ascii :=
  let n := Js.code a in
  if ((65 <=? n) && (n <=? 90))%nat then ascii_of_nat (n + 32) else a.

Definition chr_is_ci (c : ascii) : cls := fun a => Js.ascii_eqb (lower a) (lower c).

Fixpoint lit_ci (s : string) : re :=
  match s with
  | EmptyString => Eps
  | String c s' => Seq (Chr (chr_is_ci c)) (lit_ci s')
  end.

Definition star (p : cls) : re := Rep true p.
Definition plus (p : cls) : re := Seq (Chr p) (Rep true p).
Definition star_lazy (p : cls) : re := Rep false p.

(** [\s], [\w] and [.] *)
Definition space : cls := Js.is_space.

Definition word : cls := fun a =>
  let n := Js.code a in
  ((48 <=? n) && (n <=? 57)) || ((65 <=? n) && (n <=? 90))
  || ((97 <=? n) && (n <=? 122)) || (n =? 95).

Definition dot : cls := fun a =>
  let n := Js.code a in negb ((n =? 10) || (n =? 13)).

(** The three string delimiters: single quote, double quote, backtick. *)
Definition quotes : list ascii := ["'"%char; "034"%char; "`"%char].

Definition quote : re := Chr (one_of quotes).

(** A capturing group [i] of one or more characters that are not
    string delimiters: the source argument of every import pattern. *)
Definition source_group (i : nat) : re := Grp i (plus (none_of quotes)).

End Regex.

(* ================================================================= *)
(** ** The host: Node's [path] and [fs] modules *)

(** The functions of Node's [path] module that the analyzer calls. *)
Class PathApi := {
  path_join : list string -> string;
  path_resolve : string -> string -> string;
  path_relative : string -> string -> string;
  path_dirname : string -> string;
  path_basename : string -> string;
  path_isAbsolute : string -> bool
}.

(** What a path names: a regular file, a directory, or something else
    (a device such as [/dev/null], a FIFO, a socket). What exists but
    cannot be read has no content. *)
Inductive FsEntry : Type :=
| FsFile (content : option string)
| FsDir
| FsOther (content : option string).

(** An entry of a directory listing, [fs.Dirent]: a file, something
    else (a link, a socket), or a directory, which comes with the listing
    that [readdirSync] returns for it unless it cannot be read. *)
#[warnings="-register-all"]
Inductive Dirent : Type :=
| DirentFile
| DirentOther
| DirentDirectory (readable : bool) (entries : list (string * Dirent)).

(** The state of the file system during one analysis: what
    [existsSync], [statSync] and [readFileSync] see at a path, and what
    [readdirSync(dir, { withFileTypes: true })] returns, nothing when it
    throws. *)
Class FileSystem := {
  fs_stat : string -> option FsEntry;
  fs_readdir : string -> option (list (string * Dirent))
}.

(** [JSON.parse] as far as the analyzer looks at its result: whether a
    text parses to an object that names [typescript], [@types/node] or
    [ts-node] among its dependencies or development dependencies. *)
Class Json := { namesTypeScript : string -> bool }.

Section Fs.
Context `{FileSystem}.

(** [fs.existsSync(p)] *)
Definition existsSync (p : string) : bool :=
  match fs_stat p with Some _ => true | None => false end.

(** [fs.statSync(p).isFile()], after [existsSync] *)
Definition statIsFile (p : string) : bool :=
  match fs_stat p with Some (FsFile _) => true | _ => false end.

(** [fs.statSync(p).isDirectory()], after [existsSync] *)
Definition statIsDirectory (p : string) : bool :=
  match fs_stat p with Some FsDir => true | _ => false end.

(** [fs.readFileSync(p, 'utf-8')]; [None] when it throws. *)
Definition readFileSync (p : string) : option string :=
  match fs_stat p with
  | Some (FsFile (Some text)) | Some (FsOther (Some text)) => Some text
  | _ => None
  end.

End Fs.

(** *** The POSIX implementation of [path] *)

Module Posix.

Definition slash : ascii := "/"%char.

(** [normalizeString]: drop empty and [.] segments, resolve [..]. The
    accumulator holds the kept segments, last first. *)
Fixpoint normalizeSegments (allowAboveRoot : bool) (segs acc : list string) : list string :=
  match segs with
  | [] => rev acc
  | seg :: rest =>
      if String.eqb seg "" || String.eqb seg "." then
        normalizeSegments allowAboveRoot rest acc
      else if String.eqb seg ".." then
        match acc with
        | last :: acc' =>
            if String.eqb last ".." then normalizeSegments allowAboveRoot rest (seg :: acc)
            else normalizeSegments allowAboveRoot rest acc'
        | [] =>
            if allowAboveRoot then normalizeSegments allowAboveRoot rest [seg]
            else normalizeSegments allowAboveRoot rest []
        end
      else normalizeSegments allowAboveRoot rest (seg :: acc)
  end.

Definition normalizeString (p : string) (allowAboveRoot : bool) : string :=
  Js.join "/" (normalizeSegments allowAboveRoot (Js.split slash p) []).

Definition isAbsolute (p : string) : bool := Js.startsWith p "/".

Definition normalize (p : string) : string :=
  match p with
  | EmptyString => "."
  | _ =>
      let absolute := isAbsolute p in
      let trailing := Js.endsWith p "/" in
      let body := normalizeString p (negb absolute) in
      match body with
      | EmptyString => if absolute then "/" else if trailing then "./" else "."
      | _ =>
          let body' := if trailing then body +:+ "/" else body in
          if absolute then "/" +:+ body' else body'
      end
  end.

Definition join (parts : list string) : string :=
  match filter (fun s => Js.nonempty s = true) parts with
  | [] => "."
  | ps => normalize (Js.join "/" ps)
  end.

(** [path.resolve]: arguments are taken from the right until an absolute
    one is met; the working directory comes last. *)
Fixpoint resolveFrom (args_rev : list string) (acc : string) : string * bool :=
  match args_rev with
  | [] => (acc, false)
  | p :: rest =>
      if Js.nonempty p then
        let acc' := p +:+ "/" +:+ acc in
        if isAbsolute p then (acc', true) else resolveFrom rest acc'
      else resolveFrom rest acc
  end.

Definition resolveAll (cwd : string) (args : list string) : string :=
  let '(joined, absolute) := resolveFrom (rev (cwd :: args)) "" in
  let body := normalizeString joined (negb absolute) in
  if absolute then "/" +:+ body
  else match body with EmptyString => "." | _ => body end.

Fixpoint dropCommon (a b : list string) : list string * list string :=
  match a, b with
  | x :: a', y :: b' => if String.eqb x y then dropCommon a' b' else (a, b)
  | _, _ => (a, b)
  end.

Definition segmentsOf (p : string) : list string :=
  filter (fun s => Js.nonempty s = true) (Js.split slash p).

Definition relative (cwd from to : string) : string :=
  let from' := resolveAll cwd [from] in
  let to' := resolveAll cwd [to] in
  if String.eqb from' to' then ""
  else
    let '(up, down) := dropCommon (segmentsOf from') (segmentsOf to') in
    Js.join "/" (map (fun _ => "..") up ++ down).

Fixpoint dropWhile (p : ascii -> bool) (s : string) : string :=
  match s with
  | String c s' => if p c then dropWhile p s' else s
  | EmptyString => EmptyString
  end.

Fixpoint takeWhile (p : ascii -> bool) (s : string) : string :=
  match s with
  | String c s' => if p c then String c (takeWhile p s') else EmptyString
  | EmptyString => EmptyString
  end.

Definition is_slash (c : ascii) : bool := Js.ascii_eqb c slash.
Definition not_slash (c : ascii) : bool := negb (is_slash c).

(** [path.dirname]: the text before the last separator that follows a
    name, trailing separators ignored; the first character is never
    examined. *)
Definition dirname (p : string) : string :=
  match p with
  | EmptyString => "."
  | String c0 tail =>
      let hasRoot := is_slash c0 in
      match dropWhile not_slash (dropWhile is_slash (Js.rev tail)) with
      | EmptyString => if hasRoot then "/" else "."
      | String _ before =>
          match before with
          | EmptyString => if hasRoot then "//" else String c0 EmptyString
          | _ => String c0 (Js.rev before)
          end
      end
  end.

(** [path.basename] without a suffix argument. *)
Definition basename (p : string) : string :=
  Js.rev (takeWhile not_slash (dropWhile is_slash (Js.rev p))).

End Posix.

(** The POSIX [path] of a process whose working directory is [cwd]. *)
Definition posix (cwd : string) : PathApi := {|
  path_join := Posix.join;
  path_resolve := fun a b => Posix.resolveAll cwd [a; b];
  path_relative := Posix.relative cwd;
  path_dirname := Posix.dirname;
  path_basename := Posix.basename;
  path_isAbsolute := Posix.isAbsolute
|}.

(* ================================================================= *)
(** ** GitignoreParser *)

Module Gitignore.

(** One entry of [GitignoreParser.patterns]. *)
Record IgnoreRule : Type := {
  pattern : string;
  isNegation : bool;
  isDirectory : bool
}.

(** The body of the loop of [loadGitignore] for one line: nothing for
    empty lines and comments. *)
Definition parseLine (line : string) : option IgnoreRule :=
  let trimmed := Js.trim line in
  if negb (Js.nonempty trimmed) || Js.startsWith trimmed "#" then None
  else
    let isNegation := Js.startsWith trimmed "!" in
    let isDirectory := Js.endsWith trimmed "/" in
    let pattern := trimmed in
    let pattern := if isNegation then Js.drop 1 pattern else pattern in
    let pattern := if isDirectory then Js.dropLast pattern else pattern in
    Some {| pattern := pattern; isNegation := isNegation; isDirectory := isDirectory |}.

Definition parseContent (content : string) : list IgnoreRule :=
  omap parseLine (Js.split "010"%char content).

Record GitignoreParser : Type := {
  projectRoot : string;
  patterns : list IgnoreRule
}.

(** One character of a glob pattern as a regular expression: [*] is
    [.*], [?] is [.], and every other character stands for itself, the
    regex metacharacters because [globMatch] escapes them. *)
Definition globAtom (c : ascii) : Regex.re :=
  if Js.ascii_eqb c "*"%char then Regex.star Regex.dot
  else if Js.ascii_eqb c "?"%char then Regex.Chr Regex.dot
  else Regex.Chr (Regex.chr_is c).

Fixpoint globRegex (pattern : string) : Regex.re :=
  match pattern with
  | EmptyString => Regex.Eps
  | String c rest => Regex.Seq (globAtom c) (globRegex rest)
  end.

Definition globMatch (text pattern : string) : bool :=
  Regex.test_whole (globRegex pattern) text.

(** [pathSegments.slice(i).join('/')] for [i = 0, 1, ...] *)
Fixpoint suffixes (segments : list string) : list string :=
  match segments with
  | [] => []
  | _ :: rest => Js.join "/" segments :: suffixes rest
  end.

Definition matchesPattern (filePath pattern : string) : bool :=
  let normalizedPath := Js.replaceChar "\"%char "/"%char filePath in
  let normalizedPattern := Js.replaceChar "\"%char "/"%char pattern in
  if Js.startsWith normalizedPattern "/" then
    globMatch normalizedPath (Js.drop 1 normalizedPattern)
  else
    let pathSegments := Js.split "/"%char normalizedPath in
    if globMatch normalizedPath normalizedPattern then true
    else existsb (fun suffix => globMatch suffix normalizedPattern) (suffixes pathSegments).

(** The body of the loop of [shouldIgnore] for one rule: the new value
    of the local variable [shouldIgnore]. *)
Definition applyRule (relativePath : string) (pathIsDirectory : bool)
           (shouldIgnore : bool) (rule : IgnoreRule) : bool :=
  if isDirectory rule && negb pathIsDirectory then shouldIgnore
  else if matchesPattern relativePath (pattern rule) then negb (isNegation rule)
  else shouldIgnore.

(** The loop of [shouldIgnore] on the relative path. *)
Definition ignoreLoop (rules : list IgnoreRule) (relativePath : string)
           (pathIsDirectory : bool) : bool :=
  fold_left (applyRule relativePath pathIsDirectory) rules false.

Section WithHost.
Context `{PathApi} `{FileSystem}.

(** [new GitignoreParser(projectRoot)], that is [loadGitignore]: no
    rules when the file is absent or cannot be read. *)
Definition loadGitignore (root : string) : GitignoreParser :=
  let gitignorePath := path_join [root; ".gitignore"] in
  {| projectRoot := root;
     patterns :=
       if existsSync gitignorePath then
         match readFileSync gitignorePath with
         | Some content => parseContent content
         | None => []
         end
       else [] |}.

Definition shouldIgnore (g : GitignoreParser) (filePath : string) : bool :=
  let relativePath := path_relative (projectRoot g) filePath in
  let pathIsDirectory := existsSync filePath && statIsDirectory filePath in
  ignoreLoop (patterns g) relativePath pathIsDirectory.

End WithHost.

(** The specification's reading of the resolution order: the last rule
    that matches the path decides, and without one the path is kept. A
    directory-only rule matches directories only. *)
Definition ruleMatches (relativePath : string) (pathIsDirectory : bool)
           (rule : IgnoreRule) : bool :=
  (negb (isDirectory rule) || pathIsDirectory)
  && matchesPattern relativePath (pattern rule).

Definition lastMatchDecides (rules : list IgnoreRule) (relativePath : string)
           (pathIsDirectory : bool) : bool :=
  match find (ruleMatches relativePath pathIsDirectory) (rev rules) with
  | Some rule => negb (isNegation rule)
  | None => false
  end.

End Gitignore.

(* ================================================================= *)
(** ** ImportAnalyzer *)

Module Analyzer.

(** The [type] of an import; the source casts ['dynamic-import'] into
    the declared union. *)
Inductive ImportType : Type := TImport | TRequire | TDynamicImport.

Record ImportInfo : Type := {
  source : string;
  type : ImportType;
  isNodeModule : bool;
  resolvedPath : option string;
  importedNames : option (list string)
}.

Record FileNode : Type := {
  path : string;
  name : string;
  imports : list ImportInfo;
  importedBy : list string;
  fileIsNodeModule : bool          (* the field [isNodeModule] of FileNode *)
}.

(** [Map<string, FileNode>], in insertion order. *)
Definition FileMap : Type := list (string * FileNode).

Record ImportMap : Type := {
  files : FileMap;
  entryFile : option string
}.

(** How a call ends. *)
Inductive Outcome (A : Type) : Type :=
| Returned (a : A)
| Thrown.
Arguments Returned {A} a.
Arguments Thrown {A}.

(** *** Map operations *)

Fixpoint mapGet {V} (m : list (string * V)) (k : string) : option V :=
  match m with
  | [] => None
  | (k', v) :: m' => if String.eqb k' k then Some v else mapGet m' k
  end.

Definition mapHas {V} (m : list (string * V)) (k : string) : bool :=
  match mapGet m k with Some _ => true | None => false end.

(** [m.set(k, v)]: an existing key keeps its place. *)
Fixpoint mapSet {V} (m : list (string * V)) (k : string) (v : V) : list (string * V) :=
  match m with
  | [] => [(k, v)]
  | (k', v') :: m' =>
      if String.eqb k' k then (k, v) :: m' else (k', v') :: mapSet m' k v
  end.

(** An update in place of the object stored under [k]. *)
Fixpoint mapAlter {V} (f : V -> V) (m : list (string * V)) (k : string) : list (string * V) :=
  match m with
  | [] => []
  | (k', v') :: m' =>
      if String.eqb k' k then (k', f v') :: m' else (k', v') :: mapAlter f m' k
  end.

Definition mapKeys {V} (m : list (string * V)) : list string := map fst m.

(** [node.importedBy.push(p)] *)
Definition pushImportedBy (p : string) (node : FileNode) : FileNode :=
  {| path := path node; name := name node; imports := imports node;
     importedBy := importedBy node ++ [p];
     fileIsNodeModule := fileIsNodeModule node |}.

(** The condition of both passes on an import: it is internal and has a
    truthy resolved path. *)
Definition isResolvedInternal (i : ImportInfo) : bool :=
  negb (isNodeModule i) && Js.truthy (resolvedPath i).

(** [!imp.isNodeModule && imp.resolvedPath === p] *)
Definition resolvesTo (p : string) (i : ImportInfo) : bool :=
  negb (isNodeModule i) &&
  match resolvedPath i with Some r => String.eqb r p | None => false end.

(** *** The fields of the analyzer *)

Inductive ProjectType : Type :=
| TYPESCRIPT
| JAVASCRIPT_COMMONJS
| JAVASCRIPT_ES6
| MIXED.

Record State : Type := {
  supportedExtensions : list string;
  projectType : ProjectType;
  gitignoreParser : option Gitignore.GitignoreParser;
  projectRoot : string;
  nuxtSrcDir : string
}.

(** *** Patterns of [extractImportsWithRegex] *)

Import Regex.

Definition ws : re := star space.
Definition ws1 : re := plus space.

(** The argument of a call: an opening parenthesis, the quoted source as
    group 1 and a closing parenthesis, with optional white space. *)
Definition callArgument : re :=
  seq [lit "("; ws; quote; source_group 1; quote; ws; lit ")"].

Definition importPatterns : list re := [
  (* import { utils } from './utils' *)
  seq [lit "import"; ws; lit "{"; ws; Grp 1 (star (none_of ["}"%char])); ws; lit "}";
       ws; lit "from"; ws; quote; source_group 2; quote];
  (* import * as fs from 'fs' *)
  seq [lit "import"; ws; lit "*"; ws; lit "as"; ws1; Grp 1 (plus word); ws1;
       lit "from"; ws; quote; source_group 2; quote];
  (* import express from 'express' *)
  seq [lit "import"; ws1; Grp 1 (plus word); ws1; lit "from"; ws; quote;
       source_group 2; quote];
  (* import './style.css' *)
  seq [lit "import"; ws; quote; source_group 1; quote]
].

(** Each pattern with the value of [pattern.source.includes('require')]. *)
Definition dynamicImportPatterns : list (re * bool) := [
  (* () => import('~/components/common/empty-data.vue') *)
  (seq [lit "("; ws; lit ")"; ws; lit "=>"; ws; lit "import"; ws; callArgument], false);
  (* import('~/path') *)
  (seq [lit "import"; ws; callArgument], false);
  (* require('~/assets/images/common/no-data.png') *)
  (seq [lit "require"; ws; callArgument], true)
].

Definition requirePattern : re :=
  seq [Alt (seq [Alt (lit "const") (Alt (lit "let") (lit "var")); ws1; star_lazy dot])
           (seq [plus (fun a => word a || one_of ["$"%char; "_"%char] a); ws]);
       lit "="; ws; lit "require"; ws; callArgument].

(** [match[2] || match[1]] *)
Definition sourceOfMatch (c : caps) : string :=
  match Js.or (group 2 c) (group 1 c) with
  | Some s => s
  | None => ""
  end.

(** [match[1]] *)
Definition firstGroup (c : caps) : string :=
  match group 1 c with Some s => s | None => "" end.

(** *** [extractVueScriptContent] *)

Definition scriptOpen : re :=
  seq [lit_ci "<script"; star (none_of [">"%char]); lit ">"].
Definition scriptClose : re := lit_ci "</script>".
Definition scriptPattern : re :=
  seq [scriptOpen; Grp 1 (star_lazy any); scriptClose].

Definition extractVueScriptContent (content : string) : string :=
  match exec_all scriptPattern content with
  | [] => ""
  | matches =>
      Js.join (String "010"%char "")
        (map (fun m => replace_all (Alt scriptOpen scriptClose) "" (snd m)) matches)
  end.

(** *** [parseNuxtSrcDir] *)

Definition srcDirPattern (open close : re) (inside : cls) : re :=
  seq [lit "srcDir"; ws; lit ":"; ws; open; Grp 1 (plus inside); close].

Definition srcDirPatterns : list re := [
  srcDirPattern quote quote (none_of quotes);
  srcDirPattern (lit "'") (lit "'") (none_of ["'"%char]);
  srcDirPattern (Chr (chr_is "034"%char)) (Chr (chr_is "034"%char)) (none_of ["034"%char]);
  srcDirPattern (lit "`") (lit "`") (none_of ["`"%char])
].

(** The three clean-up replacements. In the second, [.*$] with the [m]
    flag runs to the end of the line: [.] stops exactly where [$] holds. *)
Definition cleanContent (content : string) : string :=
  let s := replace_all (seq [lit "/*"; star_lazy any; lit "*/"]) "" content in
  let s := replace_all (seq [lit "//"; star dot]) "" s in
  replace_all ws1 " " s.

Fixpoint firstSrcDir (patterns : list re) (clean : string) : option string :=
  match patterns with
  | [] => None
  | p :: rest =>
      match exec_all p clean with
      | (c, _) :: _ =>
          match group 1 c with
          | Some (String _ _ as g) =>
              let srcDir := Js.trim g in
              let srcDir := if Js.endsWith srcDir "/" then Js.dropLast srcDir else srcDir in
              if String.eqb srcDir "" || String.eqb srcDir "./" then Some "."
              else Some srcDir
          | _ => firstSrcDir rest clean
          end
      | [] => firstSrcDir rest clean
      end
  end.

Definition parseNuxtSrcDir (content : string) : option string :=
  firstSrcDir srcDirPatterns (cleanContent content).

(** *** Project type *)

Definition shouldIgnoreDirectory (dirName : string) : bool :=
  existsb (String.eqb dirName)
          ["node_modules"; ".git"; "dist"; "build"; "out"; ".vscode"; ".next"]
  || Js.startsWith dirName ".".

Definition getSupportedExtensions (projectType : ProjectType) : list string :=
  let baseExtensions := [".vue"; ".svelte"] in
  match projectType with
  | TYPESCRIPT => [".ts"; ".tsx"] ++ baseExtensions
  | JAVASCRIPT_COMMONJS | JAVASCRIPT_ES6 => [".js"; ".jsx"] ++ baseExtensions
  | MIXED => [".js"; ".jsx"; ".ts"; ".tsx"] ++ baseExtensions
  end.

Record FileStats : Type := {
  tsFiles : nat;
  jsFiles : nat;
  vueFiles : nat;
  svelteFiles : nat
}.

(** The body of [countFiles] for an entry that is a file. *)
Definition countFile (name : string) (stats : FileStats) : FileStats :=
  if Js.endsWith name ".ts" || Js.endsWith name ".tsx" then
    {| tsFiles := S (tsFiles stats); jsFiles := jsFiles stats;
       vueFiles := vueFiles stats; svelteFiles := svelteFiles stats |}
  else if Js.endsWith name ".js" || Js.endsWith name ".jsx" then
    {| tsFiles := tsFiles stats; jsFiles := S (jsFiles stats);
       vueFiles := vueFiles stats; svelteFiles := svelteFiles stats |}
  else if Js.endsWith name ".vue" then
    {| tsFiles := tsFiles stats; jsFiles := jsFiles stats;
       vueFiles := S (vueFiles stats); svelteFiles := svelteFiles stats |}
  else if Js.endsWith name ".svelte" then
    {| tsFiles := tsFiles stats; jsFiles := jsFiles stats;
       vueFiles := vueFiles stats; svelteFiles := S (svelteFiles stats) |}
  else stats.

(** A directory entry's own listing, nothing when reading it throws. *)
Definition listingOf (readable : bool) (entries : list (string * Dirent))
  : option (list (string * Dirent)) :=
  if readable then Some entries else None.

(** [countFiles(dir, depth)] of [analyzeFileDistribution]: [levels] is
    [4 - depth], the listing is that of [dir], and a listing that cannot
    be read is skipped. *)
Fixpoint countFiles (levels : nat) (listing : option (list (string * Dirent)))
         (stats : FileStats) : FileStats :=
  match levels with
  | O => stats
  | S levels' =>
      match listing with
      | None => stats
      | Some entries =>
          fold_left (fun stats '(name, entry) =>
              match entry with
              | DirentDirectory readable sub =>
                  if shouldIgnoreDirectory name then stats
                  else countFiles levels' (listingOf readable sub) stats
              | DirentFile => countFile name stats
              | DirentOther => stats
              end)
            entries stats
      end
  end.

Record ModuleCounts : Type := {
  requireCount : nat;
  importCount : nat;
  filesChecked : nat
}.

(** The patterns [require\s*\(] and [import\s+]. *)
Definition requireCall : re := seq [lit "require"; ws; lit "("].
Definition importWord : re := seq [lit "import"; ws1].

Section WithHost.
Context `{PathApi} `{FileSystem} `{Json}.

(** *** [detectProjectType] *)

Definition analyzeFileDistribution (projectRoot : string) : FileStats :=
  countFiles 4 (fs_readdir projectRoot)
    {| tsFiles := 0; jsFiles := 0; vueFiles := 0; svelteFiles := 0 |}.

(** The body of [checkFiles] for a JavaScript file: nothing changes
    when the file cannot be read. *)
Definition checkFile (fullPath : string) (counts : ModuleCounts) : ModuleCounts :=
  match readFileSync fullPath with
  | Some content =>
      {| requireCount := requireCount counts + length (exec_all requireCall content);
         importCount := importCount counts + length (exec_all importWord content);
         filesChecked := S (filesChecked counts) |}
  | None => counts
  end.

(** [checkFiles(dir, depth)] of [detectJavaScriptModuleType]: [levels]
    is [3 - depth]. Once more than 20 files are checked the loop breaks,
    which leaves the counts as they are. *)
Fixpoint checkFiles (levels : nat) (dir : string)
         (listing : option (list (string * Dirent))) (counts : ModuleCounts) : ModuleCounts :=
  match levels with
  | O => counts
  | S levels' =>
      if Nat.ltb 20 (filesChecked counts) then counts
      else
        match listing with
        | None => counts
        | Some entries =>
            fold_left (fun counts '(name, entry) =>
                if Nat.ltb 20 (filesChecked counts) then counts
                else
                  let fullPath := path_join [dir; name] in
                  match entry with
                  | DirentDirectory readable sub =>
                      if negb (shouldIgnoreDirectory name) then
                        checkFiles levels' fullPath (listingOf readable sub) counts
                      else counts
                  | DirentFile =>
                      if Js.endsWith name ".js" || Js.endsWith name ".jsx" then
                        checkFile fullPath counts
                      else counts
                  | DirentOther => counts
                  end)
              entries counts
        end
  end.

Definition detectJavaScriptModuleType (projectRoot : string) : ProjectType :=
  let counts :=
    checkFiles 3 projectRoot (fs_readdir projectRoot)
      {| requireCount := 0; importCount := 0; filesChecked := 0 |} in
  if Nat.ltb (importCount counts * 2) (requireCount counts) then JAVASCRIPT_COMMONJS
  else if Nat.ltb (requireCount counts * 2) (importCount counts) then JAVASCRIPT_ES6
  else MIXED.

Definition detectProjectType (projectRoot : string) : ProjectType :=
  let packageJsonPath := path_join [projectRoot; "package.json"] in
  let tsconfigPath := path_join [projectRoot; "tsconfig.json"] in
  let hasTypeScript := existsSync tsconfigPath in
  let hasTypeScriptDeps :=
    if existsSync packageJsonPath then
      match readFileSync packageJsonPath with
      | Some packageJson => namesTypeScript packageJson
      | None => false
      end
    else false in
  let fileStats := analyzeFileDistribution projectRoot in
  let hasTs := Nat.ltb 0 (tsFiles fileStats) in
  let hasJs := Nat.ltb 0 (jsFiles fileStats) in
  if (hasTypeScript || hasTypeScriptDeps) && hasTs then
    if hasJs then MIXED else TYPESCRIPT
  else if (hasTypeScript || hasTypeScriptDeps) && hasJs then TYPESCRIPT
  else if hasTs && hasJs then MIXED
  else if hasTs && negb hasJs then TYPESCRIPT
  else if hasJs then detectJavaScriptModuleType projectRoot
  else MIXED.

(** *** [detectNuxtSrcDir] *)

Definition nuxtConfigFiles : list string :=
  ["nuxt.config.ts"; "nuxt.config.js"; "nuxt.config.mjs"].

Fixpoint srcDirFromConfigs (projectRoot : string) (configFiles : list string) : option string :=
  match configFiles with
  | [] => None
  | configFile :: rest =>
      let configPath := path_join [projectRoot; configFile] in
      if existsSync configPath then
        match readFileSync configPath with
        | Some content =>
            match parseNuxtSrcDir content with
            | Some srcDir => Some srcDir
            | None => srcDirFromConfigs projectRoot rest
            end
        | None => srcDirFromConfigs projectRoot rest
        end
      else srcDirFromConfigs projectRoot rest
  end.

Definition detectNuxtSrcDir (projectRoot : string) : string :=
  match srcDirFromConfigs projectRoot nuxtConfigFiles with
  | Some srcDir => srcDir
  | None =>
      let srcPath := path_join [projectRoot; "src"] in
      if existsSync srcPath && statIsDirectory srcPath then "src" else "."
  end.

(** The set-up that opens both [analyzeProject] and [analyzeFile]. *)
Definition initialize (root : string) : State :=
  let projectType := detectProjectType root in
  {| supportedExtensions := getSupportedExtensions projectType;
     projectType := projectType;
     gitignoreParser := Some (Gitignore.loadGitignore root);
     projectRoot := root;
     nuxtSrcDir := detectNuxtSrcDir root |}.

(** *** Module resolution *)

Definition extensions : list string :=
  [""; ".ts"; ".js"; ".tsx"; ".jsx"; ".vue"; ".svelte"].

(** [this.gitignoreParser && this.gitignoreParser.shouldIgnore(p)] *)
Definition ignored (st : State) (p : string) : bool :=
  match gitignoreParser st with
  | Some g => Gitignore.shouldIgnore g p
  | None => false
  end.

(** The candidates of the two loops of [resolveFilePath], in order. *)
Definition fileCandidates (filePath : string) : list string :=
  map (fun ext => filePath +:+ ext) extensions.

Definition indexCandidates (filePath : string) : list string :=
  map (fun ext => path_join [filePath; "index" +:+ ext]) (tl extensions).

Definition acceptsFile (st : State) (fullPath : string) : bool :=
  existsSync fullPath && statIsFile fullPath && negb (ignored st fullPath).

Definition acceptsIndex (st : State) (indexPath : string) : bool :=
  existsSync indexPath && negb (ignored st indexPath).

Definition resolveFilePath (st : State) (filePath : string) : string :=
  match find (acceptsFile st) (fileCandidates filePath) with
  | Some fullPath => fullPath
  | None =>
      match find (acceptsIndex st) (indexCandidates filePath) with
      | Some indexPath => indexPath
      | None => filePath
      end
  end.

Definition isProjectAlias (source : string) : bool :=
  Js.startsWith source "@/" || Js.startsWith source "~/"
  || Js.startsWith source "~~/" || Js.startsWith source "#app/"
  || Js.startsWith source "#imports" || Js.startsWith source "#components/".

Definition resolveProjectAlias (st : State) (source projectRoot : string) : option string :=
  if Js.startsWith source "@/" then
    let withoutAlias := Js.drop 2 source in
    let srcPath := path_join [projectRoot; nuxtSrcDir st; withoutAlias] in
    let aliasPath :=
      if existsSync srcPath || existsSync (path_dirname srcPath) then srcPath
      else path_join [projectRoot; withoutAlias] in
    Some (resolveFilePath st aliasPath)
  else if Js.startsWith source "~/" || Js.startsWith source "~~/" then
    let withoutAlias :=
      if Js.startsWith source "~~/" then Js.drop 3 source else Js.drop 2 source in
    Some (resolveFilePath st (path_join [projectRoot; nuxtSrcDir st; withoutAlias]))
  else if Js.startsWith source "#app/" || Js.startsWith source "#imports"
          || Js.startsWith source "#components/" then
    let withoutAlias :=
      match Js.indexOf "/"%char source with
      | Some i => Js.drop (i + 1) source
      | None => source
      end in
    Some (resolveFilePath st (path_join [projectRoot; nuxtSrcDir st; withoutAlias]))
  else None.

Definition createImportInfo (st : State) (source fileDir projectRoot : string)
           (type : ImportType) : ImportInfo :=
  let isProjectAlias := isProjectAlias source in
  let isNodeModule :=
    negb (Js.startsWith source ".") && negb (path_isAbsolute source)
    && negb isProjectAlias in
  let resolvedPath :=
    if negb isNodeModule then
      if isProjectAlias then resolveProjectAlias st source projectRoot
      else Some (resolveFilePath st (path_resolve fileDir source))
    else None in
  {| source := source; type := type; isNodeModule := isNodeModule;
     resolvedPath := resolvedPath; importedNames := None |}.

(** *** Extraction *)

Definition extractImportsWithRegex (st : State) (content fileDir projectRoot : string)
  : list ImportInfo :=
  flat_map (fun pattern =>
      map (fun m => createImportInfo st (sourceOfMatch (fst m)) fileDir projectRoot TImport)
          (exec_all pattern content))
    importPatterns
  ++ flat_map (fun '(pattern, mentionsRequire) =>
      map (fun m => createImportInfo st (firstGroup (fst m)) fileDir projectRoot
                      (if mentionsRequire : bool then TRequire else TDynamicImport))
          (exec_all pattern content))
    dynamicImportPatterns
  ++ map (fun m => createImportInfo st (firstGroup (fst m)) fileDir projectRoot TRequire)
         (exec_all requirePattern content).

Definition extractImports (st : State) (content filePath projectRoot : string)
  : list ImportInfo :=
  let fileDir := path_dirname filePath in
  let scriptContent :=
    if Js.endsWith filePath ".vue" then extractVueScriptContent content else content in
  extractImportsWithRegex st scriptContent fileDir projectRoot.

(** [analyzeFileContent]: nothing when the read throws. *)
Definition analyzeFileContent (st : State) (filePath projectRoot : string) : option FileNode :=
  match readFileSync filePath with
  | Some content =>
      Some {| path := filePath;
              name := path_basename filePath;
              imports := extractImports st content filePath projectRoot;
              importedBy := [];
              fileIsNodeModule := false |}
  | None => None
  end.

(** *** The directory scan *)

Definition isSupportedFile (st : State) (filePath : string) : bool :=
  existsb (Js.endsWith filePath) (supportedExtensions st).

Definition isCompiledFile (st : State) (filePath : string) : bool :=
  let typed :=
    match projectType st with
    | TYPESCRIPT | MIXED => true
    | _ => false
    end in
  if typed && Js.endsWith filePath ".js"
     && (existsSync (Js.replaceFirst ".js" ".ts" filePath)
         || existsSync (Js.replaceFirst ".js" ".tsx" filePath)) then true
  else if typed && Js.endsWith filePath ".jsx"
          && existsSync (Js.replaceFirst ".jsx" ".tsx" filePath) then true
  else
    let relativePath := path_relative (projectRoot st) filePath in
    existsb (Js.startsWith relativePath)
            ["dist/"; "build/"; "out/"; "lib/"; ".next/"; "coverage/"].

(** The files found one after the other, nothing when a call threw. *)
Fixpoint concatFound (results : list (option (list string))) : option (list string) :=
  match results with
  | [] => Some []
  | None :: _ => None
  | Some found :: rest =>
      match concatFound rest with
      | Some more => Some (found ++ more)
      | None => None
      end
  end.

(** The body of the loop of [getAllFiles(dir)] for the entry [name]:
    the files it adds, nothing when listing a directory below throws. *)
Fixpoint scanEntry (st : State) (dir : string) (entry : Dirent) (name : string)
  : option (list string) :=
  let fullPath := path_join [dir; name] in
  if ignored st fullPath then Some []
  else
    match entry with
    | DirentDirectory readable entries =>
        if negb (shouldIgnoreDirectory name) then
          if readable then
            concatFound (map (fun '(n, e) => scanEntry st fullPath e n) entries)
          else None
        else Some []
    | DirentFile =>
        if isSupportedFile st fullPath && negb (isCompiledFile st fullPath)
        then Some [fullPath] else Some []
    | DirentOther => Some []
    end.

(** [this.getAllFiles(dir)]; nothing when [readdirSync] throws. *)
Definition getAllFiles (st : State) (dir : string) : option (list string) :=
  match fs_readdir dir with
  | Some entries => concatFound (map (fun '(n, e) => scanEntry st dir e n) entries)
  | None => None
  end.

(** *** [analyzeProject] *)

(** First pass: one record per file that can be analyzed. *)
Definition firstPass (st : State) (projectRoot : string) (allFiles : list string) : FileMap :=
  fold_left (fun files filePath =>
      match analyzeFileContent st filePath projectRoot with
      | Some fileNode => mapSet files filePath fileNode
      | None => files
      end)
    allFiles [].

(** The body of the inner loop of the second pass. *)
Definition recordImport (filePath : string) (files : FileMap) (importInfo : ImportInfo) : FileMap :=
  if isResolvedInternal importInfo then
    match resolvedPath importInfo with
    | Some target =>
        if mapHas files target then mapAlter (pushImportedBy filePath) files target
        else files
    | None => files
    end
  else files.

(** Second pass. The loop visits the entries of [files] while their
    [importedBy] arrays grow; keys and [imports] never change, so the
    entries to visit are those of the map as the pass starts. *)
Definition secondPass (files : FileMap) : FileMap :=
  fold_left (fun acc '(filePath, fileNode) =>
      fold_left (recordImport filePath) (imports fileNode) acc)
    files files.

Definition analyzeProject (projectRoot : string) : Outcome ImportMap :=
  let st := initialize projectRoot in
  match getAllFiles st projectRoot with
  | None => Thrown
  | Some allFiles =>
      Returned {| files := secondPass (firstPass st projectRoot allFiles);
                  entryFile := None |}
  end.

(** *** [analyzeFile] *)

(** Step 2, one scanned file: keep it when it imports the entry file. *)
Definition addImporter (st : State) (filePath projectRoot : string)
           (files : FileMap) (projectFilePath : string) : FileMap :=
  if String.eqb projectFilePath filePath || mapHas files projectFilePath then files
  else
    match analyzeFileContent st projectFilePath projectRoot with
    | None => files
    | Some projectFileNode =>
        if existsb (resolvesTo filePath) (imports projectFileNode) then
          mapAlter (pushImportedBy projectFilePath)
                   (mapSet files projectFilePath projectFileNode) filePath
        else files
    end.

(** Step 3, one import of the entry file: add the file it resolves to. *)
Definition addDependency (st : State) (filePath projectRoot : string)
           (files : FileMap) (importInfo : ImportInfo) : FileMap :=
  if isResolvedInternal importInfo then
    match resolvedPath importInfo with
    | Some target =>
        if mapHas files target then files
        else
          match analyzeFileContent st target projectRoot with
          | Some dependencyNode =>
              mapSet files target (pushImportedBy filePath dependencyNode)
          | None => files
          end
    | None => files
    end
  else files.

Definition analyzeFile (filePath projectRoot : string) : Outcome ImportMap :=
  let st := initialize projectRoot in
  match analyzeFileContent st filePath projectRoot with
  | None => Returned {| files := []; entryFile := Some filePath |}
  | Some currentFileNode =>
      let files := mapSet [] filePath currentFileNode in
      match getAllFiles st projectRoot with
      | None => Thrown
      | Some allProjectFiles =>
          let files := fold_left (addImporter st filePath projectRoot) allProjectFiles files in
          let files := fold_left (addDependency st filePath projectRoot)
                                 (imports currentFileNode) files in
          Returned {| files := files; entryFile := Some filePath |}
      end
  end.

End WithHost.

End Analyzer.

(* ================================================================= *)
(** ** ImportMapPanel: conversion to nodes and edges *)

Module Panel.

Import Analyzer.

(** A coordinate of a node in the webview: not yet assigned, assigned
    the result of an undefined operation, or a number. *)
Inductive coord : Type :=
| Undefined
| NotANumber
| Num (q : Q).

Record VisualizationNode : Type := {
  id : string;
  label : string;
  nodePath : string;                 (* the field [path] *)
  nodeIsNodeModule : bool;           (* the field [isNodeModule] *)
  isCurrentFile : option bool;
  x : coord;
  y : coord
}.

Record VisualizationEdge : Type := {
  from : string;
  to : string;
  edgeType : ImportType              (* the field [type] *)
}.

(** The three accumulators of [convertToVisualizationData]. *)
Record Conversion : Type := {
  nodes : list VisualizationNode;
  edges : list VisualizationEdge;
  nodeIds : gset string
}.

Definition moduleIdOf (source : string) : string := "node_module:" +:+ source.

Section Convert.
Context `{PathApi}.

(** Step 1, one entry of [importMap.files]. *)
Definition addFileNode (currentFile : option string) (acc : Conversion)
           (entry : string * FileNode) : Conversion :=
  let '(filePath, fileNode) := entry in
  let nodeId := filePath in
  let isCurrent :=
    match currentFile with Some c => String.eqb c filePath | None => false end in
  {| nodes := nodes acc ++
       [{| id := nodeId; label := path_basename (name fileNode); nodePath := filePath;
           nodeIsNodeModule := false; isCurrentFile := Some isCurrent;
           x := Undefined; y := Undefined |}];
     edges := edges acc;
     nodeIds := {[nodeId]} ∪ nodeIds acc |}.

(** Step 2, one import of the file [nodeId]. *)
Definition addImportEdge (importMap : ImportMap) (isProjectMode isCurrent : bool)
           (nodeId : string) (acc : Conversion) (importInfo : ImportInfo) : Conversion :=
  if isNodeModule importInfo && (isProjectMode || isCurrent) then
    let moduleId := moduleIdOf (source importInfo) in
    let acc' :=
      if bool_decide (moduleId ∈ nodeIds acc) then acc
      else {| nodes := nodes acc ++
                [{| id := moduleId; label := source importInfo;
                    nodePath := source importInfo; nodeIsNodeModule := true;
                    isCurrentFile := None; x := Undefined; y := Undefined |}];
              edges := edges acc;
              nodeIds := {[moduleId]} ∪ nodeIds acc |} in
    {| nodes := nodes acc';
       edges := edges acc' ++
         [{| from := moduleId; to := nodeId; edgeType := type importInfo |}];
       nodeIds := nodeIds acc' |}
  else
    match resolvedPath importInfo with
    | Some target =>
        if Js.nonempty target && mapHas (files importMap) target then
          {| nodes := nodes acc;
             edges := edges acc ++
               [{| from := target; to := nodeId; edgeType := type importInfo |}];
             nodeIds := nodeIds acc |}
        else acc
    | None => acc
    end.

Definition addFileEdges (importMap : ImportMap) (currentFile : option string)
           (isProjectMode : bool) (acc : Conversion) (entry : string * FileNode) : Conversion :=
  let '(filePath, fileNode) := entry in
  let isCurrent :=
    match currentFile with Some c => String.eqb c filePath | None => false end in
  fold_left (addImportEdge importMap isProjectMode isCurrent filePath)
            (imports fileNode) acc.

Definition convertToVisualizationData (importMap : ImportMap)
           (currentFile : option string) (isProjectMode : bool) : Conversion :=
  let start := {| nodes := []; edges := []; nodeIds := ∅ |} in
  let withNodes := fold_left (addFileNode currentFile) (files importMap) start in
  fold_left (addFileEdges importMap currentFile isProjectMode) (files importMap) withNodes.

End Convert.

End Panel.

(* ================================================================= *)
(** ** The webview script: node sizes, saved positions and layout *)

Module Layout.

Export Panel (coord(..)).

Record Size : Type := { width : Q; height : Q }.

(** A node object of the webview script, with the fields the layout
    reads and writes. *)
Record Node : Type := {
  id : string;
  label : string;
  isCurrentFile : bool;              (* truthiness of [isCurrentFile] *)
  size : option Size;
  x : coord;
  y : coord
}.

(** A node as it arrives in the page, before sizes and positions. *)
Definition ofVisualizationNode (n : Panel.VisualizationNode) : Node :=
  {| id := Panel.id n; label := Panel.label n;
     isCurrentFile := match Panel.isCurrentFile n with Some b => b | None => false end;
     size := None; x := Panel.x n; y := Panel.y n |}.

Definition setPosition (n : Node) (nx ny : coord) : Node :=
  {| id := id n; label := label n; isCurrentFile := isCurrentFile n;
     size := size n; x := nx; y := ny |}.

Definition setSize (n : Node) (s : Size) : Node :=
  {| id := id n; label := label n; isCurrentFile := isCurrentFile n;
     size := Some s; x := x n; y := y n |}.

(** What the layout never writes. *)
Definition static (n : Node) : string * string * bool * option Size :=
  (id n, label n, isCurrentFile n, size n).

Definition position (n : Node) : coord * coord := (x n, y n).

(** A saved position, [{ x, y }]. *)
Record Position : Type := { px : coord; py : coord }.

(** The item of [localStorage] under the key of the page: text that
    does not parse, or the saved object from node ids to positions. *)
Inductive SavedData : Type :=
| Malformed
| SavedPositions (positions : gmap string Position).

(** [a < b] on numbers. *)
Definition Qltb (a b : Q) : bool := negb (Qle_bool b a).

(** [Math.max(a, b)] *)
Definition Qmaxb (a b : Q) : Q := if Qle_bool a b then b else a.

Definition MIN_NODE_WIDTH : Q := 60.
Definition MIN_NODE_HEIGHT : Q := 30.
Definition NODE_PADDING : Q := 20.

(** [matchPercentage < 0.7] for [matchPercentage = shared / larger]. The
    quotient of two counts and the literal are compared exactly; for
    counts below 10^14 the comparison of their doubles agrees with it.
    With [larger = 0] the quotient is not a number and nothing is below. *)
Definition belowThreshold (shared larger : nat) : bool :=
  match larger with
  | O => false
  | _ => Qltb (Z.of_nat shared # Pos.of_nat larger) (7 # 10)
  end.

Definition restorePosition (positions : gmap string Position) (node : Node) : Node :=
  match positions !! id node with
  | Some p => setPosition node (px p) (py p)
  | None => node
  end.

(** [loadNodePositions]: its result, the nodes and the stored item
    afterwards. *)
Definition loadNodePositions (nodes : list Node) (storage : option SavedData)
  : bool * list Node * option SavedData :=
  match storage with
  | Some (SavedPositions positions) =>
      let currentNodeIds : gset string := list_to_set (map id nodes) in
      let savedNodeIds : gset string := dom positions in
      let intersection :=
        filter (fun i => i ∈ savedNodeIds) (elements currentNodeIds) in
      if belowThreshold (length intersection)
                        (Nat.max (base.size currentNodeIds) (base.size savedNodeIds)) then
        (false, nodes, None)
      else
        let restored :=
          length (filter (fun n => is_Some (positions !! id n)) nodes) in
        (Nat.ltb 0 restored, map (restorePosition positions) nodes, storage)
  | Some Malformed => (false, nodes, storage)
  | None => (false, nodes, storage)
  end.

Section WithCanvas.
Local Open Scope Q_scope.

(** [ctx.measureText(text).width] under the label font, the
    trigonometric functions of [Math], and the canvas. *)
Variable measureText : string -> Q.
Variables cos sin : Q -> Q.
Variable PI : Q.
Variables canvasWidth canvasHeight devicePixelRatio : Q.

Definition calculateNodeSize (text : string) : Size :=
  {| width := Qmaxb MIN_NODE_WIDTH (measureText text + NODE_PADDING * 2);
     height := MIN_NODE_HEIGHT |}.

(** [node.size || calculateNodeSize(node.label)] *)
Definition sizeOf (node : Node) : Size :=
  match size node with
  | Some s => s
  | None => calculateNodeSize (label node)
  end.

(** The test of [nodesOverlap] on two centres. *)
Definition centresOverlap (s1 s2 : Size) (x1 y1 x2 y2 : Q) : bool :=
  let halfWidth1 := width s1 / 2 in
  let halfHeight1 := height s1 / 2 in
  let halfWidth2 := width s2 / 2 in
  let halfHeight2 := height s2 / 2 in
  let dx := Qabs (x1 - x2) in
  let dy := Qabs (y1 - y2) in
  Qltb dx (halfWidth1 + halfWidth2 + 20) && Qltb dy (halfHeight1 + halfHeight2 + 20).

(** [nodesOverlap]: a comparison with a coordinate that is not a number
    is false. *)
Definition nodesOverlap (node1 node2 : Node) : bool :=
  match x node1, y node1, x node2, y node2 with
  | Num x1, Num y1, Num x2, Num y2 =>
      centresOverlap (sizeOf node1) (sizeOf node2) x1 y1 x2 y2
  | _, _, _, _ => false
  end.

Definition centerX : Q := canvasWidth / (2 * devicePixelRatio).
Definition centerY : Q := canvasHeight / (2 * devicePixelRatio).
Definition margin : Q := 100.
Definition minDistance : Q := 150.
Definition spiralStep : Q := 30.

Definition ofNat (n : nat) : Q := inject_Z (Z.of_nat n).

(** The slots of a layer, [Math.ceil(8 + layer * 2)]. *)
Definition slots (layer : nat) : nat := (8 + layer * 2)%nat.

(** The position tried for the node of rank [index] on [layer]. *)
Definition spiralPosition (index layer : nat) : Q * Q :=
  let angleStep := (2 * PI) / ofNat (Nat.max 8%nat (slots layer)) in
  let angle := ofNat (index mod slots layer)%nat * angleStep + ofNat layer * (1 # 2) in
  let distance := minDistance + ofNat layer * spiralStep in
  (centerX + cos angle * distance, centerY + sin angle * distance).

Definition outOfBounds (nodeSize : Size) (px py : Q) : bool :=
  Qltb (px - width nodeSize / 2) margin
  || Qltb (centerX * 2 - margin) (px + width nodeSize / 2)
  || Qltb (py - height nodeSize / 2) margin
  || Qltb (centerY * 2 - margin) (py + height nodeSize / 2).

Definition defined (c : coord) : bool :=
  match c with Undefined => false | _ => true end.

(** The collision checks of one attempt: against the current node, then
    against the nodes placed before. *)
Definition collides (node currentNode : Node) (placed : list Node) : bool :=
  nodesOverlap node currentNode
  || existsb (fun otherNode =>
        defined (x otherNode) && defined (y otherNode) && nodesOverlap node otherNode)
      placed.

(** The [while] loop of one node: [fuel] bounds the iterations, of which
    there are at most 100. The result is the valid position, if one was
    found. *)
Fixpoint spiralSearch (fuel attempts layer : nat) (node currentNode : Node)
         (index : nat) (placed : list Node) : option (Q * Q) :=
  match fuel with
  | O => None
  | S fuel' =>
      if Nat.ltb attempts 100%nat then
        let '(px, py) := spiralPosition index layer in
        if outOfBounds (sizeOf node) px py then
          spiralSearch fuel' (S attempts) (S layer) node currentNode index placed
        else if collides (setPosition node (Num px) (Num py)) currentNode placed then
          spiralSearch fuel' (S attempts)
            (if Nat.eqb (attempts mod 8)%nat 7 then S layer else layer)
            node currentNode index placed
        else Some (px, py)
      else None
  end.

Definition fallbackPosition (index total : nat) : Q * Q :=
  let fallbackAngle := (ofNat index / ofNat total) * 2 * PI in
  let fallbackDistance := minDistance + ofNat (index / 8)%nat * spiralStep in
  (centerX + cos fallbackAngle * fallbackDistance,
   centerY + sin fallbackAngle * fallbackDistance).

(** The body of [otherNodes.forEach]: the node with its position, and
    whether the position is a valid one rather than the fallback. *)
Definition placeNode (currentNode : Node) (total index : nat) (placed : list Node)
           (node : Node) : Node * bool :=
  match spiralSearch 100%nat 0%nat 0%nat node currentNode index placed with
  | Some (px, py) => (setPosition node (Num px) (Num py), true)
  | None =>
      let '(px, py) := fallbackPosition index total in
      (setPosition node (Num px) (Num py), false)
  end.

(** [otherNodes.forEach], from rank [index] on; [placed] are the nodes
    of lower rank. *)
Fixpoint placeOthers (currentNode : Node) (total index : nat)
         (placed : list (Node * bool)) (todo : list Node) : list (Node * bool) :=
  match todo with
  | [] => placed
  | node :: rest =>
      placeOthers currentNode total (S index)
        (placed ++ [placeNode currentNode total index (map fst placed) node]) rest
  end.

(** The objects of [otherNodes] are those of [nodes]: the positions are
    read back in the order of [nodes]. Only the first current-file node
    is the one placed at the centre. *)
Fixpoint writeBack (nodes : list Node) (centred : bool) (others : list Node) : list Node :=
  match nodes with
  | [] => []
  | node :: rest =>
      if isCurrentFile node then
        (if centred then node else setPosition node (Num centerX) (Num centerY))
        :: writeBack rest true others
      else
        match others with
        | placed :: others' => placed :: writeBack rest centred others'
        | [] => node :: writeBack rest centred []
        end
  end.

(** The spiral branch, with the validity of each placement. *)
Definition spiralPlacements (nodes : list Node) (currentNode : Node) : list (Node * bool) :=
  let currentNode := setPosition currentNode (Num centerX) (Num centerY) in
  let otherNodes := filter (fun n => isCurrentFile n = false) nodes in
  placeOthers currentNode (length otherNodes) 0%nat [] otherNodes.

Definition spiralLayout (nodes : list Node) (currentNode : Node) : list Node :=
  writeBack nodes false (map fst (spiralPlacements nodes currentNode)).

(** The grid branch. With no column the column index is not a number
    and the row is infinite (not a number for the first node). *)
Definition gridPosition (index : nat) : coord * coord :=
  let maxX := centerX * 2 - margin in
  let maxY := centerY * 2 - margin in
  let cols := Qfloor ((maxX - margin * 2) / 150) in
  if Z.eqb cols 0%Z then
    (NotANumber, match index with O => NotANumber | _ => Num (maxY - 30) end)
  else
    let col := Z.rem (Z.of_nat index) cols in
    let row := Z.div (Z.of_nat index) cols in
    let gx := margin + inject_Z col * 150 + 75 in
    let gy := margin + inject_Z row * 80 + 40 in
    (Num (if Qltb maxX gx then maxX - 50 else gx),
     Num (if Qltb maxY gy then maxY - 30 else gy)).

Fixpoint gridLayout (index : nat) (nodes : list Node) : list Node :=
  match nodes with
  | [] => []
  | node :: rest =>
      let '(gx, gy) := gridPosition index in
      setPosition node gx gy :: gridLayout (S index) rest
  end.

(** The layout proper, after the attempt to restore. *)
Definition freshLayout (nodes : list Node) : list Node :=
  match find isCurrentFile nodes with
  | Some currentNode => spiralLayout nodes currentNode
  | None => gridLayout 0%nat nodes
  end.

(** [layoutNodes(forceNew)]: the nodes and the stored item afterwards. *)
Definition layoutNodes (forceNew : bool) (nodes : list Node) (storage : option SavedData)
  : list Node * option SavedData :=
  match nodes with
  | [] => (nodes, storage)
  | _ =>
      if forceNew then (freshLayout nodes, storage)
      else
        let '(restored, nodes', storage') := loadNodePositions nodes storage in
        if restored then (nodes', storage')
        else (freshLayout nodes', storage')
  end.

(** [initCanvas], as far as sizes and positions go. *)
Definition initCanvas (nodes : list Node) (storage : option SavedData)
  : list Node * option SavedData :=
  let nodes := map (fun node => setSize node (calculateNodeSize (label node))) nodes in
  let hasPositions :=
    negb (Nat.eqb (length nodes) 0%nat)
    && forallb (fun node => defined (x node) && defined (y node)) nodes in
  if hasPositions then (nodes, storage) else layoutNodes false nodes storage.

End WithCanvas.

End Layout.

(* ================================================================= *)
(** ** The webview script: zoom, visibility, organizing and saving *)

Module View.

Import Layout.
Local Open Scope Q_scope.

(** [Math.min(a, b)] on numbers. *)
Definition Qminb (a b : Q) : Q := if Qle_bool a b then a else b.

(** *** Zoom

  The translation and the scale that [draw] applies. The scale starts
  at 1 and the handlers keep it between 0.1 and 5, so that no handler
  divides by zero. Numbers are exact rationals where the source has
  doubles, and the decimal literals of the source are taken as the
  fractions they write: what is proved of them are the bounds of the
  clamps, which rounding keeps. *)

Record Viewport : Type := {
  offsetX : Q;
  offsetY : Q;
  scale : Q
}.

Definition initialViewport : Viewport := {| offsetX := 0; offsetY := 0; scale := 1 |}.

(** The [wheel] handler. *)
Definition wheel (rectLeft rectTop clientX clientY deltaY : Q) (v : Viewport) : Viewport :=
  let mouseX := clientX - rectLeft in
  let mouseY := clientY - rectTop in
  let zoomFactor := if Qltb 0 deltaY then 95 # 100 else 105 # 100 in
  let newScale := Qmaxb (1 # 10) (Qminb 5 (scale v * zoomFactor)) in
  {| offsetX := mouseX - (mouseX - offsetX v) * (newScale / scale v);
     offsetY := mouseY - (mouseY - offsetY v) * (newScale / scale v);
     scale := newScale |}.

Definition resetZoom (v : Viewport) : Viewport := initialViewport.

Section Buttons.
Variables canvasWidth canvasHeight devicePixelRatio : Q.

Definition zoomIn (v : Viewport) : Viewport :=
  let centerX := canvasWidth / (2 * devicePixelRatio) in
  let centerY := canvasHeight / (2 * devicePixelRatio) in
  let newScale := Qminb 5 (scale v * (12 # 10)) in
  {| offsetX := centerX - (centerX - offsetX v) * (newScale / scale v);
     offsetY := centerY - (centerY - offsetY v) * (newScale / scale v);
     scale := newScale |}.

Definition zoomOut (v : Viewport) : Viewport :=
  let centerX := canvasWidth / (2 * devicePixelRatio) in
  let centerY := canvasHeight / (2 * devicePixelRatio) in
  let newScale := Qmaxb (1 # 10) (scale v * (8 # 10)) in
  {| offsetX := centerX - (centerX - offsetX v) * (newScale / scale v);
     offsetY := centerY - (centerY - offsetY v) * (newScale / scale v);
     scale := newScale |}.

(** What changes the scale. *)
Inductive ZoomEvent : Type :=
| Wheel (rectLeft rectTop clientX clientY deltaY : Q)
| ZoomInButton
| ZoomOutButton
| ResetButton.

Definition zoomStep (v : Viewport) (e : ZoomEvent) : Viewport :=
  match e with
  | Wheel rectLeft rectTop clientX clientY deltaY =>
      wheel rectLeft rectTop clientX clientY deltaY v
  | ZoomInButton => zoomIn v
  | ZoomOutButton => zoomOut v
  | ResetButton => resetZoom v
  end.

End Buttons.

(** *** Nodes of the page *)

(** A node with the fields that drawing and organizing read besides
    those of the layout. *)
Record PageNode : Type := {
  core : Node;
  path : string;
  isNodeModule : bool
}.

Definition ofVisualizationNode (n : Panel.VisualizationNode) : PageNode :=
  {| core := Layout.ofVisualizationNode n;
     path := Panel.nodePath n;
     isNodeModule := Panel.nodeIsNodeModule n |}.

Definition place (n : PageNode) (nx ny : coord) : PageNode :=
  {| core := setPosition (core n) nx ny; path := path n; isNodeModule := isNodeModule n |}.

(** *** What [draw] shows *)

Section Visibility.
Variable currentFile : option string.      (* [null] or a non-empty path *)
Variables showNodeModules showAllEdges : bool.

Definition visibleNodes (nodes : list PageNode) : list PageNode :=
  List.filter (fun node => negb (isNodeModule node && negb showNodeModules)) nodes.

Definition touchesCurrent (edge : Panel.VisualizationEdge) : bool :=
  match currentFile with
  | Some c => String.eqb (Panel.from edge) c || String.eqb (Panel.to edge) c
  | None => false
  end.

Definition visibleEdges (nodes : list PageNode) (edges : list Panel.VisualizationEdge)
  : list Panel.VisualizationEdge :=
  let visibleNodeIds : gset string := list_to_set (map (fun n => id (core n)) (visibleNodes nodes)) in
  List.filter (fun edge =>
      if negb (bool_decide (Panel.from edge ∈ visibleNodeIds))
         || negb (bool_decide (Panel.to edge ∈ visibleNodeIds))
      then false
      else if touchesCurrent edge then true
      else showAllEdges)
    edges.

(** The nodes between which [draw] draws an edge, if it finds both. *)
Definition edgeEnds (nodes : list PageNode) (edge : Panel.VisualizationEdge)
  : option (PageNode * PageNode) :=
  match find (fun n => String.eqb (id (core n)) (Panel.from edge)) nodes,
        find (fun n => String.eqb (id (core n)) (Panel.to edge)) nodes with
  | Some fromNode, Some toNode => Some (fromNode, toNode)
  | _, _ => None
  end.

End Visibility.

(** *** Organizing *)

(** [Math.ceil(n / 8)] *)
Definition rowsFor (n : nat) : nat := ((n + 7) / 8)%nat.

(** The body of the row loop of [layoutNodesInRows]: the nodes of one
    row get their places, centred on [centerX]. *)
Fixpoint placeRow (rowStartX rowY horizontalSpacing : Q) (index : nat)
         (rowNodes : list PageNode) : list PageNode :=
  match rowNodes with
  | [] => []
  | node :: rest =>
      place node (Num (rowStartX + ofNat index * horizontalSpacing)) (Num rowY)
      :: placeRow rowStartX rowY horizontalSpacing (S index) rest
  end.

(** [layoutNodesInRows]: the nodes in their order, with their places. *)
Definition layoutNodesInRows (nodes : list PageNode)
           (centerX startY horizontalSpacing verticalSpacing : Q) : list PageNode :=
  let maxNodesPerRow := 8%nat in
  let numRows := rowsFor (length nodes) in
  flat_map (fun row =>
      let startIndex := (row * maxNodesPerRow)%nat in
      let endIndex := Nat.min (startIndex + maxNodesPerRow) (length nodes) in
      let rowNodes := firstn (endIndex - startIndex) (skipn startIndex nodes) in
      let rowY := startY + ofNat row * verticalSpacing in
      let rowWidth := (ofNat (length rowNodes) - 1) * horizontalSpacing in
      let rowStartX := centerX - rowWidth / 2 in
      placeRow rowStartX rowY horizontalSpacing 0 rowNodes)
    (seq 0 numRows).

(** The four groups into which [layoutHierarchical] sorts the nodes
    other than current-file nodes. *)
Inductive Group : Type :=
| ImportingCurrent
| ImportedByCurrent
| NodeModules
| Others.

Definition hasEdge (edges : list Panel.VisualizationEdge) (source target : string) : bool :=
  existsb (fun edge => String.eqb (Panel.from edge) source && String.eqb (Panel.to edge) target)
          edges.

(** The group of a node that is not a current-file node. An edge runs
    from the imported file to the importing one. *)
Definition groupOf (edges : list Panel.VisualizationEdge) (currentId : string)
           (node : PageNode) : Group :=
  if isNodeModule node then NodeModules
  else
    let currentFileImportsThis := hasEdge edges (id (core node)) currentId in
    let thisImportsCurrentFile := hasEdge edges currentId (id (core node)) in
    if thisImportsCurrentFile then ImportingCurrent
    else if currentFileImportsThis then ImportedByCurrent
    else Others.

Definition group_eqb (a b : Group) : bool :=
  match a, b with
  | ImportingCurrent, ImportingCurrent | ImportedByCurrent, ImportedByCurrent
  | NodeModules, NodeModules | Others, Others => true
  | _, _ => false
  end.

(** The nodes of a group, in the order of the page. *)
Definition inGroup (edges : list Panel.VisualizationEdge) (currentId : string)
           (g : Group) (nodes : list PageNode) : list PageNode :=
  List.filter (fun node => negb (isCurrentFile (core node))
                           && group_eqb (groupOf edges currentId node) g) nodes.

(** The loop over the nodes that fit none of the three groups: a block
    of [cols] columns to the right of the centre. *)
Fixpoint placeOthersBlock (startX startY : Q) (cols index : nat) (nodes : list PageNode)
  : list PageNode :=
  match nodes with
  | [] => []
  | node :: rest =>
      let col := (index mod cols)%nat in
      let row := (index / cols)%nat in
      place node (Num (startX + ofNat col * 150)) (Num (startY + ofNat row * 80))
      :: placeOthersBlock startX startY cols (S index) rest
  end.

(** The groups hold the objects of the page: their places are read back
    in the order of the page, each node taking the next place of its
    group. The first current-file node is the one put at the centre; the
    function leaves any other as it is. *)
Fixpoint readBack (edges : list Panel.VisualizationEdge) (currentId : string)
         (centre : coord * coord) (centred : bool) (nodes : list PageNode)
         (placed : Group -> list PageNode) : list PageNode :=
  match nodes with
  | [] => []
  | node :: rest =>
      if isCurrentFile (core node) then
        (if centred then node else place node (fst centre) (snd centre))
        :: readBack edges currentId centre true rest placed
      else
        let g := groupOf edges currentId node in
        match placed g with
        | placedNode :: others =>
            placedNode
            :: readBack edges currentId centre centred rest
                 (fun g' => if group_eqb g' g then others else placed g')
        | [] => node :: readBack edges currentId centre centred rest placed
        end
  end.

(** The positions of a layout, copied onto the nodes of the page. *)
Fixpoint withPositions (nodes : list PageNode) (laidOut : list Node) : list PageNode :=
  match nodes, laidOut with
  | node :: rest, n :: laidOut' => place node (x n) (y n) :: withPositions rest laidOut'
  | _, _ => nodes
  end.

Section Organize.
Variable measureText : string -> Q.
Variables cos sin : Q -> Q.
Variable PI : Q.
Variables canvasWidth canvasHeight devicePixelRatio : Q.

Definition verticalSpacing : Q := 100.
Definition horizontalSpacing : Q := 160.

(** [layoutHierarchical]. Without a current-file node it falls back on
    [layoutNodes(true)], which lays the nodes out afresh. The number of
    columns of the last block is [Math.ceil(Math.sqrt(n))], the least
    number whose square is at least the number of nodes. *)
Definition layoutHierarchical (edges : list Panel.VisualizationEdge)
           (nodes : list PageNode) : list PageNode :=
  match nodes with
  | [] => nodes
  | _ =>
      let centerX := canvasWidth / (2 * devicePixelRatio) in
      let centerY := canvasHeight / (2 * devicePixelRatio) in
      match find (fun n => isCurrentFile (core n)) nodes with
      | None =>
          withPositions nodes
            (freshLayout measureText cos sin PI canvasWidth canvasHeight devicePixelRatio
               (map core nodes))
      | Some currentNode =>
          let currentId := id (core currentNode) in
          let nodesImportingCurrent := inGroup edges currentId ImportingCurrent nodes in
          let nodesImportedByCurrent := inGroup edges currentId ImportedByCurrent nodes in
          let nodeModules := inGroup edges currentId NodeModules nodes in
          let otherNodes := inGroup edges currentId Others nodes in
          let importing :=
            let numRowsAbove := rowsFor (length nodesImportingCurrent) in
            let aboveStartY := centerY - verticalSpacing * ofNat numRowsAbove in
            layoutNodesInRows nodesImportingCurrent centerX aboveStartY
              horizontalSpacing verticalSpacing in
          let imported :=
            layoutNodesInRows nodesImportedByCurrent centerX (centerY + verticalSpacing)
              horizontalSpacing verticalSpacing in
          let modules :=
            let numRowsImported := rowsFor (length nodesImportedByCurrent) in
            let moduleStartY := centerY + verticalSpacing * (1 + ofNat numRowsImported) in
            layoutNodesInRows nodeModules centerX moduleStartY
              horizontalSpacing verticalSpacing in
          let others :=
            let cols := Nat.sqrt_up (length otherNodes) in
            let startX := centerX + horizontalSpacing * 2 in
            let startY :=
              centerY
              - ((ofNat ((length otherNodes + cols - 1) / cols)%nat - 1) * 80) / 2 in
            placeOthersBlock startX startY cols 0 otherNodes in
          readBack edges currentId (Num centerX, Num centerY) false nodes
            (fun g => match g with
                      | ImportingCurrent => importing
                      | ImportedByCurrent => imported
                      | NodeModules => modules
                      | Others => others
                      end)
      end
  end.

End Organize.

(** *** Saving *)

(** The object that [saveNodePositions] builds: a later node with the
    same identifier replaces an earlier one. *)
Definition savedObject (nodes : list Node) : gmap string Position :=
  fold_left (fun positions node => <[id node := {| px := x node; py := y node |}]> positions)
            nodes ∅.

(** What [JSON.stringify] keeps of a coordinate: a number as it is and
    an unset coordinate as an absent key, while a coordinate that is not a
    number is written as [null]. *)
Definition keptByJson (c : coord) : bool :=
  match c with NotANumber => false | _ => true end.

(** The item in [localStorage] after a write, as a later
    [loadNodePositions] parses it. An object with a coordinate that is not
    a number is stored with [null] in its place, which the coordinates of
    the layout do not express. *)
Inductive Stored : Type :=
| Parses (data : SavedData)
| HoldsNull.

(** [saveNodePositions]: nothing is written for a page without nodes. *)
Definition saveNodePositions (nodes : list Node) (item : option Stored) : option Stored :=
  match nodes with
  | [] => item
  | _ =>
      if forallb (fun node => keptByJson (x node) && keptByJson (y node)) nodes
      then Some (Parses (SavedPositions (savedObject nodes)))
      else Some HoldsNull
  end.

End View.

(* ================================================================= *)
(** ** Example projects *)

Module Examples.

Import Analyzer.

Definition nl : string := String "010"%char "".

Definition textFile (lines : list string) : FsEntry := FsFile (Some (Js.join nl lines)).

(** A file system given by its entries, none of whose directories can
    be listed. *)
Definition fsOf (entries : list (string * FsEntry)) : FileSystem :=
  {| fs_stat := mapGet entries; fs_readdir := fun _ => None |}.

(** A project whose files all lie in its root directory, listed in the
    order given. *)
Definition projectOf (root : string) (files : list (string * FsEntry)) : FileSystem :=
  {| fs_stat := fun p =>
       if String.eqb p root then Some FsDir
       else mapGet (map (fun '(name, entry) => (root +:+ "/" +:+ name, entry)) files) p;
     fs_readdir := fun dir =>
       if String.eqb dir root
       then Some (map (fun '(name, _) => (name, DirentFile)) files)
       else None |}.

(** A project root that cannot be listed. *)
Definition unlistedFs : FileSystem := fsOf [("/proj", FsDir)].

(** No text names TypeScript among its dependencies. *)
Definition plainJson : Json := {| namesTypeScript := fun _ => false |}.

Definition unix : PathApi := posix "/".

(** Two log files under the rules [*.log] then [!important.log], and
    under the same rules in the other order. *)
Definition logsFs (rules : list string) : FileSystem :=
  fsOf [("/proj", FsDir);
        ("/proj/.gitignore", textFile rules);
        ("/proj/a.log", textFile []);
        ("/proj/important.log", textFile [])].

(** [b.js] requires [a.js] in one bound require. *)
Definition requireFs : FileSystem :=
  projectOf "/proj"
    [("a.js", textFile ["module.exports = {};"]);
     ("b.js", textFile ["const a = require('./a');"])].

(** The two-hop project: E imports A and B, C imports E, A imports D. *)
Definition twoHopFs : FileSystem :=
  projectOf "/proj"
    [("A.ts", textFile ["import { d } from './D';"; "export const a = d;"]);
     ("B.ts", textFile ["export const b = 1;"]);
     ("C.ts", textFile ["import { e } from './E';"]);
     ("D.ts", textFile ["export const d = 1;"]);
     ("E.ts", textFile ["import { a } from './A';"; "import { b } from './B';";
                        "export const e = a + b;"])].

(** E imports A; C imports both E and A. *)
Definition triangleFs : FileSystem :=
  projectOf "/proj"
    [("A.ts", textFile ["export const a = 1;"]);
     ("C.ts", textFile ["import { e } from './E';"; "import { a } from './A';"]);
     ("E.ts", textFile ["import { a } from './A';"])].

(** E imports a module that does not exist and a file that the ignore
    rules exclude. *)
Definition unresolvedFs : FileSystem :=
  projectOf "/proj"
    [(".gitignore", textFile ["secret.ts"]);
     ("secret.ts", textFile ["export const key = 1;"]);
     ("E.ts", textFile ["import { m } from './missing';";
                        "import { key } from './secret.ts';"])].

(** E imports the device [/dev/null], which exists and can be read
    but is not a regular file. *)
Definition deviceFs : FileSystem :=
  let project := projectOf "/proj" [("E.ts", textFile ["import nothing from '/dev/null';"])] in
  {| fs_stat := fun p =>
       if String.eqb p "/dev/null" then Some (FsOther (Some ""))
       else @fs_stat project p;
     fs_readdir := @fs_readdir project |}.

(** A project with sources below [src], a compiled copy of one of
    them, a dependency directory and a hidden directory. *)
Definition nestedFs : FileSystem :=
  {| fs_stat := mapGet [("/app", FsDir);
                        ("/app/src", FsDir);
                        ("/app/src/main.ts", textFile ["import { u } from './util/u';"]);
                        ("/app/src/main.js", textFile ["require('./util/u');"]);
                        ("/app/src/util", FsDir);
                        ("/app/src/util/u.ts", textFile ["export const u = 1;"]);
                        ("/app/node_modules", FsDir);
                        ("/app/node_modules/dep.ts", textFile []);
                        ("/app/.cache", FsDir);
                        ("/app/.cache/old.ts", textFile []);
                        ("/app/notes.md", textFile [])];
     fs_readdir := fun dir =>
       if String.eqb dir "/app" then
         Some [("src", DirentDirectory true
                         [("main.ts", DirentFile);
                          ("main.js", DirentFile);
                          ("util", DirentDirectory true [("u.ts", DirentFile)])]);
               ("node_modules", DirentDirectory true [("dep.ts", DirentFile)]);
               (".cache", DirentDirectory true [("old.ts", DirentFile)]);
               ("notes.md", DirentFile)]
       else None |}.


(** The graph of an outcome, empty when the call threw. *)
Definition graphOf (o : Outcome ImportMap) : ImportMap :=
  match o with
  | Returned m => m
  | Thrown => {| files := []; entryFile := None |}
  end.

Definition twoHopGraph : ImportMap :=
  graphOf (@analyzeFile unix twoHopFs plainJson "/proj/E.ts" "/proj").

(** *** A page *)

(** Stand-ins for the canvas and for [Math]: labels six pixels a
    character wide, a canvas of 1600 by 1200 pixels at pixel ratio 1,
    and piecewise-linear approximations of the cosine and the sine. *)
Definition measure (text : string) : Q := inject_Z (Z.of_nat (6 * String.length text)).

Definition piApprox : Q := 355 # 113.

(** The angle in quarter turns, between 0 and 4. *)
Definition quarterTurns (angle : Q) : Q :=
  let turns := (angle / (2 * piApprox))%Q in
  (4 * (turns - inject_Z (Qfloor turns)))%Q.

Definition cosApprox (angle : Q) : Q := (Qabs (quarterTurns angle - 2) - 1)%Q.

Definition sinApprox (angle : Q) : Q :=
  let q := quarterTurns angle in
  if Qle_bool q 2 then (1 - Qabs (q - 1))%Q else (Qabs (q - 3) - 1)%Q.

Definition pageNode (id : string) (current : bool) (x y : Panel.coord) : Layout.Node :=
  {| Layout.id := id; Layout.label := id; Layout.isCurrentFile := current;
     Layout.size := Some (Layout.calculateNodeSize measure id);
     Layout.x := x; Layout.y := y |}.

Definition newNode (id : string) : Layout.Node :=
  pageNode id false Panel.Undefined Panel.Undefined.

(** The focused graph of E, as it arrives in the page, and the same
    nodes after the user has dragged two of them. *)
Definition pageNodes : list Layout.Node :=
  [pageNode "/proj/E.ts" true Panel.Undefined Panel.Undefined;
   newNode "/proj/C.ts"; newNode "/proj/A.ts"; newNode "/proj/B.ts"].

Definition draggedNodes : list Layout.Node :=
  [pageNode "/proj/E.ts" true (Panel.Num 10) (Panel.Num 20);
   newNode "/proj/C.ts";
   pageNode "/proj/A.ts" false (Panel.Num 700) (Panel.Num 500);
   newNode "/proj/B.ts"].

Definition layoutOf (nodes : list Layout.Node) (storage : option Layout.SavedData) :=
  Layout.layoutNodes measure cosApprox sinApprox piApprox 1600 1200 1 false nodes storage.

Definition placementsOf (nodes : list Layout.Node) (currentNode : Layout.Node) :=
  Layout.spiralPlacements measure cosApprox sinApprox piApprox 1600 1200 1 nodes currentNode.

(** Eight saved positions. *)
Definition savedAt (n : Z) : Layout.Position :=
  {| Layout.px := Panel.Num (inject_Z (100 * n)); Layout.py := Panel.Num (inject_Z (50 * n)) |}.

Definition eightSaved : gmap string Layout.Position :=
  list_to_map [("n1", savedAt 1); ("n2", savedAt 2); ("n3", savedAt 3); ("n4", savedAt 4);
               ("n5", savedAt 5); ("n6", savedAt 6); ("n7", savedAt 7); ("n8", savedAt 8)].

(** Six of the saved ids and one new node; five of them and two new
    nodes. *)
Definition sixShared : list Layout.Node :=
  [pageNode "n1" true Panel.Undefined Panel.Undefined;
   newNode "n2"; newNode "n3"; newNode "n4"; newNode "n5"; newNode "n6"; newNode "added"].

Definition fiveShared : list Layout.Node :=
  [pageNode "n1" true Panel.Undefined Panel.Undefined;
   newNode "n2"; newNode "n3"; newNode "n4"; newNode "n5"; newNode "added";
   newNode "another"].

End Examples.

(* ================================================================= *)
(** ** Further example projects and pages *)

Module Scenarios.

Import Analyzer.

(** A project of plain scripts that are type-checked: a [tsconfig.json]
    next to two [.js] files. *)
Definition checkedScriptsFs : FileSystem :=
  Examples.projectOf "/proj"
    [("tsconfig.json", Examples.textFile ["{ }"]);
     ("a.js", Examples.textFile ["module.exports = {};"]);
     ("b.js", Examples.textFile ["const a = require('./a');"])].

(** A page around [/p/a.ts], which imports [/p/b.ts] and the package
    [lodash] and is imported by [/p/c.ts], while [/p/d.ts] imports
    [/p/b.ts] only. An edge runs from the imported file to the importing
    one. *)
Definition pageNode (nodeId : string) (current isModule : bool) : View.PageNode :=
  {| View.core := {| Layout.id := nodeId; Layout.label := nodeId;
                     Layout.isCurrentFile := current; Layout.size := None;
                     Layout.x := Panel.Undefined; Layout.y := Panel.Undefined |};
     View.path := nodeId;
     View.isNodeModule := isModule |}.

Definition page : list View.PageNode :=
  [pageNode "/p/a.ts" true false; pageNode "/p/b.ts" false false;
   pageNode "/p/c.ts" false false; pageNode "/p/d.ts" false false;
   pageNode "lodash" false true].

Definition pageEdge (source target : string) : Panel.VisualizationEdge :=
  {| Panel.from := source; Panel.to := target; Panel.edgeType := TImport |}.

Definition pageEdges : list Panel.VisualizationEdge :=
  [pageEdge "/p/b.ts" "/p/a.ts"; pageEdge "lodash" "/p/a.ts";
   pageEdge "/p/a.ts" "/p/c.ts"; pageEdge "/p/b.ts" "/p/d.ts"].

End Scenarios.

(* ================================================================= *)
(** * Properties *)

(* ================================================================= *)
(** ** Ignore rules: the last matching rule decides *)

Section IgnoreOrder.
Import Gitignore.

Lemma applyRule_spec relativePath pathIsDirectory acc rule :
  applyRule relativePath pathIsDirectory acc rule
  = if ruleMatches relativePath pathIsDirectory rule then negb (isNegation rule) else acc.
Proof.
  unfold applyRule, ruleMatches.
  destruct (isDirectory rule), pathIsDirectory; simpl;
    destruct (matchesPattern relativePath (pattern rule)); reflexivity.
Qed.

Lemma fold_applyRule_last relativePath pathIsDirectory rules acc :
  fold_left (applyRule relativePath pathIsDirectory) rules acc
  = match find (ruleMatches relativePath pathIsDirectory) (rev rules) with
    | Some rule => negb (isNegation rule)
    | None => acc
    end.
Proof.
  induction rules as [|rule rules IH] using rev_ind; [reflexivity|].
  rewrite fold_left_app, rev_app_distr. simpl.
  rewrite applyRule_spec.
  destruct (ruleMatches relativePath pathIsDirectory rule); [reflexivity|apply IH].
Qed.

Lemma find_skip {A} (P : A -> bool) (skipped rest : list A) :
  Forall (fun a => P a = false) skipped -> find P (skipped ++ rest) = find P rest.
Proof.
  induction 1 as [|a skipped Ha _ IH]; simpl; [reflexivity|].
  rewrite Ha. exact IH.
Qed.

Lemma ignoreLoop_lastMatchDecides rules relativePath pathIsDirectory :
  ignoreLoop rules relativePath pathIsDirectory
  = lastMatchDecides rules relativePath pathIsDirectory.
Proof. apply fold_applyRule_last. Qed.

End IgnoreOrder.

(** C4. For every path and every list of rules, [shouldIgnore] is
    decided by the last rule, in file order, that matches the path: it
    answers the opposite of that rule's negation flag, and [false] when
    no rule matches. So a later negation overrides an earlier match and a
    later plain match overrides an earlier negation. With the rules
    [*.log] then [!important.log], [a.log] is ignored and
    [important.log] is not; with the two rules in the other order
    [important.log] is ignored. *)
Theorem shouldIgnore_last_match_decides :
  (forall (P : PathApi) (F : FileSystem) (g : Gitignore.GitignoreParser) (filePath : string),
      Gitignore.shouldIgnore g filePath
      = Gitignore.lastMatchDecides (Gitignore.patterns g)
          (path_relative (Gitignore.projectRoot g) filePath)
          (existsSync filePath && statIsDirectory filePath))
  /\ (forall relativePath pathIsDirectory before rule after,
        Gitignore.ruleMatches relativePath pathIsDirectory rule = true ->
        Forall (fun r => Gitignore.ruleMatches relativePath pathIsDirectory r = false) after ->
        Gitignore.ignoreLoop (before ++ rule :: after) relativePath pathIsDirectory
        = negb (Gitignore.isNegation rule))
  /\ (let F := Examples.logsFs ["*.log"; "!important.log"] in
      let g := @Gitignore.loadGitignore Examples.unix F "/proj" in
      @Gitignore.shouldIgnore Examples.unix F g "/proj/a.log" = true
      /\ @Gitignore.shouldIgnore Examples.unix F g "/proj/important.log" = false)
  /\ (let F := Examples.logsFs ["!important.log"; "*.log"] in
      let g := @Gitignore.loadGitignore Examples.unix F "/proj" in
      @Gitignore.shouldIgnore Examples.unix F g "/proj/important.log" = true).
Proof.
  split; [|split; [|split]].
  - intros P F g filePath. unfold Gitignore.shouldIgnore.
    apply ignoreLoop_lastMatchDecides.
  - intros relativePath pathIsDirectory before rule after Hrule Hafter.
    rewrite ignoreLoop_lastMatchDecides. unfold Gitignore.lastMatchDecides.
    rewrite rev_app_distr. simpl. rewrite <- app_assoc.
    rewrite (find_skip _ (rev after)) by (apply List.Forall_rev; exact Hafter).
    simpl. rewrite Hrule. reflexivity.
  - vm_compute. split; reflexivity.
  - vm_compute. reflexivity.
Qed.

(* ================================================================= *)
(** ** Extraction: one statement, two references *)

(** C10. A single bound require, [const x = require('./a')], is matched
    by none of the import patterns, once by the generic require-call
    pattern and once by the bound-require pattern, and the extractor
    emits two references of type [require] with the same source. A single
    lazy dynamic import, [() => import('./a')], is matched once by each
    of the two dynamic-import patterns, and the extractor emits two
    references of type [dynamic-import] with the same source. This holds
    on every host and for every importing directory. *)
Theorem one_statement_two_references :
  forall (P : PathApi) (F : FileSystem) (st : Analyzer.State) (fileDir projectRoot : string),
    let summary := map (fun i => (Analyzer.source i, Analyzer.type i)) in
    let boundRequire := "const x = require('./a')" in
    let lazyImport := "() => import('./a')" in
    let matchCounts := fun text =>
      (map (fun r => length (Regex.exec_all r text)) Analyzer.importPatterns,
       map (fun r => length (Regex.exec_all (fst r) text)) Analyzer.dynamicImportPatterns,
       length (Regex.exec_all Analyzer.requirePattern text)) in
    summary (Analyzer.extractImportsWithRegex st boundRequire fileDir projectRoot)
      = [("./a", Analyzer.TRequire); ("./a", Analyzer.TRequire)]
    /\ matchCounts boundRequire = ([0; 0; 0; 0], [0; 0; 1], 1)
    /\ summary (Analyzer.extractImportsWithRegex st lazyImport fileDir projectRoot)
      = [("./a", Analyzer.TDynamicImport); ("./a", Analyzer.TDynamicImport)]
    /\ matchCounts lazyImport = ([0; 0; 0; 0], [1; 1; 0], 0).
Proof.
  intros P F st fileDir projectRoot. cbv zeta.
  repeat split; vm_compute; reflexivity.
Qed.

(* ================================================================= *)
(** ** Map operations *)

Section MapFacts.
Import Analyzer.
Context {V : Type}.
Implicit Types (m : list (string * V)) (k : string) (v : V).

Lemma mapHas_true m k : mapHas m k = true <-> k ∈ mapKeys m.
Proof.
  unfold mapHas, mapKeys. induction m as [|[k' v'] m IH]; simpl.
  - split; [discriminate|]. intros Hin. inversion Hin.
  - destruct (String.eqb_spec k' k) as [->|Hne].
    + split; [intros _; apply list_elem_of_here|reflexivity].
    + rewrite IH. split; [apply list_elem_of_further|].
      intros Hin. apply elem_of_cons in Hin as [->|Hin]; [contradiction|exact Hin].
Qed.

Lemma mapHas_false m k : mapHas m k = false <-> k ∉ mapKeys m.
Proof.
  rewrite <- mapHas_true. destruct (mapHas m k); split; intros; congruence.
Qed.

Lemma mapGet_Some_elem m k v : mapGet m k = Some v -> (k, v) ∈ m.
Proof.
  induction m as [|[k' v'] m IH]; simpl; [discriminate|].
  destruct (String.eqb_spec k' k) as [->|Hne].
  - intros [= ->]. apply list_elem_of_here.
  - intros Hget. apply list_elem_of_further, IH, Hget.
Qed.

Lemma elem_mapKeys m k v : (k, v) ∈ m -> k ∈ mapKeys m.
Proof. intros Hin. unfold mapKeys. apply (list_elem_of_fmap_2 fst) in Hin. exact Hin. Qed.

Lemma mapGet_elem_NoDup m k v : NoDup (mapKeys m) -> (k, v) ∈ m -> mapGet m k = Some v.
Proof.
  induction m as [|[k' v'] m IH]; simpl; intros Hnd Hin; [inversion Hin|].
  apply NoDup_cons in Hnd as [Hnotin Hnd].
  apply elem_of_cons in Hin as [[= -> ->]|Hin].
  - rewrite String.eqb_refl. reflexivity.
  - destruct (String.eqb_spec k' k) as [->|Hne]; [|apply IH; assumption].
    exfalso. apply Hnotin. eapply elem_mapKeys, Hin.
Qed.

Lemma mapKeys_mapSet m k v :
  mapKeys (mapSet m k v) = if mapHas m k then mapKeys m else mapKeys m ++ [k].
Proof.
  unfold mapHas, mapKeys. induction m as [|[k' v'] m IH]; simpl; [reflexivity|].
  destruct (String.eqb_spec k' k) as [->|Hne]; simpl; [reflexivity|].
  rewrite IH. destruct (mapGet m k); reflexivity.
Qed.

Lemma mapKeys_mapAlter (f : V -> V) m k : mapKeys (mapAlter f m k) = mapKeys m.
Proof.
  unfold mapKeys. induction m as [|[k' v'] m IH]; simpl; [reflexivity|].
  destruct (String.eqb k' k); simpl; [reflexivity|]. rewrite IH. reflexivity.
Qed.

Lemma mapGet_mapSet m k v k' :
  mapGet (mapSet m k v) k' = if String.eqb k k' then Some v else mapGet m k'.
Proof.
  induction m as [|[k0 v0] m IH]; simpl.
  - reflexivity.
  - destruct (String.eqb_spec k0 k) as [->|Hne]; simpl.
    + destruct (String.eqb k k'); reflexivity.
    + rewrite IH. destruct (String.eqb_spec k0 k') as [->|Hne']; [|reflexivity].
      destruct (String.eqb_spec k k') as [->|_]; [contradiction|reflexivity].
Qed.

Lemma mapGet_mapAlter (f : V -> V) m k k' :
  mapGet (mapAlter f m k) k'
  = if String.eqb k k' then f <$> mapGet m k' else mapGet m k'.
Proof.
  induction m as [|[k0 v0] m IH]; simpl.
  - destruct (String.eqb k k'); reflexivity.
  - destruct (String.eqb_spec k0 k) as [->|Hne]; simpl.
    + destruct (String.eqb k k'); reflexivity.
    + rewrite IH. destruct (String.eqb_spec k0 k') as [->|Hne']; [|reflexivity].
      destruct (String.eqb_spec k k') as [->|_]; [contradiction|reflexivity].
Qed.

Lemma mapHas_cons m k v k' : mapHas ((k, v) :: m) k' = String.eqb k k' || mapHas m k'.
Proof. unfold mapHas. simpl. destruct (String.eqb k k'); reflexivity. Qed.

Lemma mapHas_mapSet m k v k' :
  mapHas (mapSet m k v) k' = String.eqb k k' || mapHas m k'.
Proof.
  unfold mapHas. rewrite mapGet_mapSet. destruct (String.eqb k k'); reflexivity.
Qed.

Lemma mapHas_mapAlter (f : V -> V) m k k' : mapHas (mapAlter f m k) k' = mapHas m k'.
Proof.
  unfold mapHas. rewrite mapGet_mapAlter.
  destruct (String.eqb k k'), (mapGet m k'); reflexivity.
Qed.

Lemma NoDup_mapKeys_mapSet m k v : NoDup (mapKeys m) -> NoDup (mapKeys (mapSet m k v)).
Proof.
  intros Hnd. rewrite mapKeys_mapSet. destruct (mapHas m k) eqn:Hhas; [exact Hnd|].
  apply NoDup_app. split; [exact Hnd|]. split; [|apply NoDup_singleton].
  intros k' Hin Hk'. apply list_elem_of_singleton in Hk' as ->.
  apply mapHas_false in Hhas. contradiction.
Qed.

End MapFacts.

(* ================================================================= *)
(** ** Conversion: no dangling edges *)

Section NoDanglingEdges.
Import Analyzer Panel.
Context `{PathApi}.
Variable importMap : ImportMap.
Variable currentFile : option string.
Variable isProjectMode : bool.

Definition nodeIdsOf (acc : Conversion) : list string := map id (nodes acc).

(** The invariant of both loops: the set [nodeIds] holds ids of listed
    nodes only, and every edge joins ids of listed nodes. *)
Definition wellLinked (acc : Conversion) : Prop :=
  (forall i, i ∈ nodeIds acc -> i ∈ nodeIdsOf acc)
  /\ (forall e, e ∈ edges acc -> from e ∈ nodeIdsOf acc /\ to e ∈ nodeIdsOf acc).

Lemma addFileNode_ids acc entry :
  nodeIdsOf (addFileNode currentFile acc entry) = nodeIdsOf acc ++ [fst entry].
Proof.
  destruct entry as [filePath fileNode]. unfold nodeIdsOf. simpl.
  rewrite map_app. reflexivity.
Qed.

Lemma addFileNode_wellLinked acc entry :
  wellLinked acc -> wellLinked (addFileNode currentFile acc entry).
Proof.
  intros [Hids Hedges]. split.
  - intros i Hi. rewrite addFileNode_ids. destruct entry as [filePath fileNode].
    simpl in *. apply elem_of_union in Hi as [Hi|Hi].
    + apply elem_of_singleton in Hi as ->. apply elem_of_app. right. apply list_elem_of_here.
    + apply elem_of_app. left. apply Hids, Hi.
  - intros e He. rewrite addFileNode_ids. destruct entry as [filePath fileNode].
    simpl in He. destruct (Hedges e He) as [Hf Ht].
    split; apply elem_of_app; left; assumption.
Qed.

Lemma fold_addFileNode_ids entries acc :
  nodeIdsOf (fold_left (addFileNode currentFile) entries acc)
  = nodeIdsOf acc ++ map fst entries.
Proof.
  revert acc. induction entries as [|entry entries IH]; intros acc; simpl.
  - rewrite app_nil_r. reflexivity.
  - rewrite IH, addFileNode_ids, <- app_assoc. reflexivity.
Qed.

Lemma fold_addFileNode_wellLinked entries acc :
  wellLinked acc -> wellLinked (fold_left (addFileNode currentFile) entries acc).
Proof.
  revert acc. induction entries as [|entry entries IH]; intros acc Hacc; simpl; [exact Hacc|].
  apply IH, addFileNode_wellLinked, Hacc.
Qed.

(** The second loop only adds nodes. *)
Lemma addImportEdge_ids isCurrent nodeId acc importInfo i :
  i ∈ nodeIdsOf acc ->
  i ∈ nodeIdsOf (addImportEdge importMap isProjectMode isCurrent nodeId acc importInfo).
Proof.
  intros Hi. unfold addImportEdge.
  destruct (isNodeModule importInfo && (isProjectMode || isCurrent)).
  - case_bool_decide; simpl; [exact Hi|].
    unfold nodeIdsOf. simpl. rewrite map_app. apply elem_of_app. left. exact Hi.
  - destruct (resolvedPath importInfo) as [target|]; [|exact Hi].
    destruct (Js.nonempty target && mapHas (files importMap) target); exact Hi.
Qed.

Lemma addImportEdge_wellLinked isCurrent nodeId acc importInfo :
  (forall k, k ∈ mapKeys (files importMap) -> k ∈ nodeIdsOf acc) ->
  nodeId ∈ nodeIdsOf acc ->
  wellLinked acc ->
  wellLinked (addImportEdge importMap isProjectMode isCurrent nodeId acc importInfo).
Proof.
  intros Hkeys Hnode [Hids Hedges]. unfold addImportEdge.
  destruct (isNodeModule importInfo && (isProjectMode || isCurrent)).
  - case_bool_decide as Hknown; simpl.
    + split; [exact Hids|]. intros e He.
      apply elem_of_app in He as [He|He]; [apply Hedges, He|].
      apply list_elem_of_singleton in He as ->. simpl. split; [apply Hids, Hknown|exact Hnode].
    + unfold wellLinked, nodeIdsOf. simpl. rewrite map_app. simpl. split.
      * intros i Hi. apply elem_of_app. apply elem_of_union in Hi as [Hi|Hi].
        -- apply elem_of_singleton in Hi as ->. right. apply list_elem_of_here.
        -- left. apply Hids, Hi.
      * intros e He. apply elem_of_app in He as [He|He].
        -- destruct (Hedges e He). split; apply elem_of_app; left; assumption.
        -- apply list_elem_of_singleton in He as ->. simpl. split; apply elem_of_app.
           ++ right. apply list_elem_of_here.
           ++ left. exact Hnode.
  - destruct (resolvedPath importInfo) as [target|]; [|split; assumption].
    destruct (Js.nonempty target && mapHas (files importMap) target) eqn:Htarget;
      [|split; assumption].
    apply andb_true_iff in Htarget as [_ Htarget]. apply mapHas_true in Htarget.
    split; [exact Hids|]. simpl. intros e He.
    apply elem_of_app in He as [He|He]; [apply Hedges, He|].
    apply list_elem_of_singleton in He as ->. simpl. split; [apply Hkeys, Htarget|exact Hnode].
Qed.

Lemma fold_addImportEdge_wellLinked isCurrent nodeId importInfos acc :
  (forall k, k ∈ mapKeys (files importMap) -> k ∈ nodeIdsOf acc) ->
  nodeId ∈ nodeIdsOf acc ->
  wellLinked acc ->
  let acc' := fold_left (addImportEdge importMap isProjectMode isCurrent nodeId) importInfos acc in
  wellLinked acc' /\ (forall i, i ∈ nodeIdsOf acc -> i ∈ nodeIdsOf acc').
Proof.
  revert acc. induction importInfos as [|importInfo importInfos IH];
    intros acc Hkeys Hnode Hacc; simpl; [split; auto|].
  specialize (IH (addImportEdge importMap isProjectMode isCurrent nodeId acc importInfo)).
  destruct IH as [IHlinked IHids].
  - intros k Hk. apply addImportEdge_ids, Hkeys, Hk.
  - apply addImportEdge_ids, Hnode.
  - apply addImportEdge_wellLinked; assumption.
  - split; [exact IHlinked|]. intros i Hi. apply IHids, addImportEdge_ids, Hi.
Qed.

Lemma fold_addFileEdges_wellLinked entries acc :
  (forall k, k ∈ mapKeys (files importMap) -> k ∈ nodeIdsOf acc) ->
  (forall entry, entry ∈ entries -> fst entry ∈ mapKeys (files importMap)) ->
  wellLinked acc ->
  wellLinked (fold_left (addFileEdges importMap currentFile isProjectMode) entries acc).
Proof.
  revert acc. induction entries as [|[filePath fileNode] entries IH];
    intros acc Hkeys Hentries Hacc; simpl; [exact Hacc|].
  pose proof (Hentries (filePath, fileNode) (list_elem_of_here _ _)) as Hin. simpl in Hin.
  edestruct (fold_addImportEdge_wellLinked
               (match currentFile with Some c => String.eqb c filePath | None => false end)
               filePath (imports fileNode) acc) as [Hlinked Hids]; eauto.
  apply IH; [|intros entry He; apply Hentries, list_elem_of_further, He|exact Hlinked].
  intros k Hk. apply Hids, Hkeys, Hk.
Qed.

End NoDanglingEdges.

(** C7. For every import map, in project mode and in current-file mode
    alike, the [from] id and the [to] id of every edge that
    [convertToVisualizationData] emits are each the id of a node in the
    emitted node list. *)
Theorem no_dangling_edges :
  forall (P : PathApi) (importMap : Analyzer.ImportMap)
         (currentFile : option string) (isProjectMode : bool)
         (e : Panel.VisualizationEdge),
    let result := Panel.convertToVisualizationData importMap currentFile isProjectMode in
    e ∈ Panel.edges result ->
    (exists n, n ∈ Panel.nodes result /\ Panel.id n = Panel.from e)
    /\ (exists n, n ∈ Panel.nodes result /\ Panel.id n = Panel.to e).
Proof.
  intros P importMap currentFile isProjectMode e result He.
  assert (Hlinked : wellLinked result).
  { unfold result, Panel.convertToVisualizationData.
    apply fold_addFileEdges_wellLinked.
    - intros k Hk. rewrite fold_addFileNode_ids. simpl. exact Hk.
    - intros entry Hentry. apply (list_elem_of_fmap_2 fst) in Hentry. exact Hentry.
    - apply fold_addFileNode_wellLinked. split.
      + intros i Hi. simpl in Hi. apply not_elem_of_empty in Hi. contradiction.
      + intros e' He'. simpl in He'. inversion He'. }
  destruct Hlinked as [_ Hedges]. destruct (Hedges e He) as [Hf Ht].
  unfold nodeIdsOf in Hf, Ht.
  apply list_elem_of_fmap in Hf as [nf [Hf1 Hf2]].
  apply list_elem_of_fmap in Ht as [nt [Ht1 Ht2]].
  split; [exists nf|exists nt]; split; auto.
Qed.

Lemma no_dangling_edges_witness :
  let result :=
    @Panel.convertToVisualizationData Examples.unix Examples.twoHopGraph
      (Some "/proj/E.ts") false in
  (exists n, n ∈ Panel.nodes result /\ Panel.id n = "/proj/A.ts")
  /\ (exists n, n ∈ Panel.nodes result /\ Panel.id n = "/proj/E.ts").
Proof.
  apply (no_dangling_edges Examples.unix Examples.twoHopGraph (Some "/proj/E.ts") false
           {| Panel.from := "/proj/A.ts"; Panel.to := "/proj/E.ts";
              Panel.edgeType := Analyzer.TImport |}).
  vm_compute. apply list_elem_of_here.
Defined.

(* ================================================================= *)
(** ** The directory scan *)

Example scan_twoHop :
  @Analyzer.getAllFiles Examples.unix Examples.twoHopFs
    (@Analyzer.initialize Examples.unix Examples.twoHopFs Examples.plainJson "/proj") "/proj"
  = Some ["/proj/A.ts"; "/proj/B.ts"; "/proj/C.ts"; "/proj/D.ts"; "/proj/E.ts"].
Proof. reflexivity. Qed.

(** Two plain files, one of which calls [require]: a CommonJS project. *)
Example scan_require :
  @Analyzer.detectProjectType Examples.unix Examples.requireFs Examples.plainJson "/proj"
  = Analyzer.JAVASCRIPT_COMMONJS
  /\ @Analyzer.getAllFiles Examples.unix Examples.requireFs
       (@Analyzer.initialize Examples.unix Examples.requireFs Examples.plainJson "/proj") "/proj"
     = Some ["/proj/a.js"; "/proj/b.js"].
Proof. split; reflexivity. Qed.

(** The file that the ignore rules exclude is not scanned. *)
Example scan_unresolved :
  @Analyzer.getAllFiles Examples.unix Examples.unresolvedFs
    (@Analyzer.initialize Examples.unix Examples.unresolvedFs Examples.plainJson "/proj")
    "/proj"
  = Some ["/proj/E.ts"].
Proof. reflexivity. Qed.

(** Below [src] the scan descends; it skips the dependency directory,
    the hidden directory, the file of another kind and the script that
    has a typed source next to it. *)
Example scan_nested :
  @Analyzer.detectProjectType Examples.unix Examples.nestedFs Examples.plainJson "/app"
  = Analyzer.MIXED
  /\ @Analyzer.getAllFiles Examples.unix Examples.nestedFs
       (@Analyzer.initialize Examples.unix Examples.nestedFs Examples.plainJson "/app") "/app"
     = Some ["/app/src/main.ts"; "/app/src/util/u.ts"].
Proof. split; reflexivity. Qed.

(** A directory below the root that cannot be listed makes the scan
    throw, whatever else the root holds. *)
Lemma scan_throws_on_unreadable_directory
      `{PathApi} `{FileSystem} (st : Analyzer.State) (dir name : string)
      (before after : list (string * Dirent)) (entries : list (string * Dirent)) :
  fs_readdir dir = Some (before ++ (name, DirentDirectory false entries) :: after) ->
  Analyzer.ignored st (path_join [dir; name]) = false ->
  Analyzer.shouldIgnoreDirectory name = false ->
  Analyzer.getAllFiles st dir = None.
Proof.
  intros Hdir Hignored Hname. unfold Analyzer.getAllFiles. rewrite Hdir.
  rewrite map_app. cbn [map].
  assert (Hentry : Analyzer.scanEntry st dir (DirentDirectory false entries) name = None).
  { cbn [Analyzer.scanEntry]. rewrite Hignored, Hname. reflexivity. }
  rewrite Hentry.
  induction (map (fun '(n, e) => Analyzer.scanEntry st dir e n) before) as [|[found|] rest IH];
    cbn [app Analyzer.concatFound]; [reflexivity| |reflexivity].
  rewrite IH. reflexivity.
Qed.

(* ================================================================= *)
(** ** Graph construction *)

Section GraphFacts.
Import Analyzer.
Context `{PathApi} `{FileSystem} `{Json}.

(** [node] with [more] appended to its [importedBy]. *)
Definition appendImportedBy (more : list string) (node : FileNode) : FileNode :=
  {| path := path node; name := name node; imports := imports node;
     importedBy := importedBy node ++ more;
     fileIsNodeModule := fileIsNodeModule node |}.

Lemma appendImportedBy_nil node : appendImportedBy [] node = node.
Proof. destruct node. unfold appendImportedBy. simpl. rewrite app_nil_r. reflexivity. Qed.

Lemma pushImportedBy_append p more node :
  pushImportedBy p (appendImportedBy more node) = appendImportedBy (more ++ [p]) node.
Proof. unfold pushImportedBy, appendImportedBy. simpl. rewrite app_assoc. reflexivity. Qed.

Lemma pushImportedBy_fresh p node :
  importedBy node = [] -> importedBy (pushImportedBy p node) = [p].
Proof. intros Hnone. simpl. rewrite Hnone. reflexivity. Qed.

Lemma analyzeFileContent_Some st filePath projectRoot node :
  analyzeFileContent st filePath projectRoot = Some node ->
  path node = filePath /\ importedBy node = [] /\ is_Some (readFileSync filePath).
Proof.
  unfold analyzeFileContent. destruct (readFileSync filePath) as [content|]; [|discriminate].
  intros [= <-]. simpl. eauto.
Qed.

Lemma analyzeFileContent_None st filePath projectRoot :
  analyzeFileContent st filePath projectRoot = None <-> readFileSync filePath = None.
Proof.
  unfold analyzeFileContent. destruct (readFileSync filePath); split; congruence.
Qed.

Lemma mapSet_fresh {V} (m : list (string * V)) k v :
  mapHas m k = false -> mapSet m k v = m ++ [(k, v)].
Proof.
  unfold mapHas. induction m as [|[k' v'] m IH]; simpl; [reflexivity|].
  destruct (String.eqb k' k); [discriminate|]. intros Hm. rewrite IH by exact Hm. reflexivity.
Qed.

Lemma resolvesTo_spec p i :
  resolvesTo p i = true <-> isNodeModule i = false /\ resolvedPath i = Some p.
Proof.
  unfold resolvesTo. destruct (isNodeModule i), (resolvedPath i) as [r|]; simpl;
    try (split; [discriminate|intros [? ?]; congruence]).
  destruct (String.eqb_spec r p) as [->|Hne].
  - split; auto.
  - split; [discriminate|]. intros [_ [= ->]]. contradiction.
Qed.

Lemma isResolvedInternal_resolvesTo p i :
  isResolvedInternal i = true -> resolvedPath i = Some p -> resolvesTo p i = true.
Proof.
  unfold isResolvedInternal. intros Hi Hp. apply andb_true_iff in Hi as [Hi _].
  apply resolvesTo_spec. split; [|exact Hp]. destruct (isNodeModule i); [discriminate|reflexivity].
Qed.

Lemma resolvesTo_isResolvedInternal p i :
  p <> "" -> resolvesTo p i = true -> isResolvedInternal i = true.
Proof.
  intros Hp Hi. apply resolvesTo_spec in Hi as [Hmod Hres].
  unfold isResolvedInternal. rewrite Hmod, Hres. destruct p; [contradiction|reflexivity].
Qed.

(** *** Focused mode *)

Section Focused.
Variables filePath projectRoot : string.
Let st := initialize projectRoot.
Variable currentFileNode : FileNode.
Hypothesis Hcurrent : analyzeFileContent st filePath projectRoot = Some currentFileNode.

(** An entry that step 2 adds: a scanned file, analyzed, one of whose
    imports resolves to the entry file. *)
Definition importerEntry (scanned : list string) (entry : string * FileNode) : Prop :=
  fst entry ∈ scanned
  /\ fst entry <> filePath
  /\ analyzeFileContent st (fst entry) projectRoot = Some (snd entry)
  /\ existsb (resolvesTo filePath) (imports (snd entry)) = true.

(** An entry that step 3 adds: the analyzed target of a resolved
    internal import of the entry file, imported by the entry file. *)
Definition dependencyEntry (importInfos : list ImportInfo) (entry : string * FileNode) : Prop :=
  exists importInfo node,
    importInfo ∈ importInfos
    /\ isResolvedInternal importInfo = true
    /\ resolvedPath importInfo = Some (fst entry)
    /\ analyzeFileContent st (fst entry) projectRoot = Some node
    /\ snd entry = pushImportedBy filePath node.

(** The map during step 2: the entry file first, then the importers
    found so far, which are also the entry file's [importedBy]. *)
Definition importersShape (scanned : list string) (files : FileMap) : Prop :=
  exists importers,
    files = (filePath, appendImportedBy (map fst importers) currentFileNode) :: importers
    /\ NoDup (filePath :: map fst importers)
    /\ Forall (importerEntry scanned) importers
    /\ (forall p node, p ∈ scanned -> p <> filePath ->
          analyzeFileContent st p projectRoot = Some node ->
          existsb (resolvesTo filePath) (imports node) = true ->
          p ∈ map fst importers).

Lemma importerEntry_mono scanned scanned' entry :
  (forall p, p ∈ scanned -> p ∈ scanned') ->
  importerEntry scanned entry -> importerEntry scanned' entry.
Proof. intros Hsub (Hin & Hrest). split; [apply Hsub, Hin|exact Hrest]. Qed.

Lemma addImporter_shape scanned files p :
  importersShape scanned files ->
  importersShape (scanned ++ [p]) (addImporter st filePath projectRoot files p).
Proof.
  intros (importers & -> & Hnd & Himp & Hall).
  assert (Hmono : Forall (importerEntry (scanned ++ [p])) importers).
  { eapply Forall_impl; [exact Himp|]. intros entry. apply importerEntry_mono.
    intros q Hq. apply elem_of_app. left. exact Hq. }
  assert (Hkeep : forall q node, q ∈ scanned ++ [p] -> q <> filePath ->
            analyzeFileContent st q projectRoot = Some node ->
            existsb (resolvesTo filePath) (imports node) = true ->
            q <> p -> q ∈ map fst importers).
  { intros q node Hq Hne Hnode Himports Hqp.
    apply elem_of_app in Hq as [Hq|Hq]; [eapply Hall; eauto|].
    apply list_elem_of_singleton in Hq. contradiction. }
  unfold addImporter.
  destruct (String.eqb_spec p filePath) as [->|Hne]; simpl.
  { exists importers. repeat split; auto. intros q node Hq Hqne Hnode Himports.
    eapply Hkeep; eauto. }
  rewrite mapHas_cons, (proj2 (String.eqb_neq filePath p)) by congruence. simpl.
  destruct (mapHas importers p) eqn:Hhas.
  { exists importers. repeat split; auto. intros q node Hq Hqne Hnode Himports.
    destruct (String.string_dec q p) as [->|Hqp]; [|eapply Hkeep; eauto].
    apply mapHas_true in Hhas. exact Hhas. }
  destruct (analyzeFileContent st p projectRoot) as [node|] eqn:Hnode.
  2:{ exists importers. repeat split; auto. intros q node' Hq Hqne Hnode' Himports.
      eapply Hkeep; eauto. intros ->. congruence. }
  destruct (existsb (resolvesTo filePath) (imports node)) eqn:Himports.
  2:{ exists importers. repeat split; auto. intros q node' Hq Hqne Hnode' Himports'.
      eapply Hkeep; eauto. intros ->. congruence. }
  simpl. rewrite String.eqb_refl. rewrite (mapSet_fresh _ _ _ Hhas).
  exists (importers ++ [(p, node)]). rewrite pushImportedBy_append, map_app. simpl.
  split; [reflexivity|]. split; [|split].
  - apply NoDup_cons in Hnd as [HnotE Hnd]. apply NoDup_cons. split.
    + intros Hin. apply elem_of_app in Hin as [Hin|Hin]; [contradiction|].
      apply list_elem_of_singleton in Hin. congruence.
    + apply NoDup_app. split; [exact Hnd|]. split; [|apply NoDup_singleton].
      intros q Hq Hq'. apply list_elem_of_singleton in Hq' as ->.
      apply mapHas_false in Hhas. contradiction.
  - apply Forall_app. split; [exact Hmono|]. apply Forall_singleton.
    repeat split; simpl; auto. apply elem_of_app. right. apply list_elem_of_here.
  - intros q node' Hq Hqne Hnode' Himports'. apply elem_of_app.
    destruct (String.string_dec q p) as [->|Hqp]; [right; apply list_elem_of_here|].
    left. eapply Hkeep; eauto.
Qed.

Lemma fold_addImporter_shape todo scanned files :
  importersShape scanned files ->
  importersShape (scanned ++ todo) (fold_left (addImporter st filePath projectRoot) todo files).
Proof.
  revert scanned files. induction todo as [|p todo IH]; intros scanned files Hshape; simpl.
  - rewrite app_nil_r. exact Hshape.
  - replace (scanned ++ p :: todo) with ((scanned ++ [p]) ++ todo)
      by (rewrite <- app_assoc; reflexivity).
    apply IH, addImporter_shape, Hshape.
Qed.

Lemma importersShape_start : importersShape [] (mapSet [] filePath currentFileNode).
Proof.
  exists []. simpl. rewrite appendImportedBy_nil.
  split; [reflexivity|]. split; [apply NoDup_singleton|]. split; [constructor|].
  intros p node Hp. inversion Hp.
Qed.

(** The map during step 3: the dependencies follow the importers. *)
Definition focusedShape (scanned : list string) (importInfos : list ImportInfo)
           (files : FileMap) : Prop :=
  exists importers dependencies,
    files = (filePath, appendImportedBy (map fst importers) currentFileNode)
              :: importers ++ dependencies
    /\ NoDup (filePath :: map fst (importers ++ dependencies))
    /\ Forall (importerEntry scanned) importers
    /\ (forall p node, p ∈ scanned -> p <> filePath ->
          analyzeFileContent st p projectRoot = Some node ->
          existsb (resolvesTo filePath) (imports node) = true ->
          p ∈ map fst importers)
    /\ Forall (dependencyEntry importInfos) dependencies
    /\ (forall importInfo target, importInfo ∈ importInfos ->
          isResolvedInternal importInfo = true ->
          resolvedPath importInfo = Some target ->
          is_Some (analyzeFileContent st target projectRoot) ->
          target ∈ filePath :: map fst (importers ++ dependencies)).

Lemma dependencyEntry_mono importInfos importInfos' entry :
  (forall i, i ∈ importInfos -> i ∈ importInfos') ->
  dependencyEntry importInfos entry -> dependencyEntry importInfos' entry.
Proof.
  intros Hsub (importInfo & node & Hin & Hrest).
  exists importInfo, node. split; [apply Hsub, Hin|exact Hrest].
Qed.

Lemma addDependency_shape scanned seen files importInfo :
  focusedShape scanned seen files ->
  focusedShape scanned (seen ++ [importInfo])
    (addDependency st filePath projectRoot files importInfo).
Proof.
  intros (importers & dependencies & -> & Hnd & Himp & Hall & Hdep & Hseen).
  set (rest := importers ++ dependencies) in *.
  assert (Hmono : Forall (dependencyEntry (seen ++ [importInfo])) dependencies).
  { eapply Forall_impl; [exact Hdep|]. intros entry. apply dependencyEntry_mono.
    intros i Hi. apply elem_of_app. left. exact Hi. }
  assert (Hsame : (forall target, isResolvedInternal importInfo = true ->
                     resolvedPath importInfo = Some target ->
                     is_Some (analyzeFileContent st target projectRoot) ->
                     target ∈ filePath :: map fst rest) ->
                  focusedShape scanned (seen ++ [importInfo])
                    ((filePath, appendImportedBy (map fst importers) currentFileNode) :: rest)).
  { intros Hnew. exists importers, dependencies. repeat split; auto.
    intros i target Hi Hint Hres Hsome. apply elem_of_app in Hi as [Hi|Hi].
    - eapply Hseen; eauto.
    - apply list_elem_of_singleton in Hi as ->. apply Hnew; auto. }
  unfold addDependency.
  destruct (isResolvedInternal importInfo) eqn:Hint; [|apply Hsame; discriminate].
  destruct (resolvedPath importInfo) as [target|] eqn:Hres; [|apply Hsame; discriminate].
  destruct (mapHas ((filePath, appendImportedBy (map fst importers) currentFileNode) :: rest)
                   target) eqn:Hhas.
  { apply Hsame. intros target' _ [= <-] _. apply mapHas_true in Hhas. exact Hhas. }
  destruct (analyzeFileContent st target projectRoot) as [node|] eqn:Hnode.
  2:{ apply Hsame. intros target' _ [= <-] [node Hsome]. congruence. }
  rewrite (mapSet_fresh _ _ _ Hhas). apply mapHas_false in Hhas. simpl in Hhas.
  exists importers, (dependencies ++ [(target, pushImportedBy filePath node)]).
  split; [unfold rest; simpl; rewrite <- app_assoc; reflexivity|].
  rewrite app_assoc. fold rest. rewrite map_app. simpl.
  split; [|split; [exact Himp|split; [exact Hall|split]]].
  - rewrite app_comm_cons. apply NoDup_app. split; [exact Hnd|].
    split; [|apply NoDup_singleton].
    intros q Hq Hq'. apply list_elem_of_singleton in Hq' as ->. contradiction.
  - apply Forall_app. split; [exact Hmono|]. apply Forall_singleton.
    exists importInfo, node. simpl. repeat split; auto.
    apply elem_of_app. right. apply list_elem_of_here.
  - intros i target' Hi Hint' Hres' Hsome. rewrite app_comm_cons. apply elem_of_app.
    apply elem_of_app in Hi as [Hi|Hi].
    + left. eapply Hseen; eauto.
    + apply list_elem_of_singleton in Hi as ->. right.
      assert (target' = target) as -> by congruence. apply list_elem_of_here.
Qed.

Lemma fold_addDependency_shape scanned todo seen files :
  focusedShape scanned seen files ->
  focusedShape scanned (seen ++ todo)
    (fold_left (addDependency st filePath projectRoot) todo files).
Proof.
  revert seen files. induction todo as [|importInfo todo IH]; intros seen files Hshape; simpl.
  - rewrite app_nil_r. exact Hshape.
  - replace (seen ++ importInfo :: todo) with ((seen ++ [importInfo]) ++ todo)
      by (rewrite <- app_assoc; reflexivity).
    apply IH, addDependency_shape, Hshape.
Qed.

Lemma importersShape_focusedShape scanned files :
  importersShape scanned files -> focusedShape scanned [] files.
Proof.
  intros (importers & -> & Hnd & Himp & Hall).
  exists importers, []. rewrite app_nil_r. repeat split; auto.
  intros i target Hi. inversion Hi.
Qed.

(** The result of [analyzeFile] on a readable entry file and a scan
    that returns. *)
Lemma analyzeFile_shape allProjectFiles :
  getAllFiles st projectRoot = Some allProjectFiles ->
  exists files,
    analyzeFile filePath projectRoot
      = Returned {| files := files; entryFile := Some filePath |}
    /\ focusedShape allProjectFiles (imports currentFileNode) files.
Proof.
  intros Hscan. unfold analyzeFile. fold st. rewrite Hcurrent, Hscan.
  eexists. split; [reflexivity|].
  apply (fold_addDependency_shape allProjectFiles (imports currentFileNode) []).
  apply importersShape_focusedShape.
  apply (fold_addImporter_shape allProjectFiles []).
  apply importersShape_start.
Qed.

(** What the shape says about one entry of the result. *)
Lemma focusedShape_entry scanned importInfos files k node :
  focusedShape scanned importInfos files ->
  (k, node) ∈ files ->
  (k = filePath /\ imports node = imports currentFileNode
   /\ NoDup (importedBy node)
   /\ (forall b, b ∈ importedBy node ->
         exists B, (b, B) ∈ files /\ importerEntry scanned (b, B)))
  \/ (k <> filePath /\ importedBy node = [] /\ importerEntry scanned (k, node))
  \/ (k <> filePath /\ importedBy node = [filePath]
      /\ dependencyEntry importInfos (k, node)).
Proof.
  intros (importers & dependencies & -> & Hnd & Himp & Hall & Hdep & Hseen) Hin.
  apply NoDup_cons in Hnd as [HnotE Hnd].
  destruct (analyzeFileContent_Some _ _ _ _ Hcurrent) as (_ & Hnone & _).
  apply elem_of_cons in Hin as [[= -> ->]|Hin].
  - left. simpl. rewrite Hnone. simpl. split; [reflexivity|]. split; [reflexivity|].
    split.
    + rewrite map_app in Hnd. apply NoDup_app in Hnd as [Hnd _]. exact Hnd.
    + intros b Hb. apply list_elem_of_fmap in Hb as [[b' B] [-> Hb]].
      exists B. split.
      * apply list_elem_of_further, elem_of_app. left. exact Hb.
      * rewrite Forall_forall in Himp. apply Himp, Hb.
  - right. assert (Hk : k <> filePath).
    { intros ->. apply HnotE. apply (list_elem_of_fmap_2 fst) in Hin. exact Hin. }
    apply elem_of_app in Hin as [Hin|Hin].
    + left. rewrite Forall_forall in Himp. specialize (Himp _ Hin).
      split; [exact Hk|]. split; [|exact Himp].
      destruct Himp as (_ & _ & Hnode & _). simpl in Hnode.
      apply analyzeFileContent_Some in Hnode as (_ & Hempty & _). exact Hempty.
    + right. rewrite Forall_forall in Hdep. specialize (Hdep _ Hin).
      split; [exact Hk|]. split; [|exact Hdep].
      destruct Hdep as (i & node0 & _ & _ & _ & Hnode & Heq). simpl in Hnode, Heq.
      apply analyzeFileContent_Some in Hnode as (_ & Hempty & _).
      rewrite Heq. apply pushImportedBy_fresh, Hempty.
Qed.


End Focused.

(** How [analyzeFile] can end with a graph. *)
Lemma analyzeFile_Returned filePath projectRoot m :
  analyzeFile filePath projectRoot = Returned m ->
  (readFileSync filePath = None /\ m = {| files := []; entryFile := Some filePath |})
  \/ (exists currentFileNode allProjectFiles,
        analyzeFileContent (initialize projectRoot) filePath projectRoot = Some currentFileNode
        /\ getAllFiles (initialize projectRoot) projectRoot = Some allProjectFiles
        /\ entryFile m = Some filePath
        /\ focusedShape filePath projectRoot currentFileNode allProjectFiles
             (imports currentFileNode) (files m)).
Proof.
  intros Hm.
  destruct (analyzeFileContent (initialize projectRoot) filePath projectRoot)
    as [currentFileNode|] eqn:Hcurrent.
  - right.
    destruct (getAllFiles (initialize projectRoot) projectRoot) as [allProjectFiles|] eqn:Hscan.
    + destruct (analyzeFile_shape _ _ _ Hcurrent _ Hscan) as (files & Hfiles & Hshape).
      rewrite Hfiles in Hm. injection Hm as <-.
      exists currentFileNode, allProjectFiles. simpl. auto.
    + unfold analyzeFile in Hm. rewrite Hcurrent, Hscan in Hm. discriminate.
  - left. unfold analyzeFile in Hm. rewrite Hcurrent in Hm. injection Hm as <-.
    apply analyzeFileContent_None in Hcurrent. auto.
Qed.

End GraphFacts.

(** The specification's reading of a missing entry file, in its words:
    the build returns, without throwing, an empty graph that carries an
    explicit failure indicator. A graph has its [files] map and its
    [entryFile]; an indicator that the graph carries besides the empty map
    tells the failed build from every build of the same entry file that
    succeeds, on whatever file system. *)
Definition besidesFiles (m : Analyzer.ImportMap) : option string := Analyzer.entryFile m.

Definition failureIsIndicated (P : PathApi) (F : FileSystem) (J : Json)
           (filePath projectRoot : string) : Prop :=
  @readFileSync F filePath = None ->
  exists m,
    @Analyzer.analyzeFile P F J filePath projectRoot = Analyzer.Returned m
    /\ Analyzer.files m = []
    /\ forall (F' : FileSystem) m',
         is_Some (@readFileSync F' filePath) ->
         @Analyzer.analyzeFile P F' J filePath projectRoot = Analyzer.Returned m' ->
         besidesFiles m' <> besidesFiles m.

(** C8, as stated, fails: the graph returned for [/proj/E.ts] where no
    such file exists has the [entryFile] of the graph returned where the
    file exists, and a graph has no other field. *)
Lemma missing_entry_counterexample :
  ~ failureIsIndicated Examples.unix Examples.unlistedFs Examples.plainJson
      "/proj/E.ts" "/proj".
Proof.
  intros Hclaim. destruct (Hclaim eq_refl) as (m & Hm & _ & Hdiffers).
  vm_compute in Hm. injection Hm as <-.
  eapply (Hdiffers Examples.twoHopFs).
  - vm_compute. eexists. reflexivity.
  - vm_compute. reflexivity.
  - reflexivity.
Qed.

(** C8, amended. In focused mode, when the entry file does not exist or
    cannot be read, [analyzeFile] returns (it does not throw, even where
    the directory scan would) a graph whose [files] map is empty and whose
    [entryFile] is the requested path, as after a build that succeeds.
    There is no separate indicator: the empty map is what the caller
    reads. A returned graph has an empty [files] map exactly when the
    entry file could not be read, and the page data converted from the
    empty graph has no node and no edge, which is the empty state of the
    page. *)
Theorem missing_entry_returns_empty_graph :
  forall (P : PathApi) (F : FileSystem) (J : Json) (filePath projectRoot : string),
    readFileSync filePath = None ->
    Analyzer.analyzeFile filePath projectRoot
      = Analyzer.Returned {| Analyzer.files := []; Analyzer.entryFile := Some filePath |}
    /\ (forall entry m,
          Analyzer.analyzeFile entry projectRoot = Analyzer.Returned m ->
          Analyzer.entryFile m = Some entry
          /\ (Analyzer.files m = [] <-> readFileSync entry = None))
    /\ (forall (currentFile : option string) (isProjectMode : bool),
          let data :=
            Panel.convertToVisualizationData
              {| Analyzer.files := []; Analyzer.entryFile := Some filePath |}
              currentFile isProjectMode in
          Panel.nodes data = [] /\ Panel.edges data = []).
Proof.
  intros P F J filePath projectRoot Hread. split; [|split].
  - unfold Analyzer.analyzeFile.
    rewrite (proj2 (analyzeFileContent_None _ _ _) Hread). reflexivity.
  - intros entry m Hm.
    destruct (analyzeFile_Returned _ _ _ Hm)
      as [[Hnone ->]|(node & found & Hnode & _ & Hentry & Hshape)].
    + simpl. split; [reflexivity|]. split; auto.
    + split; [exact Hentry|].
      destruct Hshape as (importers & dependencies & -> & _). split; [discriminate|].
      intros Hnone. apply analyzeFileContent_None with (st := Analyzer.initialize projectRoot)
        (projectRoot := projectRoot) in Hnone. congruence.
  - intros currentFile isProjectMode. split; reflexivity.
Qed.

Lemma missing_entry_returns_empty_graph_witness :
  @Analyzer.getAllFiles Examples.unix Examples.unlistedFs
    (@Analyzer.initialize Examples.unix Examples.unlistedFs Examples.plainJson "/proj") "/proj"
  = None
  /\ @Analyzer.analyzeFile Examples.unix Examples.unlistedFs Examples.plainJson
       "/proj/nope.ts" "/proj"
     = Analyzer.Returned {| Analyzer.files := []; Analyzer.entryFile := Some "/proj/nope.ts" |}.
Proof.
  split; [reflexivity|].
  refine (proj1 (missing_entry_returns_empty_graph Examples.unix Examples.unlistedFs
                   Examples.plainJson "/proj/nope.ts" "/proj" _)).
  vm_compute. reflexivity.
Defined.

(* ================================================================= *)
(** ** Whole-project mode: the second pass *)

Section ProjectFacts.
Import Analyzer.
Context `{PathApi} `{FileSystem} `{Json}.

(** The condition under which the second pass records the importer of
    [importInfo] on the file [target]. *)
Definition recordsOn (target : string) (importInfo : ImportInfo) : bool :=
  isResolvedInternal importInfo
  && match resolvedPath importInfo with
     | Some r => String.eqb r target
     | None => false
     end.

(** The importers the second pass appends to [target] for these entries,
    one for each import that resolves to it. *)
Definition recorded (target : string) (entries : FileMap) : list string :=
  flat_map (fun '(filePath, fileNode) =>
              map (fun _ => filePath) (List.filter (recordsOn target) (imports fileNode)))
           entries.

Lemma appendImportedBy_app l l' node :
  appendImportedBy l' (appendImportedBy l node) = appendImportedBy (l ++ l') node.
Proof. unfold appendImportedBy. simpl. rewrite app_assoc. reflexivity. Qed.

Lemma recordImport_get filePath files importInfo target :
  mapGet (recordImport filePath files importInfo) target
  = appendImportedBy (if recordsOn target importInfo then [filePath] else [])
      <$> mapGet files target.
Proof.
  assert (Hid : mapGet files target = appendImportedBy [] <$> mapGet files target).
  { destruct (mapGet files target) as [node|]; simpl; [|reflexivity].
    rewrite appendImportedBy_nil. reflexivity. }
  unfold recordImport, recordsOn.
  destruct (isResolvedInternal importInfo); simpl; [|exact Hid].
  destruct (resolvedPath importInfo) as [r|]; [|exact Hid].
  destruct (mapHas files r) eqn:Hhas.
  - rewrite mapGet_mapAlter. destruct (String.eqb r target); [|exact Hid].
    destruct (mapGet files target) as [node|]; reflexivity.
  - destruct (String.eqb_spec r target) as [->|_]; [|exact Hid].
    unfold mapHas in Hhas. destruct (mapGet files target); [discriminate|reflexivity].
Qed.

Lemma recordImport_keys filePath files importInfo :
  mapKeys (recordImport filePath files importInfo) = mapKeys files.
Proof.
  unfold recordImport. destruct (isResolvedInternal importInfo); [|reflexivity].
  destruct (resolvedPath importInfo) as [r|]; [|reflexivity].
  destruct (mapHas files r); [apply mapKeys_mapAlter|reflexivity].
Qed.

Lemma fmap_appendImportedBy l l' (o : option FileNode) :
  appendImportedBy l' <$> (appendImportedBy l <$> o) = appendImportedBy (l ++ l') <$> o.
Proof. destruct o; simpl; [rewrite appendImportedBy_app|]; reflexivity. Qed.

Lemma fold_recordImport_get filePath importInfos files target :
  mapGet (fold_left (recordImport filePath) importInfos files) target
  = appendImportedBy (map (fun _ => filePath) (List.filter (recordsOn target) importInfos))
      <$> mapGet files target.
Proof.
  revert files. induction importInfos as [|importInfo importInfos IH]; intros files; simpl.
  - destruct (mapGet files target); simpl; [rewrite appendImportedBy_nil|]; reflexivity.
  - rewrite IH, recordImport_get, fmap_appendImportedBy.
    destruct (recordsOn target importInfo); reflexivity.
Qed.

Lemma fold_recordImport_keys filePath importInfos files :
  mapKeys (fold_left (recordImport filePath) importInfos files) = mapKeys files.
Proof.
  revert files. induction importInfos as [|importInfo importInfos IH]; intros files; simpl;
    [reflexivity|]. rewrite IH. apply recordImport_keys.
Qed.

Definition secondPassOver (entries files : FileMap) : FileMap :=
  fold_left (fun acc '(filePath, fileNode) =>
      fold_left (recordImport filePath) (imports fileNode) acc)
    entries files.

Lemma secondPassOver_get entries files target :
  mapGet (secondPassOver entries files) target
  = appendImportedBy (recorded target entries) <$> mapGet files target.
Proof.
  revert files. induction entries as [|[filePath fileNode] entries IH]; intros files; simpl.
  - destruct (mapGet files target); simpl; [rewrite appendImportedBy_nil|]; reflexivity.
  - unfold secondPassOver in IH. rewrite IH, fold_recordImport_get, fmap_appendImportedBy.
    reflexivity.
Qed.

Lemma secondPassOver_keys entries files :
  mapKeys (secondPassOver entries files) = mapKeys files.
Proof.
  revert files. induction entries as [|[filePath fileNode] entries IH]; intros files; simpl;
    [reflexivity|]. unfold secondPassOver in IH. rewrite IH. apply fold_recordImport_keys.
Qed.

Lemma elem_of_recorded target entries p :
  p ∈ recorded target entries <->
  exists fileNode importInfo,
    (p, fileNode) ∈ entries /\ importInfo ∈ imports fileNode
    /\ recordsOn target importInfo = true.
Proof.
  unfold recorded. rewrite list_elem_of_In, in_flat_map. split.
  - intros [[filePath fileNode] [Hentry Hp]]. apply in_map_iff in Hp as [i [-> Hi]].
    apply filter_In in Hi as [Hi Hrec]. exists fileNode, i.
    rewrite !list_elem_of_In. auto.
  - intros (fileNode & i & Hentry & Hi & Hrec). exists (p, fileNode).
    split; [apply list_elem_of_In, Hentry|]. apply in_map_iff. exists i.
    split; [reflexivity|]. apply filter_In. split; [apply list_elem_of_In, Hi|exact Hrec].
Qed.

(** The first pass: analyzed files under distinct keys. *)
Definition analyzedEntry (st : State) (projectRoot : string) (entry : string * FileNode) : Prop :=
  analyzeFileContent st (fst entry) projectRoot = Some (snd entry).

Lemma elem_of_mapSet {V} (m : list (string * V)) k v entry :
  entry ∈ mapSet m k v -> entry = (k, v) \/ entry ∈ m.
Proof.
  induction m as [|[k' v'] m IH]; simpl.
  - intros Hin. apply list_elem_of_singleton in Hin. auto.
  - destruct (String.eqb k' k).
    + intros Hin. apply elem_of_cons in Hin as [->|Hin]; [auto|].
      right. apply list_elem_of_further, Hin.
    + intros Hin. apply elem_of_cons in Hin as [->|Hin]; [right; apply list_elem_of_here|].
      destruct (IH Hin) as [->|Hm]; [auto|]. right. apply list_elem_of_further, Hm.
Qed.

Lemma firstPass_analyzed st projectRoot allFiles :
  NoDup (mapKeys (firstPass st projectRoot allFiles))
  /\ Forall (analyzedEntry st projectRoot) (firstPass st projectRoot allFiles).
Proof.
  unfold firstPass.
  assert (Hgen : forall files,
    NoDup (mapKeys files) /\ Forall (analyzedEntry st projectRoot) files ->
    let files' := fold_left (fun files filePath =>
        match analyzeFileContent st filePath projectRoot with
        | Some fileNode => mapSet files filePath fileNode
        | None => files
        end) allFiles files in
    NoDup (mapKeys files') /\ Forall (analyzedEntry st projectRoot) files').
  { induction allFiles as [|filePath allFiles IH]; intros files Hfiles; simpl; [exact Hfiles|].
    apply IH. destruct Hfiles as [Hnd Hall].
    destruct (analyzeFileContent st filePath projectRoot) as [fileNode|] eqn:Hnode;
      [|split; assumption].
    split; [apply NoDup_mapKeys_mapSet, Hnd|].
    apply Forall_forall. intros entry Hentry.
    apply elem_of_mapSet in Hentry as [->|Hentry]; [exact Hnode|].
    rewrite Forall_forall in Hall. apply Hall, Hentry. }
  apply Hgen. split; [apply NoDup_nil_2|constructor].
Qed.

(** Whole-project mode: membership in [importedBy] is the inverse of
    the resolved imports. *)
Lemma analyzeProject_inverse projectRoot m a A b B :
  analyzeProject projectRoot = Returned m ->
  (a, A) ∈ files m -> (b, B) ∈ files m -> a <> "" ->
  b ∈ importedBy A <-> exists i, i ∈ imports B /\ resolvesTo a i = true.
Proof.
  unfold analyzeProject.
  destruct (getAllFiles (initialize projectRoot) projectRoot) as [allFiles|]; [|discriminate].
  intros [= <-]. simpl. set (st := initialize projectRoot).
  destruct (firstPass_analyzed st projectRoot allFiles) as [Hnd Hall].
  set (first := firstPass st projectRoot allFiles) in *.
  change (secondPass first) with (secondPassOver first first).
  intros HA HB Hne.
  assert (Hget : forall k node, (k, node) ∈ secondPassOver first first ->
            exists node0, (k, node0) ∈ first
              /\ node = appendImportedBy (recorded k first) node0
              /\ importedBy node0 = []).
  { intros k node Hin. apply mapGet_elem_NoDup in Hin;
      [|rewrite secondPassOver_keys; exact Hnd].
    rewrite secondPassOver_get in Hin.
    destruct (mapGet first k) as [node0|] eqn:Hk; [|discriminate].
    injection Hin as <-. exists node0. apply mapGet_Some_elem in Hk.
    split; [exact Hk|]. split; [reflexivity|].
    rewrite Forall_forall in Hall. specialize (Hall _ Hk).
    apply analyzeFileContent_Some in Hall as (_ & Hempty & _). exact Hempty. }
  destruct (Hget _ _ HA) as (A0 & HA0 & -> & HemptyA).
  destruct (Hget _ _ HB) as (B0 & HB0 & -> & _).
  simpl. rewrite HemptyA. simpl. rewrite elem_of_recorded. split.
  - intros (B' & i & HB' & Hi & Hrec). exists i.
    assert (B' = B0) as ->.
    { apply mapGet_elem_NoDup in HB', HB0; try exact Hnd. congruence. }
    split; [exact Hi|]. unfold recordsOn in Hrec. apply andb_true_iff in Hrec as [Hint Hres].
    destruct (resolvedPath i) as [r|] eqn:Hr; [|discriminate].
    apply String.eqb_eq in Hres as ->. apply isResolvedInternal_resolvesTo; assumption.
  - intros (i & Hi & Hres). exists B0, i. split; [exact HB0|]. split; [exact Hi|].
    unfold recordsOn. rewrite (resolvesTo_isResolvedInternal _ _ Hne Hres). simpl.
    apply resolvesTo_spec in Hres as [_ ->]. apply String.eqb_refl.
Qed.

(** A path in an [importedBy] is the key of a record that imports. *)
Lemma analyzeProject_importers projectRoot m a A b :
  analyzeProject projectRoot = Returned m ->
  (a, A) ∈ files m -> b ∈ importedBy A ->
  exists B i, (b, B) ∈ files m /\ i ∈ imports B /\ resolvesTo a i = true.
Proof.
  unfold analyzeProject.
  destruct (getAllFiles (initialize projectRoot) projectRoot) as [allFiles|]; [|discriminate].
  intros [= <-]. simpl. set (st := initialize projectRoot).
  destruct (firstPass_analyzed st projectRoot allFiles) as [Hnd Hall].
  set (first := firstPass st projectRoot allFiles) in *.
  change (secondPass first) with (secondPassOver first first).
  intros HA Hb.
  apply mapGet_elem_NoDup in HA; [|rewrite secondPassOver_keys; exact Hnd].
  rewrite secondPassOver_get in HA.
  destruct (mapGet first a) as [A0|] eqn:Ha; [|discriminate].
  injection HA as <-. apply mapGet_Some_elem in Ha.
  rewrite Forall_forall in Hall. pose proof (Hall _ Ha) as HA0.
  apply analyzeFileContent_Some in HA0 as (_ & Hempty & _).
  simpl in Hb, Hempty. rewrite Hempty in Hb. simpl in Hb.
  apply elem_of_recorded in Hb as (B0 & i & HB0 & Hi & Hrec).
  exists (appendImportedBy (recorded b first) B0), i. split; [|split].
  - apply mapGet_Some_elem. rewrite secondPassOver_get.
    rewrite (mapGet_elem_NoDup _ _ _ Hnd HB0). reflexivity.
  - exact Hi.
  - unfold recordsOn in Hrec. apply andb_true_iff in Hrec as [Hint Hres].
    destruct (resolvedPath i) as [r|] eqn:Hr; [|discriminate].
    apply String.eqb_eq in Hres as ->. apply isResolvedInternal_resolvesTo; assumption.
Qed.

End ProjectFacts.

(* ================================================================= *)
(** ** [importedBy] as the inverse of the resolved imports *)

(** The specification's invariant on a graph, in its words: for every
    pair of records A and B of the graph, B's path occurs in
    [A.importedBy] if and only if some import of B resolves to A's path,
    and [A.importedBy] has no duplicate entry. *)
Definition exactInverseWithoutDuplicates (m : Analyzer.ImportMap) : Prop :=
  forall a A b B,
    (a, A) ∈ Analyzer.files m -> (b, B) ∈ Analyzer.files m ->
    (b ∈ Analyzer.importedBy A <->
       exists i, i ∈ Analyzer.imports B /\ Analyzer.resolvesTo a i = true)
    /\ NoDup (Analyzer.importedBy A).

(** C1, as stated, fails in both modes. Whole-project mode: [b.js]
    holds one bound require of [a.js], the extractor reports it twice and
    the second pass appends [b.js] twice to [a.js]'s [importedBy].
    Focused mode: with E importing A and C importing both E and A, the
    graph of E holds A and C, and C is absent from [A.importedBy]. *)
Lemma exactInverse_counterexample :
  (exists m,
      @Analyzer.analyzeProject Examples.unix Examples.requireFs Examples.plainJson "/proj"
        = Analyzer.Returned m
      /\ ~ exactInverseWithoutDuplicates m)
  /\ (exists m,
        @Analyzer.analyzeFile Examples.unix Examples.triangleFs Examples.plainJson
          "/proj/E.ts" "/proj" = Analyzer.Returned m
        /\ ~ exactInverseWithoutDuplicates m).
Proof.
  split.
  - eexists. split; [vm_compute; reflexivity|]. intros Hclaim.
    destruct (Hclaim _ _ _ _ (list_elem_of_here _ _)
                (list_elem_of_further _ _ _ (list_elem_of_here _ _))) as [_ Hnd].
    simpl in Hnd. apply NoDup_cons in Hnd as [Hnotin _]. apply Hnotin, list_elem_of_here.
  - eexists. split; [vm_compute; reflexivity|]. intros Hclaim.
    destruct (Hclaim _ _ _ _
                (list_elem_of_further _ _ _ (list_elem_of_further _ _ _ (list_elem_of_here _ _)))
                (list_elem_of_further _ _ _ (list_elem_of_here _ _))) as [[_ Hin] _].
    simpl in Hin.
    assert (Habsent : "/proj/C.ts" ∈ ["/proj/E.ts"]).
    { apply Hin. eexists. split; [apply list_elem_of_further, list_elem_of_here|].
      vm_compute. reflexivity. }
    apply list_elem_of_singleton in Habsent. discriminate.
Qed.

(** C1, amended. In both modes, a path in [A.importedBy] is the path of
    a record B of the graph one of whose imports resolves to A's path.
    Conversely, in whole-project mode every record B with an import
    resolving to the (non-empty) path of A is in [A.importedBy]; in
    focused mode on E every scanned file other than E that is in the graph
    with an import resolving to E is in [E.importedBy], and every record
    other than E either is an importer of E and has an empty [importedBy],
    or is a dependency of E and has E alone in its [importedBy]. In
    focused mode no [importedBy] has a duplicate entry. *)
Theorem importedBy_inverse_amended :
  forall (P : PathApi) (F : FileSystem) (J : Json) (projectRoot : string),
    (forall m,
        Analyzer.analyzeProject projectRoot = Analyzer.Returned m ->
        (forall a A b,
            (a, A) ∈ Analyzer.files m -> b ∈ Analyzer.importedBy A ->
            exists B i, (b, B) ∈ Analyzer.files m /\ i ∈ Analyzer.imports B
                        /\ Analyzer.resolvesTo a i = true)
        /\ (forall a A b B,
              (a, A) ∈ Analyzer.files m -> (b, B) ∈ Analyzer.files m -> a <> "" ->
              (exists i, i ∈ Analyzer.imports B /\ Analyzer.resolvesTo a i = true) ->
              b ∈ Analyzer.importedBy A))
    /\ (forall filePath m,
          Analyzer.analyzeFile filePath projectRoot = Analyzer.Returned m ->
          (forall a A b,
              (a, A) ∈ Analyzer.files m -> b ∈ Analyzer.importedBy A ->
              exists B i, (b, B) ∈ Analyzer.files m /\ i ∈ Analyzer.imports B
                          /\ Analyzer.resolvesTo a i = true)
          /\ (forall E b B allProjectFiles,
                Analyzer.getAllFiles (Analyzer.initialize projectRoot) projectRoot
                  = Some allProjectFiles ->
                (filePath, E) ∈ Analyzer.files m -> (b, B) ∈ Analyzer.files m ->
                b ∈ allProjectFiles -> b <> filePath ->
                (exists i, i ∈ Analyzer.imports B /\ Analyzer.resolvesTo filePath i = true) ->
                b ∈ Analyzer.importedBy E)
          /\ (forall a A, (a, A) ∈ Analyzer.files m -> NoDup (Analyzer.importedBy A))
          /\ (forall a A,
                (a, A) ∈ Analyzer.files m -> a <> filePath ->
                (Analyzer.importedBy A = []
                 /\ exists i, i ∈ Analyzer.imports A
                              /\ Analyzer.resolvesTo filePath i = true)
                \/ (Analyzer.importedBy A = [filePath]
                    /\ exists E i, (filePath, E) ∈ Analyzer.files m
                                   /\ i ∈ Analyzer.imports E
                                   /\ Analyzer.resolvesTo a i = true))).
Proof.
  intros P F J projectRoot. split.
  - intros m Hm. split.
    + intros a A b HA Hb. eapply analyzeProject_importers; eauto.
    + intros a A b B HA HB Hne Hi. eapply analyzeProject_inverse; eauto.
  - intros filePath m Hm.
    destruct (analyzeFile_Returned _ _ _ Hm)
      as [[_ ->]|(node & found & Hnode & Hscan & _ & Hshape)].
    { simpl. split; [|split; [|split]]; intros;
        match goal with Hin : _ ∈ [] |- _ => inversion Hin end. }
    pose proof (fun k n =>
      focusedShape_entry _ _ _ Hnode found (Analyzer.imports node) (Analyzer.files m) k n
        Hshape) as Hentry.
    assert (Hdependency : forall a A,
              dependencyEntry filePath projectRoot (Analyzer.imports node) (a, A) ->
              exists E i, (filePath, E) ∈ Analyzer.files m /\ i ∈ Analyzer.imports E
                          /\ Analyzer.resolvesTo a i = true).
    { intros a A (i & node0 & Hi & Hint & Hres & _). simpl in Hres.
      destruct Hshape as (importers & dependencies & Hfiles & _).
      eexists _, i. split; [rewrite Hfiles; apply list_elem_of_here|].
      split; [exact Hi|]. apply isResolvedInternal_resolvesTo; assumption. }
    split; [|split; [|split]].
    + intros a A b HA Hb.
      destruct (Hentry _ _ HA)
        as [(-> & _ & _ & Himporters)|[(_ & Hempty & _)|(_ & Hone & Hdep)]].
      * destruct (Himporters b Hb) as (B & HB & _ & _ & _ & Himports). simpl in Himports.
        apply existsb_exists in Himports as [i [Hi Hres]].
        exists B, i. split; [exact HB|]. split; [apply list_elem_of_In, Hi|exact Hres].
      * rewrite Hempty in Hb. inversion Hb.
      * rewrite Hone in Hb. apply list_elem_of_singleton in Hb as ->.
        apply (Hdependency a A Hdep).
    + intros E b B allProjectFiles Hscan' HE HB Hb Hne (i & Hi & Hres).
      assert (found = allProjectFiles) as -> by congruence.
      assert (Hanalyzed : exists node0,
                Analyzer.analyzeFileContent (Analyzer.initialize projectRoot) b projectRoot
                  = Some node0 /\ Analyzer.imports node0 = Analyzer.imports B).
      { destruct (Hentry _ _ HB)
          as [(-> & _)|[(_ & _ & Himp)|(_ & _ & Hdep)]]; [contradiction| |].
        - destruct Himp as (_ & _ & Hnode0 & _). eauto.
        - destruct Hdep as (i' & node0 & _ & _ & _ & Hnode0 & Heq). simpl in Hnode0, Heq.
          exists node0. split; [exact Hnode0|]. rewrite Heq. reflexivity. }
      destruct Hanalyzed as (node0 & Hnode0 & Himports).
      destruct Hshape as (importers & dependencies & Hfiles & Hnd & _ & Hall & _).
      assert (Hin : b ∈ map fst importers).
      { eapply Hall; eauto. rewrite Himports. apply existsb_exists. exists i.
        split; [apply list_elem_of_In, Hi|exact Hres]. }
      rewrite Hfiles in HE. apply elem_of_cons in HE as [[= ->]|HE].
      * simpl. apply elem_of_app. right. exact Hin.
      * exfalso. apply NoDup_cons in Hnd as [HnotE _]. apply HnotE.
        apply (list_elem_of_fmap_2 fst) in HE. exact HE.
    + intros a A HA.
      destruct (Hentry _ _ HA)
        as [(_ & _ & Hnd & _)|[(_ & -> & _)|(_ & -> & _)]].
      * exact Hnd.
      * apply NoDup_nil_2.
      * apply NoDup_singleton.
    + intros a A HA Hne.
      destruct (Hentry _ _ HA) as [(-> & _)|[(_ & Hempty & Himp)|(_ & Hone & Hdep)]];
        [contradiction| |].
      * left. split; [exact Hempty|].
        destruct Himp as (_ & _ & _ & Himports). simpl in Himports.
        apply existsb_exists in Himports as [i [Hi Hres]].
        exists i. split; [apply list_elem_of_In, Hi|exact Hres].
      * right. split; [exact Hone|]. apply (Hdependency a A Hdep).
Qed.

Lemma importedBy_inverse_amended_witness :
  exists m,
    @Analyzer.analyzeProject Examples.unix Examples.twoHopFs Examples.plainJson "/proj"
      = Analyzer.Returned m
    /\ exists A B,
         ("/proj/A.ts", A) ∈ Analyzer.files m /\ ("/proj/E.ts", B) ∈ Analyzer.files m
         /\ "/proj/E.ts" ∈ Analyzer.importedBy A.
Proof.
  eexists. split; [vm_compute; reflexivity|].
  eexists _, _. split; [apply list_elem_of_here|].
  split; [do 4 apply list_elem_of_further; apply list_elem_of_here|].
  refine (proj2 (proj1 (importedBy_inverse_amended Examples.unix Examples.twoHopFs
                          Examples.plainJson "/proj") _ _)
                "/proj/A.ts" _ "/proj/E.ts" _ _ _ _ _).
  - vm_compute. reflexivity.
  - apply list_elem_of_here.
  - do 4 apply list_elem_of_further. apply list_elem_of_here.
  - discriminate.
  - eexists. split; [apply list_elem_of_here|]. vm_compute. reflexivity.
Defined.

(* ================================================================= *)
(** ** Unresolved imports *)


Section Resolution.
Import Analyzer.
Context `{PathApi} `{FileSystem} `{Json}.



(** What [resolveFilePath] returns: an accepted candidate of the first
    loop, else an accepted one of the second, else its argument. *)
Lemma resolveFilePath_cases st filePath :
  (resolveFilePath st filePath ∈ fileCandidates filePath
   /\ acceptsFile st (resolveFilePath st filePath) = true)
  \/ (resolveFilePath st filePath ∈ indexCandidates filePath
      /\ acceptsIndex st (resolveFilePath st filePath) = true
      /\ Forall (fun c => acceptsFile st c = false) (fileCandidates filePath))
  \/ (resolveFilePath st filePath = filePath
      /\ Forall (fun c => acceptsFile st c = false) (fileCandidates filePath)
      /\ Forall (fun c => acceptsIndex st c = false) (indexCandidates filePath)).
Proof.
  unfold resolveFilePath.
  destruct (find (acceptsFile st) (fileCandidates filePath)) as [fullPath|] eqn:Hfile.
  { left. apply find_some in Hfile as [Hin Hacc]. split; [apply list_elem_of_In, Hin|exact Hacc]. }
  assert (Hnofile : Forall (fun c => acceptsFile st c = false) (fileCandidates filePath)).
  { apply List.Forall_forall. intros c Hc. apply (find_none _ _ Hfile c Hc). }
  destruct (find (acceptsIndex st) (indexCandidates filePath)) as [indexPath|] eqn:Hindex.
  { right. left. apply find_some in Hindex as [Hin Hacc].
    split; [apply list_elem_of_In, Hin|]. split; [exact Hacc|exact Hnofile]. }
  right. right. split; [reflexivity|]. split; [exact Hnofile|].
  apply List.Forall_forall. intros c Hc. apply (find_none _ _ Hindex c Hc).
Qed.





(** Every reference that the extractor reports is built by
    [createImportInfo]. *)
Lemma extractImports_created st content filePath projectRoot i :
  i ∈ extractImports st content filePath projectRoot ->
  exists source type,
    i = createImportInfo st source (path_dirname filePath) projectRoot type.
Proof.
  unfold extractImports, extractImportsWithRegex. intros Hi.
  rewrite !elem_of_app in Hi. destruct Hi as [Hi|[Hi|Hi]].
  - apply list_elem_of_In, in_flat_map in Hi as [pattern [_ Hi]].
    apply in_map_iff in Hi as [m [<- _]]. eauto.
  - apply list_elem_of_In, in_flat_map in Hi as [[pattern mentionsRequire] [_ Hi]].
    apply in_map_iff in Hi as [m [<- _]]. eauto.
  - apply list_elem_of_In, in_map_iff in Hi as [m [<- _]]. eauto.
Qed.



End Resolution.



(** The slip behind the second case: an ignored file is a node of the
    focused graph of a file that imports it by its literal path. *)
Example ignored_file_is_traversed :
  exists m,
    @Analyzer.analyzeFile Examples.unix Examples.unresolvedFs Examples.plainJson
      "/proj/E.ts" "/proj" = Analyzer.Returned m
    /\ "/proj/secret.ts" ∈ Analyzer.mapKeys (Analyzer.files m)
    /\ @Analyzer.ignored Examples.unix Examples.unresolvedFs
         (@Analyzer.initialize Examples.unix Examples.unresolvedFs Examples.plainJson "/proj")
         "/proj/secret.ts" = true.
Proof.
  eexists. split; [vm_compute; reflexivity|]. split; [|vm_compute; reflexivity].
  simpl. apply list_elem_of_further, list_elem_of_here.
Qed.

(** The same slip with something that is not a regular file: an import
    of the device [/dev/null], which no candidate names as a file, keeps
    that path, and the focused build reads it and adds it to the graph. *)
Example device_is_traversed :
  exists m,
    @Analyzer.analyzeFile Examples.unix Examples.deviceFs Examples.plainJson
      "/proj/E.ts" "/proj" = Analyzer.Returned m
    /\ "/dev/null" ∈ Analyzer.mapKeys (Analyzer.files m)
    /\ @statIsFile Examples.deviceFs "/dev/null" = false.
Proof.
  eexists. split; [vm_compute; reflexivity|]. split; [|vm_compute; reflexivity].
  simpl. apply list_elem_of_further, list_elem_of_here.
Qed.



(* ================================================================= *)
(** ** Layout *)

Section LayoutFacts.
Import Layout.
Variable measureText : string -> Q.
Variables cos sin : Q -> Q.
Variable PI : Q.
Variables canvasWidth canvasHeight devicePixelRatio : Q.

Local Abbreviation sizeOf := (Layout.sizeOf measureText).
Local Abbreviation nodesOverlap := (Layout.nodesOverlap measureText).
Local Abbreviation collides := (Layout.collides measureText).
Local Abbreviation spiralSearch :=
  (Layout.spiralSearch measureText cos sin PI canvasWidth canvasHeight devicePixelRatio).
Local Abbreviation placeNode :=
  (Layout.placeNode measureText cos sin PI canvasWidth canvasHeight devicePixelRatio).
Local Abbreviation placeOthers :=
  (Layout.placeOthers measureText cos sin PI canvasWidth canvasHeight devicePixelRatio).
Local Abbreviation spiralPlacements :=
  (Layout.spiralPlacements measureText cos sin PI canvasWidth canvasHeight devicePixelRatio).
Local Abbreviation spiralLayout :=
  (Layout.spiralLayout measureText cos sin PI canvasWidth canvasHeight devicePixelRatio).
Local Abbreviation freshLayout :=
  (Layout.freshLayout measureText cos sin PI canvasWidth canvasHeight devicePixelRatio).
Local Abbreviation layoutNodes :=
  (Layout.layoutNodes measureText cos sin PI canvasWidth canvasHeight devicePixelRatio).
Local Abbreviation writeBack := (Layout.writeBack canvasWidth canvasHeight devicePixelRatio).
Local Abbreviation gridLayout := (Layout.gridLayout canvasWidth canvasHeight devicePixelRatio).
Local Abbreviation centre :=
  (Num (Layout.centerX canvasWidth devicePixelRatio),
   Num (Layout.centerY canvasHeight devicePixelRatio)).

(** *** A valid position collides with nothing placed before *)

Lemma spiralSearch_step fuel attempts layer node currentNode index placed :
  spiralSearch (S fuel) attempts layer node currentNode index placed
  = if Nat.ltb attempts 100 then
      let '(px, py) :=
        spiralPosition cos sin PI canvasWidth canvasHeight devicePixelRatio index layer in
      if outOfBounds canvasWidth canvasHeight devicePixelRatio (sizeOf node) px py then
        spiralSearch fuel (S attempts) (S layer) node currentNode index placed
      else if collides (setPosition node (Num px) (Num py)) currentNode placed then
        spiralSearch fuel (S attempts)
          (if Nat.eqb (attempts mod 8) 7 then S layer else layer)
          node currentNode index placed
      else Some (px, py)
    else None.
Proof. reflexivity. Qed.

Lemma spiralSearch_valid fuel attempts layer node currentNode index placed px py :
  spiralSearch fuel attempts layer node currentNode index placed = Some (px, py) ->
  collides (setPosition node (Num px) (Num py)) currentNode placed = false.
Proof.
  revert attempts layer. induction fuel as [|fuel IH]; intros attempts layer;
    [discriminate|].
  rewrite spiralSearch_step.
  destruct (Nat.ltb attempts 100); [|discriminate].
  destruct (spiralPosition cos sin PI canvasWidth canvasHeight devicePixelRatio index layer)
    as [qx qy].
  destruct (outOfBounds canvasWidth canvasHeight devicePixelRatio (sizeOf node) qx qy);
    [apply IH|].
  destruct (collides (setPosition node (Num qx) (Num qy)) currentNode placed) eqn:Hcollides;
    [apply IH|].
  intros [= <- <-]. exact Hcollides.
Qed.

Definition positioned (n : Node) : Prop :=
  exists px py, x n = Num px /\ y n = Num py.

Lemma placeNode_positioned currentNode total index placed node :
  positioned (fst (placeNode currentNode total index placed node)).
Proof.
  unfold Layout.placeNode.
  destruct (spiralSearch 100 0 0 node currentNode index placed) as [[px py]|].
  - simpl. exists px, py. split; reflexivity.
  - destruct (fallbackPosition cos sin PI canvasWidth canvasHeight devicePixelRatio index total)
      as [px py]. simpl. exists px, py. split; reflexivity.
Qed.

Lemma placeNode_valid currentNode total index placed node placedNode :
  Forall positioned placed ->
  placeNode currentNode total index placed node = (placedNode, true) ->
  nodesOverlap placedNode currentNode = false
  /\ Forall (fun other => nodesOverlap placedNode other = false) placed.
Proof.
  intros Hplaced. unfold Layout.placeNode.
  destruct (spiralSearch 100 0 0 node currentNode index placed) as [[px py]|] eqn:Hsearch.
  - intros [= <-]. apply spiralSearch_valid in Hsearch. unfold Layout.collides in Hsearch.
    apply orb_false_iff in Hsearch as [Hcurrent Hothers]. split; [exact Hcurrent|].
    apply Forall_forall. intros other Hother.
    rewrite Forall_forall in Hplaced. destruct (Hplaced _ Hother) as (ox & oy & Hx & Hy).
    apply list_elem_of_In in Hother.
    destruct (nodesOverlap (setPosition node (Num px) (Num py)) other) eqn:Hoverlap;
      [|reflexivity].
    exfalso. apply not_true_iff_false in Hothers. apply Hothers.
    apply existsb_exists. exists other. split; [exact Hother|].
    rewrite Hx, Hy, Hoverlap. reflexivity.
  - destruct (fallbackPosition cos sin PI canvasWidth canvasHeight devicePixelRatio index total).
    discriminate.
Qed.

(** The invariant of [otherNodes.forEach]: every node placed at a valid
    position overlaps neither the current node nor any node of lower
    rank. *)
Definition separated (currentNode : Node) (placed : list (Node * bool)) : Prop :=
  Forall positioned (map fst placed)
  /\ forall j nj, placed !! j = Some (nj, true) ->
       nodesOverlap nj currentNode = false
       /\ forall i ni flag, (i < j)%nat -> placed !! i = Some (ni, flag) ->
            nodesOverlap nj ni = false.

Lemma separated_snoc currentNode total placed node :
  separated currentNode placed ->
  separated currentNode
    (placed ++ [placeNode currentNode total (length placed) (map fst placed) node]).
Proof.
  intros [Hpos Hsep]. split.
  - rewrite map_app. apply Forall_app. split; [exact Hpos|].
    apply Forall_singleton, placeNode_positioned.
  - intros j nj Hj. destruct (decide (j < length placed)%nat) as [Hlt|Hge].
    + rewrite lookup_app_l in Hj by exact Hlt. destruct (Hsep j nj Hj) as [Hcur Hlow].
      split; [exact Hcur|]. intros i ni flag Hi Hlook.
      rewrite lookup_app_l in Hlook by lia. eapply Hlow; eauto.
    + rewrite lookup_app_r in Hj by lia.
      destruct (j - length placed)%nat as [|k] eqn:Hk; [|destruct k; discriminate].
      simpl in Hj. injection Hj as Hj.
      destruct (placeNode_valid _ _ _ _ _ _ Hpos Hj) as [Hcur Hothers].
      split; [exact Hcur|]. intros i ni flag Hi Hlook.
      rewrite lookup_app_l in Hlook by lia.
      rewrite Forall_forall in Hothers. apply Hothers.
      apply list_elem_of_fmap. exists (ni, flag). split; [reflexivity|].
      apply list_elem_of_lookup. exists i. exact Hlook.
Qed.

Lemma placeOthers_separated currentNode total todo placed :
  separated currentNode placed ->
  separated currentNode (placeOthers currentNode total (length placed) placed todo).
Proof.
  revert placed. induction todo as [|node todo IH]; intros placed Hsep; simpl; [exact Hsep|].
  specialize (IH (placed ++ [placeNode currentNode total (length placed) (map fst placed) node])).
  rewrite length_app in IH. simpl in IH. rewrite Nat.add_1_r in IH.
  apply IH, separated_snoc, Hsep.
Qed.

Lemma spiralPlacements_separated nodes currentNode :
  separated (setPosition currentNode (fst centre) (snd centre))
            (spiralPlacements nodes currentNode).
Proof.
  unfold Layout.spiralPlacements.
  apply (placeOthers_separated _ _ _ []). split; [constructor|].
  intros j nj Hj. discriminate.
Qed.

(** *** The placements are the positions of the laid-out nodes *)

Lemma placeNode_isCurrentFile currentNode total index placed node :
  isCurrentFile (fst (placeNode currentNode total index placed node)) = isCurrentFile node.
Proof.
  unfold Layout.placeNode.
  destruct (spiralSearch 100 0 0 node currentNode index placed) as [[px py]|]; [reflexivity|].
  destruct (fallbackPosition cos sin PI canvasWidth canvasHeight devicePixelRatio index total).
  reflexivity.
Qed.

Lemma placeOthers_notCurrent currentNode total index placed todo :
  Forall (fun n => isCurrentFile n = false) (map fst placed) ->
  Forall (fun n => isCurrentFile n = false) todo ->
  Forall (fun n => isCurrentFile n = false)
         (map fst (placeOthers currentNode total index placed todo)).
Proof.
  revert index placed. induction todo as [|node todo IH]; intros index placed Hplaced Htodo;
    simpl; [exact Hplaced|].
  apply Forall_cons in Htodo as [Hnode Htodo]. apply IH; [|exact Htodo].
  rewrite map_app. apply Forall_app. split; [exact Hplaced|].
  apply Forall_singleton. rewrite placeNode_isCurrentFile. exact Hnode.
Qed.

Lemma placeOthers_length currentNode total index placed todo :
  length (placeOthers currentNode total index placed todo)
  = (length placed + length todo)%nat.
Proof.
  revert index placed. induction todo as [|node todo IH]; intros index placed; simpl;
    [lia|]. rewrite IH, length_app. simpl. lia.
Qed.

Lemma writeBack_others nodes centred others :
  length others = length (filter (fun n => isCurrentFile n = false) nodes) ->
  Forall (fun n => isCurrentFile n = false) others ->
  filter (fun n => isCurrentFile n = false) (writeBack nodes centred others) = others.
Proof.
  revert centred others. induction nodes as [|node nodes IH]; intros centred others Hlen Hothers.
  - destruct others; [reflexivity|discriminate].
  - simpl. destruct (isCurrentFile node) eqn:Hcurrent.
    + rewrite filter_cons_False in Hlen by congruence.
      rewrite filter_cons_False by (destruct centred; simpl; congruence).
      apply IH; assumption.
    + rewrite filter_cons_True in Hlen by exact Hcurrent.
      destruct others as [|placed others]; [discriminate|].
      apply Forall_cons in Hothers as [Hplaced Hothers].
      rewrite filter_cons_True by exact Hplaced. f_equal.
      apply IH; [simpl in Hlen; lia|exact Hothers].
Qed.

Lemma spiralLayout_others nodes currentNode :
  filter (fun n => isCurrentFile n = false) (spiralLayout nodes currentNode)
  = map fst (spiralPlacements nodes currentNode).
Proof.
  unfold Layout.spiralLayout, Layout.spiralPlacements. apply writeBack_others.
  - rewrite length_map, placeOthers_length. reflexivity.
  - apply placeOthers_notCurrent; [constructor|].
    apply Forall_forall. intros n Hn. apply list_elem_of_filter in Hn as [Hn _]. exact Hn.
Qed.

(** *** The overlap test and the boxes *)

Local Open Scope Q_scope.

(** The point [(px, py)] lies in the box of [n]: the rectangle of the
    size of [n] around its centre. *)
Definition insideBox (n : Node) (px py : Q) : Prop :=
  exists cx cy,
    x n = Num cx /\ y n = Num cy
    /\ Qabs (px - cx) <= width (sizeOf n) / 2
    /\ Qabs (py - cy) <= height (sizeOf n) / 2.

Lemma Qltb_false a b : Qltb a b = false -> b <= a.
Proof.
  unfold Qltb. intros Hlt. apply negb_false_iff in Hlt. apply Qle_bool_iff, Hlt.
Qed.

Lemma far_apart a b c wa wb : wa + wb + 20 <= Qabs (a - b) ->
  Qabs (c - a) <= wa -> Qabs (c - b) <= wb -> False.
Proof.
  intros Hfar Ha Hb.
  apply Qabs_Qle_condition in Ha as [Ha1 Ha2].
  apply Qabs_Qle_condition in Hb as [Hb1 Hb2].
  destruct (Qlt_le_dec (a - b) 0) as [Hneg|Hpos].
  - rewrite Qabs_neg in Hfar by lra. lra.
  - rewrite Qabs_pos in Hfar by exact Hpos. lra.
Qed.

Lemma nodesOverlap_false_disjoint n1 n2 px py :
  positioned n1 -> positioned n2 ->
  nodesOverlap n1 n2 = false ->
  ~ (insideBox n1 px py /\ insideBox n2 px py).
Proof.
  intros (x1 & y1 & Hx1 & Hy1) (x2 & y2 & Hx2 & Hy2) Hoverlap
         [(cx1 & cy1 & Hcx1 & Hcy1 & Hw1 & Hh1) (cx2 & cy2 & Hcx2 & Hcy2 & Hw2 & Hh2)].
  unfold Layout.nodesOverlap in Hoverlap. rewrite Hx1, Hy1, Hx2, Hy2 in Hoverlap.
  rewrite Hx1 in Hcx1. rewrite Hy1 in Hcy1. rewrite Hx2 in Hcx2. rewrite Hy2 in Hcy2.
  injection Hcx1 as <-. injection Hcy1 as <-. injection Hcx2 as <-. injection Hcy2 as <-.
  unfold centresOverlap in Hoverlap. apply andb_false_iff in Hoverlap as [Hfar|Hfar];
    apply Qltb_false in Hfar.
  - exact (far_apart _ _ _ _ _ Hfar Hw1 Hw2).
  - exact (far_apart _ _ _ _ _ Hfar Hh1 Hh2).
Qed.

Local Close Scope Q_scope.

(** *** The layout reads no coordinate it has not written *)

(** A node without its coordinates. *)
Definition blank (n : Node) : Node := setPosition n Undefined Undefined.

Lemma blank_static n1 n2 : static n1 = static n2 -> blank n1 = blank n2.
Proof.
  destruct n1, n2. unfold static, blank, setPosition. simpl. intros [= -> -> -> ->].
  reflexivity.
Qed.

Lemma map_blank_static nodes1 nodes2 :
  map static nodes1 = map static nodes2 -> map blank nodes1 = map blank nodes2.
Proof.
  revert nodes2. induction nodes1 as [|n1 nodes1 IH]; intros [|n2 nodes2] Heq;
    cbn [map] in *; try discriminate; [reflexivity|].
  assert (Hn : static n1 = static n2)
    by exact (f_equal (fun l => List.hd (static n1) l) Heq).
  assert (Hrest : map static nodes1 = map static nodes2)
    by exact (f_equal (@List.tl _) Heq). rewrite (blank_static _ _ Hn). f_equal.
  apply IH. exact Hrest.
Qed.

Lemma setPosition_blank n px py : setPosition (blank n) px py = setPosition n px py.
Proof. reflexivity. Qed.

Lemma sizeOf_blank n : sizeOf (blank n) = sizeOf n.
Proof. reflexivity. Qed.

Lemma spiralSearch_blank fuel attempts layer node currentNode index placed :
  spiralSearch fuel attempts layer (blank node) currentNode index placed
  = spiralSearch fuel attempts layer node currentNode index placed.
Proof.
  revert attempts layer. induction fuel as [|fuel IH]; intros attempts layer; [reflexivity|].
  rewrite !spiralSearch_step, sizeOf_blank.
  destruct (Nat.ltb attempts 100); [|reflexivity].
  destruct (spiralPosition cos sin PI canvasWidth canvasHeight devicePixelRatio index layer)
    as [qx qy].
  rewrite setPosition_blank, !IH. reflexivity.
Qed.

Lemma placeNode_blank currentNode total index placed node :
  placeNode currentNode total index placed (blank node)
  = placeNode currentNode total index placed node.
Proof. unfold Layout.placeNode. rewrite spiralSearch_blank. reflexivity. Qed.

Lemma placeOthers_blank currentNode total index placed todo :
  placeOthers currentNode total index placed (map blank todo)
  = placeOthers currentNode total index placed todo.
Proof.
  revert index placed. induction todo as [|node todo IH]; intros index placed; simpl;
    [reflexivity|]. rewrite placeNode_blank. apply IH.
Qed.

Lemma filter_blank nodes :
  filter (fun n => isCurrentFile n = false) (map blank nodes)
  = map blank (filter (fun n => isCurrentFile n = false) nodes).
Proof.
  induction nodes as [|node nodes IH]; [reflexivity|]. simpl.
  destruct (isCurrentFile node) eqn:Hcurrent.
  - rewrite !filter_cons_False by (simpl; congruence). exact IH.
  - rewrite !filter_cons_True by (simpl; congruence). simpl. rewrite IH. reflexivity.
Qed.

Lemma spiralPlacements_blank nodes currentNode :
  spiralPlacements (map blank nodes) (blank currentNode)
  = spiralPlacements nodes currentNode.
Proof.
  unfold Layout.spiralPlacements. rewrite setPosition_blank, filter_blank, placeOthers_blank.
  rewrite length_map. reflexivity.
Qed.

Lemma find_blank nodes :
  find isCurrentFile (map blank nodes) = blank <$> find isCurrentFile nodes.
Proof.
  induction nodes as [|node nodes IH]; [reflexivity|]. simpl.
  destruct (isCurrentFile node); [reflexivity|exact IH].
Qed.

(** The current-file nodes of a list: the layout centres the first. *)
Definition currentCount (nodes : list Node) : nat :=
  length (List.filter isCurrentFile nodes).

Lemma writeBack_blank nodes (centred : bool) (others : list Node) :
  (currentCount nodes <= if centred then 0 else 1)%nat ->
  length others = length (filter (fun n => isCurrentFile n = false) nodes) ->
  writeBack (map blank nodes) centred others = writeBack nodes centred others.
Proof.
  unfold currentCount. revert centred others.
  induction nodes as [|node nodes IH]; intros centred others Hcount Hlen; [reflexivity|].
  simpl in *. destruct (isCurrentFile node) eqn:Hcurrent.
  - simpl in Hcount. destruct centred; [lia|].
    rewrite filter_cons_False in Hlen by congruence.
    rewrite setPosition_blank. f_equal. apply IH; [lia|exact Hlen].
  - rewrite filter_cons_True in Hlen by exact Hcurrent.
    destruct others as [|placed others]; [discriminate|]. f_equal.
    apply IH; [exact Hcount|simpl in Hlen; lia].
Qed.

Lemma gridLayout_blank index nodes :
  gridLayout index (map blank nodes) = gridLayout index nodes.
Proof.
  revert index. induction nodes as [|node nodes IH]; intros index; simpl; [reflexivity|].
  destruct (gridPosition canvasWidth canvasHeight devicePixelRatio index) as [gx gy].
  rewrite setPosition_blank, IH. reflexivity.
Qed.

Lemma freshLayout_blank nodes :
  (currentCount nodes <= 1)%nat ->
  freshLayout (map blank nodes) = freshLayout nodes.
Proof.
  intros Hcount. unfold Layout.freshLayout. rewrite find_blank.
  destruct (find isCurrentFile nodes) as [currentNode|]; simpl.
  - unfold Layout.spiralLayout. rewrite spiralPlacements_blank.
    apply writeBack_blank; [exact Hcount|].
    unfold Layout.spiralPlacements. rewrite length_map, placeOthers_length. reflexivity.
  - apply gridLayout_blank.
Qed.

(** The layout writes coordinates only. *)
Lemma placeNode_static currentNode total index placed node :
  static (fst (placeNode currentNode total index placed node)) = static node.
Proof.
  unfold Layout.placeNode.
  destruct (spiralSearch 100 0 0 node currentNode index placed) as [[px py]|]; [reflexivity|].
  destruct (fallbackPosition cos sin PI canvasWidth canvasHeight devicePixelRatio index total).
  reflexivity.
Qed.

Lemma placeOthers_static currentNode total index placed todo :
  map static (map fst (placeOthers currentNode total index placed todo))
  = map static (map fst placed) ++ map static todo.
Proof.
  revert index placed. induction todo as [|node todo IH]; intros index placed; simpl.
  - rewrite app_nil_r. reflexivity.
  - rewrite IH, !map_app. simpl. rewrite placeNode_static, <- app_assoc. reflexivity.
Qed.

Lemma writeBack_static nodes centred others :
  map static others = map static (filter (fun n => isCurrentFile n = false) nodes) ->
  map static (writeBack nodes centred others) = map static nodes.
Proof.
  revert centred others. induction nodes as [|node nodes IH]; intros centred others Hothers;
    [reflexivity|].
  simpl. destruct (isCurrentFile node) eqn:Hcurrent.
  - rewrite filter_cons_False in Hothers by congruence.
    simpl. rewrite (IH _ _ Hothers). destruct centred; reflexivity.
  - rewrite filter_cons_True in Hothers by exact Hcurrent.
    destruct others as [|placed others]; [discriminate|].
    cbn [map] in Hothers.
    assert (Hplaced : static placed = static node)
      by exact (f_equal (fun l => List.hd (static node) l) Hothers).
    assert (Hrest : map static others
                    = map static (filter (fun n => isCurrentFile n = false) nodes))
      by exact (f_equal (@List.tl _) Hothers).
    cbn [map]. rewrite Hplaced, (IH _ _ Hrest). reflexivity.
Qed.

Lemma gridLayout_static index nodes :
  map static (gridLayout index nodes) = map static nodes.
Proof.
  revert index. induction nodes as [|node nodes IH]; intros index; simpl; [reflexivity|].
  destruct (gridPosition canvasWidth canvasHeight devicePixelRatio index) as [gx gy].
  cbn [map]. rewrite IH. reflexivity.
Qed.

Lemma freshLayout_static nodes : map static (freshLayout nodes) = map static nodes.
Proof.
  unfold Layout.freshLayout. destruct (find isCurrentFile nodes) as [currentNode|].
  - unfold Layout.spiralLayout, Layout.spiralPlacements. apply writeBack_static.
    rewrite placeOthers_static. reflexivity.
  - apply gridLayout_static.
Qed.

(** With nothing stored, [layoutNodes] is the fresh layout. *)
Lemma layoutNodes_nothing_stored forceNew nodes :
  layoutNodes forceNew nodes None
  = (match nodes with [] => [] | _ => freshLayout nodes end, None).
Proof. destruct nodes; [reflexivity|]. destruct forceNew; reflexivity. Qed.

Lemma currentCount_static nodes1 nodes2 :
  map static nodes1 = map static nodes2 -> currentCount nodes1 = currentCount nodes2.
Proof.
  unfold currentCount. revert nodes2.
  induction nodes1 as [|n1 nodes1 IH]; intros [|n2 nodes2] Heq; cbn [map] in *;
    try discriminate; [reflexivity|].
  assert (Hn : static n1 = static n2)
    by exact (f_equal (fun l => List.hd (static n1) l) Heq).
  assert (Hrest : map static nodes1 = map static nodes2)
    by exact (f_equal (@List.tl _) Heq). assert (Hcur : isCurrentFile n1 = isCurrentFile n2).
  { unfold static in Hn. congruence. }
  simpl. rewrite Hcur. destruct (isCurrentFile n2); simpl; rewrite (IH _ Hrest); reflexivity.
Qed.

(** *** Saved positions *)

Lemma layoutNodes_restore nodes positions :
  nodes <> [] ->
  belowThreshold
    (length (filter (fun i => i ∈ dom positions) (elements (list_to_set (map id nodes) : gset string))))
    (Nat.max (base.size (list_to_set (map id nodes) : gset string)) (base.size (dom positions)))
  = false ->
  (exists n, n ∈ nodes /\ is_Some (positions !! id n)) ->
  layoutNodes false nodes (Some (SavedPositions positions))
  = (map (restorePosition positions) nodes, Some (SavedPositions positions)).
Proof.
  intros Hnodes Hthreshold (n & Hn & Hsaved).
  unfold Layout.layoutNodes, loadNodePositions. rewrite Hthreshold.
  destruct nodes as [|n0 nodes]; [contradiction|].
  assert (Hrestored : Nat.ltb 0
            (length (filter (fun n => is_Some (positions !! id n)) (n0 :: nodes))) = true).
  { apply Nat.ltb_lt.
    assert (Hin : n ∈ filter (fun n => is_Some (positions !! id n)) (n0 :: nodes))
      by (apply list_elem_of_filter; split; assumption).
    destruct (filter (fun n => is_Some (positions !! id n)) (n0 :: nodes));
      [inversion Hin|simpl; lia]. }
  rewrite Hrestored. reflexivity.
Qed.

Lemma layoutNodes_discard nodes positions :
  nodes <> [] ->
  belowThreshold
    (length (filter (fun i => i ∈ dom positions) (elements (list_to_set (map id nodes) : gset string))))
    (Nat.max (base.size (list_to_set (map id nodes) : gset string)) (base.size (dom positions)))
  = true ->
  layoutNodes false nodes (Some (SavedPositions positions)) = (freshLayout nodes, None).
Proof.
  intros Hnodes Hthreshold. unfold Layout.layoutNodes, loadNodePositions.
  rewrite Hthreshold. destruct nodes; [contradiction|reflexivity].
Qed.

Lemma restorePosition_unsaved positions n :
  positions !! id n = None -> restorePosition positions n = n.
Proof. unfold restorePosition. intros ->. reflexivity. Qed.

End LayoutFacts.

Section LayoutSymmetry.
Import Layout.
Variable measureText : string -> Q.

Lemma Qltb_compat a b b' : (b == b')%Q -> Qltb a b = Qltb a b'.
Proof. intros Heq. unfold Qltb. rewrite Heq. reflexivity. Qed.

Lemma nodesOverlap_sym n1 n2 :
  Layout.nodesOverlap measureText n1 n2 = Layout.nodesOverlap measureText n2 n1.
Proof.
  unfold Layout.nodesOverlap.
  destruct (x n1) as [| |x1], (y n1) as [| |y1], (x n2) as [| |x2], (y n2) as [| |y2];
    try reflexivity.
  unfold centresOverlap. rewrite (Qabs_Qminus x1 x2), (Qabs_Qminus y1 y2).
  f_equal; apply Qltb_compat; ring.
Qed.

End LayoutSymmetry.

(** C6. In the spiral layout around a current node, take any two other
    nodes that were both placed at a valid position, that is without the
    fallback. Both are nodes of the laid-out list, the overlap test of
    the layout (half sizes plus a gap of 20) is false on them, and their
    boxes, of the sizes derived from the labels, have no point in common.
    The same holds for each such node and the current node at the centre. *)
Theorem spiral_boxes_disjoint :
  forall (measureText : string -> Q) (cos sin : Q -> Q)
         (PI canvasWidth canvasHeight devicePixelRatio : Q)
         (nodes : list Layout.Node) (currentNode ni nj : Layout.Node) (i j : nat),
    let placements :=
      Layout.spiralPlacements measureText cos sin PI canvasWidth canvasHeight
        devicePixelRatio nodes currentNode in
    let laidOut :=
      Layout.freshLayout measureText cos sin PI canvasWidth canvasHeight
        devicePixelRatio nodes in
    let centred :=
      Layout.setPosition currentNode
        (Panel.Num (Layout.centerX canvasWidth devicePixelRatio))
        (Panel.Num (Layout.centerY canvasHeight devicePixelRatio)) in
    find Layout.isCurrentFile nodes = Some currentNode ->
    i <> j ->
    placements !! i = Some (ni, true) ->
    placements !! j = Some (nj, true) ->
    ni ∈ laidOut /\ nj ∈ laidOut
    /\ Layout.nodesOverlap measureText ni nj = false
    /\ ~ (exists px py, insideBox measureText ni px py /\ insideBox measureText nj px py)
    /\ Layout.nodesOverlap measureText nj centred = false
    /\ ~ (exists px py, insideBox measureText nj px py /\ insideBox measureText centred px py).
Proof.
  intros measureText cos sin PI canvasWidth canvasHeight devicePixelRatio
         nodes currentNode ni nj i j placements laidOut centred Hfind Hij Hi Hj.
  pose proof (spiralPlacements_separated measureText cos sin PI canvasWidth canvasHeight
                devicePixelRatio nodes currentNode) as [Hpos Hsep].
  fold placements in Hpos, Hsep. simpl in Hsep. fold centred in Hsep.
  assert (Hmember : forall k nk flag, placements !! k = Some (nk, flag) ->
            nk ∈ laidOut /\ positioned nk).
  { intros k nk flag Hk.
    assert (Hin : nk ∈ map fst placements).
    { apply list_elem_of_fmap. exists (nk, flag). split; [reflexivity|].
      apply list_elem_of_lookup. exists k. exact Hk. }
    split; [|rewrite Forall_forall in Hpos; apply Hpos, Hin].
    unfold laidOut, Layout.freshLayout. rewrite Hfind.
    unfold placements in Hin. rewrite <- spiralLayout_others in Hin.
    apply list_elem_of_filter in Hin as [_ Hin]. exact Hin. }
  destruct (Hmember _ _ _ Hi) as [Hini Hposi].
  destruct (Hmember _ _ _ Hj) as [Hinj Hposj].
  destruct (Hsep _ _ Hi) as [Hicur Hilow]. destruct (Hsep _ _ Hj) as [Hjcur Hjlow].
  assert (Hoverlap : Layout.nodesOverlap measureText ni nj = false).
  { destruct (decide (i < j)%nat) as [Hlt|Hge].
    - rewrite nodesOverlap_sym. eapply Hjlow; eauto.
    - eapply Hilow; [|exact Hj]. lia. }
  assert (Hcentred : positioned centred).
  { eexists _, _. split; reflexivity. }
  split; [exact Hini|]. split; [exact Hinj|]. split; [exact Hoverlap|]. split.
  - intros (px & py & Hboth).
    exact (nodesOverlap_false_disjoint measureText ni nj px py Hposi Hposj Hoverlap Hboth).
  - split; [exact Hjcur|]. intros (px & py & Hboth).
    exact (nodesOverlap_false_disjoint measureText nj centred px py Hposj Hcentred Hjcur Hboth).
Qed.

Lemma spiral_boxes_disjoint_witness :
  exists ni nj,
    Examples.placementsOf Examples.pageNodes
      (Examples.pageNode "/proj/E.ts" true Panel.Undefined Panel.Undefined) !! 0%nat
    = Some (ni, true)
    /\ Examples.placementsOf Examples.pageNodes
         (Examples.pageNode "/proj/E.ts" true Panel.Undefined Panel.Undefined) !! 1%nat
       = Some (nj, true)
    /\ Layout.nodesOverlap Examples.measure ni nj = false
    /\ ~ (exists px py, insideBox Examples.measure ni px py
                        /\ insideBox Examples.measure nj px py).
Proof.
  eexists _, _.
  split; [vm_compute; reflexivity|]. split; [vm_compute; reflexivity|].
  refine (let H := spiral_boxes_disjoint Examples.measure Examples.cosApprox
                     Examples.sinApprox Examples.piApprox 1600 1200 1 Examples.pageNodes
                     (Examples.pageNode "/proj/E.ts" true Panel.Undefined Panel.Undefined)
                     _ _ 0 1 _ _ _ _ in
          conj (proj1 (proj2 (proj2 H))) (proj1 (proj2 (proj2 (proj2 H))))).
  - reflexivity.
  - discriminate.
  - vm_compute. reflexivity.
  - vm_compute. reflexivity.
Defined.

(** C9. With no persisted positions, the layout of two node lists that
    agree on ids, labels, current-file flags and measured sizes, on the
    same canvas, is the same list of nodes: in particular every node
    gets the same coordinates in both runs, whatever coordinates the
    nodes had before. A page has at most one current-file node. *)
Theorem layout_deterministic :
  forall (measureText : string -> Q) (cos sin : Q -> Q)
         (PI canvasWidth canvasHeight devicePixelRatio : Q)
         (forceNew : bool) (nodes1 nodes2 : list Layout.Node),
    let run := Layout.layoutNodes measureText cos sin PI canvasWidth canvasHeight
                 devicePixelRatio forceNew in
    map Layout.static nodes1 = map Layout.static nodes2 ->
    (currentCount nodes1 <= 1)%nat ->
    fst (run nodes1 None) = fst (run nodes2 None)
    /\ map Layout.position (fst (run nodes1 None)) = map Layout.position (fst (run nodes2 None))
    /\ map Layout.static (fst (run nodes1 None)) = map Layout.static nodes1.
Proof.
  intros measureText cos sin PI canvasWidth canvasHeight devicePixelRatio forceNew
         nodes1 nodes2 run Hstatic Hcount.
  assert (Hsame : fst (run nodes1 None) = fst (run nodes2 None)).
  { unfold run. rewrite !layoutNodes_nothing_stored. simpl.
    pose proof (currentCount_static _ _ Hstatic) as Hcount2.
    pose proof (map_blank_static _ _ Hstatic) as Hblank.
    destruct nodes1 as [|n1 nodes1], nodes2 as [|n2 nodes2]; try discriminate;
      [reflexivity|].
    rewrite <- (freshLayout_blank _ _ _ _ _ _ _ (n1 :: nodes1)) by exact Hcount.
    rewrite <- (freshLayout_blank _ _ _ _ _ _ _ (n2 :: nodes2)) by lia.
    rewrite Hblank. reflexivity. }
  split; [exact Hsame|]. split; [rewrite Hsame; reflexivity|].
  unfold run. rewrite layoutNodes_nothing_stored. simpl.
  destruct nodes1 as [|n1 nodes1]; [reflexivity|].
  apply freshLayout_static.
Qed.

Lemma layout_deterministic_witness :
  fst (Examples.layoutOf Examples.pageNodes None)
  = fst (Examples.layoutOf Examples.draggedNodes None).
Proof.
  refine (proj1 (layout_deterministic Examples.measure Examples.cosApprox Examples.sinApprox
                   Examples.piApprox 1600 1200 1 false Examples.pageNodes
                   Examples.draggedNodes _ _)).
  - reflexivity.
  - vm_compute. lia.
Defined.

(* ================================================================= *)
(** ** Saved positions: the reuse threshold *)

(** The threshold test on counts: below when the larger set is not
    empty and ten times the shared ids are fewer than seven times it. *)
Lemma belowThreshold_spec shared larger :
  Layout.belowThreshold shared larger = true <->
  larger <> 0%nat /\ (10 * shared < 7 * larger)%nat.
Proof.
  unfold Layout.belowThreshold. destruct larger as [|larger]; [split; [discriminate|lia]|].
  unfold Layout.Qltb. rewrite negb_true_iff, <- not_true_iff_false, Qle_bool_iff.
  unfold Qle. simpl. split.
  - intros Hlt. split; [discriminate|]. lia.
  - intros [_ Hlt]. lia.
Qed.

(** C5. With a saved position map: when the share of common ids, over
    the larger of the two id sets, is at least 0.70 and some node has a
    saved position, [layoutNodes] copies the saved coordinates onto the
    nodes that have them and computes nothing: a node without a saved
    position is returned as it was, so a newly-appeared node receives no
    placement. When the share is below 0.70 the saved map is removed and
    every node gets the coordinates of the fresh layout. With 8 saved ids
    and 7 current nodes sharing 6 of them, the 6 shared nodes are at
    their saved coordinates and the new node is left without
    coordinates, also by [initCanvas]; with 5 shared, all nodes are laid
    out afresh. *)
Theorem restored_layout_leaves_new_nodes_unplaced :
  (forall (measureText : string -> Q) (cos sin : Q -> Q)
          (PI canvasWidth canvasHeight devicePixelRatio : Q)
          (nodes : list Layout.Node) (positions : gmap string Layout.Position),
      let currentNodeIds : gset string := list_to_set (map Layout.id nodes) in
      let savedNodeIds : gset string := dom positions in
      let shared := length (filter (fun i => i ∈ savedNodeIds) (elements currentNodeIds)) in
      let larger := Nat.max (base.size currentNodeIds) (base.size savedNodeIds) in
      let run := Layout.layoutNodes measureText cos sin PI canvasWidth canvasHeight
                   devicePixelRatio false nodes (Some (Layout.SavedPositions positions)) in
      nodes <> [] ->
      ((7 * larger <= 10 * shared)%nat ->
       (exists n, n ∈ nodes /\ is_Some (positions !! Layout.id n)) ->
       run = (map (Layout.restorePosition positions) nodes,
              Some (Layout.SavedPositions positions))
       /\ (forall n p, n ∈ nodes -> positions !! Layout.id n = Some p ->
             Layout.setPosition n (Layout.px p) (Layout.py p) ∈ fst run)
       /\ (forall n, n ∈ nodes -> positions !! Layout.id n = None -> n ∈ fst run))
      /\ ((10 * shared < 7 * larger)%nat ->
          run = (Layout.freshLayout measureText cos sin PI canvasWidth canvasHeight
                   devicePixelRatio nodes, None)))
  /\ (let summary := map (fun n => (Layout.id n, Layout.x n, Layout.y n)) in
      let saved := Some (Layout.SavedPositions Examples.eightSaved) in
      summary (fst (Examples.layoutOf Examples.sixShared saved))
      = [("n1", Panel.Num 100, Panel.Num 50); ("n2", Panel.Num 200, Panel.Num 100);
         ("n3", Panel.Num 300, Panel.Num 150); ("n4", Panel.Num 400, Panel.Num 200);
         ("n5", Panel.Num 500, Panel.Num 250); ("n6", Panel.Num 600, Panel.Num 300);
         ("added", Panel.Undefined, Panel.Undefined)]
      /\ summary (fst (Layout.initCanvas Examples.measure Examples.cosApprox
                         Examples.sinApprox Examples.piApprox 1600 1200 1
                         Examples.sixShared saved))
         = summary (fst (Examples.layoutOf Examples.sixShared saved))
      /\ Examples.layoutOf Examples.fiveShared saved
         = (Layout.freshLayout Examples.measure Examples.cosApprox Examples.sinApprox
              Examples.piApprox 1600 1200 1 Examples.fiveShared, None)
      /\ forallb (fun n => match Layout.x n, Layout.y n with
                           | Panel.Num _, Panel.Num _ => true
                           | _, _ => false
                           end)
           (fst (Examples.layoutOf Examples.fiveShared saved)) = true).
Proof.
  split.
  - intros measureText cos sin PI canvasWidth canvasHeight devicePixelRatio nodes positions
           currentNodeIds savedNodeIds shared larger run Hnodes.
    split.
    + intros Hshare Hsome.
      assert (Hthreshold : Layout.belowThreshold shared larger = false).
      { apply not_true_iff_false. intros Hbelow. apply belowThreshold_spec in Hbelow. lia. }
      assert (Hrun : run = (map (Layout.restorePosition positions) nodes,
                            Some (Layout.SavedPositions positions))).
      { apply layoutNodes_restore; assumption. }
      split; [exact Hrun|]. rewrite Hrun. simpl. split.
      * intros n p Hn Hp. apply list_elem_of_fmap. exists n. split; [|exact Hn].
        unfold Layout.restorePosition. rewrite Hp. reflexivity.
      * intros n Hn Hnone. apply list_elem_of_fmap. exists n. split; [|exact Hn].
        symmetry. apply restorePosition_unsaved, Hnone.
    + intros Hshare. apply layoutNodes_discard; [exact Hnodes|].
      apply belowThreshold_spec. split; [|exact Hshare].
      change (larger <> 0%nat). clearbody larger shared. lia.
  - vm_compute. repeat split; reflexivity.
Qed.

(* ================================================================= *)
(** ** A page has at most one current-file node *)

Section OneCurrentNode.
Import Analyzer Panel.
Context `{PathApi}.
Variable importMap : ImportMap.
Variable currentFile : option string.
Variable isProjectMode : bool.

Definition currentNodes (ns : list VisualizationNode) : list VisualizationNode :=
  List.filter (fun n => Layout.isCurrentFile (Layout.ofVisualizationNode n)) ns.

Lemma currentNodes_app ns ns' : currentNodes (ns ++ ns') = currentNodes ns ++ currentNodes ns'.
Proof. apply List.filter_app. Qed.

Lemma addImportEdge_current isCurrent nodeId acc importInfo :
  currentNodes (nodes (addImportEdge importMap isProjectMode isCurrent nodeId acc importInfo))
  = currentNodes (nodes acc).
Proof.
  unfold addImportEdge.
  destruct (isNodeModule importInfo && (isProjectMode || isCurrent)).
  - case_bool_decide; simpl; [reflexivity|].
    rewrite currentNodes_app. simpl. apply app_nil_r.
  - destruct (resolvedPath importInfo) as [target|]; [|reflexivity].
    destruct (Js.nonempty target && mapHas (files importMap) target); reflexivity.
Qed.

Lemma addFileEdges_current entries acc :
  currentNodes (nodes (fold_left (addFileEdges importMap currentFile isProjectMode) entries acc))
  = currentNodes (nodes acc).
Proof.
  revert acc. induction entries as [|[filePath fileNode] entries IH]; intros acc; simpl;
    [reflexivity|]. rewrite IH. generalize (imports fileNode) as importInfos.
  intros importInfos. revert acc. induction importInfos as [|importInfo importInfos IHi];
    intros acc; simpl; [reflexivity|]. rewrite IHi. apply addImportEdge_current.
Qed.

Lemma addFileNode_current entries acc :
  length (currentNodes (nodes (fold_left (addFileNode currentFile) entries acc)))
  = (length (currentNodes (nodes acc))
     + length (List.filter (fun k => match currentFile with
                                     | Some c => String.eqb c k
                                     | None => false
                                     end) (mapKeys entries)))%nat.
Proof.
  revert acc. induction entries as [|[filePath fileNode] entries IH]; intros acc; simpl;
    [lia|]. rewrite IH. simpl. rewrite currentNodes_app, length_app. simpl.
  destruct (match currentFile with Some c => String.eqb c filePath | None => false end);
    simpl; lia.
Qed.

Lemma NoDup_filter_eqb c keys :
  NoDup keys -> (length (List.filter (String.eqb c) keys) <= 1)%nat.
Proof.
  induction 1 as [|k keys Hnotin Hnd IH]; simpl; [lia|].
  destruct (String.eqb_spec c k) as [->|Hne]; [|exact IH]. simpl.
  assert (Hnone : List.filter (String.eqb k) keys = []).
  { clear IH Hnd. induction keys as [|k' keys IHk]; simpl; [reflexivity|].
    destruct (String.eqb_spec k k') as [->|Hne].
    - exfalso. apply Hnotin, list_elem_of_here.
    - apply IHk. intros Hin. apply Hnotin, list_elem_of_further, Hin. }
  rewrite Hnone. simpl. lia.
Qed.

(** The nodes that [convertToVisualizationData] hands to the page hold
    at most one current-file node, the keys of a map being distinct. *)
Lemma converted_currentCount :
  NoDup (mapKeys (files importMap)) ->
  (currentCount
     (map Layout.ofVisualizationNode
          (nodes (convertToVisualizationData importMap currentFile isProjectMode))) <= 1)%nat.
Proof.
  intros Hnd. unfold currentCount, convertToVisualizationData.
  assert (Hmap : forall ns,
            length (List.filter Layout.isCurrentFile (map Layout.ofVisualizationNode ns))
            = length (currentNodes ns)).
  { induction ns as [|n ns IH]; simpl; [reflexivity|].
    destruct (isCurrentFile n) as [[|]|]; simpl; rewrite IH; reflexivity. }
  rewrite Hmap, addFileEdges_current, addFileNode_current. simpl.
  destruct currentFile as [c|].
  - apply NoDup_filter_eqb, Hnd.
  - clear Hnd. induction (mapKeys (files importMap)) as [|k keys IH]; simpl; [lia|exact IH].
Qed.

End OneCurrentNode.

(* ================================================================= *)
(** ** Strings *)

Section StringFacts.

Lemma append_cons (a : ascii) (s t : string) : String a s +:+ t = String a (s +:+ t).
Proof. reflexivity. Qed.

Lemma append_nil_l (t : string) : "" +:+ t = t.
Proof. reflexivity. Qed.

Lemma append_nil_r (s : string) : s +:+ "" = s.
Proof. induction s as [|a s IH]; [reflexivity|]. rewrite append_cons, IH. reflexivity. Qed.

Lemma append_assoc (s1 s2 s3 : string) : (s1 +:+ s2) +:+ s3 = s1 +:+ (s2 +:+ s3).
Proof.
  induction s1 as [|a s1 IH]; [reflexivity|]. rewrite !append_cons, IH. reflexivity.
Qed.

Lemma length_append (s1 s2 : string) :
  String.length (s1 +:+ s2) = (String.length s1 + String.length s2)%nat.
Proof.
  induction s1 as [|a s1 IH]; [reflexivity|]. rewrite append_cons. simpl. rewrite IH. reflexivity.
Qed.

Lemma take_append (w s : string) : Js.take (String.length w) (w +:+ s) = w.
Proof.
  induction w as [|a w IH]; [destruct s; reflexivity|].
  rewrite append_cons. simpl. rewrite IH. reflexivity.
Qed.

Lemma take_consumed (w s : string) :
  Js.take (String.length (w +:+ s) - String.length s) (w +:+ s) = w.
Proof.
  rewrite length_append.
  replace (String.length w + String.length s - String.length s)%nat
    with (String.length w) by lia.
  apply take_append.
Qed.

Lemma drop_append (w s : string) : Js.drop (String.length w) (w +:+ s) = s.
Proof. induction w as [|a w IH]; [reflexivity|]. rewrite append_cons. simpl. exact IH. Qed.

Lemma prefix_nil (s : string) : String.prefix "" s = true.
Proof. destruct s; reflexivity. Qed.

Lemma prefix_append (p s : string) : String.prefix p (p +:+ s) = true.
Proof.
  induction p as [|a p IH]; [destruct s; reflexivity|]. rewrite append_cons. simpl.
  destruct (ascii_dec a a) as [_|Hne]; [exact IH|contradiction].
Qed.

Lemma prefix_true (p s : string) :
  String.prefix p s = true -> exists rest, s = p +:+ rest.
Proof.
  revert s. induction p as [|a p IH]; intros s Hp.
  - exists s. reflexivity.
  - destruct s as [|b s]; simpl in Hp; [discriminate|].
    destruct (ascii_dec a b) as [->|Hne]; [|discriminate].
    destruct (IH _ Hp) as (rest & ->). exists rest. reflexivity.
Qed.

End StringFacts.

Ltac string_simpl := rewrite ?append_cons, ?append_nil_l, ?append_nil_r, ?append_assoc.

(* ================================================================= *)
(** ** What a pattern matches

  The texts that a pattern denotes, with the groups they capture, and
  the matcher against them: what it returns is denoted, and what is
  denoted it finds, possibly after a text of higher priority. *)

(** Every character of [w] is of the class [p]. *)
Fixpoint allOf (p : Regex.cls) (w : string) : Prop :=
  match w with
  | EmptyString => True
  | String a w' => p a = true /\ allOf p w'
  end.

(** [denotes r w c c']: the pattern [r] matches the whole of [w], and
    turns the captures [c] into [c']. *)
Fixpoint denotes (r : Regex.re) (w : string) (c c' : Regex.caps) : Prop :=
  match r with
  | Regex.Eps => w = "" /\ c' = c
  | Regex.Chr p => exists a, w = String a "" /\ p a = true /\ c' = c
  | Regex.Rep _ p => allOf p w /\ c' = c
  | Regex.Seq r1 r2 =>
      exists w1 w2 c1, w = w1 +:+ w2 /\ denotes r1 w1 c c1 /\ denotes r2 w2 c1 c'
  | Regex.Alt r1 r2 => denotes r1 w c c' \/ denotes r2 w c c'
  | Regex.Grp i r1 => exists c1, denotes r1 w c c1 /\ c' = (i, w) :: c1
  end.

Ltac split_all := repeat split; try reflexivity; try assumption; eauto.

Section MatcherFacts.

Import Regex.
Context {R : Type}.

Lemma rep_greedy_sound p s (k : string -> option R) x :
  rep_greedy p s k = Some x ->
  exists w s', s = w +:+ s' /\ allOf p w /\ k s' = Some x.
Proof.
  induction s as [|a s IH]; simpl; intros Hrun.
  - exists "", "". split_all.
  - destruct (p a) eqn:Hp.
    + destruct (rep_greedy p s k) as [y|] eqn:Hrest.
      * injection Hrun as ->. destruct (IH eq_refl) as (w & s' & -> & Hall & Hk).
        exists (String a w), s'. split_all.
      * exists "", (String a s). split_all.
    + exists "", (String a s). split_all.
Qed.

Lemma rep_lazy_sound p s (k : string -> option R) x :
  rep_lazy p s k = Some x ->
  exists w s', s = w +:+ s' /\ allOf p w /\ k s' = Some x.
Proof.
  induction s as [|a s IH]; simpl; intros Hrun.
  - destruct (k "") as [y|] eqn:Hk; [|discriminate].
    injection Hrun as ->. exists "", "". split_all.
  - destruct (k (String a s)) as [y|] eqn:Hk.
    + injection Hrun as ->. exists "", (String a s). split_all.
    + destruct (p a) eqn:Hp; [|discriminate].
      destruct (IH Hrun) as (w & s' & -> & Hall & Hk').
      exists (String a w), s'. split_all.
Qed.

Lemma rep_greedy_continues p s (k : string -> option R) :
  is_Some (k s) -> is_Some (rep_greedy p s k).
Proof.
  intros Hk. destruct s as [|a s]; simpl; [exact Hk|].
  destruct (p a); [|exact Hk].
  destruct (rep_greedy p s k); [eauto|exact Hk].
Qed.

Lemma rep_greedy_complete p w s' (k : string -> option R) :
  allOf p w -> is_Some (k s') -> is_Some (rep_greedy p (w +:+ s') k).
Proof.
  intros Hall Hk. induction w as [|a w IH].
  - apply rep_greedy_continues, Hk.
  - destruct Hall as [Hp Hall]. rewrite append_cons. simpl. rewrite Hp.
    destruct (IH Hall) as [y ->]. eauto.
Qed.

Lemma rep_lazy_complete p w s' (k : string -> option R) :
  allOf p w -> is_Some (k s') -> is_Some (rep_lazy p (w +:+ s') k).
Proof.
  intros Hall Hk. induction w as [|a w IH].
  - rewrite append_nil_l. destruct s' as [|b s']; simpl; destruct Hk as [y ->]; eauto.
  - destruct Hall as [Hp Hall]. rewrite append_cons. simpl.
    destruct (k (String a (w +:+ s'))); [eauto|].
    rewrite Hp. apply IH, Hall.
Qed.

(** What the matcher returns comes from a text that the pattern
    denotes, at the start of the input. *)
Lemma run_sound r : forall s c (k : string -> caps -> option R) x,
  run r s c k = Some x ->
  exists w s' c', s = w +:+ s' /\ denotes r w c c' /\ k s' c' = Some x.
Proof.
  induction r as [|p|greedy p|r1 IH1 r2 IH2|r1 IH1 r2 IH2|i r IH];
    intros s c k x Hrun; simpl in Hrun.
  - exists "", s, c. split_all.
  - destruct s as [|a s]; [discriminate|]. destruct (p a) eqn:Hp; [|discriminate].
    exists (String a ""), s, c. simpl. split_all.
  - destruct greedy.
    + destruct (rep_greedy_sound _ _ _ _ Hrun) as (w & s' & -> & Hall & Hk).
      exists w, s', c. simpl. split_all.
    + destruct (rep_lazy_sound _ _ _ _ Hrun) as (w & s' & -> & Hall & Hk).
      exists w, s', c. simpl. split_all.
  - destruct (IH1 _ _ _ _ Hrun) as (w1 & s1 & c1 & -> & H1 & Hrun2).
    destruct (IH2 _ _ _ _ Hrun2) as (w2 & s2 & c2 & -> & H2 & Hk).
    exists (w1 +:+ w2), s2, c2. rewrite append_assoc. simpl. split; [reflexivity|]. split; [|exact Hk]. exists w1, w2, c1. split_all.
  - destruct (run r1 s c k) as [y|] eqn:Hfirst.
    + injection Hrun as ->. destruct (IH1 _ _ _ _ Hfirst) as (w & s' & c' & -> & H1 & Hk).
      exists w, s', c'. simpl. split_all.
    + destruct (IH2 _ _ _ _ Hrun) as (w & s' & c' & -> & H2 & Hk).
      exists w, s', c'. simpl. split_all.
  - destruct (IH _ _ _ _ Hrun) as (w & s' & c' & -> & Hw & Hk).
    rewrite take_consumed in Hk.
    exists w, s', ((i, w) :: c'). simpl. split_all.
Qed.

(** A text that the pattern denotes, followed by a rest that the
    continuation accepts, makes the matcher succeed. *)
Lemma run_complete r : forall w s' c c' (k : string -> caps -> option R),
  denotes r w c c' -> is_Some (k s' c') -> is_Some (run r (w +:+ s') c k).
Proof.
  induction r as [|p|greedy p|r1 IH1 r2 IH2|r1 IH1 r2 IH2|i r IH];
    intros w s' c c' k Hw Hk; simpl in Hw; simpl.
  - destruct Hw as [-> ->]. exact Hk.
  - destruct Hw as (a & -> & Hp & ->). rewrite append_cons, append_nil_l. rewrite Hp. exact Hk.
  - destruct Hw as [Hall ->]. destruct greedy.
    + apply rep_greedy_complete; assumption.
    + apply rep_lazy_complete; assumption.
  - destruct Hw as (w1 & w2 & c1 & -> & H1 & H2). rewrite append_assoc.
    apply (IH1 _ _ _ c1); [exact H1|]. apply (IH2 _ _ _ c'); assumption.
  - destruct (run r1 (w +:+ s') c k) eqn:Hfirst; [eauto|].
    destruct Hw as [H1|H2].
    + destruct (IH1 _ s' _ _ k H1 Hk) as [y Hy]. congruence.
    + apply (IH2 _ _ _ c'); assumption.
  - destruct Hw as (c1 & Hw & ->).
    apply (IH _ _ _ c1); [exact Hw|]. rewrite take_consumed. exact Hk.
Qed.

End MatcherFacts.

(** The anchored test succeeds on the texts that the pattern denotes. *)
Lemma test_whole_denotes r s :
  Regex.test_whole r s = true <-> exists c', denotes r s [] c'.
Proof.
  unfold Regex.test_whole. split.
  - destruct (Regex.run r s [] _) as [[]|] eqn:Hrun; [|discriminate]. intros _.
    destruct (run_sound _ _ _ _ _ Hrun) as (w & s' & c' & -> & Hw & Hk).
    destruct s'; [|discriminate]. rewrite append_nil_r. eauto.
  - intros (c' & Hw).
    destruct (run_complete r s "" [] c'
                (fun s' _ => match s' with EmptyString => Some tt | _ => None end) Hw)
      as [y Hy]; [eauto|].
    rewrite append_nil_r in Hy. rewrite Hy. reflexivity.
Qed.

(* ================================================================= *)
(** ** Ignore patterns as wildcards *)

(** The wildcard reading of a pattern: [*] stands for any run of
    characters other than line terminators, [?] for one such character,
    and every other character for itself. *)
Fixpoint globDenotes (pattern text : string) : Prop :=
  match pattern with
  | EmptyString => text = ""
  | String c rest =>
      if Js.ascii_eqb c "*" then
        exists w t, text = w +:+ t /\ allOf Regex.dot w /\ globDenotes rest t
      else if Js.ascii_eqb c "?" then
        exists a t, text = String a t /\ Regex.dot a = true /\ globDenotes rest t
      else exists t, text = String c t /\ globDenotes rest t
  end.

(** A pattern without wildcards. *)
Fixpoint wildcardFree (pattern : string) : bool :=
  match pattern with
  | EmptyString => true
  | String c rest =>
      negb (Js.ascii_eqb c "*") && negb (Js.ascii_eqb c "?") && wildcardFree rest
  end.

Section GlobFacts.

Import Gitignore.

Lemma denotes_globRegex pattern : forall w c c',
  denotes (globRegex pattern) w c c' <-> globDenotes pattern w /\ c' = c.
Proof.
  induction pattern as [|a pattern IH]; intros w c c'; simpl.
  - reflexivity.
  - unfold globAtom. destruct (Js.ascii_eqb a "*") eqn:Hstar; [|destruct (Js.ascii_eqb a "?") eqn:Hany].
    + split.
      * intros (w1 & w2 & c1 & -> & [Hall ->] & Hrest). apply IH in Hrest as [Hrest ->].
        split; [|reflexivity]. exists w1, w2. split_all.
      * intros [(w1 & w2 & -> & Hall & Hrest) ->]. exists w1, w2, c.
        split; [reflexivity|]. split; [split_all|]. apply IH. split_all.
    + split.
      * intros (w1 & w2 & c1 & -> & (b & -> & Hb & ->) & Hrest). apply IH in Hrest as [Hrest ->].
        split; [|reflexivity]. exists b, w2. split_all.
      * intros [(b & t & -> & Hb & Hrest) ->]. exists (String b ""), t, c.
        split; [reflexivity|]. split; [exists b; split_all|]. apply IH. split_all.
    + split.
      * intros (w1 & w2 & c1 & -> & (b & -> & Hb & ->) & Hrest). apply IH in Hrest as [Hrest ->].
        split; [|reflexivity]. unfold Regex.chr_is, Js.ascii_eqb in Hb.
        apply Ascii.eqb_eq in Hb as ->. exists w2. split_all.
      * intros [(t & -> & Hrest) ->]. exists (String a ""), t, c.
        split; [reflexivity|]. split.
        -- exists a. split; [reflexivity|]. split; [|reflexivity].
           unfold Regex.chr_is, Js.ascii_eqb. apply Ascii.eqb_refl.
        -- apply IH. split_all.
Qed.

Lemma globMatch_globDenotes text pattern :
  globMatch text pattern = true <-> globDenotes pattern text.
Proof.
  unfold globMatch. rewrite test_whole_denotes. split.
  - intros (c' & Hw). apply denotes_globRegex in Hw as [Hw _]. exact Hw.
  - intros Hw. exists []. apply denotes_globRegex. split_all.
Qed.

Lemma globDenotes_plain pattern : forall text,
  wildcardFree pattern = true -> globDenotes pattern text <-> text = pattern.
Proof.
  induction pattern as [|a pattern IH]; intros text Hfree; simpl in *.
  - reflexivity.
  - apply andb_true_iff in Hfree as [Hfree Hrest]. apply andb_true_iff in Hfree as [Hstar Hany].
    apply negb_true_iff in Hstar, Hany. rewrite Hstar, Hany. split.
    + intros (t & -> & Ht). apply IH in Ht as ->; [reflexivity|exact Hrest].
    + intros ->. exists pattern. split; [reflexivity|]. apply IH; [exact Hrest|reflexivity].
Qed.

(** *** The parts of a path that follow a separator *)

Lemma rev_acc_append s : forall acc, Js.rev_acc s acc = Js.rev_acc s "" +:+ acc.
Proof.
  induction s as [|a s IH]; intros acc; simpl; [reflexivity|].
  rewrite (IH (String a acc)), (IH (String a "")), append_assoc. reflexivity.
Qed.

Lemma rev_cons a s : Js.rev (String a s) = Js.rev s +:+ String a "".
Proof. unfold Js.rev. simpl. apply rev_acc_append. Qed.

Lemma split_acc_cur sep s : forall cur,
  exists h t, Js.split_acc sep s "" = h :: t
              /\ Js.split_acc sep s cur = (Js.rev cur +:+ h) :: t.
Proof.
  induction s as [|a s IH]; intros cur; simpl.
  - exists "", []. rewrite append_nil_r. split_all.
  - destruct (Js.ascii_eqb a sep).
    + exists "", (Js.split_acc sep s ""). rewrite append_nil_r. split_all.
    + destruct (IH (String a cur)) as (h & t & Hsplit & ->).
      destruct (IH (String a "")) as (h' & t' & Hsplit' & ->).
      rewrite Hsplit in Hsplit'. injection Hsplit' as <- <-.
      exists (Js.rev (String a "") +:+ h), t. split; [reflexivity|].
      rewrite rev_cons, append_assoc. reflexivity.
Qed.

Lemma split_cons sep a s :
  Js.split sep (String a s)
  = if Js.ascii_eqb a sep then "" :: Js.split sep s
    else match Js.split sep s with
         | h :: t => String a h :: t
         | [] => []
         end.
Proof.
  unfold Js.split. simpl. destruct (Js.ascii_eqb a sep); [reflexivity|].
  destruct (split_acc_cur sep s (String a "")) as (h & t & -> & ->). reflexivity.
Qed.

Lemma split_nonempty sep s : exists h t, Js.split sep s = h :: t.
Proof.
  destruct (split_acc_cur sep s "") as (h & t & Hsplit & _). exists h, t. exact Hsplit.
Qed.

(** Splitting at a separator and joining with it gives the text back. *)
Lemma join_split (sep : ascii) s : Js.join (String sep "") (Js.split sep s) = s.
Proof.
  induction s as [|a s IH]; [reflexivity|].
  rewrite split_cons. destruct (split_nonempty sep s) as (h & t & Hsplit).
  rewrite Hsplit in *. destruct (Js.ascii_eqb a sep) eqn:Ha.
  - apply Ascii.eqb_eq in Ha as ->.
    change (Js.join (String sep "") ("" :: h :: t))
      with ("" +:+ String sep "" +:+ Js.join (String sep "") (h :: t)).
    rewrite IH. reflexivity.
  - destruct t as [|t1 t2].
    + simpl in *. rewrite IH. reflexivity.
    + change (Js.join (String sep "") (String a h :: t1 :: t2))
        with (String a h +:+ String sep "" +:+ Js.join (String sep "") (t1 :: t2)).
      change (Js.join (String sep "") (h :: t1 :: t2))
        with (h +:+ String sep "" +:+ Js.join (String sep "") (t1 :: t2)) in IH.
      rewrite append_cons, IH. reflexivity.
Qed.

Lemma suffixes_cons h t : suffixes (h :: t) = Js.join "/" (h :: t) :: suffixes t.
Proof. reflexivity. Qed.

Lemma append_eq_cons pre rest a s :
  pre +:+ rest = String a s ->
  (pre = "" /\ rest = String a s) \/ exists pre', pre = String a pre' /\ pre' +:+ rest = s.
Proof.
  destruct pre as [|b pre]; [left; split_all|].
  rewrite append_cons. intros [= -> <-]. right. exists pre. split_all.
Qed.

Lemma later_suffixes T : forall s,
  In s (suffixes (tl (Js.split "/" T))) <-> exists pre, T = pre +:+ "/" +:+ s.
Proof.
  induction T as [|a T IH]; intros s.
  - simpl. split; [contradiction|]. intros (pre & Hpre). destruct pre; discriminate.
  - rewrite split_cons. destruct (split_nonempty "/" T) as (h & t & Hsplit).
    rewrite Hsplit in *. destruct (Js.ascii_eqb a "/") eqn:Ha.
    + apply Ascii.eqb_eq in Ha as ->. cbn [tl]. rewrite suffixes_cons, <- Hsplit, join_split.
      cbn [In]. simpl in IH. rewrite IH. split.
      * intros [<-|(pre & ->)]; [exists ""; reflexivity|].
        exists (String "/" pre). reflexivity.
      * intros (pre & Hpre). symmetry in Hpre.
        apply append_eq_cons in Hpre as [[-> Hrest]|(pre' & -> & Hrest)].
        -- left. rewrite append_cons, append_nil_l in Hrest. congruence.
        -- right. exists pre'. symmetry. exact Hrest.
    + simpl in IH. simpl. rewrite IH. split.
      * intros (pre & ->). exists (String a pre). reflexivity.
      * intros (pre & Hpre). symmetry in Hpre.
        apply append_eq_cons in Hpre as [[-> Hrest]|(pre' & -> & Hrest)].
        -- rewrite append_cons, append_nil_l in Hrest. injection Hrest as Heq _.
           subst a. discriminate.
        -- exists pre'. symmetry. exact Hrest.
Qed.

(** The candidates of [matchesPattern]: the path, and what follows each
    of its separators. *)
Lemma suffixes_split T s :
  In s (suffixes (Js.split "/" T)) <-> s = T \/ exists pre, T = pre +:+ "/" +:+ s.
Proof.
  rewrite <- later_suffixes. destruct (split_nonempty "/" T) as (h & t & Hsplit).
  rewrite Hsplit, suffixes_cons, <- Hsplit, join_split. cbn [In]. rewrite Hsplit. simpl.
  split; intros [Heq|Hin]; auto.
Qed.

End GlobFacts.

(** X1. [globMatch] reads a pattern as a wildcard: the text matches
    exactly when it is the pattern with every [*] replaced by a run of
    characters other than line terminators (a run that may hold
    separators) and every [?] by one such character. All other
    characters, the regex metacharacters among them, stand for
    themselves: a pattern without [*] and [?] matches itself only. *)
Theorem globMatch_wildcards :
  forall text pattern : string,
    (Gitignore.globMatch text pattern = true <-> globDenotes pattern text)
    /\ (wildcardFree pattern = true ->
        (Gitignore.globMatch text pattern = true <-> text = pattern)).
Proof.
  intros text pattern. split; [apply globMatch_globDenotes|].
  intros Hfree. rewrite globMatch_globDenotes. apply globDenotes_plain, Hfree.
Qed.

Lemma matchesPattern_reading filePath pattern :
  Gitignore.matchesPattern filePath pattern = true <->
  if Js.startsWith (Js.replaceChar "\" "/" pattern) "/" then
    globDenotes (Js.drop 1 (Js.replaceChar "\" "/" pattern)) (Js.replaceChar "\" "/" filePath)
  else
    globDenotes (Js.replaceChar "\" "/" pattern) (Js.replaceChar "\" "/" filePath)
    \/ exists before after,
         Js.replaceChar "\" "/" filePath = before +:+ "/" +:+ after
         /\ globDenotes (Js.replaceChar "\" "/" pattern) after.
Proof.
  set (normalizedPath := Js.replaceChar "\" "/" filePath).
  set (normalizedPattern := Js.replaceChar "\" "/" pattern).
  unfold Gitignore.matchesPattern. fold normalizedPath normalizedPattern.
  destruct (Js.startsWith normalizedPattern "/"); [apply globMatch_globDenotes|].
  destruct (Gitignore.globMatch normalizedPath normalizedPattern) eqn:Hwhole.
  - apply globMatch_globDenotes in Hwhole. split; auto.
  - rewrite existsb_exists. split.
    + intros (suffix & Hin & Hmatch). apply globMatch_globDenotes in Hmatch.
      apply suffixes_split in Hin as [->|(before & Hpath)]; [left; exact Hmatch|].
      right. exists before, suffix. split; assumption.
    + intros [Hmatch|(before & after & Hpath & Hmatch)].
      * apply globMatch_globDenotes in Hmatch. congruence.
      * exists after. split; [|apply globMatch_globDenotes, Hmatch].
        apply suffixes_split. right. exists before. exact Hpath.
Qed.

(** X2. [matchesPattern] on a path and a pattern, both with their
    backslashes turned into slashes: a pattern that starts with a slash is
    matched, without that slash, against the whole path; any other pattern
    matches when it matches the whole path or what follows one of the
    separators of the path. *)
Theorem matchesPattern_anchoring :
  forall filePath pattern : string,
    let normalizedPath := Js.replaceChar "\" "/" filePath in
    let normalizedPattern := Js.replaceChar "\" "/" pattern in
    Gitignore.matchesPattern filePath pattern = true <->
    if Js.startsWith normalizedPattern "/" then
      globDenotes (Js.drop 1 normalizedPattern) normalizedPath
    else
      globDenotes normalizedPattern normalizedPath
      \/ exists before after,
           normalizedPath = before +:+ "/" +:+ after
           /\ globDenotes normalizedPattern after.
Proof.
  intros filePath pattern normalizedPath normalizedPattern. apply matchesPattern_reading.
Qed.

(** X3. A pattern without wildcards that does not start with a slash
    matches a path exactly when the path is the pattern or ends with a
    separator followed by the pattern. A path below a directory of that
    name, such as [build/out.js] for the pattern [build], is not
    matched. *)
Theorem plain_pattern_matches_last_segments :
  forall filePath pattern : string,
    let normalizedPath := Js.replaceChar "\" "/" filePath in
    let normalizedPattern := Js.replaceChar "\" "/" pattern in
    wildcardFree normalizedPattern = true ->
    Js.startsWith normalizedPattern "/" = false ->
    Gitignore.matchesPattern filePath pattern = true <->
    normalizedPath = normalizedPattern
    \/ exists before, normalizedPath = before +:+ "/" +:+ normalizedPattern.
Proof.
  intros filePath pattern normalizedPath normalizedPattern Hfree Hrelative.
  rewrite matchesPattern_reading. fold normalizedPath normalizedPattern. rewrite Hrelative.
  rewrite (globDenotes_plain _ _ Hfree). split.
  - intros [Heq|(before & after & Hpath & Hafter)]; [left; exact Heq|].
    apply (globDenotes_plain _ _ Hfree) in Hafter as ->. right. exists before. exact Hpath.
  - intros [Heq|(before & Hpath)]; [left; exact Heq|].
    right. exists before, normalizedPattern. split; [exact Hpath|].
    apply (globDenotes_plain _ _ Hfree). reflexivity.
Qed.

Lemma plain_pattern_matches_last_segments_witness :
  Gitignore.matchesPattern "src/build" "build" = true
  /\ Gitignore.matchesPattern "build/out.js" "build" = false.
Proof.
  split.
  - apply (plain_pattern_matches_last_segments "src/build" "build" eq_refl eq_refl).
    right. exists "src". reflexivity.
  - reflexivity.
Defined.

(** X4. When the project has no [.gitignore] that can be read, or one
    in which every line is blank or a comment, no path is ignored. *)
Theorem no_rules_nothing_ignored :
  forall (P : PathApi) (F : FileSystem) (root filePath : string),
    (forall content,
        readFileSync (path_join [root; ".gitignore"]) = Some content ->
        Forall (fun line => Js.trim line = "" \/ Js.startsWith (Js.trim line) "#" = true)
               (Js.split "010" content)) ->
    Gitignore.patterns (Gitignore.loadGitignore root) = []
    /\ Gitignore.shouldIgnore (Gitignore.loadGitignore root) filePath = false.
Proof.
  intros P F root filePath Hlines.
  assert (Hnone : Gitignore.patterns (Gitignore.loadGitignore root) = []).
  { unfold Gitignore.loadGitignore. simpl.
    destruct (existsSync _); [|reflexivity].
    destruct (readFileSync _) as [content|] eqn:Hread; [|reflexivity].
    specialize (Hlines content eq_refl). unfold Gitignore.parseContent.
    induction Hlines as [|line lines Hline _ IH]; [reflexivity|].
    simpl. unfold Gitignore.parseLine at 1.
    destruct Hline as [-> | ->]; simpl; [exact IH|].
    rewrite orb_true_r. exact IH. }
  split; [exact Hnone|].
  unfold Gitignore.shouldIgnore, Gitignore.ignoreLoop. rewrite Hnone. reflexivity.
Qed.

Lemma no_rules_nothing_ignored_witness :
  @Gitignore.shouldIgnore Examples.unix Examples.twoHopFs
    (@Gitignore.loadGitignore Examples.unix Examples.twoHopFs "/proj") "/proj/A.ts" = false.
Proof.
  refine (proj2 (no_rules_nothing_ignored Examples.unix Examples.twoHopFs "/proj" "/proj/A.ts" _)).
  intros content Hread. vm_compute in Hread. discriminate.
Defined.

Section ResolutionMore.

Import Analyzer.
Context `{PathApi} `{FileSystem}.

Lemma find_first {A} (f : A -> bool) a l : f a = true -> find f (a :: l) = Some a.
Proof. intros Hf. simpl. rewrite Hf. reflexivity. Qed.

Lemma resolveFilePath_accepted st filePath :
  acceptsFile st filePath = true -> resolveFilePath st filePath = filePath.
Proof.
  intros Haccepts. unfold resolveFilePath, fileCandidates, extensions.
  cbn [map]. rewrite append_nil_r, (find_first _ _ _ Haccepts). reflexivity.
Qed.

Lemma find_Some_elem {A} (f : A -> bool) l a : find f l = Some a -> In a l /\ f a = true.
Proof. apply find_some. Qed.

End ResolutionMore.

(** X5. Resolving is idempotent on files: when [resolveFilePath]
    returns a path that is a file, resolving that path again returns
    it. *)
Theorem resolveFilePath_idempotent_on_files :
  forall (P : PathApi) (F : FileSystem) (st : Analyzer.State) (filePath : string),
    statIsFile (Analyzer.resolveFilePath st filePath) = true ->
    Analyzer.resolveFilePath st (Analyzer.resolveFilePath st filePath)
    = Analyzer.resolveFilePath st filePath.
Proof.
  intros P F st filePath Hfile.
  destruct (resolveFilePath_cases st filePath)
    as [[_ Haccepts]|[(_ & Haccepts & _)|(Hsame & _)]].
  - apply resolveFilePath_accepted, Haccepts.
  - apply resolveFilePath_accepted. unfold Analyzer.acceptsFile, Analyzer.acceptsIndex in *.
    rewrite Hfile. apply andb_true_iff in Haccepts as [-> ->]. reflexivity.
  - rewrite Hsame. exact Hsame.
Qed.

Lemma resolveFilePath_idempotent_on_files_witness :
  let st := @Analyzer.initialize Examples.unix Examples.twoHopFs Examples.plainJson "/proj" in
  @Analyzer.resolveFilePath Examples.unix Examples.twoHopFs st "/proj/A" = "/proj/A.ts"
  /\ @Analyzer.resolveFilePath Examples.unix Examples.twoHopFs st
       (@Analyzer.resolveFilePath Examples.unix Examples.twoHopFs st "/proj/A")
     = @Analyzer.resolveFilePath Examples.unix Examples.twoHopFs st "/proj/A".
Proof.
  split; [vm_compute; reflexivity|].
  apply (resolveFilePath_idempotent_on_files Examples.unix Examples.twoHopFs).
  vm_compute. reflexivity.
Defined.

(** X6. [resolveFilePath] returns a path other than its argument only
    after finding it: that path exists and is not excluded by the ignore
    rules, and it is the argument with one of the extensions added, in
    which case it is a file, or an index file path below the argument. *)
Theorem resolveFilePath_elsewhere_was_found :
  forall (P : PathApi) (F : FileSystem) (st : Analyzer.State) (filePath : string),
    let resolved := Analyzer.resolveFilePath st filePath in
    resolved <> filePath ->
    existsSync resolved = true
    /\ Analyzer.ignored st resolved = false
    /\ ((exists ext, ext ∈ Analyzer.extensions /\ resolved = filePath +:+ ext
                     /\ statIsFile resolved = true)
        \/ (exists ext, ext ∈ Analyzer.extensions /\ ext <> ""
                        /\ resolved = path_join [filePath; "index" +:+ ext])).
Proof.
  intros P F st filePath resolved Hmoved. subst resolved.
  destruct (resolveFilePath_cases st filePath)
    as [[Hin Haccepts]|[(Hin & Haccepts & _)|(Hsame & _)]]; [| |contradiction].
  - unfold Analyzer.acceptsFile in Haccepts.
    apply andb_true_iff in Haccepts as [Haccepts Hkept].
    apply andb_true_iff in Haccepts as [Hexists Hfile].
    apply negb_true_iff in Hkept. split; [exact Hexists|]. split; [exact Hkept|].
    left. unfold Analyzer.fileCandidates in Hin.
    apply list_elem_of_fmap in Hin as (ext & Heq & Hext). exists ext. split_all.
  - unfold Analyzer.acceptsIndex in Haccepts.
    apply andb_true_iff in Haccepts as [Hexists Hkept].
    apply negb_true_iff in Hkept. split; [exact Hexists|]. split; [exact Hkept|].
    right. unfold Analyzer.indexCandidates in Hin.
    apply list_elem_of_fmap in Hin as (ext & Heq & Hext). exists ext.
    split; [apply list_elem_of_further; exact Hext|]. split; [|exact Heq].
    intros ->. unfold Analyzer.extensions in Hext. simpl in Hext.
    repeat (apply elem_of_cons in Hext as [Hext|Hext]; [discriminate|]). inversion Hext.
Qed.

Lemma resolveFilePath_elsewhere_was_found_witness :
  let st := @Analyzer.initialize Examples.unix Examples.twoHopFs Examples.plainJson "/proj" in
  @existsSync Examples.twoHopFs
    (@Analyzer.resolveFilePath Examples.unix Examples.twoHopFs st "/proj/A") = true.
Proof.
  refine (proj1 (resolveFilePath_elsewhere_was_found Examples.unix Examples.twoHopFs _
                   "/proj/A" _)).
  vm_compute. discriminate.
Defined.

(** X7. The aliases [~/], [~~/], [#app/] and [#components/] are
    interchangeable: with any of them in front of the same remainder the
    import resolves from the remainder below the source directory. *)
Theorem source_directory_aliases_agree :
  forall (P : PathApi) (F : FileSystem) (st : Analyzer.State) (rest projectRoot : string),
    let below :=
      Some (Analyzer.resolveFilePath st
              (path_join [projectRoot; Analyzer.nuxtSrcDir st; rest])) in
    Analyzer.resolveProjectAlias st ("~/" +:+ rest) projectRoot = below
    /\ Analyzer.resolveProjectAlias st ("~~/" +:+ rest) projectRoot = below
    /\ Analyzer.resolveProjectAlias st ("#app/" +:+ rest) projectRoot = below
    /\ Analyzer.resolveProjectAlias st ("#components/" +:+ rest) projectRoot = below.
Proof.
  intros P F st rest projectRoot below. subst below.
  unfold Analyzer.resolveProjectAlias, Js.startsWith.
  rewrite !append_cons, !append_nil_l. repeat split; simpl; rewrite ?prefix_nil; reflexivity.
Qed.

(* ================================================================= *)
(** ** The sources that extraction returns *)

(** A pattern without capturing groups. *)
Fixpoint groupFree (r : Regex.re) : bool :=
  match r with
  | Regex.Eps | Regex.Chr _ | Regex.Rep _ _ => true
  | Regex.Seq r1 r2 | Regex.Alt r1 r2 => groupFree r1 && groupFree r2
  | Regex.Grp _ _ => false
  end.

(** A module specifier as the patterns capture it: at least one
    character, none of them a string delimiter. *)
Definition quoteFree (source : string) : Prop :=
  source <> "" /\ allOf (Regex.none_of Regex.quotes) source.

Section ExtractionFacts.

Import Regex Analyzer.

Lemma denotes_groupFree r : forall w c c',
  groupFree r = true -> denotes r w c c' -> c' = c.
Proof.
  induction r as [|p|greedy p|r1 IH1 r2 IH2|r1 IH1 r2 IH2|i r IH];
    intros w c c' Hfree Hw; simpl in *; try discriminate.
  - destruct Hw as [_ ->]. reflexivity.
  - destruct Hw as (a & _ & _ & ->). reflexivity.
  - destruct Hw as [_ ->]. reflexivity.
  - apply andb_true_iff in Hfree as [Hfree1 Hfree2].
    destruct Hw as (w1 & w2 & c1 & _ & H1 & H2).
    apply IH1 in H1 as ->; [|exact Hfree1]. apply IH2 in H2 as ->; [|exact Hfree2]. reflexivity.
  - apply andb_true_iff in Hfree as [Hfree1 Hfree2].
    destruct Hw as [H1|H2]; [eapply IH1|eapply IH2]; eauto.
Qed.

(** Every result of a global search is the result of one match
    attempt somewhere in the text. *)
Lemma exec_from_match r s : forall skip c text,
  In (c, text) (exec_from r s skip) ->
  exists s' rest, match_here r s' = Some (c, rest).
Proof.
  induction s as [|a s IH]; intros skip c text Hin.
  - destruct skip as [|skip]; simpl in Hin; [|contradiction].
    destruct (match_here r "") as [[c0 rest]|] eqn:Hmatch; [|contradiction].
    destruct Hin as [[= <- _]|[]]. eauto.
  - destruct skip as [|skip]; simpl in Hin; [|eapply IH; exact Hin].
    destruct (match_here r (String a s)) as [[c0 rest]|] eqn:Hmatch.
    + destruct Hin as [[= <- _]|Hin]; [eauto|]. eapply IH; exact Hin.
    + eapply IH; exact Hin.
Qed.

Lemma exec_all_denotes r content c text :
  In (c, text) (exec_all r content) -> exists w, denotes r w [] c.
Proof.
  intros Hin. apply exec_from_match in Hin as (s' & rest & Hmatch).
  unfold match_here in Hmatch.
  destruct (run_sound _ _ _ _ _ Hmatch) as (w & s'' & c' & _ & Hw & [= <- _]).
  exists w. exact Hw.
Qed.

(** The source group of the patterns. *)
Lemma source_group_captures i w c c' :
  denotes (source_group i) w c c' -> c' = (i, w) :: c /\ quoteFree w.
Proof.
  unfold source_group, plus. simpl.
  intros (c1 & (w1 & w2 & c2 & -> & (a & -> & Ha & ->) & Hall & ->) & ->).
  split; [reflexivity|]. rewrite append_cons, append_nil_l. split; [discriminate|].
  split; assumption.
Qed.

Lemma truthy_quoteFree w : quoteFree w -> Js.truthy (Some w) = true.
Proof. intros [Hne _]. destruct w; [contradiction|reflexivity]. Qed.

Lemma sourceOfMatch_second w c : quoteFree w -> sourceOfMatch ((2, w) :: c) = w.
Proof. intros [Hne _]. destruct w; [contradiction|reflexivity]. Qed.

Lemma sourceOfMatch_first w : sourceOfMatch [(1, w)] = w.
Proof. reflexivity. Qed.

Ltac split_seq H :=
  let w1 := fresh "w" in
  let w2 := fresh "w" in
  let c1 := fresh "c" in
  let Hw := fresh "Hw" in
  let H1 := fresh "Hseq" in
  destruct H as (w1 & w2 & c1 & Hw & H1 & H).

Ltac skip_groupFree H :=
  match type of H with
  | denotes ?r _ _ _ => apply (denotes_groupFree r) in H; [subst|reflexivity]
  end.

(** The [import] patterns: [match[2] || match[1]] is the source. *)
Lemma importPatterns_source r w c :
  In r importPatterns -> denotes r w [] c -> quoteFree (sourceOfMatch c).
Proof.
  unfold importPatterns. intros [<-|[<-|[<-|[<-|[]]]]] Hd; unfold seq in Hd; cbn [fold_right] in Hd.
  - do 4 (split_seq Hd; skip_groupFree Hseq).
    split_seq Hd. destruct Hseq as (c1 & Hnames & ->). skip_groupFree Hnames.
    do 6 (split_seq Hd; skip_groupFree Hseq).
    split_seq Hd. apply source_group_captures in Hseq as [-> Hsource].
    split_seq Hd. skip_groupFree Hseq. destruct Hd as [_ ->].
    rewrite (sourceOfMatch_second _ _ Hsource). exact Hsource.
  - do 6 (split_seq Hd; skip_groupFree Hseq).
    split_seq Hd. destruct Hseq as (c1 & Hnames & ->). skip_groupFree Hnames.
    do 4 (split_seq Hd; skip_groupFree Hseq).
    split_seq Hd. apply source_group_captures in Hseq as [-> Hsource].
    split_seq Hd. skip_groupFree Hseq. destruct Hd as [_ ->].
    rewrite (sourceOfMatch_second _ _ Hsource). exact Hsource.
  - do 2 (split_seq Hd; skip_groupFree Hseq).
    split_seq Hd. destruct Hseq as (c1 & Hnames & ->). skip_groupFree Hnames.
    do 4 (split_seq Hd; skip_groupFree Hseq).
    split_seq Hd. apply source_group_captures in Hseq as [-> Hsource].
    split_seq Hd. skip_groupFree Hseq. destruct Hd as [_ ->].
    rewrite (sourceOfMatch_second _ _ Hsource). exact Hsource.
  - do 3 (split_seq Hd; skip_groupFree Hseq).
    split_seq Hd. apply source_group_captures in Hseq as [-> Hsource].
    split_seq Hd. skip_groupFree Hseq. destruct Hd as [_ ->].
    rewrite sourceOfMatch_first. exact Hsource.
Qed.

(** The argument of a call. *)
Lemma callArgument_captures w c c' :
  denotes callArgument w c c' -> exists source, c' = (1, source) :: c /\ quoteFree source.
Proof.
  unfold callArgument, seq. cbn [fold_right]. intros Hd.
  do 3 (split_seq Hd; skip_groupFree Hseq).
  split_seq Hd. apply source_group_captures in Hseq as [-> Hsource].
  do 3 (split_seq Hd; skip_groupFree Hseq). destruct Hd as [_ ->]. eauto.
Qed.

Lemma dynamicImportPatterns_source r flag w c :
  In (r, flag) dynamicImportPatterns -> denotes r w [] c -> quoteFree (firstGroup c).
Proof.
  unfold dynamicImportPatterns.
  intros [[= <- <-]|[[= <- <-]|[[= <- <-]|[]]]] Hd; unfold seq in Hd; cbn [fold_right] in Hd.
  - do 8 (split_seq Hd; skip_groupFree Hseq).
    split_seq Hd. apply callArgument_captures in Hseq as (source & -> & Hsource).
    destruct Hd as [_ ->]. exact Hsource.
  - do 2 (split_seq Hd; skip_groupFree Hseq).
    split_seq Hd. apply callArgument_captures in Hseq as (source & -> & Hsource).
    destruct Hd as [_ ->]. exact Hsource.
  - do 2 (split_seq Hd; skip_groupFree Hseq).
    split_seq Hd. apply callArgument_captures in Hseq as (source & -> & Hsource).
    destruct Hd as [_ ->]. exact Hsource.
Qed.

Lemma requirePattern_source w c :
  denotes requirePattern w [] c -> quoteFree (firstGroup c).
Proof.
  unfold requirePattern, seq. cbn [fold_right]. intros Hd.
  do 5 (split_seq Hd; skip_groupFree Hseq).
  split_seq Hd. apply callArgument_captures in Hseq as (source & -> & Hsource).
  destruct Hd as [_ ->]. exact Hsource.
Qed.

Context `{PathApi} `{FileSystem}.

Lemma extractImportsWithRegex_sources st content fileDir projectRoot i :
  In i (extractImportsWithRegex st content fileDir projectRoot) -> quoteFree (source i).
Proof.
  unfold extractImportsWithRegex. rewrite !in_app_iff, !in_flat_map.
  intros [(r & Hr & Hi)|[([r flag] & Hr & Hi)|Hi]];
    apply in_map_iff in Hi as ([c text] & <- & Hmatch);
    apply exec_all_denotes in Hmatch as (w & Hw); simpl.
  - eapply importPatterns_source; eauto.
  - eapply dynamicImportPatterns_source; eauto.
  - eapply requirePattern_source; eauto.
Qed.

Lemma createImportInfo_resolved st source fileDir projectRoot type :
  is_Some (resolvedPath (createImportInfo st source fileDir projectRoot type))
  <-> isNodeModule (createImportInfo st source fileDir projectRoot type) = false.
Proof.
  unfold createImportInfo. cbn [resolvedPath isNodeModule].
  destruct (negb (Js.startsWith source ".") && negb (path_isAbsolute source)
            && negb (isProjectAlias source)) eqn:Hmodule; cbn [negb].
  - split; [intros [p Hp]; discriminate|discriminate].
  - split; [reflexivity|]. intros _.
    destruct (isProjectAlias source) eqn:Halias; [|eauto].
    unfold resolveProjectAlias. unfold isProjectAlias in Halias.
    destruct (Js.startsWith source "@/"); [eauto|].
    destruct (Js.startsWith source "~/"); [simpl; eauto|].
    destruct (Js.startsWith source "~~/"); [simpl; eauto|].
    simpl in Halias. rewrite Halias. eauto.
Qed.

End ExtractionFacts.

(** X8. Every import that [extractImports] returns for a file has a
    source of at least one character, none of which is a quote, a double
    quote or a backtick, and it carries a resolved path exactly when it is
    not flagged as a node module. *)
Theorem extracted_imports_are_well_formed :
  forall (P : PathApi) (F : FileSystem) (st : Analyzer.State)
         (content filePath projectRoot : string) (i : Analyzer.ImportInfo),
    i ∈ Analyzer.extractImports st content filePath projectRoot ->
    Analyzer.source i <> ""
    /\ allOf (Regex.none_of Regex.quotes) (Analyzer.source i)
    /\ (is_Some (Analyzer.resolvedPath i) <-> Analyzer.isNodeModule i = false).
Proof.
  intros P F st content filePath projectRoot i Hi.
  destruct (extractImports_created _ _ _ _ _ Hi) as (source & type & Hcreated).
  apply list_elem_of_In in Hi. unfold Analyzer.extractImports in Hi.
  apply extractImportsWithRegex_sources in Hi as [Hne Hall].
  split; [exact Hne|]. split; [exact Hall|].
  rewrite Hcreated. apply createImportInfo_resolved.
Qed.

Lemma extracted_imports_are_well_formed_witness :
  let st := @Analyzer.initialize Examples.unix Examples.twoHopFs Examples.plainJson "/proj" in
  let i := @Analyzer.createImportInfo Examples.unix Examples.twoHopFs st
             "./D" "/proj" "/proj" Analyzer.TImport in
  Analyzer.source i <> "" /\ is_Some (Analyzer.resolvedPath i).
Proof.
  intros st i.
  assert (Hi : i ∈ @Analyzer.extractImports Examples.unix Examples.twoHopFs st
                     "import { d } from './D';" "/proj/A.ts" "/proj")
    by (vm_compute; apply list_elem_of_here).
  destruct (extracted_imports_are_well_formed Examples.unix Examples.twoHopFs st
              _ _ _ i Hi) as (Hne & _ & Hresolved).
  split; [exact Hne|]. apply Hresolved. vm_compute. reflexivity.
Defined.

(* ================================================================= *)
(** ** The directory scan: what it returns and when it throws *)

(** Induction on a directory entry, with the entries below it. *)
Fixpoint Dirent_nested_ind (Q : Dirent -> Prop)
         (Hfile : Q DirentFile) (Hother : Q DirentOther)
         (Hdir : forall readable entries,
             Forall (fun entry => Q (snd entry)) entries ->
             Q (DirentDirectory readable entries))
         (entry : Dirent) : Q entry :=
  match entry with
  | DirentFile => Hfile
  | DirentOther => Hother
  | DirentDirectory readable entries =>
      Hdir readable entries
        ((fix below (entries : list (string * Dirent))
            : Forall (fun entry => Q (snd entry)) entries :=
            match entries with
            | [] => List.Forall_nil _
            | entry :: rest =>
                @List.Forall_cons _ _ entry rest
                  (Dirent_nested_ind Q Hfile Hother Hdir (snd entry)) (below rest)
            end) entries)
  end.

(** An entry that makes the scan throw: a directory that is scanned and
    cannot be listed, or a directory that is scanned and holds such an
    entry. *)
Inductive blocksScan `{PathApi} `{FileSystem} (st : Analyzer.State)
  : string -> string -> Dirent -> Prop :=
| blocks_here dir name entries :
    Analyzer.ignored st (path_join [dir; name]) = false ->
    Analyzer.shouldIgnoreDirectory name = false ->
    blocksScan st dir name (DirentDirectory false entries)
| blocks_below dir name entries name' entry' :
    Analyzer.ignored st (path_join [dir; name]) = false ->
    Analyzer.shouldIgnoreDirectory name = false ->
    In (name', entry') entries ->
    blocksScan st (path_join [dir; name]) name' entry' ->
    blocksScan st dir name (DirentDirectory true entries).

Section ScanFacts.

Import Analyzer.
Context `{PathApi} `{FileSystem}.

Lemma concatFound_Some results all :
  concatFound results = Some all ->
  forall f, In f all <-> exists found, In (Some found) results /\ In f found.
Proof.
  revert all. induction results as [|[found|] results IH]; intros all Hall f; simpl in Hall.
  - injection Hall as <-. split; [contradiction|]. intros (found & [] & _).
  - destruct (concatFound results) as [more|]; [|discriminate]. injection Hall as <-.
    rewrite in_app_iff, (IH more eq_refl). split.
    + intros [Hf|(found' & Hin & Hf)].
      * exists found. split; [left; reflexivity|exact Hf].
      * exists found'. split; [right; exact Hin|exact Hf].
    + intros (found' & [[= ->]|Hin] & Hf); [left; exact Hf|].
      right. exists found'. split; assumption.
  - discriminate.
Qed.

Lemma concatFound_None results : concatFound results = None <-> In None results.
Proof.
  induction results as [|[found|] results IH]; simpl.
  - split; [discriminate|contradiction].
  - destruct (concatFound results) as [more|].
    + split; [discriminate|]. intros [Hin|Hin]; [discriminate|]. apply IH in Hin. discriminate.
    + split; [intros _; right; apply IH; reflexivity|reflexivity].
  - split; [intros _; left; reflexivity|reflexivity].
Qed.

Lemma scanEntry_eq st dir entry name :
  scanEntry st dir entry name
  = let fullPath := path_join [dir; name] in
    if ignored st fullPath then Some []
    else
      match entry with
      | DirentDirectory readable entries =>
          if negb (shouldIgnoreDirectory name) then
            if readable then
              concatFound (map (fun '(n, e) => scanEntry st fullPath e n) entries)
            else None
          else Some []
      | DirentFile =>
          if isSupportedFile st fullPath && negb (isCompiledFile st fullPath)
          then Some [fullPath] else Some []
      | DirentOther => Some []
      end.
Proof. destruct entry; reflexivity. Qed.

(** A file is scanned when it can be analyzed: its extension is a
    supported one, it is not a compiled file and no ignore rule excludes
    it. *)
Definition scannable (st : State) (f : string) : Prop :=
  isSupportedFile st f = true /\ isCompiledFile st f = false /\ ignored st f = false.

Lemma scanEntry_scannable st entry : forall dir name found,
  scanEntry st dir entry name = Some found -> Forall (scannable st) found.
Proof.
  induction entry as [| |readable entries IH] using Dirent_nested_ind;
    intros dir name found; rewrite scanEntry_eq; cbv zeta;
    destruct (ignored st (path_join [dir; name])) eqn:Hignored;
    try (intros [= <-]; constructor).
  - destruct (isSupportedFile st _ && negb (isCompiledFile st _)) eqn:Hkeep;
      intros [= <-]; constructor; [|constructor].
    apply andb_true_iff in Hkeep as [Hsupported Hcompiled].
    apply negb_true_iff in Hcompiled. split_all.
  - destruct (negb (shouldIgnoreDirectory name)); [|intros [= <-]; constructor].
    destruct readable; [|discriminate]. intros Hall. apply Forall_forall. intros f Hf.
    apply list_elem_of_In in Hf.
    apply (concatFound_Some _ _ Hall) in Hf as (found' & Hin & Hf).
    apply in_map_iff in Hin as ([n e] & Hscan & Hentry).
    rewrite Forall_forall in IH. apply list_elem_of_In in Hentry.
    specialize (IH _ Hentry _ _ _ Hscan). rewrite Forall_forall in IH.
    apply IH, list_elem_of_In, Hf.
Qed.

Lemma getAllFiles_scannable st dir all :
  getAllFiles st dir = Some all -> Forall (scannable st) all.
Proof.
  unfold getAllFiles. destruct (fs_readdir dir) as [entries|]; [|discriminate].
  intros Hall. apply Forall_forall. intros f Hf. apply list_elem_of_In in Hf.
  apply (concatFound_Some _ _ Hall) in Hf as (found' & Hin & Hf).
  apply in_map_iff in Hin as ([n e] & Hscan & Hentry).
  apply scanEntry_scannable in Hscan. rewrite Forall_forall in Hscan.
  apply Hscan, list_elem_of_In, Hf.
Qed.

Lemma scanEntry_None st entry : forall dir name,
  scanEntry st dir entry name = None <-> blocksScan st dir name entry.
Proof.
  induction entry as [| |readable entries IH] using Dirent_nested_ind;
    intros dir name; rewrite scanEntry_eq; cbv zeta.
  - split; [|intros Hblocks; inversion Hblocks].
    destruct (ignored st _); [discriminate|]. destruct (_ && _); discriminate.
  - split; [|intros Hblocks; inversion Hblocks].
    destruct (ignored st _); discriminate.
  - split.
    + destruct (ignored st _) eqn:Hignored; [discriminate|].
      destruct (shouldIgnoreDirectory name) eqn:Hname; [discriminate|]. cbn [negb].
      destruct readable; [|intros _; apply blocks_here; assumption].
      intros Hnone. apply concatFound_None in Hnone.
      apply in_map_iff in Hnone as ([n e] & Hscan & Hentry).
      rewrite Forall_forall in IH. pose proof Hentry as Hentry'.
      apply list_elem_of_In in Hentry'. apply (IH _ Hentry') in Hscan.
      eapply blocks_below; eauto.
    + intros Hblocks. inversion Hblocks as [? ? ? Hignored Hname|? ? ? n e Hignored Hname Hentry Hbelow];
        subst; rewrite Hignored, Hname; cbn [negb]; [reflexivity|].
      apply concatFound_None. apply in_map_iff. exists (n, e). split; [|exact Hentry].
      rewrite Forall_forall in IH. pose proof Hentry as Hentry'.
      apply list_elem_of_In in Hentry'. apply (IH _ Hentry'). exact Hbelow.
Qed.

Lemma getAllFiles_None st dir :
  getAllFiles st dir = None <->
  fs_readdir dir = None
  \/ exists entries name entry,
       fs_readdir dir = Some entries /\ In (name, entry) entries
       /\ blocksScan st dir name entry.
Proof.
  unfold getAllFiles. destruct (fs_readdir dir) as [entries|]; [|split; auto].
  rewrite concatFound_None, in_map_iff. split.
  - intros ([n e] & Hscan & Hentry). right. exists entries, n, e.
    split; [reflexivity|]. split; [exact Hentry|]. apply scanEntry_None, Hscan.
  - intros [Hnone|(entries' & n & e & [= <-] & Hentry & Hblocks)]; [discriminate|].
    exists (n, e). split; [apply scanEntry_None, Hblocks|exact Hentry].
Qed.

(** *** Extensions *)

Lemma endsWith_both f ext ext' :
  Js.endsWith f ext = true -> Js.endsWith f ext' = true ->
  exists rest rest', Js.rev ext +:+ rest = Js.rev ext' +:+ rest'.
Proof.
  unfold Js.endsWith. intros Hext Hext'.
  apply prefix_true in Hext as (rest & Hrest). apply prefix_true in Hext' as (rest' & Hrest').
  exists rest, rest'. congruence.
Qed.

Ltac endings_differ :=
  match goal with
  | Hext : Js.endsWith ?f ?ext = true |- Js.endsWith ?f ?ext' = false =>
      destruct (Js.endsWith f ext') eqn:Hext'; [exfalso|reflexivity];
      destruct (endsWith_both _ _ _ Hext Hext') as (rest & rest' & Hboth);
      vm_compute in Hboth; discriminate
  end.

Lemma endsWith_script_kinds f :
  existsb (Js.endsWith f) [".ts"; ".tsx"; ".vue"; ".svelte"] = true ->
  Js.endsWith f ".js" = false /\ Js.endsWith f ".jsx" = false.
Proof.
  cbn [existsb]. rewrite !orb_true_iff.
  intros [Hext|[Hext|[Hext|[Hext|Hnone]]]]; try discriminate; split; endings_differ.
Qed.

Lemma endsWith_plain_kinds f :
  existsb (Js.endsWith f) [".js"; ".jsx"; ".vue"; ".svelte"] = true ->
  Js.endsWith f ".ts" = false /\ Js.endsWith f ".tsx" = false.
Proof.
  cbn [existsb]. rewrite !orb_true_iff.
  intros [Hext|[Hext|[Hext|[Hext|Hnone]]]]; try discriminate; split; endings_differ.
Qed.

End ScanFacts.

(** X9. Every file that the directory scan returns can be analyzed: it
    ends with one of the supported extensions, it is not taken for a
    compiled file, and the ignore rules do not exclude it. *)
Theorem scanned_files_are_analyzable :
  forall (P : PathApi) (F : FileSystem) (st : Analyzer.State)
         (dir : string) (allFiles : list string) (f : string),
    Analyzer.getAllFiles st dir = Some allFiles ->
    f ∈ allFiles ->
    (exists ext, ext ∈ Analyzer.supportedExtensions st /\ Js.endsWith f ext = true)
    /\ Analyzer.isCompiledFile st f = false
    /\ Analyzer.ignored st f = false.
Proof.
  intros P F st dir allFiles f Hscan Hf.
  apply getAllFiles_scannable in Hscan. rewrite Forall_forall in Hscan.
  destruct (Hscan _ Hf) as (Hsupported & Hcompiled & Hignored).
  split; [|split; assumption].
  unfold Analyzer.isSupportedFile in Hsupported. apply existsb_exists in Hsupported as (ext & Hext & Hends).
  exists ext. split; [apply list_elem_of_In, Hext|exact Hends].
Qed.

Lemma scanned_files_are_analyzable_witness :
  @Analyzer.isCompiledFile Examples.unix Examples.nestedFs
    (@Analyzer.initialize Examples.unix Examples.nestedFs Examples.plainJson "/app")
    "/app/src/main.ts" = false.
Proof.
  refine (proj1 (proj2 (scanned_files_are_analyzable Examples.unix Examples.nestedFs
                          _ "/app" ["/app/src/main.ts"; "/app/src/util/u.ts"]
                          "/app/src/main.ts" _ _))).
  - vm_compute. reflexivity.
  - apply list_elem_of_here.
Defined.

(** X10. The project type decides which script files are scanned: in a
    project detected as TypeScript the scan returns no [.js] and no [.jsx]
    file, and in a project detected as CommonJS or ES6 JavaScript it
    returns no [.ts] and no [.tsx] file. *)
Theorem project_type_selects_script_files :
  forall (P : PathApi) (F : FileSystem) (J : Json)
         (projectRoot : string) (allFiles : list string) (f : string),
    Analyzer.getAllFiles (Analyzer.initialize projectRoot) projectRoot = Some allFiles ->
    f ∈ allFiles ->
    match Analyzer.detectProjectType projectRoot with
    | Analyzer.TYPESCRIPT => Js.endsWith f ".js" = false /\ Js.endsWith f ".jsx" = false
    | Analyzer.JAVASCRIPT_COMMONJS | Analyzer.JAVASCRIPT_ES6 =>
        Js.endsWith f ".ts" = false /\ Js.endsWith f ".tsx" = false
    | Analyzer.MIXED => True
    end.
Proof.
  intros P F J projectRoot allFiles f Hscan Hf.
  apply getAllFiles_scannable in Hscan. rewrite Forall_forall in Hscan.
  destruct (Hscan _ Hf) as (Hsupported & _). clear Hscan.
  unfold Analyzer.isSupportedFile, Analyzer.initialize in Hsupported.
  cbn [Analyzer.supportedExtensions] in Hsupported.
  destruct (Analyzer.detectProjectType projectRoot); cbn in Hsupported.
  - apply endsWith_script_kinds. exact Hsupported.
  - apply endsWith_plain_kinds. exact Hsupported.
  - apply endsWith_plain_kinds. exact Hsupported.
  - exact I.
Qed.

Lemma project_type_selects_script_files_witness :
  Js.endsWith "/proj/a.js" ".ts" = false /\ Js.endsWith "/proj/a.js" ".tsx" = false.
Proof.
  exact (project_type_selects_script_files Examples.unix Examples.requireFs Examples.plainJson
           "/proj" ["/proj/a.js"; "/proj/b.js"] "/proj/a.js"
           eq_refl (list_elem_of_here _ _)).
Defined.

(* ================================================================= *)
(** ** The node set of a focused build *)

(** A file at or below the entry [name] of the directory [dir],
    wherever it lies. *)
Inductive inTree `{PathApi} : string -> string -> Dirent -> string -> Prop :=
| tree_file dir name : inTree dir name DirentFile (path_join [dir; name])
| tree_below dir name readable entries name' entry' p :
    In (name', entry') entries ->
    inTree (path_join [dir; name]) name' entry' p ->
    inTree dir name (DirentDirectory readable entries) p.

(** A file that the scan finds at or below the entry [name] of [dir]:
    no ignore rule excludes the file or a directory on the way to it, no
    directory on the way is skipped by its name, and the file has a
    supported extension and is not a compiled file. *)
Inductive scanFinds `{PathApi} `{FileSystem} (st : Analyzer.State)
  : string -> string -> Dirent -> string -> Prop :=
| finds_file dir name :
    Analyzer.ignored st (path_join [dir; name]) = false ->
    Analyzer.isSupportedFile st (path_join [dir; name]) = true ->
    Analyzer.isCompiledFile st (path_join [dir; name]) = false ->
    scanFinds st dir name DirentFile (path_join [dir; name])
| finds_below dir name readable entries name' entry' p :
    Analyzer.ignored st (path_join [dir; name]) = false ->
    Analyzer.shouldIgnoreDirectory name = false ->
    In (name', entry') entries ->
    scanFinds st (path_join [dir; name]) name' entry' p ->
    scanFinds st dir name (DirentDirectory readable entries) p.


(** A file that the scan of [root] finds. *)
Definition scanned `{PathApi} `{FileSystem} (st : Analyzer.State) (root p : string) : Prop :=
  exists entries name entry,
    fs_readdir root = Some entries /\ In (name, entry) entries
    /\ scanFinds st root name entry p.

Section FocusedScan.
Import Analyzer.
Context `{PathApi} `{FileSystem}.

Lemma scanFinds_inTree st dir name entry p :
  scanFinds st dir name entry p -> inTree dir name entry p.
Proof.
  induction 1 as [dir name _ _ _|dir name readable entries name' entry' p _ _ Hin _ IH].
  - apply tree_file.
  - eapply tree_below; eauto.
Qed.



End FocusedScan.





(* ================================================================= *)
(** ** Whole-project analysis: records, multiplicities and failure *)

Section ProjectMore.

Import Analyzer.
Context `{PathApi} `{FileSystem} `{Json}.

Lemma firstPass_keys st projectRoot allFiles k :
  k ∈ mapKeys (firstPass st projectRoot allFiles)
  <-> k ∈ allFiles /\ is_Some (readFileSync k).
Proof.
  unfold firstPass.
  assert (Hgen : forall files,
    k ∈ mapKeys (fold_left (fun files filePath =>
        match analyzeFileContent st filePath projectRoot with
        | Some fileNode => mapSet files filePath fileNode
        | None => files
        end) allFiles files)
    <-> k ∈ mapKeys files \/ (k ∈ allFiles /\ is_Some (readFileSync k))).
  { induction allFiles as [|filePath allFiles IH]; intros files; simpl.
    - split; [auto|]. intros [Hk|[Hk _]]; [exact Hk|inversion Hk].
    - rewrite IH. destruct (analyzeFileContent st filePath projectRoot) as [fileNode|] eqn:Hnode.
      + apply analyzeFileContent_Some in Hnode as (_ & _ & Hread).
        rewrite mapKeys_mapSet. destruct (mapHas files filePath) eqn:Hhas.
        * apply mapHas_true in Hhas. split.
          -- intros [Hk|[Hk Hr]]; [auto|]. right. split; [apply list_elem_of_further, Hk|exact Hr].
          -- intros [Hk|[Hk Hr]]; [auto|].
             apply elem_of_cons in Hk as [->|Hk]; [auto|]. right. split; assumption.
        * rewrite elem_of_app, list_elem_of_singleton. split.
          -- intros [[Hk| ->]|[Hk Hr]]; [auto| |].
             ++ right. split; [apply list_elem_of_here|exact Hread].
             ++ right. split; [apply list_elem_of_further, Hk|exact Hr].
          -- intros [Hk|[Hk Hr]]; [auto|].
             apply elem_of_cons in Hk as [->|Hk]; [auto|]. right. split; assumption.
      + apply analyzeFileContent_None in Hnode. split.
        * intros [Hk|[Hk Hr]]; [auto|]. right. split; [apply list_elem_of_further, Hk|exact Hr].
        * intros [Hk|[Hk Hr]]; [auto|].
          apply elem_of_cons in Hk as [->|Hk]; [|right; split; assumption].
          rewrite Hnode in Hr. destruct Hr as [? Hr]. discriminate. }
  rewrite Hgen. split; [|auto]. intros [Hk|Hk]; [inversion Hk|exact Hk].
Qed.

(** The records of a project graph: each is a record of the first
    pass, to which the second pass has appended the importers it
    recorded. *)
Lemma analyzeProject_records projectRoot m :
  analyzeProject projectRoot = Returned m ->
  exists allFiles,
    getAllFiles (initialize projectRoot) projectRoot = Some allFiles
    /\ entryFile m = None
    /\ mapKeys (files m) = mapKeys (firstPass (initialize projectRoot) projectRoot allFiles)
    /\ NoDup (mapKeys (files m))
    /\ forall k node, (k, node) ∈ files m ->
         exists node0,
           (k, node0) ∈ firstPass (initialize projectRoot) projectRoot allFiles
           /\ analyzeFileContent (initialize projectRoot) k projectRoot = Some node0
           /\ node = appendImportedBy
                       (recorded k (firstPass (initialize projectRoot) projectRoot allFiles))
                       node0.
Proof.
  unfold analyzeProject.
  destruct (getAllFiles (initialize projectRoot) projectRoot) as [allFiles|]; [|discriminate].
  intros [= <-]. exists allFiles. cbn [files entryFile]. set (st := initialize projectRoot).
  destruct (firstPass_analyzed st projectRoot allFiles) as [Hnd Hall].
  set (first := firstPass st projectRoot allFiles) in *.
  change (secondPass first) with (secondPassOver first first).
  rewrite secondPassOver_keys. split; [reflexivity|]. split; [reflexivity|].
  split; [reflexivity|]. split; [exact Hnd|].
  intros k node Hin. apply mapGet_elem_NoDup in Hin; [|rewrite secondPassOver_keys; exact Hnd].
  rewrite secondPassOver_get in Hin.
  destruct (mapGet first k) as [node0|] eqn:Hk; [|discriminate].
  injection Hin as <-. exists node0. apply mapGet_Some_elem in Hk.
  split; [exact Hk|]. split; [|reflexivity].
  rewrite Forall_forall in Hall. exact (Hall _ Hk).
Qed.

Lemma recordsOn_resolvesTo target importInfo :
  target <> "" -> recordsOn target importInfo = resolvesTo target importInfo.
Proof.
  intros Hne. unfold recordsOn, resolvesTo, isResolvedInternal.
  destruct (isNodeModule importInfo); [reflexivity|]. cbn [negb andb].
  destruct (resolvedPath importInfo) as [[|c r]|]; try reflexivity.
  cbn [Js.truthy andb]. destruct target; [contradiction|reflexivity].
Qed.

Lemma count_occ_same (p : string) (l : list ImportInfo) :
  count_occ String.string_dec (map (fun _ => p) l) p = length l.
Proof.
  induction l as [|i l IH]; simpl; [reflexivity|].
  destruct (String.string_dec p p); [rewrite IH; reflexivity|contradiction].
Qed.

Lemma count_occ_other (p q : string) (l : list ImportInfo) :
  p <> q -> count_occ String.string_dec (map (fun _ => p) l) q = 0%nat.
Proof.
  intros Hne. induction l as [|i l IH]; simpl; [reflexivity|].
  destruct (String.string_dec p q); [contradiction|exact IH].
Qed.

(** How often a path occurs among the importers recorded for a target,
    when the entries have distinct keys. *)
Lemma count_occ_recorded target entries b B :
  NoDup (mapKeys entries) -> (b, B) ∈ entries ->
  count_occ String.string_dec (recorded target entries) b
  = length (List.filter (recordsOn target) (imports B)).
Proof.
  induction entries as [|[p node] entries IH]; intros Hnd Hin; [inversion Hin|].
  simpl in Hnd. apply NoDup_cons in Hnd as [Hfresh Hnd].
  unfold recorded. cbn [flat_map]. rewrite count_occ_app.
  fold (recorded target entries).
  apply elem_of_cons in Hin as [[= -> ->]|Hin].
  - rewrite count_occ_same.
    assert (Hnone : count_occ String.string_dec (recorded target entries) p = 0%nat).
    { apply count_occ_not_In. intros Hp. apply list_elem_of_In in Hp.
      apply elem_of_recorded in Hp as (node' & _ & Hp & _).
      apply Hfresh. apply (elem_mapKeys _ _ _ Hp). }
    rewrite Hnone. lia.
  - rewrite count_occ_other, (IH Hnd Hin); [reflexivity|].
    intros ->. apply Hfresh. apply (elem_mapKeys _ _ _ Hin).
Qed.

End ProjectMore.

(** X11. The records of a project graph. When the scan returns,
    [analyzeProject] returns a graph without entry file whose keys are
    distinct and are the scanned files that can be read: a file that
    cannot be read is left out and does not stop the analysis. Each record
    carries its key as path, the base name of the key as name and the
    imports extracted from the content of the file. *)
Theorem project_graph_records :
  forall (P : PathApi) (F : FileSystem) (J : Json)
         (projectRoot : string) (allFiles : list string),
    let st := Analyzer.initialize projectRoot in
    Analyzer.getAllFiles st projectRoot = Some allFiles ->
    exists m,
      Analyzer.analyzeProject projectRoot = Analyzer.Returned m
      /\ Analyzer.entryFile m = None
      /\ NoDup (Analyzer.mapKeys (Analyzer.files m))
      /\ (forall k, k ∈ Analyzer.mapKeys (Analyzer.files m)
                    <-> k ∈ allFiles /\ is_Some (readFileSync k))
      /\ (forall k node, (k, node) ∈ Analyzer.files m ->
            exists content,
              readFileSync k = Some content
              /\ Analyzer.path node = k
              /\ Analyzer.name node = path_basename k
              /\ Analyzer.imports node = Analyzer.extractImports st content k projectRoot
              /\ Analyzer.fileIsNodeModule node = false).
Proof.
  intros P F J projectRoot allFiles st Hscan.
  destruct (Analyzer.analyzeProject projectRoot) as [m|] eqn:Hm;
    [|unfold Analyzer.analyzeProject in Hm; fold st in Hm; rewrite Hscan in Hm; discriminate].
  exists m. split; [reflexivity|].
  destruct (analyzeProject_records _ _ Hm) as (allFiles' & Hscan' & Hentry & Hkeys & Hnd & Hrecords).
  fold st in Hscan'. rewrite Hscan in Hscan'. injection Hscan' as <-.
  split; [exact Hentry|]. split; [exact Hnd|]. split.
  - intros k. rewrite Hkeys. apply firstPass_keys.
  - intros k node Hin. destruct (Hrecords _ _ Hin) as (node0 & _ & Hnode0 & ->).
    unfold Analyzer.analyzeFileContent in Hnode0.
    destruct (readFileSync k) as [content|]; [|discriminate].
    injection Hnode0 as <-. exists content. repeat split; reflexivity.
Qed.

Lemma project_graph_records_witness :
  exists m,
    @Analyzer.analyzeProject Examples.unix Examples.twoHopFs Examples.plainJson "/proj"
      = Analyzer.Returned m
    /\ NoDup (Analyzer.mapKeys (Analyzer.files m)).
Proof.
  destruct (project_graph_records Examples.unix Examples.twoHopFs Examples.plainJson "/proj"
              ["/proj/A.ts"; "/proj/B.ts"; "/proj/C.ts"; "/proj/D.ts"; "/proj/E.ts"] eq_refl)
    as (m & Hm & _ & Hnd & _).
  exists m. split; assumption.
Defined.

(** X12. In a project graph a file occurs in the [importedBy] of a
    record as many times as it has imports that resolve to the path of
    that record: once for each such reference, not once for each
    importer. *)
Theorem importedBy_counts_references :
  forall (P : PathApi) (F : FileSystem) (J : Json) (projectRoot : string)
         (m : Analyzer.ImportMap) (a b : string) (A B : Analyzer.FileNode),
    Analyzer.analyzeProject projectRoot = Analyzer.Returned m ->
    (a, A) ∈ Analyzer.files m -> (b, B) ∈ Analyzer.files m -> a <> "" ->
    count_occ String.string_dec (Analyzer.importedBy A) b
    = length (List.filter (Analyzer.resolvesTo a) (Analyzer.imports B)).
Proof.
  intros P F J projectRoot m a b A B Hm HA HB Hne.
  destruct (analyzeProject_records _ _ Hm) as (allFiles & _ & _ & Hkeys & Hnd & Hrecords).
  destruct (Hrecords _ _ HA) as (A0 & _ & HA0 & ->).
  destruct (Hrecords _ _ HB) as (B0 & HB0 & _ & ->).
  apply analyzeFileContent_Some in HA0 as (_ & Hempty & _).
  cbn [Analyzer.importedBy Analyzer.imports appendImportedBy]. rewrite Hempty, app_nil_l.
  rewrite Hkeys in Hnd. rewrite (count_occ_recorded _ _ _ _ Hnd HB0).
  f_equal. apply filter_ext. intros i. apply recordsOn_resolvesTo, Hne.
Qed.

Lemma importedBy_counts_references_witness :
  exists m A B,
    @Analyzer.analyzeProject Examples.unix Examples.requireFs Examples.plainJson "/proj"
      = Analyzer.Returned m
    /\ ("/proj/a.js", A) ∈ Analyzer.files m
    /\ ("/proj/b.js", B) ∈ Analyzer.files m
    /\ count_occ String.string_dec (Analyzer.importedBy A) "/proj/b.js" = 2%nat.
Proof.
  destruct (@Analyzer.analyzeProject Examples.unix Examples.requireFs Examples.plainJson "/proj")
    as [m|] eqn:Hm; [|vm_compute in Hm; discriminate].
  assert (Hfiles : exists A B, Analyzer.files m = [("/proj/a.js", A); ("/proj/b.js", B)]
                               /\ length (List.filter (Analyzer.resolvesTo "/proj/a.js")
                                                      (Analyzer.imports B)) = 2%nat).
  { vm_compute in Hm. injection Hm as <-. eexists _, _. split; reflexivity. }
  destruct Hfiles as (A & B & Hfiles & Hcount). exists m, A, B. split; [reflexivity|].
  assert (HA : ("/proj/a.js", A) ∈ Analyzer.files m) by (rewrite Hfiles; apply list_elem_of_here).
  assert (HB : ("/proj/b.js", B) ∈ Analyzer.files m)
    by (rewrite Hfiles; apply list_elem_of_further, list_elem_of_here).
  split; [exact HA|]. split; [exact HB|].
  rewrite (importedBy_counts_references Examples.unix Examples.requireFs Examples.plainJson
             "/proj" m "/proj/a.js" "/proj/b.js" A B Hm HA HB); [exact Hcount|discriminate].
Defined.

(** X13. The analysis of a project throws exactly when the scan does:
    when the root cannot be listed, or when a directory that the scan
    enters, one that is neither excluded by the ignore rules nor skipped
    by its name, cannot be listed. The analysis of a file throws under
    the same condition once its entry file has been read. *)
Theorem analysis_throws_on_unreadable_directory :
  forall (P : PathApi) (F : FileSystem) (J : Json) (filePath projectRoot : string),
    let st := Analyzer.initialize projectRoot in
    let blocked :=
      fs_readdir projectRoot = None
      \/ exists entries name entry,
           fs_readdir projectRoot = Some entries /\ In (name, entry) entries
           /\ blocksScan st projectRoot name entry in
    (Analyzer.analyzeProject projectRoot = Analyzer.Thrown <-> blocked)
    /\ (Analyzer.analyzeFile filePath projectRoot = Analyzer.Thrown
        <-> is_Some (readFileSync filePath) /\ blocked).
Proof.
  intros P F J filePath projectRoot st blocked. subst blocked.
  rewrite <- getAllFiles_None. unfold Analyzer.analyzeProject, Analyzer.analyzeFile. fold st.
  split.
  - destruct (Analyzer.getAllFiles st projectRoot); split; intros; congruence.
  - destruct (Analyzer.analyzeFileContent st filePath projectRoot) as [node|] eqn:Hnode.
    + apply analyzeFileContent_Some in Hnode as (_ & _ & Hread).
      destruct (Analyzer.getAllFiles st projectRoot).
      * split; [discriminate|]. intros [_ Hnone]. discriminate.
      * split; auto.
    + apply analyzeFileContent_None in Hnode. rewrite Hnode. split; [discriminate|].
      intros [[? Hread] _]. discriminate.
Qed.

(* ================================================================= *)
(** ** Project type detection *)

Section TypeFacts.

Import Analyzer.
Context `{PathApi} `{FileSystem} `{Json}.

Lemma checkFile_bound fullPath counts :
  (filesChecked counts <= 20)%nat -> (filesChecked (checkFile fullPath counts) <= 21)%nat.
Proof.
  intros Hle. unfold checkFile. destruct (readFileSync fullPath); simpl; lia.
Qed.

Lemma fold_left_invariant {A B} (Inv : A -> Prop) (f : A -> B -> A) l :
  (forall a b, In b l -> Inv a -> Inv (f a b)) -> forall a, Inv a -> Inv (fold_left f l a).
Proof.
  induction l as [|b l IH]; intros Hstep a Ha; simpl; [exact Ha|].
  apply IH; [intros a' b' Hb'; apply Hstep; right; exact Hb'|].
  apply Hstep; [left; reflexivity|exact Ha].
Qed.

Lemma checkFiles_bound levels : forall dir listing counts,
  (filesChecked counts <= 21)%nat ->
  (filesChecked (checkFiles levels dir listing counts) <= 21)%nat.
Proof.
  induction levels as [|levels IH]; intros dir listing counts Hle; simpl; [exact Hle|].
  destruct (Nat.ltb 20 (filesChecked counts)); [exact Hle|].
  destruct listing as [entries|]; [|exact Hle].
  apply (fold_left_invariant (fun c => (filesChecked c <= 21)%nat)); [|exact Hle].
  intros c [name entry] _ Hc.
  destruct (Nat.ltb 20 (filesChecked c)) eqn:Hfull; [exact Hc|].
  apply Nat.ltb_ge in Hfull.
  destruct entry as [| |readable sub]; [|exact Hc|].
  - destruct (_ || _); [apply checkFile_bound, Hfull|exact Hc].
  - destruct (negb _); [apply IH, Hc|exact Hc].
Qed.

End TypeFacts.

(** X14. The module type of a JavaScript project is decided on a
    sample: however many files the tree holds, [checkFiles] counts the
    [require] and [import] occurrences of at most 21 of them. *)
Theorem module_type_sample_is_bounded :
  forall (P : PathApi) (F : FileSystem) (levels : nat) (dir : string)
         (listing : option (list (string * Dirent))),
    (Analyzer.filesChecked
       (Analyzer.checkFiles levels dir listing
          {| Analyzer.requireCount := 0; Analyzer.importCount := 0;
             Analyzer.filesChecked := 0 |}) <= 21)%nat.
Proof.
  intros P F levels dir listing. apply checkFiles_bound. simpl. lia.
Qed.

(** X15. A project with a [tsconfig.json], or with TypeScript among
    the dependencies of its [package.json], is never taken for a plain
    JavaScript project. When the first four levels of its tree hold
    [.js] or [.jsx] files and no [.ts] or [.tsx] file, it is taken for a
    TypeScript project, and then none of its [.js] and [.jsx] files is a
    record of the project graph. *)
Theorem typescript_configuration_hides_plain_scripts :
  forall (P : PathApi) (F : FileSystem) (J : Json) (projectRoot : string),
    let stats := Analyzer.analyzeFileDistribution projectRoot in
    existsSync (path_join [projectRoot; "tsconfig.json"]) = true
    \/ (exists packageJson,
          readFileSync (path_join [projectRoot; "package.json"]) = Some packageJson
          /\ namesTypeScript packageJson = true) ->
    (Analyzer.detectProjectType projectRoot = Analyzer.TYPESCRIPT
     \/ Analyzer.detectProjectType projectRoot = Analyzer.MIXED)
    /\ (Analyzer.tsFiles stats = 0%nat -> (0 < Analyzer.jsFiles stats)%nat ->
        Analyzer.detectProjectType projectRoot = Analyzer.TYPESCRIPT
        /\ forall m k,
             Analyzer.analyzeProject projectRoot = Analyzer.Returned m ->
             k ∈ Analyzer.mapKeys (Analyzer.files m) ->
             Js.endsWith k ".js" = false /\ Js.endsWith k ".jsx" = false).
Proof.
  intros P F J projectRoot stats Hconfigured.
  assert (Hany : (existsSync (path_join [projectRoot; "tsconfig.json"])
                  || (if existsSync (path_join [projectRoot; "package.json"])
                      then match readFileSync (path_join [projectRoot; "package.json"]) with
                           | Some packageJson => namesTypeScript packageJson
                           | None => false
                           end
                      else false)) = true).
  { destruct Hconfigured as [-> | (packageJson & Hread & Hnames)]; [reflexivity|].
    apply orb_true_iff. right. rewrite Hread, Hnames.
    unfold existsSync. unfold readFileSync in Hread.
    destruct (fs_stat (path_join [projectRoot; "package.json"])); [reflexivity|discriminate]. }
  assert (Htype : Analyzer.detectProjectType projectRoot
                  = if Nat.ltb 0 (Analyzer.tsFiles stats)
                    then if Nat.ltb 0 (Analyzer.jsFiles stats)
                         then Analyzer.MIXED else Analyzer.TYPESCRIPT
                    else if Nat.ltb 0 (Analyzer.jsFiles stats)
                         then Analyzer.TYPESCRIPT else Analyzer.MIXED).
  { unfold Analyzer.detectProjectType. cbv zeta. fold stats. rewrite Hany. cbn [andb].
    destruct (Nat.ltb 0 (Analyzer.tsFiles stats)), (Nat.ltb 0 (Analyzer.jsFiles stats));
      reflexivity. }
  split.
  - rewrite Htype.
    destruct (Nat.ltb 0 (Analyzer.tsFiles stats)), (Nat.ltb 0 (Analyzer.jsFiles stats)); auto.
  - intros Hts Hjs.
    assert (Htyped : Analyzer.detectProjectType projectRoot = Analyzer.TYPESCRIPT).
    { rewrite Htype, Hts. apply Nat.ltb_lt in Hjs. rewrite Hjs. reflexivity. }
    split; [exact Htyped|]. intros m k Hm Hk.
    destruct (analyzeProject_records _ _ Hm) as (allFiles & Hscan & _ & Hkeys & _).
    rewrite Hkeys in Hk. apply firstPass_keys in Hk as [Hk _].
    pose proof (getAllFiles_scannable _ _ _ Hscan) as Hall. rewrite Forall_forall in Hall.
    destruct (Hall _ Hk) as (Hsupported & _).
    unfold Analyzer.isSupportedFile, Analyzer.initialize in Hsupported.
    cbn [Analyzer.supportedExtensions] in Hsupported. rewrite Htyped in Hsupported.
    apply endsWith_script_kinds. exact Hsupported.
Qed.

Lemma typescript_configuration_hides_plain_scripts_witness :
  @Analyzer.detectProjectType Examples.unix Scenarios.checkedScriptsFs Examples.plainJson "/proj"
    = Analyzer.TYPESCRIPT
  /\ @Analyzer.analyzeProject Examples.unix Scenarios.checkedScriptsFs Examples.plainJson "/proj"
     = Analyzer.Returned {| Analyzer.files := []; Analyzer.entryFile := None |}.
Proof.
  split; [|vm_compute; reflexivity].
  refine (proj1 (proj2 (typescript_configuration_hides_plain_scripts Examples.unix
                          Scenarios.checkedScriptsFs Examples.plainJson "/proj" _) _ _)).
  - left. vm_compute. reflexivity.
  - vm_compute. reflexivity.
  - vm_compute. lia.
Defined.

(* ================================================================= *)
(** ** Conversion: nodes and edges against files and imports *)

Section ConversionFacts.

Import Analyzer Panel.
Context `{PathApi}.
Variable importMap : ImportMap.
Variable currentFile : option string.
Variable isProjectMode : bool.

(** [currentFile === filePath] *)
Definition isCurrentPath (filePath : string) : bool :=
  match currentFile with Some c => String.eqb c filePath | None => false end.

(** Whether the node modules of a file are shown. *)
Definition showsModules (filePath : string) : bool :=
  isProjectMode || isCurrentPath filePath.

(** The node of a file. *)
Definition fileNodeOf (entry : string * FileNode) : VisualizationNode :=
  {| id := fst entry; label := path_basename (name (snd entry)); nodePath := fst entry;
     nodeIsNodeModule := false; isCurrentFile := Some (isCurrentPath (fst entry));
     x := Undefined; y := Undefined |}.

(** The node of a node module. *)
Definition moduleNodeOf (source : string) : VisualizationNode :=
  {| id := moduleIdOf source; label := source; nodePath := source;
     nodeIsNodeModule := true; isCurrentFile := None; x := Undefined; y := Undefined |}.

(** The edge that an import of the file [filePath] gives rise to. *)
Definition edgeOfImport (filePath : string) (importInfo : ImportInfo)
           (e : VisualizationEdge) : Prop :=
  to e = filePath /\ edgeType e = type importInfo
  /\ ((isNodeModule importInfo && showsModules filePath = true
       /\ from e = moduleIdOf (source importInfo))
      \/ (isNodeModule importInfo && showsModules filePath = false
          /\ resolvedPath importInfo = Some (from e)
          /\ from e <> ""
          /\ mapHas (files importMap) (from e) = true)).

(** The identifiers in the set are those of the nodes, each once. *)
Definition tidy (acc : Conversion) : Prop :=
  NoDup (map id (nodes acc)) /\ forall i, i ∈ nodeIds acc <-> i ∈ map id (nodes acc).

Lemma addFileNode_nodes acc entry :
  nodes (addFileNode currentFile acc entry) = nodes acc ++ [fileNodeOf entry].
Proof. destruct entry as [filePath fileNode]. reflexivity. Qed.

Lemma addFileNode_edges acc entry : edges (addFileNode currentFile acc entry) = edges acc.
Proof. destruct entry as [filePath fileNode]. reflexivity. Qed.

Lemma addFileNode_tidy acc entry :
  tidy acc -> fst entry ∉ map id (nodes acc) -> tidy (addFileNode currentFile acc entry).
Proof.
  intros [Hnd Hids] Hfresh. destruct entry as [filePath fileNode]. split; simpl in *.
  - rewrite map_app. apply NoDup_app. split; [exact Hnd|]. split; [|apply NoDup_singleton].
    intros i Hi Hi'. apply list_elem_of_singleton in Hi'. subst. contradiction.
  - intros i. rewrite map_app, elem_of_app, elem_of_union, elem_of_singleton, Hids.
    simpl. rewrite list_elem_of_singleton. tauto.
Qed.

Lemma fold_addFileNode entries : forall acc,
  tidy acc -> NoDup (map fst entries) ->
  (forall k, k ∈ map fst entries -> k ∉ map id (nodes acc)) ->
  let acc' := fold_left (addFileNode currentFile) entries acc in
  tidy acc' /\ nodes acc' = nodes acc ++ map fileNodeOf entries /\ edges acc' = edges acc.
Proof.
  induction entries as [|entry entries IH]; intros acc Htidy Hnd Hfresh; simpl.
  - rewrite app_nil_r. auto.
  - simpl in Hnd. apply NoDup_cons in Hnd as [Hentry Hnd].
    destruct (IH (addFileNode currentFile acc entry)) as (Htidy' & Hnodes & Hedges).
    + apply addFileNode_tidy; [exact Htidy|]. apply Hfresh, list_elem_of_here.
    + exact Hnd.
    + intros k Hk. rewrite addFileNode_nodes, map_app, elem_of_app. simpl.
      rewrite list_elem_of_singleton. intros [Hin| ->]; [|contradiction].
      revert Hin. apply Hfresh, list_elem_of_further, Hk.
    + split; [exact Htidy'|]. rewrite Hnodes, Hedges, addFileNode_nodes, addFileNode_edges.
      rewrite <- app_assoc. auto.
Qed.

(** One import: the nodes and the edges afterwards. *)
Lemma addImportEdge_result filePath acc importInfo :
  let acc' :=
    addImportEdge importMap isProjectMode (isCurrentPath filePath) filePath acc importInfo in
  (nodes acc' = nodes acc
   \/ (nodes acc' = nodes acc ++ [moduleNodeOf (source importInfo)]
       /\ isNodeModule importInfo && showsModules filePath = true
       /\ moduleIdOf (source importInfo) ∉ nodeIds acc))
  /\ (isNodeModule importInfo && showsModules filePath = true ->
      moduleIdOf (source importInfo) ∈ nodeIds acc')
  /\ (forall i, i ∈ nodeIds acc -> i ∈ nodeIds acc')
  /\ (forall i, i ∈ nodeIds acc' -> i ∈ nodeIds acc \/ i ∈ map id (nodes acc'))
  /\ (forall e, e ∈ edges acc' <-> e ∈ edges acc \/ edgeOfImport filePath importInfo e).
Proof.
  unfold addImportEdge, edgeOfImport, showsModules.
  destruct (isNodeModule importInfo && (isProjectMode || isCurrentPath filePath)) eqn:Hshown.
  - case_bool_decide as Hknown; cbn [nodes edges nodeIds].
    + split; [left; reflexivity|]. split; [intros _; exact Hknown|].
      split; [auto|]. split; [auto|].
      intros e. rewrite elem_of_app, list_elem_of_singleton. split.
      * intros [He| ->]; [auto|]. right. simpl. split_all.
      * intros [He|(Hto & Htype & [[_ Hfrom]|[Hno _]])]; [auto| |discriminate].
        right. destruct e. simpl in *. congruence.
    + split; [right; split_all|]. split; [intros _; set_solver|].
      split; [set_solver|]. split.
      * intros i. rewrite elem_of_union, elem_of_singleton, map_app, elem_of_app. simpl.
        rewrite list_elem_of_singleton. tauto.
      * intros e. rewrite elem_of_app, list_elem_of_singleton. split.
        -- intros [He| ->]; [auto|]. right. simpl. split_all.
        -- intros [He|(Hto & Htype & [[_ Hfrom]|[Hno _]])]; [auto| |discriminate].
           right. destruct e. simpl in *. congruence.
  - split; [left; destruct (resolvedPath importInfo) as [target|];
            [destruct (Js.nonempty target && mapHas (files importMap) target)|]; reflexivity|].
    split; [discriminate|].
    destruct (resolvedPath importInfo) as [target|] eqn:Hresolved.
    + destruct (Js.nonempty target && mapHas (files importMap) target) eqn:Hknown;
        cbn [nodes edges nodeIds].
      * split; [auto|]. split; [auto|]. intros e.
        rewrite elem_of_app, list_elem_of_singleton.
        apply andb_true_iff in Hknown as [Hnonempty Hhas]. split.
        -- intros [He| ->]; [auto|]. right. simpl. split; [reflexivity|].
           split; [reflexivity|]. right. split; [reflexivity|]. split; [reflexivity|].
           split; [|exact Hhas]. intros ->. discriminate.
        -- intros [He|(Hto & Htype & [[Hyes _]|(_ & Hfrom & _)])]; [auto|discriminate|].
           right. destruct e. simpl in *. congruence.
      * split; [auto|]. split; [auto|]. intros e. split; [auto|].
        intros [He|(Hto & Htype & [[Hyes _]|(_ & Hfrom & Hne & Hhas)])]; [exact He|discriminate|].
        injection Hfrom as ->. rewrite Hhas, andb_true_r in Hknown.
        destruct (from e); [contradiction|discriminate].
    + split; [auto|]. split; [auto|]. intros e. split; [auto|].
      intros [He|(_ & _ & [[Hyes _]|(_ & Hfrom & _)])]; [exact He|discriminate|discriminate].
Qed.

Lemma addImportEdge_tidy filePath acc importInfo :
  tidy acc ->
  tidy (addImportEdge importMap isProjectMode (isCurrentPath filePath) filePath acc importInfo).
Proof.
  intros [Hnd Hids]. unfold addImportEdge.
  destruct (isNodeModule importInfo && (isProjectMode || isCurrentPath filePath)).
  - case_bool_decide as Hknown; [split; assumption|]. split; cbn [nodes edges nodeIds].
    + rewrite map_app. apply NoDup_app. split; [exact Hnd|]. split; [|apply NoDup_singleton].
      intros i Hi Hi'. apply list_elem_of_singleton in Hi'. simpl in Hi'. subst.
      apply Hknown, Hids, Hi.
    + intros i. rewrite elem_of_union, elem_of_singleton, map_app, elem_of_app, Hids. simpl.
      rewrite list_elem_of_singleton. tauto.
  - destruct (resolvedPath importInfo) as [target|]; [|split; assumption].
    destruct (Js.nonempty target && mapHas (files importMap) target); split; assumption.
Qed.

(** The node modules that the imports of a file add. *)
Definition moduleNodeFrom (filePath : string) (importInfos : list ImportInfo)
           (n : VisualizationNode) : Prop :=
  exists importInfo,
    importInfo ∈ importInfos /\ isNodeModule importInfo = true
    /\ showsModules filePath = true /\ n = moduleNodeOf (source importInfo).

Lemma fold_addImportEdge filePath importInfos : forall acc,
  tidy acc ->
  let acc' := fold_left (addImportEdge importMap isProjectMode (isCurrentPath filePath) filePath)
                        importInfos acc in
  tidy acc'
  /\ (exists modules, nodes acc' = nodes acc ++ modules
                      /\ Forall (moduleNodeFrom filePath importInfos) modules)
  /\ (forall importInfo, importInfo ∈ importInfos ->
        isNodeModule importInfo && showsModules filePath = true ->
        moduleIdOf (source importInfo) ∈ map id (nodes acc'))
  /\ (forall e, e ∈ edges acc' <->
        e ∈ edges acc \/ exists importInfo, importInfo ∈ importInfos
                                            /\ edgeOfImport filePath importInfo e).
Proof.
  induction importInfos as [|importInfo importInfos IH]; intros acc Htidy; simpl.
  - split; [exact Htidy|]. split; [exists []; rewrite app_nil_r; auto|].
    split; [intros i Hi; inversion Hi|]. intros e. split; [auto|].
    intros [He|(i & Hi & _)]; [exact He|inversion Hi].
  - pose proof (addImportEdge_tidy filePath acc importInfo Htidy) as Htidy1.
    destruct (addImportEdge_result filePath acc importInfo)
      as (Hnodes1 & Hmodule1 & Hgrow1 & _ & Hedges1).
    set (acc1 := addImportEdge importMap isProjectMode (isCurrentPath filePath) filePath
                   acc importInfo) in *.
    destruct (IH acc1 Htidy1) as (Htidy' & (modules & Hnodes' & Hmodules) & Hpresent & Hedges').
    split; [exact Htidy'|]. split; [|split].
    + destruct Hnodes1 as [Hsame|(Hadded & Hshown & _)].
      * exists modules. rewrite Hnodes', Hsame. split; [reflexivity|].
        eapply Forall_impl; [exact Hmodules|]. intros n (i & Hi & Hrest).
        exists i. split; [apply list_elem_of_further, Hi|exact Hrest].
      * exists (moduleNodeOf (source importInfo) :: modules).
        rewrite Hnodes', Hadded, <- app_assoc. split; [reflexivity|]. constructor.
        -- apply andb_true_iff in Hshown as [Hmodule Hshown].
           exists importInfo. split; [apply list_elem_of_here|]. split_all.
        -- eapply Forall_impl; [exact Hmodules|]. intros n (i & Hi & Hrest).
           exists i. split; [apply list_elem_of_further, Hi|exact Hrest].
    + intros i Hi Hshown. apply elem_of_cons in Hi as [->|Hi]; [|apply Hpresent; assumption].
      specialize (Hmodule1 Hshown). apply (proj2 Htidy1) in Hmodule1.
      rewrite Hnodes', map_app, elem_of_app. left. exact Hmodule1.
    + intros e. rewrite Hedges', Hedges1. split.
      * intros [[He|He]|(i & Hi & He)]; [auto| |].
        -- right. exists importInfo. split; [apply list_elem_of_here|exact He].
        -- right. exists i. split; [apply list_elem_of_further, Hi|exact He].
      * intros [He|(i & Hi & He)]; [auto|].
        apply elem_of_cons in Hi as [->|Hi]; [auto|]. right. exists i. split; assumption.
Qed.

Lemma fold_addFileEdges entries : forall acc,
  tidy acc ->
  let acc' := fold_left (addFileEdges importMap currentFile isProjectMode) entries acc in
  tidy acc'
  /\ (exists modules,
        nodes acc' = nodes acc ++ modules
        /\ Forall (fun n => exists entry, entry ∈ entries
                              /\ moduleNodeFrom (fst entry) (imports (snd entry)) n) modules)
  /\ (forall entry importInfo, entry ∈ entries -> importInfo ∈ imports (snd entry) ->
        isNodeModule importInfo && showsModules (fst entry) = true ->
        moduleIdOf (source importInfo) ∈ map id (nodes acc'))
  /\ (forall e, e ∈ edges acc' <->
        e ∈ edges acc
        \/ exists entry importInfo, entry ∈ entries /\ importInfo ∈ imports (snd entry)
                                    /\ edgeOfImport (fst entry) importInfo e).
Proof.
  induction entries as [|[filePath fileNode] entries IH]; intros acc Htidy; simpl.
  - split; [exact Htidy|]. split; [exists []; rewrite app_nil_r; auto|].
    split; [intros entry i Hentry; inversion Hentry|]. intros e. split; [auto|].
    intros [He|(entry & i & Hentry & _)]; [exact He|inversion Hentry].
  - destruct (fold_addImportEdge filePath (imports fileNode) acc Htidy)
      as (Htidy1 & (modules1 & Hnodes1 & Hmodules1) & Hpresent1 & Hedges1).
    fold (isCurrentPath filePath).
    set (acc1 := fold_left (addImportEdge importMap isProjectMode (isCurrentPath filePath)
                              filePath) (imports fileNode) acc) in *.
    destruct (IH acc1 Htidy1) as (Htidy' & (modules & Hnodes' & Hmodules) & Hpresent & Hedges').
    split; [exact Htidy'|]. split; [|split].
    + exists (modules1 ++ modules). rewrite Hnodes', Hnodes1, <- app_assoc.
      split; [reflexivity|]. apply Forall_app. split.
      * eapply Forall_impl; [exact Hmodules1|]. intros n Hn.
        exists (filePath, fileNode). split; [apply list_elem_of_here|exact Hn].
      * eapply Forall_impl; [exact Hmodules|]. intros n (entry & Hentry & Hn).
        exists entry. split; [apply list_elem_of_further, Hentry|exact Hn].
    + intros entry i Hentry Hi Hshown.
      apply elem_of_cons in Hentry as [->|Hentry]; [|eapply Hpresent; eassumption].
      specialize (Hpresent1 _ Hi Hshown). rewrite Hnodes', map_app, elem_of_app. left.
      exact Hpresent1.
    + intros e. rewrite Hedges', Hedges1. split.
      * intros [[He|(i & Hi & He)]|(entry & i & Hentry & Hi & He)]; [auto| |].
        -- right. exists (filePath, fileNode), i. split; [apply list_elem_of_here|].
           split; [exact Hi|exact He].
        -- right. exists entry, i. split; [apply list_elem_of_further, Hentry|].
           split; [exact Hi|exact He].
      * intros [He|(entry & i & Hentry & Hi & He)]; [auto|].
        apply elem_of_cons in Hentry as [->|Hentry].
        -- left. right. exists i. split; assumption.
        -- right. exists entry, i. split; [exact Hentry|]. split; [exact Hi|exact He].
Qed.

(** The whole conversion of a map with distinct keys. *)
Lemma convert_result :
  NoDup (mapKeys (files importMap)) ->
  let result := convertToVisualizationData importMap currentFile isProjectMode in
  NoDup (map id (nodes result))
  /\ (exists modules,
        nodes result = map fileNodeOf (files importMap) ++ modules
        /\ Forall (fun n => exists entry, entry ∈ files importMap
                              /\ moduleNodeFrom (fst entry) (imports (snd entry)) n) modules)
  /\ (forall entry importInfo, entry ∈ files importMap -> importInfo ∈ imports (snd entry) ->
        isNodeModule importInfo && showsModules (fst entry) = true ->
        moduleIdOf (source importInfo) ∈ map id (nodes result))
  /\ (forall e, e ∈ edges result <->
        exists entry importInfo, entry ∈ files importMap /\ importInfo ∈ imports (snd entry)
                                 /\ edgeOfImport (fst entry) importInfo e).
Proof.
  intros Hnd. unfold convertToVisualizationData. cbv zeta.
  set (start := {| nodes := []; edges := []; nodeIds := ∅ |}).
  assert (Hstart : tidy start).
  { split; [apply NoDup_nil_2|]. intros i. simpl. set_solver. }
  destruct (fold_addFileNode (files importMap) start Hstart Hnd) as (Htidy1 & Hnodes1 & Hedges1).
  { intros k _ Hk. inversion Hk. }
  set (withNodes := fold_left (addFileNode currentFile) (files importMap) start) in *.
  destruct (fold_addFileEdges (files importMap) withNodes Htidy1)
    as (Htidy & (modules & Hnodes & Hmodules) & Hpresent & Hedges).
  split; [exact (proj1 Htidy)|]. split; [|split].
  - exists modules. rewrite Hnodes, Hnodes1. split; [reflexivity|exact Hmodules].
  - exact Hpresent.
  - intros e. rewrite Hedges, Hedges1. simpl. split.
    + intros [He|He]; [inversion He|exact He].
    + auto.
Qed.

End ConversionFacts.

Section ConversionReading.

Import Analyzer Panel.
Variable currentFile : option string.
Variable isProjectMode : bool.

Lemma showsModules_spec filePath :
  showsModules currentFile isProjectMode filePath = true
  <-> isProjectMode = true \/ currentFile = Some filePath.
Proof.
  unfold showsModules, isCurrentPath. rewrite orb_true_iff.
  destruct currentFile as [c|].
  - rewrite String.eqb_eq. split; (intros [Hmode|Hc]; [left; exact Hmode|right; congruence]).
  - split; (intros [Hmode|Hc]; [left; exact Hmode|discriminate]).
Qed.

End ConversionReading.

(** X16. The page never receives two nodes with the same identifier:
    the keys of the map being distinct, so are the identifiers of the
    nodes that [convertToVisualizationData] returns, those of the node
    modules included. *)
Theorem converted_node_ids_are_distinct :
  forall (P : PathApi) (importMap : Analyzer.ImportMap)
         (currentFile : option string) (isProjectMode : bool),
    NoDup (Analyzer.mapKeys (Analyzer.files importMap)) ->
    NoDup (map Panel.id
               (Panel.nodes
                  (Panel.convertToVisualizationData importMap currentFile isProjectMode))).
Proof.
  intros P importMap currentFile isProjectMode Hnd.
  exact (proj1 (convert_result importMap currentFile isProjectMode Hnd)).
Qed.

Lemma converted_node_ids_are_distinct_witness :
  NoDup (map Panel.id
             (Panel.nodes
                (@Panel.convertToVisualizationData Examples.unix Examples.twoHopGraph
                   (Some "/proj/E.ts") false))).
Proof.
  apply (converted_node_ids_are_distinct Examples.unix Examples.twoHopGraph).
  apply (bool_decide_unpack _). vm_compute. reflexivity.
Defined.

(** X17. The nodes of a page are the files of the map, in the order of
    the map and each marked as the current file or not, followed by node
    module nodes. Every node module node stands for a node-module import
    of a file whose node modules are shown, that is of any file in project
    mode and of the current file otherwise; and every such import has its
    node. *)
Theorem converted_nodes_are_files_then_modules :
  forall (P : PathApi) (importMap : Analyzer.ImportMap)
         (currentFile : option string) (isProjectMode : bool),
    let result := Panel.convertToVisualizationData importMap currentFile isProjectMode in
    let shown := fun filePath => isProjectMode = true \/ currentFile = Some filePath in
    NoDup (Analyzer.mapKeys (Analyzer.files importMap)) ->
    (exists modules,
        Panel.nodes result = map (fileNodeOf currentFile) (Analyzer.files importMap) ++ modules
        /\ forall n, n ∈ modules ->
             exists filePath fileNode importInfo,
               (filePath, fileNode) ∈ Analyzer.files importMap
               /\ importInfo ∈ Analyzer.imports fileNode
               /\ Analyzer.isNodeModule importInfo = true
               /\ shown filePath
               /\ n = moduleNodeOf (Analyzer.source importInfo))
    /\ (forall filePath fileNode importInfo,
          (filePath, fileNode) ∈ Analyzer.files importMap ->
          importInfo ∈ Analyzer.imports fileNode ->
          Analyzer.isNodeModule importInfo = true ->
          shown filePath ->
          exists n, n ∈ Panel.nodes result
                    /\ Panel.id n = Panel.moduleIdOf (Analyzer.source importInfo)).
Proof.
  intros P importMap currentFile isProjectMode result shown Hnd.
  destruct (convert_result importMap currentFile isProjectMode Hnd)
    as (_ & (modules & Hnodes & Hmodules) & Hpresent & _).
  fold result in Hnodes, Hpresent. split.
  - exists modules. split; [exact Hnodes|]. intros n Hn. rewrite Forall_forall in Hmodules.
    destruct (Hmodules _ Hn) as ([filePath fileNode] & Hentry & i & Hi & Hmodule & Hshown & ->).
    exists filePath, fileNode, i. apply showsModules_spec in Hshown. split_all.
  - intros filePath fileNode i Hentry Hi Hmodule Hshown.
    apply showsModules_spec in Hshown.
    specialize (Hpresent (filePath, fileNode) i Hentry Hi). simpl in Hpresent.
    rewrite Hmodule, Hshown in Hpresent. specialize (Hpresent eq_refl).
    apply list_elem_of_fmap in Hpresent as (n & Hid & Hn). exists n. split; [exact Hn|].
    symmetry. exact Hid.
Qed.

Lemma converted_nodes_are_files_then_modules_witness :
  exists modules,
    Panel.nodes (@Panel.convertToVisualizationData Examples.unix Examples.twoHopGraph
                   (Some "/proj/E.ts") false)
    = map (@fileNodeOf Examples.unix (Some "/proj/E.ts")) (Analyzer.files Examples.twoHopGraph)
      ++ modules.
Proof.
  destruct (converted_nodes_are_files_then_modules Examples.unix Examples.twoHopGraph
              (Some "/proj/E.ts") false) as [(modules & Hnodes & _) _].
  - apply (bool_decide_unpack _). vm_compute. reflexivity.
  - exists modules. exact Hnodes.
Defined.

(** X18. The edges of a page are the imports of the files of the map.
    An edge ends at the importing file and carries the type of the import.
    It starts at the node of the module when the import is a node-module
    import of a file whose node modules are shown, and otherwise at the
    resolved path of the import, provided that path is a file of the map.
    Each such import has its edge, and there is no other edge. *)
Theorem converted_edges_are_the_imports :
  forall (P : PathApi) (importMap : Analyzer.ImportMap)
         (currentFile : option string) (isProjectMode : bool)
         (e : Panel.VisualizationEdge),
    let result := Panel.convertToVisualizationData importMap currentFile isProjectMode in
    let shown := fun filePath => isProjectMode = true \/ currentFile = Some filePath in
    NoDup (Analyzer.mapKeys (Analyzer.files importMap)) ->
    e ∈ Panel.edges result <->
    exists filePath fileNode importInfo,
      (filePath, fileNode) ∈ Analyzer.files importMap
      /\ importInfo ∈ Analyzer.imports fileNode
      /\ Panel.to e = filePath
      /\ Panel.edgeType e = Analyzer.type importInfo
      /\ ((Analyzer.isNodeModule importInfo = true /\ shown filePath
           /\ Panel.from e = Panel.moduleIdOf (Analyzer.source importInfo))
          \/ (~ (Analyzer.isNodeModule importInfo = true /\ shown filePath)
              /\ Analyzer.resolvedPath importInfo = Some (Panel.from e)
              /\ Panel.from e <> ""
              /\ Panel.from e ∈ Analyzer.mapKeys (Analyzer.files importMap))).
Proof.
  intros P importMap currentFile isProjectMode e result shown Hnd.
  destruct (convert_result importMap currentFile isProjectMode Hnd) as (_ & _ & _ & Hedges).
  fold result in Hedges. rewrite Hedges. unfold edgeOfImport. split.
  - intros ([filePath fileNode] & i & Hentry & Hi & Hto & Htype & Hfrom). simpl in *.
    exists filePath, fileNode, i. do 4 (split; [assumption|]).
    destruct Hfrom as [[Hshown Hfrom]|(Hhidden & Hresolved & Hne & Hhas)].
    + left. apply andb_true_iff in Hshown as [Hmodule Hshown].
      apply showsModules_spec in Hshown. split_all.
    + right. split; [|split; [exact Hresolved|split; [exact Hne|apply mapHas_true, Hhas]]].
      intros [Hmodule Hshown]. apply showsModules_spec in Hshown.
      rewrite Hmodule, Hshown in Hhidden. discriminate.
  - intros (filePath & fileNode & i & Hentry & Hi & Hto & Htype & Hfrom).
    exists (filePath, fileNode), i. simpl. do 4 (split; [assumption|]).
    destruct Hfrom as [(Hmodule & Hshown & Hfrom)|(Hhidden & Hresolved & Hne & Hhas)].
    + left. apply showsModules_spec in Hshown. rewrite Hmodule, Hshown. split_all.
    + right. split; [|split; [exact Hresolved|split; [exact Hne|apply mapHas_true, Hhas]]].
      apply not_true_iff_false. intros Hboth. apply andb_true_iff in Hboth as [Hmodule Hshown].
      apply showsModules_spec in Hshown. apply Hhidden. split; assumption.
Qed.

Lemma converted_edges_are_the_imports_witness :
  {| Panel.from := "/proj/A.ts"; Panel.to := "/proj/E.ts"; Panel.edgeType := Analyzer.TImport |}
  ∈ Panel.edges (@Panel.convertToVisualizationData Examples.unix Examples.twoHopGraph
                   (Some "/proj/E.ts") false).
Proof.
  apply (converted_edges_are_the_imports Examples.unix Examples.twoHopGraph
           (Some "/proj/E.ts") false).
  - apply (bool_decide_unpack _). vm_compute. reflexivity.
  - assert (Hentry : exists fileNode importInfo rest others,
              Analyzer.files Examples.twoHopGraph = ("/proj/E.ts", fileNode) :: others
              /\ Analyzer.imports fileNode = importInfo :: rest
              /\ Analyzer.type importInfo = Analyzer.TImport
              /\ Analyzer.isNodeModule importInfo = false
              /\ Analyzer.resolvedPath importInfo = Some "/proj/A.ts").
    { vm_compute. eexists _, _, _, _. repeat split; reflexivity. }
    destruct Hentry as (fileNode & i & rest & others & Hfiles & Himports & Htype & Hmodule & Hres).
    assert (Hkey : "/proj/A.ts" ∈ Analyzer.mapKeys (Analyzer.files Examples.twoHopGraph))
      by (vm_compute; apply list_elem_of_further, list_elem_of_further, list_elem_of_here).
    exists "/proj/E.ts", fileNode, i. rewrite Hfiles at 1. rewrite Himports.
    split; [apply list_elem_of_here|]. split; [apply list_elem_of_here|].
    split; [reflexivity|]. split; [symmetry; exact Htype|]. right.
    split; [intros [Hyes _]; congruence|]. split; [exact Hres|]. split; [discriminate|].
    exact Hkey.
Defined.

(* ================================================================= *)
(** ** Layout: every node placed, and a later resize *)

Section LayoutMore.

Import Layout.
Variable measureText : string -> Q.
Variables cos sin : Q -> Q.
Variable PI : Q.
Variables canvasWidth canvasHeight devicePixelRatio : Q.

Local Abbreviation freshLayout' :=
  (freshLayout measureText cos sin PI canvasWidth canvasHeight devicePixelRatio).
Local Abbreviation layoutNodes' :=
  (layoutNodes measureText cos sin PI canvasWidth canvasHeight devicePixelRatio).
Local Abbreviation initCanvas' :=
  (initCanvas measureText cos sin PI canvasWidth canvasHeight devicePixelRatio).

(** Both coordinates of the node are set. *)
Definition placed (n : Node) : bool := defined (x n) && defined (y n).

(** The test of [initCanvas]. *)
Definition hasPositions (nodes : list Node) : bool :=
  negb (Nat.eqb (length nodes) 0) && forallb placed nodes.

(** The node has the size of its label. *)
Definition fitted (n : Node) : Prop := size n = Some (calculateNodeSize measureText (label n)).

Lemma positioned_placed n : positioned n -> placed n = true.
Proof. intros (px & py & Hx & Hy). unfold placed. rewrite Hx, Hy. reflexivity. Qed.

Lemma writeBack_placed nodes : forall (centred : bool) (others : list Node),
  (currentCount nodes <= if centred then 0 else 1)%nat ->
  length others = length (filter (fun n => isCurrentFile n = false) nodes) ->
  Forall (fun n => placed n = true) others ->
  Forall (fun n => placed n = true)
         (writeBack canvasWidth canvasHeight devicePixelRatio nodes centred others).
Proof.
  unfold currentCount.
  induction nodes as [|node nodes IH]; intros centred others Hcount Hlen Hothers; simpl;
    [constructor|].
  simpl in Hcount. destruct (isCurrentFile node) eqn:Hcurrent.
  - simpl in Hcount. destruct centred; [lia|].
    rewrite filter_cons_False in Hlen by congruence.
    constructor; [reflexivity|]. apply IH; [lia|exact Hlen|exact Hothers].
  - rewrite filter_cons_True in Hlen by exact Hcurrent.
    destruct others as [|other others]; [discriminate|].
    apply Forall_cons in Hothers as [Hother Hothers].
    constructor; [exact Hother|]. apply IH; [exact Hcount|simpl in Hlen; lia|exact Hothers].
Qed.

Lemma placeOthers_placed currentNode total todo : forall index done,
  Forall (fun n => placed n = true) (map fst done) ->
  Forall (fun n => placed n = true)
    (map fst (placeOthers measureText cos sin PI canvasWidth canvasHeight devicePixelRatio
                currentNode total index done todo)).
Proof.
  induction todo as [|node todo IH]; intros index done Hdone; simpl; [exact Hdone|].
  apply IH. rewrite map_app. apply Forall_app. split; [exact Hdone|].
  constructor; [|constructor]. apply positioned_placed, placeNode_positioned.
Qed.

Lemma gridLayout_placed nodes : forall index,
  Forall (fun n => placed n = true)
         (gridLayout canvasWidth canvasHeight devicePixelRatio index nodes).
Proof.
  induction nodes as [|node nodes IH]; intros index; simpl; [constructor|].
  destruct (gridPosition canvasWidth canvasHeight devicePixelRatio index) as [gx gy] eqn:Hpos.
  constructor; [|apply IH]. unfold gridPosition in Hpos. cbv zeta in Hpos.
  destruct (Z.eqb _ 0); [destruct index|]; injection Hpos as <- <-; reflexivity.
Qed.

(** A fresh layout gives every node its coordinates, the page holding
    at most one current-file node. *)
Lemma freshLayout_placed nodes :
  (currentCount nodes <= 1)%nat -> Forall (fun n => placed n = true) (freshLayout' nodes).
Proof.
  intros Hcount. unfold freshLayout.
  destruct (find isCurrentFile nodes) as [currentNode|]; [|apply gridLayout_placed].
  unfold spiralLayout, spiralPlacements. apply writeBack_placed.
  - exact Hcount.
  - rewrite length_map, placeOthers_length. reflexivity.
  - apply placeOthers_placed. constructor.
Qed.

Lemma static_length (l1 l2 : list Node) : map static l1 = map static l2 -> length l1 = length l2.
Proof. intros Heq. rewrite <- (length_map static l1), Heq. apply length_map. Qed.

Lemma static_fitted (l1 l2 : list Node) :
  map static l1 = map static l2 -> Forall fitted l2 -> Forall fitted l1.
Proof.
  revert l2. induction l1 as [|n1 l1 IH]; intros [|n2 l2] Heq Hfit; try discriminate;
    [constructor|].
  simpl in Heq. injection Heq as Hid Hlabel Hcurrent Hsize Hrest.
  apply Forall_cons in Hfit as [Hfit2 Hfit].
  constructor; [|eapply IH; eassumption]. unfold fitted in *. congruence.
Qed.

Lemma static_currentCount (l1 l2 : list Node) :
  map static l1 = map static l2 -> currentCount l1 = currentCount l2.
Proof. apply currentCount_static. Qed.

Definition sized (nodes : list Node) : list Node :=
  map (fun node => setSize node (calculateNodeSize measureText (label node))) nodes.

Lemma sized_fitted nodes : Forall fitted (sized nodes).
Proof. apply Forall_forall. intros n Hn. apply list_elem_of_fmap in Hn as (n0 & -> & _). reflexivity. Qed.

Lemma sized_fixed nodes : Forall fitted nodes -> sized nodes = nodes.
Proof.
  induction 1 as [|n nodes Hn _ IH]; [reflexivity|]. unfold sized in *. simpl. rewrite IH.
  f_equal. destruct n. unfold fitted in Hn. simpl in *. subst. reflexivity.
Qed.

Lemma sized_currentCount nodes : currentCount (sized nodes) = currentCount nodes.
Proof.
  unfold currentCount, sized. induction nodes as [|n nodes IH]; simpl; [reflexivity|].
  destruct (isCurrentFile n); simpl; rewrite IH; reflexivity.
Qed.

Lemma sized_ids nodes : map id (sized nodes) = map id nodes.
Proof. unfold sized. rewrite map_map. reflexivity. Qed.

Lemma restorePosition_static positions n : static (restorePosition positions n) = static n.
Proof. unfold restorePosition. destruct (positions !! id n); reflexivity. Qed.

Lemma restore_static positions nodes :
  map static (map (restorePosition positions) nodes) = map static nodes.
Proof.
  rewrite map_map. apply map_ext. intros n. apply restorePosition_static.
Qed.

Lemma restore_ids positions nodes :
  map id (map (restorePosition positions) nodes) = map id nodes.
Proof.
  rewrite map_map. apply map_ext. intros n.
  pose proof (restorePosition_static positions n) as Hs. unfold static in Hs. congruence.
Qed.

Lemma restorePosition_twice positions n :
  restorePosition positions (restorePosition positions n) = restorePosition positions n.
Proof.
  unfold restorePosition at 2. destruct (positions !! id n) as [p|] eqn:Hp.
  - unfold restorePosition. simpl. rewrite Hp. reflexivity.
  - unfold restorePosition. rewrite Hp. reflexivity.
Qed.

Lemma restored_count positions nodes :
  length (filter (fun n => is_Some (positions !! id n)) (map (restorePosition positions) nodes))
  = length (filter (fun n => is_Some (positions !! id n)) nodes).
Proof.
  induction nodes as [|n nodes IH]; [reflexivity|]. simpl.
  assert (Hid : id (restorePosition positions n) = id n).
  { pose proof (restorePosition_static positions n) as Hs. unfold static in Hs. congruence. }
  destruct (decide (is_Some (positions !! id n))) as [Hsaved|Hnot].
  - rewrite !filter_cons_True by (rewrite ?Hid; exact Hsaved). simpl. rewrite IH. reflexivity.
  - rewrite !filter_cons_False by (rewrite ?Hid; exact Hnot). exact IH.
Qed.

Lemma restore_unsaved positions nodes :
  length (filter (fun n => is_Some (positions !! id n)) nodes) = 0%nat ->
  map (restorePosition positions) nodes = nodes.
Proof.
  induction nodes as [|n nodes IH]; [reflexivity|]. intros Hnone.
  destruct (decide (is_Some (positions !! id n))) as [Hsaved|Hnot].
  - rewrite filter_cons_True in Hnone by exact Hsaved. discriminate.
  - rewrite filter_cons_False in Hnone by exact Hnot. simpl. rewrite (IH Hnone). f_equal.
    apply restorePosition_unsaved. destruct (positions !! id n); [|reflexivity].
    exfalso. apply Hnot. eauto.
Qed.

Lemma hasPositions_placed nodes :
  nodes <> [] -> Forall (fun n => placed n = true) nodes -> hasPositions nodes = true.
Proof.
  intros Hne Hall. unfold hasPositions. apply andb_true_iff. split.
  - destruct nodes; [contradiction|reflexivity].
  - apply forallb_forall. intros n Hn. rewrite Forall_forall in Hall.
    apply Hall, list_elem_of_In, Hn.
Qed.

Lemma initCanvas_fitted nodes storage :
  Forall fitted nodes ->
  initCanvas' nodes storage
  = if hasPositions nodes then (nodes, storage) else layoutNodes' false nodes storage.
Proof.
  intros Hfit. unfold initCanvas. fold (sized nodes). rewrite (sized_fixed _ Hfit). reflexivity.
Qed.

Lemma initCanvas_sized nodes storage :
  initCanvas' nodes storage
  = if hasPositions (sized nodes) then (sized nodes, storage)
    else layoutNodes' false (sized nodes) storage.
Proof. reflexivity. Qed.

Lemma layoutNodes_load nodes storage :
  nodes <> [] ->
  layoutNodes' false nodes storage
  = let '(restored, nodes', storage') := loadNodePositions nodes storage in
    if restored then (nodes', storage') else (freshLayout' nodes', storage').
Proof. intros Hne. destruct nodes; [contradiction|reflexivity]. Qed.

End LayoutMore.

Section LayoutStable.

Import Layout.
Variable measureText : string -> Q.
Variables cos sin cos' sin' : Q -> Q.
Variables PI PI' : Q.
Variables canvasWidth canvasHeight devicePixelRatio : Q.
Variables canvasWidth' canvasHeight' devicePixelRatio' : Q.

Local Abbreviation first :=
  (layoutNodes measureText cos sin PI canvasWidth canvasHeight devicePixelRatio false).
Local Abbreviation again :=
  (layoutNodes measureText cos' sin' PI' canvasWidth' canvasHeight' devicePixelRatio' false).
Local Abbreviation fresh :=
  (freshLayout measureText cos sin PI canvasWidth canvasHeight devicePixelRatio).

(** What [initCanvas] does with nodes that have their sizes. *)
Definition settle (run : list Node -> option SavedData -> list Node * option SavedData)
           (nodes : list Node) (storage : option SavedData) : list Node * option SavedData :=
  if hasPositions nodes then (nodes, storage) else run nodes storage.

Lemma fresh_settled nodes storage :
  nodes <> [] -> Forall (fitted measureText) nodes -> (currentCount nodes <= 1)%nat ->
  Forall (fitted measureText) (fresh nodes)
  /\ settle again (fresh nodes) storage = (fresh nodes, storage).
Proof.
  intros Hne Hfit Hcount.
  pose proof (freshLayout_static measureText cos sin PI canvasWidth canvasHeight
                devicePixelRatio nodes) as Hstatic.
  split; [eapply static_fitted; eassumption|].
  unfold settle. rewrite hasPositions_placed; [reflexivity| |].
  - apply static_length in Hstatic. destruct nodes; [contradiction|].
    destruct (fresh _); [discriminate|discriminate].
  - apply freshLayout_placed, Hcount.
Qed.

Lemma settle_twice nodes storage :
  Forall (fitted measureText) nodes -> (currentCount nodes <= 1)%nat ->
  Forall (fitted measureText) (fst (settle first nodes storage))
  /\ settle again (fst (settle first nodes storage)) (snd (settle first nodes storage))
     = settle first nodes storage.
Proof.
  intros Hfit Hcount. unfold settle at 1 3 4 5.
  destruct (hasPositions nodes) eqn:Hpositions.
  { simpl. split; [exact Hfit|]. unfold settle. rewrite Hpositions. reflexivity. }
  destruct (decide (nodes = [])) as [->|Hne].
  { simpl. split; [constructor|]. reflexivity. }
  rewrite layoutNodes_load by exact Hne.
  destruct storage as [[|positions]|]; cbn [loadNodePositions].
  - cbn [fst snd]. apply fresh_settled; assumption.
  - set (shared := length (filter (fun i => i ∈ dom positions)
                                  (elements (list_to_set (map id nodes) : gset string)))).
    set (larger := Nat.max (base.size (list_to_set (map id nodes) : gset string))
                           (base.size (dom positions))).
    destruct (belowThreshold shared larger) eqn:Hbelow.
    { cbn [fst snd]. apply fresh_settled; assumption. }
    set (restored := length (filter (fun n => is_Some (positions !! id n)) nodes)).
    destruct (Nat.ltb 0 restored) eqn:Hrestored; cbn [fst snd].
    + pose proof (restore_static positions nodes) as Hstatic.
      split; [eapply static_fitted; eassumption|].
      unfold settle. destruct (hasPositions (map (restorePosition positions) nodes)); [reflexivity|].
      assert (Hne' : map (restorePosition positions) nodes <> [])
        by (destruct nodes; [contradiction|discriminate]).
      rewrite layoutNodes_load by exact Hne'.
      cbn [loadNodePositions]. rewrite restore_ids. fold shared larger. rewrite Hbelow.
      rewrite restored_count. fold restored. rewrite Hrestored.
      rewrite map_map. f_equal. apply map_ext. intros n. apply restorePosition_twice.
    + apply Nat.ltb_ge in Hrestored. assert (Hnone : restored = 0%nat) by lia.
      rewrite (restore_unsaved positions nodes Hnone). apply fresh_settled; assumption.
  - cbn [fst snd]. apply fresh_settled; assumption.
Qed.

End LayoutStable.

(** X19. Once [initCanvas] has run, running it again moves no node,
    whatever the size of the canvas has become: the second run returns the
    nodes and the stored item of the first. A resize, which runs
    [initCanvas] again, keeps every node where it is. The page holds at
    most one current-file node. *)
Theorem initCanvas_again_moves_nothing :
  forall (measureText : string -> Q) (cos sin cos' sin' : Q -> Q) (PI PI' : Q)
         (canvasWidth canvasHeight devicePixelRatio : Q)
         (canvasWidth' canvasHeight' devicePixelRatio' : Q)
         (nodes : list Layout.Node) (storage : option Layout.SavedData),
    let first :=
      Layout.initCanvas measureText cos sin PI canvasWidth canvasHeight devicePixelRatio
        nodes storage in
    (currentCount nodes <= 1)%nat ->
    Layout.initCanvas measureText cos' sin' PI' canvasWidth' canvasHeight' devicePixelRatio'
      (fst first) (snd first)
    = first.
Proof.
  intros measureText cos sin cos' sin' PI PI' canvasWidth canvasHeight devicePixelRatio
         canvasWidth' canvasHeight' devicePixelRatio' nodes storage first Hcount.
  subst first. rewrite (initCanvas_sized measureText cos sin PI canvasWidth canvasHeight
                          devicePixelRatio nodes storage).
  pose proof (sized_fitted measureText nodes) as Hfit.
  rewrite <- (sized_currentCount measureText nodes) in Hcount.
  destruct (settle_twice measureText cos sin cos' sin' PI PI' canvasWidth canvasHeight
              devicePixelRatio canvasWidth' canvasHeight' devicePixelRatio'
              (sized measureText nodes) storage Hfit Hcount) as [Hfit' Hagain].
  unfold settle at 2 3 4 in Hagain. unfold settle at 1 in Hfit'.
  rewrite initCanvas_fitted; [|exact Hfit']. exact Hagain.
Qed.

Lemma initCanvas_again_moves_nothing_witness :
  let first :=
    Layout.initCanvas Examples.measure Examples.cosApprox Examples.sinApprox Examples.piApprox
      1600 1200 1 Examples.pageNodes None in
  Layout.initCanvas Examples.measure Examples.cosApprox Examples.sinApprox Examples.piApprox
    800 600 2 (fst first) (snd first)
  = first.
Proof.
  apply (initCanvas_again_moves_nothing Examples.measure Examples.cosApprox Examples.sinApprox
           Examples.cosApprox Examples.sinApprox Examples.piApprox Examples.piApprox
           1600 1200 1 800 600 2 Examples.pageNodes None).
  vm_compute. lia.
Defined.

(* ================================================================= *)
(** ** Layout: where the nodes land *)

Section LayoutBounds.

Import Layout.
Local Open Scope Q_scope.
Variable measureText : string -> Q.
Variables cos sin : Q -> Q.
Variable PI : Q.
Variables canvasWidth canvasHeight devicePixelRatio : Q.

Local Abbreviation centerX' := (centerX canvasWidth devicePixelRatio).
Local Abbreviation centerY' := (centerY canvasHeight devicePixelRatio).

(** The box of size [s] centred at [(px, py)] lies within the margins
    of the canvas. *)
Definition withinMargins (s : Size) (px py : Q) : Prop :=
  margin <= px - width s / 2 /\ px + width s / 2 <= centerX' * 2 - margin
  /\ margin <= py - height s / 2 /\ py + height s / 2 <= centerY' * 2 - margin.

Lemma outOfBounds_false s px py :
  outOfBounds canvasWidth canvasHeight devicePixelRatio s px py = false ->
  withinMargins s px py.
Proof.
  unfold outOfBounds. rewrite !orb_false_iff. intros [[[H1 H2] H3] H4].
  apply Qltb_false in H1, H2, H3, H4. repeat split; assumption.
Qed.

Lemma spiralSearch_inside fuel : forall attempts layer node currentNode index done px py,
  spiralSearch measureText cos sin PI canvasWidth canvasHeight devicePixelRatio
    fuel attempts layer node currentNode index done = Some (px, py) ->
  withinMargins (sizeOf measureText node) px py.
Proof.
  induction fuel as [|fuel IH]; intros attempts layer node currentNode index done px py;
    [discriminate|].
  rewrite spiralSearch_step. destruct (Nat.ltb attempts 100); [|discriminate].
  destruct (spiralPosition cos sin PI canvasWidth canvasHeight devicePixelRatio index layer)
    as [qx qy].
  destruct (outOfBounds canvasWidth canvasHeight devicePixelRatio (sizeOf measureText node) qx qy)
    eqn:Hout; [apply IH|].
  destruct (collides measureText (setPosition node (Num qx) (Num qy)) currentNode done);
    [apply IH|].
  intros [= <- <-]. apply outOfBounds_false, Hout.
Qed.

(** A node that the spiral places at a valid position. *)
Lemma placeNode_inside currentNode total index done node n :
  placeNode measureText cos sin PI canvasWidth canvasHeight devicePixelRatio
    currentNode total index done node = (n, true) ->
  exists px py, x n = Num px /\ y n = Num py
                /\ withinMargins (sizeOf measureText n) px py.
Proof.
  unfold placeNode.
  destruct (spiralSearch measureText cos sin PI canvasWidth canvasHeight devicePixelRatio
              100 0 0 node currentNode index done) as [[px py]|] eqn:Hsearch.
  - intros [= <-]. exists px, py. split; [reflexivity|]. split; [reflexivity|].
    apply spiralSearch_inside in Hsearch. exact Hsearch.
  - destruct (fallbackPosition cos sin PI canvasWidth canvasHeight devicePixelRatio index total).
    discriminate.
Qed.

Lemma placeOthers_elem currentNode total todo : forall index done e,
  e ∈ placeOthers measureText cos sin PI canvasWidth canvasHeight devicePixelRatio
        currentNode total index done todo ->
  e ∈ done
  \/ exists index' done' node,
       e = placeNode measureText cos sin PI canvasWidth canvasHeight devicePixelRatio
             currentNode total index' done' node.
Proof.
  induction todo as [|node todo IH]; intros index done e He; simpl in He; [left; exact He|].
  apply IH in He as [He|He]; [|right; exact He].
  apply elem_of_app in He as [He|He]; [left; exact He|].
  apply list_elem_of_singleton in He. right. eauto.
Qed.

(** *** The grid *)

Definition maxX' : Q := centerX' * 2 - margin.
Definition maxY' : Q := centerY' * 2 - margin.

(** [cols] of the grid branch. *)
Definition gridColumns : Z := Qfloor ((maxX' - margin * 2) / 150).

Lemma gridLayout_elem nodes : forall index n,
  n ∈ gridLayout canvasWidth canvasHeight devicePixelRatio index nodes ->
  exists index' node,
    n = setPosition node (fst (gridPosition canvasWidth canvasHeight devicePixelRatio index'))
                         (snd (gridPosition canvasWidth canvasHeight devicePixelRatio index')).
Proof.
  induction nodes as [|node nodes IH]; intros index n Hn; simpl in Hn; [inversion Hn|].
  destruct (gridPosition canvasWidth canvasHeight devicePixelRatio index) as [gx gy] eqn:Hpos.
  apply elem_of_cons in Hn as [->|Hn]; [|eapply IH; exact Hn].
  exists index, node. rewrite Hpos. reflexivity.
Qed.

Lemma gridPosition_columns index :
  (1 <= gridColumns)%Z ->
  exists gx gy,
    gridPosition canvasWidth canvasHeight devicePixelRatio index = (Num gx, Num gy)
    /\ margin + 75 <= gx /\ gx <= maxX' - margin - 75 /\ gy <= maxY'.
Proof.
  intros Hcols. unfold gridPosition. cbv zeta. fold maxX' maxY'. fold gridColumns.
  destruct (Z.eqb_spec gridColumns 0) as [Hzero|_]; [lia|].
  set (col := Z.rem (Z.of_nat index) gridColumns).
  set (row := Z.div (Z.of_nat index) gridColumns).
  assert (Hcol : (0 <= col < gridColumns)%Z).
  { unfold col. rewrite Z.rem_mod_nonneg by lia. apply Z.mod_pos_bound. lia. }
  assert (Hfloor : inject_Z gridColumns <= (maxX' - margin * 2) / 150)
    by apply Qfloor_le.
  assert (Hwidth : inject_Z gridColumns * 150 <= maxX' - margin * 2).
  { apply (Qmult_le_compat_r _ _ 150) in Hfloor; [|discriminate].
    assert (Hsimpl : (maxX' - margin * 2) / 150 * 150 == maxX' - margin * 2) by (field).
    rewrite Hsimpl in Hfloor. exact Hfloor. }
  assert (Hlow : 0 <= inject_Z col) by (rewrite <- (Zle_Qle 0); lia).
  assert (Hhigh : inject_Z col + 1 <= inject_Z gridColumns).
  { assert (Hle : inject_Z (col + 1) <= inject_Z gridColumns) by (rewrite <- Zle_Qle; lia).
    rewrite inject_Z_plus in Hle. exact Hle. }
  assert (Hgx : margin + inject_Z col * 150 + 75 <= maxX' - margin - 75).
  { unfold margin in *. lra. }
  assert (Hno : Qltb maxX' (margin + inject_Z col * 150 + 75) = false).
  { unfold Qltb. apply negb_false_iff, Qle_bool_iff. unfold margin in *. lra. }
  rewrite Hno.
  exists (margin + inject_Z col * 150 + 75),
         (if Qltb maxY' (margin + inject_Z row * 80 + 40) then maxY' - 30
          else margin + inject_Z row * 80 + 40).
  split; [reflexivity|]. split; [unfold margin; lra|]. split; [exact Hgx|].
  destruct (Qltb maxY' (margin + inject_Z row * 80 + 40)) eqn:Hover; [lra|].
  apply Qltb_false in Hover. exact Hover.
Qed.

Lemma gridPosition_no_column index :
  gridColumns = 0%Z ->
  fst (gridPosition canvasWidth canvasHeight devicePixelRatio index) = NotANumber.
Proof.
  intros Hcols. unfold gridPosition. cbv zeta. fold maxX' maxY'. fold gridColumns.
  rewrite Hcols. reflexivity.
Qed.

End LayoutBounds.

(** X20. A node that the spiral layout places without the fallback
    lies within the margins: its box, of the size of its label, keeps 100
    pixels from each side of the canvas. *)
Theorem spiral_placements_stay_within_margins :
  forall (measureText : string -> Q) (cos sin : Q -> Q)
         (PI canvasWidth canvasHeight devicePixelRatio : Q)
         (nodes : list Layout.Node) (currentNode n : Layout.Node) (i : nat),
    Layout.spiralPlacements measureText cos sin PI canvasWidth canvasHeight devicePixelRatio
      nodes currentNode !! i = Some (n, true) ->
    exists px py,
      Layout.x n = Panel.Num px /\ Layout.y n = Panel.Num py
      /\ (100 <= px - Layout.width (Layout.sizeOf measureText n) / 2
          /\ px + Layout.width (Layout.sizeOf measureText n) / 2
             <= Layout.centerX canvasWidth devicePixelRatio * 2 - 100
          /\ 100 <= py - Layout.height (Layout.sizeOf measureText n) / 2
          /\ py + Layout.height (Layout.sizeOf measureText n) / 2
             <= Layout.centerY canvasHeight devicePixelRatio * 2 - 100)%Q.
Proof.
  intros measureText cos sin PI canvasWidth canvasHeight devicePixelRatio
         nodes currentNode n i Hi.
  apply list_elem_of_lookup_2 in Hi. unfold Layout.spiralPlacements in Hi.
  apply placeOthers_elem in Hi as [Hi|(index & done & node & Hi)]; [inversion Hi|].
  symmetry in Hi. apply placeNode_inside in Hi as (px & py & Hx & Hy & Hinside).
  exists px, py. split; [exact Hx|]. split; [exact Hy|]. exact Hinside.
Qed.

Lemma spiral_placements_stay_within_margins_witness :
  exists n px,
    Examples.placementsOf Examples.pageNodes
      (Examples.pageNode "/proj/E.ts" true Panel.Undefined Panel.Undefined) !! 0%nat
    = Some (n, true)
    /\ Layout.x n = Panel.Num px
    /\ (100 <= px - Layout.width (Layout.sizeOf Examples.measure n) / 2)%Q.
Proof.
  destruct (Examples.placementsOf Examples.pageNodes
              (Examples.pageNode "/proj/E.ts" true Panel.Undefined Panel.Undefined) !! 0%nat)
    as [[n flag]|] eqn:Hn; [|vm_compute in Hn; discriminate].
  assert (Hflag : flag = true) by (vm_compute in Hn; congruence). subst flag.
  destruct (spiral_placements_stay_within_margins _ _ _ _ _ _ _ _ _ _ _ Hn)
    as (px & py & Hx & _ & Hleft & _).
  exists n, px. split; [reflexivity|]. split; assumption.
Defined.

(** X21. The grid layout, used when the page has no current-file node.
    When the canvas leaves room for at least one column, every node gets
    numbers as coordinates, its centre at least 175 pixels from the left
    and the right side and not below the lower margin; the horizontal
    correction of the source never applies. When the canvas leaves room
    for no column, the horizontal coordinate of every node is not a
    number. *)
Theorem grid_layout_columns :
  forall (canvasWidth canvasHeight devicePixelRatio : Q)
         (nodes : list Layout.Node) (n : Layout.Node),
    let maxX := (Layout.centerX canvasWidth devicePixelRatio * 2 - 100)%Q in
    let maxY := (Layout.centerY canvasHeight devicePixelRatio * 2 - 100)%Q in
    let cols := Qfloor ((maxX - 100 * 2) / 150) in
    n ∈ Layout.gridLayout canvasWidth canvasHeight devicePixelRatio 0 nodes ->
    ((1 <= cols)%Z ->
     exists gx gy,
       Layout.x n = Panel.Num gx /\ Layout.y n = Panel.Num gy
       /\ (175 <= gx /\ gx <= maxX - 175 /\ gy <= maxY)%Q)
    /\ (cols = 0%Z -> Layout.x n = Panel.NotANumber).
Proof.
  intros canvasWidth canvasHeight devicePixelRatio nodes n maxX maxY cols Hn.
  apply gridLayout_elem in Hn as (index & node & ->). split.
  - intros Hcols.
    destruct (gridPosition_columns canvasWidth canvasHeight devicePixelRatio index Hcols)
      as (gx & gy & -> & Hlow & Hhigh & Hy).
    exists gx, gy. split; [reflexivity|]. split; [reflexivity|].
    unfold maxX', maxY', Layout.margin in *. subst maxX maxY. repeat split; lra.
  - intros Hcols. simpl.
    apply (gridPosition_no_column canvasWidth canvasHeight devicePixelRatio index Hcols).
Qed.

Lemma grid_layout_columns_witness :
  exists n,
    n ∈ Layout.gridLayout 400 300 1 0 [Examples.newNode "a"; Examples.newNode "b"]
    /\ Layout.x n = Panel.NotANumber.
Proof.
  destruct (Layout.gridLayout 400 300 1 0 [Examples.newNode "a"; Examples.newNode "b"])
    as [|n rest] eqn:Hgrid; [vm_compute in Hgrid; discriminate|].
  exists n. assert (Hn : n ∈ n :: rest) by apply list_elem_of_here.
  split; [exact Hn|]. rewrite <- Hgrid in Hn.
  apply (proj2 (grid_layout_columns 400 300 1 _ n Hn)). vm_compute. reflexivity.
Defined.

(* ================================================================= *)
(** ** Zooming *)

Section ZoomFacts.
Import View.
Local Open Scope Q_scope.

Lemma Qminb_le_l a b : Qminb a b <= a.
Proof.
  unfold Qminb. destruct (Qle_bool a b) eqn:Hle; [lra|].
  apply not_true_iff_false in Hle. rewrite Qle_bool_iff in Hle. lra.
Qed.

Lemma Qminb_le_r a b : Qminb a b <= b.
Proof.
  unfold Qminb. destruct (Qle_bool a b) eqn:Hle; [|lra].
  apply Qle_bool_iff in Hle. exact Hle.
Qed.

Lemma Qminb_glb a b c : c <= a -> c <= b -> c <= Qminb a b.
Proof. unfold Qminb. destruct (Qle_bool a b); auto. Qed.

Lemma Qmaxb_le_l a b : a <= Layout.Qmaxb a b.
Proof.
  unfold Layout.Qmaxb. destruct (Qle_bool a b) eqn:Hle; [|lra].
  apply Qle_bool_iff in Hle. exact Hle.
Qed.

Lemma Qmaxb_le_r a b : b <= Layout.Qmaxb a b.
Proof.
  unfold Layout.Qmaxb. destruct (Qle_bool a b) eqn:Hle; [lra|].
  apply not_true_iff_false in Hle. rewrite Qle_bool_iff in Hle. lra.
Qed.

Lemma Qmaxb_lub a b c : a <= c -> b <= c -> Layout.Qmaxb a b <= c.
Proof. unfold Layout.Qmaxb. destruct (Qle_bool a b); auto. Qed.

Definition inRange (v : Viewport) : Prop := 1 # 10 <= scale v /\ scale v <= 5.

Lemma wheel_inRange rectLeft rectTop clientX clientY deltaY v :
  inRange (wheel rectLeft rectTop clientX clientY deltaY v).
Proof.
  unfold inRange, wheel. cbn [scale]. split; [apply Qmaxb_le_l|].
  apply Qmaxb_lub; [lra|apply Qminb_le_l].
Qed.

Lemma zoomIn_inRange w h r v : inRange v -> inRange (zoomIn w h r v).
Proof.
  unfold inRange, zoomIn. cbn [scale]. intros [Hlow Hhigh]. split; [|apply Qminb_le_l].
  apply Qminb_glb; lra.
Qed.

Lemma zoomOut_inRange w h r v : inRange v -> inRange (zoomOut w h r v).
Proof.
  unfold inRange, zoomOut. cbn [scale]. intros [Hlow Hhigh]. split; [apply Qmaxb_le_l|].
  apply Qmaxb_lub; lra.
Qed.

Lemma zoomStep_inRange w h r v e : inRange v -> inRange (zoomStep w h r v e).
Proof.
  intros Hv. destruct e; cbn [zoomStep].
  - apply wheel_inRange.
  - apply zoomIn_inRange, Hv.
  - apply zoomOut_inRange, Hv.
  - unfold inRange, resetZoom, initialViewport. cbn [scale]. lra.
Qed.

End ZoomFacts.

(** X22. Whatever the wheel and the zoom and reset buttons do, in any
    order and for any canvas, from the initial view on: the scale stays
    between 0.1 and 5. *)
Theorem zoom_scale_stays_in_range :
  forall (canvasWidth canvasHeight devicePixelRatio : Q) (events : list View.ZoomEvent),
    let v := fold_left (View.zoomStep canvasWidth canvasHeight devicePixelRatio)
                       events View.initialViewport in
    (1 # 10 <= View.scale v /\ View.scale v <= 5)%Q.
Proof.
  intros w h r events. cbv zeta.
  assert (Hstart : inRange View.initialViewport).
  { unfold inRange, View.initialViewport. cbn [View.scale]. lra. }
  revert Hstart. generalize View.initialViewport.
  induction events as [|e events IH]; intros v Hv; cbn [fold_left]; [exact Hv|].
  apply IH, zoomStep_inRange, Hv.
Qed.

(* ================================================================= *)
(** ** The edges that are drawn *)

Section VisibilityFacts.
Import View.

Lemma find_by_id (nodes : list PageNode) (n : PageNode) :
  NoDup (map (fun m => Layout.id (core m)) nodes) ->
  n ∈ nodes ->
  find (fun m => String.eqb (Layout.id (core m)) (Layout.id (core n))) nodes = Some n.
Proof.
  induction nodes as [|m nodes IH]; intros Hdistinct Hn; [inversion Hn|].
  cbn [map] in Hdistinct. apply NoDup_cons in Hdistinct as [Hfresh Hdistinct].
  cbn [find]. apply elem_of_cons in Hn as [-> | Hn].
  - rewrite String.eqb_refl. reflexivity.
  - destruct (String.eqb _ _) eqn:Heq; [|apply IH; assumption].
    apply String.eqb_eq in Heq. exfalso. apply Hfresh. rewrite Heq.
    apply list_elem_of_fmap. exists n. split; [reflexivity|exact Hn].
Qed.

Lemma visibleNodes_elem showNodeModules nodes n :
  n ∈ visibleNodes showNodeModules nodes <->
  n ∈ nodes /\ (isNodeModule n = true -> showNodeModules = true).
Proof.
  unfold visibleNodes. rewrite !list_elem_of_In, filter_In.
  destruct (isNodeModule n), showNodeModules; cbn; intuition congruence.
Qed.

Lemma visible_id showNodeModules nodes (i : string) :
  i ∈ (list_to_set (map (fun n => Layout.id (core n)) (visibleNodes showNodeModules nodes))
       : gset string) ->
  exists n, n ∈ visibleNodes showNodeModules nodes /\ Layout.id (core n) = i.
Proof.
  rewrite elem_of_list_to_set. intros Hi. apply list_elem_of_fmap in Hi as (n & -> & Hn).
  exists n. split; [exact Hn|reflexivity].
Qed.

End VisibilityFacts.

(** X25. On a page whose nodes have distinct ids, [draw] draws an edge
    only between two nodes that it shows: for every edge that passes its
    filter, the two nodes it looks up exist, carry the ids of the edge and
    are among the visible nodes, so that no edge is drawn to a hidden node
    module. While the connections are not all shown, such an edge starts
    or ends at the current file. *)
Theorem drawn_edges_join_visible_nodes :
  forall (currentFile : option string) (showNodeModules showAllEdges : bool)
         (nodes : list View.PageNode) (edges : list Panel.VisualizationEdge)
         (edge : Panel.VisualizationEdge),
    NoDup (map (fun n => Layout.id (View.core n)) nodes) ->
    edge ∈ View.visibleEdges currentFile showNodeModules showAllEdges nodes edges ->
    edge ∈ edges
    /\ (exists fromNode toNode,
          View.edgeEnds nodes edge = Some (fromNode, toNode)
          /\ Layout.id (View.core fromNode) = Panel.from edge
          /\ Layout.id (View.core toNode) = Panel.to edge
          /\ fromNode ∈ View.visibleNodes showNodeModules nodes
          /\ toNode ∈ View.visibleNodes showNodeModules nodes
          /\ (showNodeModules = false ->
              View.isNodeModule fromNode = false /\ View.isNodeModule toNode = false))
    /\ (showAllEdges = false ->
        exists c, currentFile = Some c /\ (Panel.from edge = c \/ Panel.to edge = c)).
Proof.
  intros currentFile showNodeModules showAllEdges nodes edges edge Hdistinct Hedge.
  unfold View.visibleEdges in Hedge. cbv zeta in Hedge.
  apply list_elem_of_In, filter_In in Hedge as [Hin Hpass].
  split; [apply list_elem_of_In, Hin|].
  destruct (bool_decide (Panel.from edge ∈ _)) eqn:Hfrom; [|discriminate].
  destruct (bool_decide (Panel.to edge ∈ _)) eqn:Hto; [|discriminate].
  cbn [negb orb] in Hpass.
  apply bool_decide_eq_true in Hfrom. apply bool_decide_eq_true in Hto.
  apply visible_id in Hfrom as (fromNode & Hfrom & Hfid).
  apply visible_id in Hto as (toNode & Hto & Htid).
  split.
  - exists fromNode, toNode.
    pose proof (proj1 (visibleNodes_elem _ _ _) Hfrom) as [Hfn Hfm].
    pose proof (proj1 (visibleNodes_elem _ _ _) Hto) as [Htn Htm].
    unfold View.edgeEnds. rewrite <- Hfid, <- Htid.
    rewrite (find_by_id nodes fromNode Hdistinct Hfn), (find_by_id nodes toNode Hdistinct Htn).
    repeat split; try assumption.
    + destruct (View.isNodeModule fromNode); [|reflexivity].
      rewrite Hfm in H; [discriminate|reflexivity].
    + destruct (View.isNodeModule toNode); [|reflexivity].
      rewrite Htm in H; [discriminate|reflexivity].
  - intros ->. unfold View.touchesCurrent in Hpass.
    destruct currentFile as [c|]; [|discriminate].
    exists c. split; [reflexivity|].
    destruct (String.eqb (Panel.from edge) c) eqn:Hf.
    + left. apply String.eqb_eq, Hf.
    + destruct (String.eqb (Panel.to edge) c) eqn:Ht; [|discriminate].
      right. apply String.eqb_eq, Ht.
Qed.

Lemma drawn_edges_join_visible_nodes_witness :
  NoDup (map (fun n => Layout.id (View.core n)) Scenarios.page)
  /\ View.visibleEdges (Some "/p/a.ts") false false Scenarios.page Scenarios.pageEdges
     = [Scenarios.pageEdge "/p/b.ts" "/p/a.ts"; Scenarios.pageEdge "/p/a.ts" "/p/c.ts"]
  /\ View.edgeEnds Scenarios.page (Scenarios.pageEdge "/p/b.ts" "/p/a.ts")
     = Some (Scenarios.pageNode "/p/b.ts" false false, Scenarios.pageNode "/p/a.ts" true false).
Proof.
  assert (Hdistinct : NoDup (map (fun n => Layout.id (View.core n)) Scenarios.page)).
  { apply (bool_decide_unpack _). vm_compute. reflexivity. }
  assert (Hshown : View.visibleEdges (Some "/p/a.ts") false false Scenarios.page
                     Scenarios.pageEdges
                   = [Scenarios.pageEdge "/p/b.ts" "/p/a.ts";
                      Scenarios.pageEdge "/p/a.ts" "/p/c.ts"]).
  { vm_compute. reflexivity. }
  split; [exact Hdistinct|]. split; [exact Hshown|].
  destruct (drawn_edges_join_visible_nodes (Some "/p/a.ts") false false Scenarios.page
              Scenarios.pageEdges (Scenarios.pageEdge "/p/b.ts" "/p/a.ts") Hdistinct)
    as (_ & (fromNode & toNode & Hends & _) & _).
  { rewrite Hshown. apply list_elem_of_here. }
  rewrite Hends. vm_compute in Hends. exact (eq_sym Hends).
Defined.

(* ================================================================= *)
(** ** Organizing the page *)

Section RowFacts.
Import Layout View.
Local Open Scope Q_scope.

Variables centerX startY horizontalSpacing verticalSpacing : Q.

(** The place of the node of rank [i] among [len] nodes laid out in
    rows. *)
Definition rowPlace (len i : nat) : PageNode -> PageNode :=
  fun node =>
    let row := (i / 8)%nat in
    let rowLength := (Nat.min (row * 8 + 8) len - row * 8)%nat in
    place node
      (Num (centerX - ((Layout.ofNat rowLength - 1) * horizontalSpacing) / 2
            + Layout.ofNat (i mod 8) * horizontalSpacing))
      (Num (startY + Layout.ofNat row * verticalSpacing)).

Lemma placeRow_lookup rowStartX rowY rowNodes : forall index j,
  placeRow rowStartX rowY horizontalSpacing index rowNodes !! j
  = (fun node => place node
                   (Num (rowStartX + Layout.ofNat (index + j) * horizontalSpacing))
                   (Num rowY)) <$> rowNodes !! j.
Proof.
  induction rowNodes as [|node rest IH]; intros index j; [reflexivity|].
  cbn [placeRow]. destruct j as [|j].
  - cbn. rewrite Nat.add_0_r. reflexivity.
  - cbn [lookup list_lookup]. rewrite IH. rewrite Nat.add_succ_r. reflexivity.
Qed.

Definition rowOf (nodes : list PageNode) (row : nat) : list PageNode :=
  let startIndex := (row * 8)%nat in
  let endIndex := Nat.min (startIndex + 8) (length nodes) in
  let rowNodes := firstn (endIndex - startIndex) (skipn startIndex nodes) in
  let rowY := startY + Layout.ofNat row * verticalSpacing in
  let rowWidth := (Layout.ofNat (length rowNodes) - 1) * horizontalSpacing in
  let rowStartX := centerX - rowWidth / 2 in
  placeRow rowStartX rowY horizontalSpacing 0 rowNodes.

Lemma rowOf_length nodes row :
  length (rowOf nodes row) = (Nat.min (row * 8 + 8) (length nodes) - row * 8)%nat.
Proof.
  unfold rowOf. cbv zeta.
  assert (Hlen : forall sx y l k, length (placeRow sx y horizontalSpacing k l) = length l).
  { intros sx y l. induction l as [|n l IH]; intros k; [reflexivity|].
    cbn [placeRow length]. rewrite IH. reflexivity. }
  rewrite Hlen, length_take, length_drop. lia.
Qed.

Lemma rowOf_lookup nodes row j : (j < 8)%nat ->
  rowOf nodes row !! j = imap (rowPlace (length nodes)) nodes !! (row * 8 + j)%nat.
Proof.
  intros Hj. rewrite list_lookup_imap. unfold rowOf. cbv zeta.
  rewrite placeRow_lookup. cbn [Nat.add].
  set (m := (Nat.min (row * 8 + 8) (length nodes) - row * 8)%nat).
  assert (Hm : length (take m (drop (row * 8) nodes)) = m).
  { rewrite length_take, length_drop. unfold m. lia. }
  destruct (Nat.lt_ge_cases j m) as [Hin | Hout].
  - rewrite lookup_take_lt by exact Hin. rewrite lookup_drop.
    destruct (nodes !! (row * 8 + j)%nat) as [node|]; [|reflexivity].
    cbn [fmap option_fmap option_map]. unfold rowPlace. cbv zeta.
    assert (Hrow : ((row * 8 + j) / 8 = row)%nat).
    { rewrite Nat.add_comm, Nat.div_add by lia. rewrite Nat.div_small by exact Hj. reflexivity. }
    assert (Hcol : ((row * 8 + j) mod 8 = j)%nat).
    { rewrite Nat.add_comm, Nat.Div0.mod_add. apply Nat.mod_small, Hj. }
    rewrite Hrow, Hcol. fold m. rewrite Hm. reflexivity.
  - rewrite lookup_take_ge by exact Hout.
    rewrite (lookup_ge_None_2 nodes); [reflexivity|]. unfold m in Hout. lia.
Qed.

Lemma rows_lookup nodes : forall k r0 j,
  (k = 0 \/ (r0 + k - 1) * 8 <= length nodes)%nat ->
  flat_map (rowOf nodes) (seq r0 k) !! j
  = if Nat.ltb j (k * 8) then imap (rowPlace (length nodes)) nodes !! (r0 * 8 + j)%nat
    else None.
Proof.
  induction k as [|k IH]; intros r0 j Hfull; [reflexivity|].
  cbn [seq flat_map].
  pose proof (rowOf_length nodes r0) as Hlen.
  destruct (Nat.lt_ge_cases j (length (rowOf nodes r0))) as [Hin | Hout].
  - rewrite lookup_app_l by exact Hin.
    assert (Hj : (j < 8)%nat) by lia.
    rewrite rowOf_lookup by exact Hj.
    destruct (Nat.ltb_spec j (S k * 8)); [reflexivity|lia].
  - rewrite lookup_app_r by exact Hout.
    destruct k as [|k].
    + cbn [seq flat_map]. rewrite lookup_nil.
      destruct (Nat.ltb_spec j (1 * 8)); [|reflexivity].
      rewrite list_lookup_imap, (lookup_ge_None_2 nodes); [reflexivity|]. lia.
    + assert (Hrow : length (rowOf nodes r0) = 8%nat) by lia.
      rewrite Hrow, IH by lia.
      destruct (Nat.ltb_spec (j - 8) (S k * 8)), (Nat.ltb_spec j (S (S k) * 8)); try lia.
      * f_equal. lia.
      * reflexivity.
Qed.

Lemma rowsFor_covers len : (len <= rowsFor len * 8 /\ (rowsFor len = 0 \/ (rowsFor len - 1) * 8 <= len))%nat.
Proof.
  unfold rowsFor. pose proof (Nat.div_mod_eq (len + 7) 8) as Hdiv.
  pose proof (Nat.mod_upper_bound (len + 7) 8). lia.
Qed.

(** The rows, node by node. *)
Lemma layoutNodesInRows_imap nodes :
  layoutNodesInRows nodes centerX startY horizontalSpacing verticalSpacing
  = imap (rowPlace (length nodes)) nodes.
Proof.
  apply list_eq. intros j.
  change (layoutNodesInRows nodes centerX startY horizontalSpacing verticalSpacing)
    with (flat_map (rowOf nodes) (seq 0 (rowsFor (length nodes)))).
  destruct (rowsFor_covers (length nodes)) as [Hcover Hfull].
  rewrite rows_lookup by lia. cbn [Nat.mul Nat.add].
  destruct (Nat.ltb_spec j (rowsFor (length nodes) * 8)); [reflexivity|].
  rewrite list_lookup_imap, (lookup_ge_None_2 nodes); [reflexivity|lia].
Qed.

End RowFacts.

(** X26. [layoutNodesInRows] keeps the nodes and their order and gives
    the node of rank [i] its place by rank alone: it stands in row
    [i / 8], [verticalSpacing] below the row before, as number [i mod 8] of
    the at most eight nodes of that row, which are [horizontalSpacing]
    apart with [centerX] in their middle. *)
Theorem rows_hold_eight_centred_nodes :
  forall (nodes : list View.PageNode) (centerX startY horizontalSpacing verticalSpacing : Q),
    let laidOut :=
      View.layoutNodesInRows nodes centerX startY horizontalSpacing verticalSpacing in
    length laidOut = length nodes
    /\ forall (i : nat) (node : View.PageNode),
        nodes !! i = Some node ->
        let row := (i / 8)%nat in
        let rowLength := Nat.min 8 (length nodes - 8 * row) in
        laidOut !! i
        = Some (View.place node
                  (Panel.Num (centerX - ((Layout.ofNat rowLength - 1) * horizontalSpacing) / 2
                              + Layout.ofNat (i mod 8) * horizontalSpacing))
                  (Panel.Num (startY + Layout.ofNat row * verticalSpacing)))%Q.
Proof.
  intros nodes centerX startY horizontalSpacing verticalSpacing. cbv zeta.
  rewrite layoutNodesInRows_imap. split; [apply length_imap|].
  intros i node Hi. rewrite list_lookup_imap, Hi.
  cbn [fmap option_fmap option_map]. unfold rowPlace. cbv zeta.
  replace (Nat.min (i / 8 * 8 + 8) (length nodes) - i / 8 * 8)%nat
    with (Nat.min 8 (length nodes - 8 * (i / 8))) by lia.
  reflexivity.
Qed.

Section OrganizeFacts.
Import Layout View.
Local Open Scope Q_scope.

Variable edges : list Panel.VisualizationEdge.
Variable currentId : string.
Variable centre : coord * coord.

Lemma filter_rank {A : Type} (f : A -> bool) (l : list A) : forall i n,
  l !! i = Some n -> f n = true ->
  List.filter f l !! length (List.filter f (take i l)) = Some n.
Proof.
  induction l as [|a l IH]; intros i n Hi Hn; [discriminate|].
  destruct i as [|i].
  - injection Hi as ->. cbn [take List.filter length]. rewrite Hn. reflexivity.
  - cbn [lookup list_lookup] in Hi. cbn [take List.filter].
    destruct (f a); [|apply IH; assumption].
    cbn [length lookup list_lookup]. apply IH; assumption.
Qed.

Lemma readBack_length nodes : forall centred placed,
  length (readBack edges currentId centre centred nodes placed) = length nodes.
Proof.
  induction nodes as [|node rest IH]; intros centred placed; [reflexivity|].
  cbn [readBack]. destruct (isCurrentFile (core node)).
  - cbn [length]. rewrite IH. reflexivity.
  - cbv zeta. destruct (placed _); cbn [length]; rewrite IH; reflexivity.
Qed.

Lemma group_eqb_eq a b : group_eqb a b = true <-> a = b.
Proof. destruct a, b; cbn; split; congruence. Qed.

Lemma inGroup_cons g node rest :
  inGroup edges currentId g (node :: rest)
  = if negb (isCurrentFile (core node)) && group_eqb (groupOf edges currentId node) g
    then node :: inGroup edges currentId g rest
    else inGroup edges currentId g rest.
Proof. reflexivity. Qed.

(** A node that is not a current-file node takes the place of its rank
    in its group. *)
Lemma readBack_group nodes : forall centred placed i n,
  nodes !! i = Some n ->
  isCurrentFile (core n) = false ->
  let g := groupOf edges currentId n in
  (length (inGroup edges currentId g nodes) <= length (placed g))%nat ->
  readBack edges currentId centre centred nodes placed !! i
  = placed g !! length (inGroup edges currentId g (take i nodes)).
Proof.
  induction nodes as [|node rest IH]; intros centred placed i n Hi Hn g Hlen; [discriminate|].
  rewrite inGroup_cons in Hlen. cbn [readBack].
  destruct i as [|i].
  - injection Hi as ->. rewrite Hn in *. cbv zeta. fold g.
    assert (Hg : group_eqb g g = true) by (apply group_eqb_eq; reflexivity).
    fold g in Hlen. rewrite Hg in Hlen. cbn [negb andb length] in Hlen.
    destruct (placed g) as [|placedNode others]; [cbn [length] in Hlen; lia|].
    reflexivity.
  - cbn [lookup list_lookup] in Hi. cbn [take]. rewrite inGroup_cons.
    destruct (isCurrentFile (core node)) eqn:Hcurrent.
    + cbn [negb andb] in *. cbn [lookup list_lookup]. apply IH; assumption.
    + cbn [negb andb] in *. cbv zeta.
      set (h := groupOf edges currentId node) in *.
      destruct (group_eqb h g) eqn:Hsame.
      * apply group_eqb_eq in Hsame. subst h. rewrite Hsame.
        cbn [length] in Hlen.
        destruct (placed g) as [|placedNode others] eqn:Hplaced; [cbn [length] in Hlen; lia|].
        cbn [length lookup list_lookup] in *.
        rewrite (IH centred _ i n Hi Hn); fold g.
        -- assert (Hg : group_eqb g g = true) by (apply group_eqb_eq; reflexivity).
           rewrite Hg. reflexivity.
        -- assert (Hg : group_eqb g g = true) by (apply group_eqb_eq; reflexivity).
           rewrite Hg. lia.
      * assert (Hother : group_eqb g h = false).
        { destruct (group_eqb g h) eqn:Hgh; [|reflexivity].
          apply group_eqb_eq in Hgh. subst g. rewrite <- Hgh in Hsame.
          assert (group_eqb h h = true) by (apply group_eqb_eq; reflexivity). congruence. }
        destruct (placed h) as [|placedNode others] eqn:Hplaced; cbn [lookup list_lookup].
        -- apply IH; assumption.
        -- rewrite (IH centred _ i n Hi Hn); fold g; rewrite Hother; [reflexivity|exact Hlen].
Qed.

(** The first current-file node is put at the centre. *)
Lemma readBack_current nodes : forall placed i n,
  nodes !! i = Some n ->
  isCurrentFile (core n) = true ->
  (forall j m, (j < i)%nat -> nodes !! j = Some m -> isCurrentFile (core m) = false) ->
  readBack edges currentId centre false nodes placed !! i
  = Some (place n (fst centre) (snd centre)).
Proof.
  induction nodes as [|node rest IH]; intros placed i n Hi Hn Hfirst; [discriminate|].
  cbn [readBack]. destruct i as [|i].
  - injection Hi as ->. rewrite Hn. reflexivity.
  - cbn [lookup list_lookup] in Hi.
    rewrite (Hfirst 0%nat node) by (reflexivity || lia). cbv zeta.
    assert (Hrest : forall j m, (j < i)%nat -> rest !! j = Some m ->
                                isCurrentFile (core m) = false).
    { intros j m Hj Hm. apply (Hfirst (S j) m); [lia|exact Hm]. }
    destruct (placed _); cbn [lookup list_lookup]; apply IH; assumption.
Qed.

(** A later current-file node stays as it is. *)
Lemma readBack_kept nodes : forall centred placed i n,
  nodes !! i = Some n ->
  isCurrentFile (core n) = true ->
  exists px py,
    readBack edges currentId centre centred nodes placed !! i = Some (place n px py).
Proof.
  induction nodes as [|node rest IH]; intros centred placed i n Hi Hn; [discriminate|].
  cbn [readBack]. destruct i as [|i].
  - injection Hi as ->. rewrite Hn. destruct centred.
    + exists (x (core n)), (y (core n)). destruct n as [[]]; reflexivity.
    + eexists _, _. reflexivity.
  - cbn [lookup list_lookup] in Hi.
    destruct (isCurrentFile (core node)); [apply IH; assumption|].
    cbv zeta. destruct (placed _); cbn [lookup list_lookup]; apply IH; assumption.
Qed.

Lemma placeOthersBlock_lookup startX startY cols nodes : forall index j,
  placeOthersBlock startX startY cols index nodes !! j
  = (fun node =>
       place node (Num (startX + ofNat ((index + j) mod cols) * 150))
                  (Num (startY + ofNat ((index + j) / cols) * 80))) <$> nodes !! j.
Proof.
  induction nodes as [|node rest IH]; intros index j; [reflexivity|].
  cbn [placeOthersBlock]. cbv zeta. destruct j as [|j].
  - cbn. rewrite Nat.add_0_r. reflexivity.
  - cbn [lookup list_lookup]. rewrite IH, Nat.add_succ_r. reflexivity.
Qed.

Lemma placeOthersBlock_length startX startY cols nodes : forall index,
  length (placeOthersBlock startX startY cols index nodes) = length nodes.
Proof.
  induction nodes as [|node rest IH]; intros index; [reflexivity|].
  cbn [placeOthersBlock length]. rewrite IH. reflexivity.
Qed.

Lemma ofNat_nonneg n : 0 <= ofNat n.
Proof.
  unfold ofNat. change 0 with (inject_Z 0). rewrite <- Zle_Qle. lia.
Qed.

Lemma ofNat_lt a b : (a < b)%nat -> ofNat a + 1 <= ofNat b.
Proof.
  intros Hlt. unfold ofNat. change 1 with (inject_Z 1).
  rewrite <- inject_Z_plus, <- Zle_Qle. lia.
Qed.

Lemma row_below_rows rank len : (rank < len)%nat -> (rank / 8 < rowsFor len)%nat.
Proof.
  intros Hlt. unfold rowsFor.
  pose proof (Nat.div_mod_eq rank 8). pose proof (Nat.mod_upper_bound rank 8).
  pose proof (Nat.div_mod_eq (len + 7) 8). pose proof (Nat.mod_upper_bound (len + 7) 8).
  lia.
Qed.

End OrganizeFacts.

Section OrganizeReading.
Local Open Scope Q_scope.

(** The horizontal place of the node of rank [rank] among [n] nodes
    laid out in rows of eight around [centerX], 160 apart. *)
Definition rowX (centerX : Q) (n rank : nat) : Q :=
  centerX - ((Layout.ofNat (Nat.min 8 (n - 8 * (rank / 8))) - 1) * 160) / 2
  + Layout.ofNat (rank mod 8) * 160.

(** Where the node of rank [rank] among the [n] nodes of a group comes
    to stand, in the expressions of the source; [rowsImported] is the
    number of rows of the files that the current file imports. *)
Definition groupPlace (centerX centerY : Q) (rowsImported : nat) (g : View.Group)
           (n rank : nat) (qx qy : Q) : Prop :=
  match g with
  | View.ImportingCurrent =>
      qx = rowX centerX n rank
      /\ qy = centerY - 100 * Layout.ofNat (View.rowsFor n) + Layout.ofNat (rank / 8) * 100
  | View.ImportedByCurrent =>
      qx = rowX centerX n rank
      /\ qy = centerY + 100 + Layout.ofNat (rank / 8) * 100
      /\ centerY + 100 <= qy
  | View.NodeModules =>
      qx = rowX centerX n rank
      /\ qy = centerY + 100 * (1 + Layout.ofNat rowsImported) + Layout.ofNat (rank / 8) * 100
      /\ centerY + 100 * (1 + Layout.ofNat rowsImported) <= qy
  | View.Others =>
      let cols := Nat.sqrt_up n in
      qx = centerX + 160 * 2 + Layout.ofNat (rank mod cols) * 150
      /\ qy = centerY - ((Layout.ofNat ((n + cols - 1) / cols) - 1) * 80) / 2
              + Layout.ofNat (rank / cols) * 80
      /\ centerX + 160 * 2 <= qx
  end.

Lemma layoutHierarchical_places
      (measureText : string -> Q) (cos sin : Q -> Q) (PI : Q)
      (canvasWidth canvasHeight devicePixelRatio : Q)
      (edges : list Panel.VisualizationEdge) (nodes : list View.PageNode)
      (currentNode : View.PageNode) :
  find (fun n => Layout.isCurrentFile (View.core n)) nodes = Some currentNode ->
  let organized :=
    View.layoutHierarchical measureText cos sin PI canvasWidth canvasHeight
      devicePixelRatio edges nodes in
  let centerX := canvasWidth / (2 * devicePixelRatio) in
  let centerY := canvasHeight / (2 * devicePixelRatio) in
  let currentId := Layout.id (View.core currentNode) in
  let rowsImported :=
    View.rowsFor (length (View.inGroup edges currentId View.ImportedByCurrent nodes)) in
  length organized = length nodes
  /\ forall (i : nat) (node : View.PageNode),
      nodes !! i = Some node ->
      (exists px py, organized !! i = Some (View.place node px py))
      /\ (Layout.isCurrentFile (View.core node) = true ->
          (forall j m, (j < i)%nat -> nodes !! j = Some m ->
                       Layout.isCurrentFile (View.core m) = false) ->
          organized !! i = Some (View.place node (Panel.Num centerX) (Panel.Num centerY)))
      /\ (Layout.isCurrentFile (View.core node) = false ->
          let g := View.groupOf edges currentId node in
          let members := View.inGroup edges currentId g nodes in
          let rank := length (View.inGroup edges currentId g (take i nodes)) in
          members !! rank = Some node
          /\ exists qx qy,
              organized !! i = Some (View.place node (Panel.Num qx) (Panel.Num qy))
              /\ groupPlace centerX centerY rowsImported g (length members) rank qx qy).
Proof.
  intros Hfind. cbv zeta. unfold View.layoutHierarchical.
  destruct nodes as [|first rest] eqn:Hnodes; [discriminate|]. rewrite <- Hnodes in *.
  rewrite Hfind. cbv zeta.
  set (centerX := (canvasWidth / (2 * devicePixelRatio))%Q).
  set (centerY := (canvasHeight / (2 * devicePixelRatio))%Q).
  set (currentId := Layout.id (View.core currentNode)).
  set (placed := fun g : View.Group => match g with
                 | View.ImportingCurrent => _ | View.ImportedByCurrent => _
                 | View.NodeModules => _ | View.Others => _ end).
  split; [apply readBack_length|].
  assert (Hplaced : forall g, length (placed g)
                              = length (View.inGroup edges currentId g nodes)).
  { intros g. destruct g; cbn [placed];
      rewrite ?layoutNodesInRows_imap, ?length_imap, ?placeOthersBlock_length; reflexivity. }
  intros i node Hi.
  assert (Hgroup : Layout.isCurrentFile (View.core node) = false ->
            View.inGroup edges currentId (View.groupOf edges currentId node) nodes
              !! length (View.inGroup edges currentId (View.groupOf edges currentId node)
                           (take i nodes))
            = Some node
            /\ exists qx qy,
                View.readBack edges currentId (Panel.Num centerX, Panel.Num centerY) false
                  nodes placed !! i
                = Some (View.place node (Panel.Num qx) (Panel.Num qy))
                /\ groupPlace centerX centerY
                     (View.rowsFor (length (View.inGroup edges currentId
                                              View.ImportedByCurrent nodes)))
                     (View.groupOf edges currentId node)
                     (length (View.inGroup edges currentId
                                (View.groupOf edges currentId node) nodes))
                     (length (View.inGroup edges currentId
                                (View.groupOf edges currentId node) (take i nodes)))
                     qx qy).
  { intros Hother.
    rewrite (readBack_group edges currentId _ nodes false placed i node Hi Hother)
      by (rewrite Hplaced; lia).
    set (g := View.groupOf edges currentId node).
    assert (Hmember : negb (Layout.isCurrentFile (View.core node))
                      && View.group_eqb (View.groupOf edges currentId node) g = true).
    { rewrite Hother. apply (proj2 (group_eqb_eq _ _)). reflexivity. }
    pose proof (filter_rank
                  (fun n => negb (Layout.isCurrentFile (View.core n))
                            && View.group_eqb (View.groupOf edges currentId n) g)
                  nodes i node Hi Hmember) as Hrank.
    change (List.filter _ nodes) with (View.inGroup edges currentId g nodes) in Hrank.
    change (List.filter _ (take i nodes))
      with (View.inGroup edges currentId g (take i nodes)) in Hrank.
    set (rank := length (View.inGroup edges currentId g (take i nodes))) in *.
    split; [exact Hrank|].
    pose proof (ofNat_nonneg (rank / 8)) as Hrow0.
    assert (Hlength : forall n : nat,
              (Nat.min (rank / 8 * 8 + 8) n - rank / 8 * 8
               = Nat.min 8 (n - 8 * (rank / 8)))%nat) by (intros n; lia).
    unfold groupPlace, rowX.
    destruct g eqn:Hg; cbn [placed].
    - rewrite layoutNodesInRows_imap, list_lookup_imap, Hrank.
      cbn [fmap option_fmap option_map]. unfold rowPlace. cbv zeta. rewrite Hlength.
      eexists _, _. split; [reflexivity|]. split; reflexivity.
    - rewrite layoutNodesInRows_imap, list_lookup_imap, Hrank.
      cbn [fmap option_fmap option_map]. unfold rowPlace. cbv zeta. rewrite Hlength.
      eexists _, _. split; [reflexivity|]. split; [reflexivity|]. split; [reflexivity|].
      unfold View.verticalSpacing. lra.
    - rewrite layoutNodesInRows_imap, list_lookup_imap, Hrank.
      cbn [fmap option_fmap option_map]. unfold rowPlace. cbv zeta. rewrite Hlength.
      eexists _, _. split; [reflexivity|]. split; [reflexivity|]. split; [reflexivity|].
      unfold View.verticalSpacing. lra.
    - rewrite placeOthersBlock_lookup, Hrank.
      cbn [fmap option_fmap option_map Nat.add].
      eexists _, _. split; [reflexivity|]. cbv zeta.
      split; [reflexivity|]. split; [reflexivity|].
      pose proof (ofNat_nonneg (rank
                    mod Nat.sqrt_up (length (View.inGroup edges currentId View.Others nodes)))).
      unfold View.horizontalSpacing. lra. }
  split; [|split].
  - destruct (Layout.isCurrentFile (View.core node)) eqn:Hcurrent.
    + apply readBack_kept; assumption.
    + destruct (Hgroup eq_refl) as (_ & qx & qy & Hat & _). eexists _, _. exact Hat.
  - intros Hcurrent Hfirst.
    apply (readBack_current edges currentId (Panel.Num centerX, Panel.Num centerY)
             nodes placed i node Hi Hcurrent Hfirst).
  - exact Hgroup.
Qed.

End OrganizeReading.

(** X27. Organizing a page that has a current-file node keeps the nodes
    and their order and touches positions only. The first current-file
    node is put at the centre of the canvas. Every other node stands
    where its rank in its group puts it, in rows of eight that are
    centred on the centre column, 160 apart and 100 below each other:
    the files that import the current file (an edge runs from the current
    file to them) in rows that start as many rows above the centre as
    there are rows; the files that do not, but are imported by it, in rows
    from 100 below the centre on; the node modules in rows below those;
    and the files that have nothing to do with the current file in a
    block that starts 320 to the right of the centre. The coordinates are
    the expressions of the source, operation by operation; the lower
    bounds compare such a sum with its first term. *)
Theorem organized_layout_places :
  forall (measureText : string -> Q) (cos sin : Q -> Q) (PI : Q)
         (canvasWidth canvasHeight devicePixelRatio : Q)
         (edges : list Panel.VisualizationEdge) (nodes : list View.PageNode)
         (currentNode : View.PageNode),
    find (fun n => Layout.isCurrentFile (View.core n)) nodes = Some currentNode ->
    let organized :=
      View.layoutHierarchical measureText cos sin PI canvasWidth canvasHeight
        devicePixelRatio edges nodes in
    let centerX := (canvasWidth / (2 * devicePixelRatio))%Q in
    let centerY := (canvasHeight / (2 * devicePixelRatio))%Q in
    let currentId := Layout.id (View.core currentNode) in
    let rowsImported :=
      View.rowsFor (length (View.inGroup edges currentId View.ImportedByCurrent nodes)) in
    length organized = length nodes
    /\ forall (i : nat) (node : View.PageNode),
        nodes !! i = Some node ->
        (exists px py, organized !! i = Some (View.place node px py))
        /\ (Layout.isCurrentFile (View.core node) = true ->
            (forall j m, (j < i)%nat -> nodes !! j = Some m ->
                         Layout.isCurrentFile (View.core m) = false) ->
            organized !! i
            = Some (View.place node (Panel.Num centerX) (Panel.Num centerY)))
        /\ (Layout.isCurrentFile (View.core node) = false ->
            let g := View.groupOf edges currentId node in
            let members := View.inGroup edges currentId g nodes in
            let n := length members in
            let rank := length (View.inGroup edges currentId g (take i nodes)) in
            let inRow :=
              (centerX - ((Layout.ofNat (Nat.min 8 (n - 8 * (rank / 8))) - 1) * 160) / 2
               + Layout.ofNat (rank mod 8) * 160)%Q in
            members !! rank = Some node
            /\ exists qx qy,
                organized !! i = Some (View.place node (Panel.Num qx) (Panel.Num qy))
                /\ match g with
                   | View.ImportingCurrent =>
                       qx = inRow
                       /\ qy = (centerY - 100 * Layout.ofNat (View.rowsFor n)
                                + Layout.ofNat (rank / 8) * 100)%Q
                   | View.ImportedByCurrent =>
                       qx = inRow
                       /\ qy = (centerY + 100 + Layout.ofNat (rank / 8) * 100)%Q
                       /\ (centerY + 100 <= qy)%Q
                   | View.NodeModules =>
                       qx = inRow
                       /\ qy = (centerY + 100 * (1 + Layout.ofNat rowsImported)
                                + Layout.ofNat (rank / 8) * 100)%Q
                       /\ (centerY + 100 * (1 + Layout.ofNat rowsImported) <= qy)%Q
                   | View.Others =>
                       let cols := Nat.sqrt_up n in
                       qx = (centerX + 160 * 2 + Layout.ofNat (rank mod cols) * 150)%Q
                       /\ qy = (centerY
                                - ((Layout.ofNat ((n + cols - 1) / cols) - 1) * 80) / 2
                                + Layout.ofNat (rank / cols) * 80)%Q
                       /\ (centerX + 160 * 2 <= qx)%Q
                   end).
Proof.
  intros measureText cos sin PI canvasWidth canvasHeight devicePixelRatio edges nodes
         currentNode Hfind.
  exact (layoutHierarchical_places measureText cos sin PI canvasWidth canvasHeight
           devicePixelRatio edges nodes currentNode Hfind).
Qed.

Lemma organized_layout_places_witness :
  find (fun n => Layout.isCurrentFile (View.core n)) Scenarios.page
  = Some (Scenarios.pageNode "/p/a.ts" true false)
  /\ map (fun n => match Layout.position (View.core n) with
                    | (Panel.Num px, Panel.Num py) => Some (Qred px, Qred py)
                    | _ => None
                    end)
         (View.layoutHierarchical Examples.measure Examples.cosApprox Examples.sinApprox
            Examples.piApprox 1600 1200 2 Scenarios.pageEdges Scenarios.page)
     = [Some (400, 300); Some (400, 400); Some (400, 200); Some (720, 300);
        Some (400, 500)]%Q
  /\ length (View.layoutHierarchical Examples.measure Examples.cosApprox Examples.sinApprox
               Examples.piApprox 1600 1200 2 Scenarios.pageEdges Scenarios.page)
     = 5%nat.
Proof.
  assert (Hfind : find (fun n => Layout.isCurrentFile (View.core n)) Scenarios.page
                  = Some (Scenarios.pageNode "/p/a.ts" true false)) by reflexivity.
  split; [exact Hfind|]. split; [vm_compute; reflexivity|].
  destruct (organized_layout_places Examples.measure Examples.cosApprox Examples.sinApprox
              Examples.piApprox 1600 1200 2 Scenarios.pageEdges Scenarios.page _ Hfind)
    as [Hlength _].
  exact Hlength.
Defined.

(* ================================================================= *)
(** ** Saving and restoring positions *)

Section SaveFacts.
Import Layout View.

Definition savePosition (positions : gmap string Position) (node : Node)
  : gmap string Position :=
  <[id node := {| px := x node; py := y node |}]> positions.

Lemma save_fold_other nodes : forall (acc : gmap string Position) (k : string),
  k ∉ map id nodes -> fold_left savePosition nodes acc !! k = acc !! k.
Proof.
  induction nodes as [|n nodes IH]; intros acc k Hk; [reflexivity|].
  cbn [fold_left map] in *. apply not_elem_of_cons in Hk as [Hn Hk].
  rewrite IH by exact Hk. unfold savePosition. apply lookup_insert_ne. congruence.
Qed.

Lemma save_fold_lookup nodes : forall (acc : gmap string Position) (n : Node),
  NoDup (map id nodes) -> n ∈ nodes ->
  fold_left savePosition nodes acc !! id n = Some {| px := x n; py := y n |}.
Proof.
  induction nodes as [|m nodes IH]; intros acc n Hdistinct Hn; [inversion Hn|].
  cbn [fold_left map] in *. apply NoDup_cons in Hdistinct as [Hfresh Hdistinct].
  apply elem_of_cons in Hn as [-> | Hn]; [|apply IH; assumption].
  rewrite save_fold_other by exact Hfresh. unfold savePosition. apply lookup_insert_eq.
Qed.

Lemma save_fold_dom nodes : forall (acc : gmap string Position),
  dom (fold_left savePosition nodes acc) = list_to_set (map id nodes) ∪ dom acc.
Proof.
  induction nodes as [|n nodes IH]; intros acc; cbn [fold_left map list_to_set].
  - apply set_eq. intros i. rewrite elem_of_union, elem_of_empty. tauto.
  - rewrite IH. unfold savePosition. rewrite dom_insert_L.
    apply set_eq. intros i. rewrite !elem_of_union. tauto.
Qed.

Lemma savedObject_dom nodes : dom (savedObject nodes) = list_to_set (map id nodes).
Proof.
  unfold savedObject. change (fold_left _ nodes ∅) with (fold_left savePosition nodes ∅).
  rewrite save_fold_dom, dom_empty_L.
  apply set_eq. intros i. rewrite elem_of_union, elem_of_empty. tauto.
Qed.

Lemma savedObject_lookup nodes n :
  NoDup (map id nodes) -> n ∈ nodes ->
  savedObject nodes !! id n = Some {| px := x n; py := y n |}.
Proof. intros Hdistinct Hn. apply (save_fold_lookup nodes ∅ n Hdistinct Hn). Qed.

Lemma filter_all {A : Type} (P : A -> Prop) `{forall a, Decision (P a)} (l : list A) :
  Forall P l -> filter P l = l.
Proof.
  induction 1 as [|a l Ha Hl IH]; [reflexivity|].
  rewrite filter_cons_True by exact Ha. rewrite IH. reflexivity.
Qed.

(** A page with the ids of the saved one passes the threshold. *)
Lemma same_ids_pass (ids : gset string) :
  belowThreshold (length (filter (fun i => i ∈ ids) (elements ids)))
                 (Nat.max (base.size ids) (base.size ids)) = false.
Proof.
  rewrite filter_all by (apply Forall_forall; intros i Hi; apply elem_of_elements, Hi).
  apply not_true_iff_false. rewrite belowThreshold_spec.
  change (base.size ids) with (length (elements ids)). lia.
Qed.

Lemma saveNodePositions_parses (nodes : list Node) (item : option Stored) :
  nodes <> [] ->
  Forall (fun n => x n <> NotANumber /\ y n <> NotANumber) nodes ->
  saveNodePositions nodes item = Some (Parses (SavedPositions (savedObject nodes))).
Proof.
  intros Hnodes Hnumbers.
  unfold saveNodePositions. destruct nodes as [|n0 rest] eqn:Hshape; [contradiction|].
  rewrite <- Hshape in *.
  assert (Hkept : forallb (fun node => keptByJson (x node) && keptByJson (y node)) nodes
                  = true).
  { apply forallb_forall. intros n Hn. apply list_elem_of_In in Hn.
    rewrite Forall_forall in Hnumbers. destruct (Hnumbers n Hn) as [Hx Hy].
    destruct (x n), (y n); cbn; congruence. }
  rewrite Hkept. reflexivity.
Qed.

(** A node takes the coordinates saved under its id. *)
Lemma restore_by_id (nodes : list Node) (f n : Node) :
  NoDup (map id nodes) -> n ∈ nodes -> id n = id f ->
  restorePosition (savedObject nodes) f = setPosition f (x n) (y n).
Proof.
  intros Hdistinct Hn Hid. unfold restorePosition.
  rewrite <- Hid, (savedObject_lookup nodes n Hdistinct Hn). reflexivity.
Qed.

Section Restoring.
Variable measureText : string -> Q.
Variables cos sin : Q -> Q.
Variable PI : Q.
Variables canvasWidth canvasHeight devicePixelRatio : Q.

Lemma restore_from_saved (nodes fresh : list Node) :
  nodes <> [] ->
  NoDup (map id nodes) ->
  (forall i : string, i ∈ map id fresh <-> i ∈ map id nodes) ->
  layoutNodes measureText cos sin PI canvasWidth canvasHeight devicePixelRatio
    false fresh (Some (SavedPositions (savedObject nodes)))
  = (map (restorePosition (savedObject nodes)) fresh,
     Some (SavedPositions (savedObject nodes))).
Proof.
  intros Hnodes Hdistinct Hids.
  assert (Hsets : (list_to_set (map id fresh) : gset string) = dom (savedObject nodes)).
  { rewrite savedObject_dom. apply set_eq. intros i.
    rewrite !elem_of_list_to_set. apply Hids. }
  assert (Hfresh : fresh <> []).
  { destruct nodes as [|n0 rest]; [contradiction|]. intros ->.
    pose proof (proj2 (Hids (id n0)) (list_elem_of_here (id n0) (map id rest))) as Hin.
    inversion Hin. }
  apply layoutNodes_restore; [exact Hfresh| |].
  - rewrite Hsets. apply same_ids_pass.
  - destruct fresh as [|f0 rest]; [contradiction|].
    exists f0. split; [apply list_elem_of_here|].
    assert (Hid : id f0 ∈ map id nodes) by (apply Hids, list_elem_of_here).
    apply list_elem_of_fmap in Hid as (n & Hid & Hn).
    rewrite Hid, (savedObject_lookup nodes n Hdistinct Hn). eexists. reflexivity.
Qed.

End Restoring.

End SaveFacts.

(** X29. Positions that were saved are found again. When a page with
    nodes of distinct ids, none of whose coordinates is a failed number,
    saves its positions, the stored item parses, and a page with the same
    set of ids that lays itself out from this item computes no layout:
    every node keeps what it is and gets the coordinates that the node
    with its id had when the positions were saved, and the item stays in
    the store. *)
Theorem saved_positions_are_restored :
  forall (measureText : string -> Q) (cos sin : Q -> Q) (PI : Q)
         (canvasWidth canvasHeight devicePixelRatio : Q)
         (nodes fresh : list Layout.Node) (item : option View.Stored),
    nodes <> [] ->
    NoDup (map Layout.id nodes) ->
    Forall (fun n => Layout.x n <> Panel.NotANumber /\ Layout.y n <> Panel.NotANumber) nodes ->
    (forall i : string, i ∈ map Layout.id fresh <-> i ∈ map Layout.id nodes) ->
    let data := Layout.SavedPositions (View.savedObject nodes) in
    View.saveNodePositions nodes item = Some (View.Parses data)
    /\ exists restored,
        Layout.layoutNodes measureText cos sin PI canvasWidth canvasHeight devicePixelRatio
          false fresh (Some data)
        = (restored, Some data)
        /\ map Layout.static restored = map Layout.static fresh
        /\ forall (i : nat) (f n : Layout.Node),
            restored !! i = Some f -> n ∈ nodes -> Layout.id n = Layout.id f ->
            Layout.position f = Layout.position n.
Proof.
  intros measureText cos sin PI canvasWidth canvasHeight devicePixelRatio nodes fresh item
         Hnodes Hdistinct Hnumbers Hids. cbv zeta.
  split; [apply saveNodePositions_parses; assumption|].
  exists (map (Layout.restorePosition (View.savedObject nodes)) fresh).
  split; [apply restore_from_saved; assumption|].
  split; [apply restore_static|].
  intros i f n Hi Hn Hid.
  rewrite list_lookup_fmap in Hi.
  destruct (fresh !! i) as [f0|] eqn:Hf0; [|discriminate].
  injection Hi as <-.
  assert (Hid0 : Layout.id n = Layout.id f0).
  { rewrite Hid. pose proof (restorePosition_static (View.savedObject nodes) f0) as Hs.
    unfold Layout.static in Hs. congruence. }
  rewrite (restore_by_id nodes f0 n Hdistinct Hn Hid0). reflexivity.
Qed.

Lemma saved_positions_are_restored_witness :
  let organized :=
    map View.core
        (View.layoutHierarchical Examples.measure Examples.cosApprox Examples.sinApprox
           Examples.piApprox 1600 1200 2 Scenarios.pageEdges Scenarios.page) in
  let fresh := map View.core Scenarios.page in
  organized <> []
  /\ NoDup (map Layout.id organized)
  /\ Forall (fun n => Layout.x n <> Panel.NotANumber /\ Layout.y n <> Panel.NotANumber)
            organized
  /\ View.saveNodePositions organized None
     = Some (View.Parses (Layout.SavedPositions (View.savedObject organized)))
  /\ map Layout.position
         (fst (Layout.layoutNodes Examples.measure Examples.cosApprox Examples.sinApprox
                 Examples.piApprox 1600 1200 2 false fresh
                 (Some (Layout.SavedPositions (View.savedObject organized)))))
     = map Layout.position organized.
Proof.
  cbv zeta.
  set (organized := map View.core _).
  assert (Hnodes : organized <> []) by discriminate.
  assert (Hdistinct : NoDup (map Layout.id organized)).
  { apply (bool_decide_unpack _). vm_compute. reflexivity. }
  assert (Hnumbers : Forall (fun n => Layout.x n <> Panel.NotANumber
                                      /\ Layout.y n <> Panel.NotANumber) organized).
  { vm_compute. repeat (apply List.Forall_cons; [split; discriminate|]). apply List.Forall_nil. }
  assert (Hids : forall i : string,
             i ∈ map Layout.id (map View.core Scenarios.page) <-> i ∈ map Layout.id organized).
  { intros i. replace (map Layout.id organized)
      with (map Layout.id (map View.core Scenarios.page)) by (vm_compute; reflexivity).
    reflexivity. }
  destruct (saved_positions_are_restored Examples.measure Examples.cosApprox
              Examples.sinApprox Examples.piApprox 1600 1200 2 organized
              (map View.core Scenarios.page) None Hnodes Hdistinct Hnumbers Hids)
    as [Hsave (restored & Hlayout & _ & Hplaces)].
  split; [exact Hnodes|]. split; [exact Hdistinct|]. split; [exact Hnumbers|].
  split; [exact Hsave|].
  rewrite Hlayout. cbn [fst].
  vm_compute in Hlayout. injection Hlayout as <-. vm_compute. reflexivity.
Defined.

(* ================================================================= *)
(** ** Organizing, then opening the page again *)

Section ReloadFacts.
Import Layout View.

Lemma filter_single_find {A : Type} (f : A -> bool) (l : list A) (c : A) :
  List.filter f l = [c] -> find f l = Some c.
Proof.
  induction l as [|a l IH]; [discriminate|]. cbn [List.filter find].
  destruct (f a); [intros Heq; injection Heq as -> _; reflexivity|exact IH].
Qed.

Lemma filter_single_first {A : Type} (f : A -> bool) (l : list A) (c : A) :
  List.filter f l = [c] ->
  forall i n, l !! i = Some n -> f n = true ->
  forall j m, (j < i)%nat -> l !! j = Some m -> f m = false.
Proof.
  induction l as [|a l IH]; intros Hfilter i n Hi Hn j m Hj Hm; [discriminate|].
  cbn [List.filter] in Hfilter. destruct (f a) eqn:Ha.
  - injection Hfilter as _ Hrest. destruct i as [|i]; [lia|].
    cbn [lookup list_lookup] in Hi. exfalso.
    assert (Hin : In n (List.filter f l)).
    { apply filter_In. split; [|exact Hn]. apply list_elem_of_In.
      eapply list_elem_of_lookup_2. exact Hi. }
    rewrite Hrest in Hin. inversion Hin.
  - destruct i as [|i]; [lia|]. cbn [lookup list_lookup] in Hi.
    destruct j as [|j].
    + injection Hm as <-. exact Ha.
    + cbn [lookup list_lookup] in Hm. apply (IH Hfilter i n Hi Hn j m); [lia|exact Hm].
Qed.

Lemma setPosition_static (a b : Node) (px py : coord) :
  static a = static b -> setPosition a px py = setPosition b px py.
Proof.
  destruct a, b. unfold static, setPosition. cbn. intros Heq.
  injection Heq as -> -> -> ->. reflexivity.
Qed.

Lemma ids_of_static (l1 l2 : list Node) :
  map static l1 = map static l2 -> map id l1 = map id l2.
Proof.
  intros Heq.
  assert (Hid : forall l, map id l = map (fun s => fst (fst (fst s))) (map static l)).
  { intros l. rewrite map_map. reflexivity. }
  rewrite (Hid l1), (Hid l2), Heq. reflexivity.
Qed.

End ReloadFacts.

(** X30. An organized page comes back as it was organized. On a page
    with distinct ids and one current-file node, after the places of
    [layoutHierarchical] have been saved, as the Organize button does, a
    page with the same nodes that lays itself out from the stored item, as a
    page does when it is opened, has every node at its organized place: its
    nodes are those of the organized page. *)
Theorem organized_page_is_restored :
  forall (measureText : string -> Q) (cos sin : Q -> Q) (PI : Q)
         (canvasWidth canvasHeight devicePixelRatio : Q)
         (edges : list Panel.VisualizationEdge) (nodes : list View.PageNode)
         (currentNode : View.PageNode) (fresh : list Layout.Node)
         (item : option View.Stored),
    List.filter (fun n => Layout.isCurrentFile (View.core n)) nodes = [currentNode] ->
    NoDup (map (fun n => Layout.id (View.core n)) nodes) ->
    map Layout.static fresh = map (fun n => Layout.static (View.core n)) nodes ->
    let organized :=
      map View.core
          (View.layoutHierarchical measureText cos sin PI canvasWidth canvasHeight
             devicePixelRatio edges nodes) in
    let data := Layout.SavedPositions (View.savedObject organized) in
    View.saveNodePositions organized item = Some (View.Parses data)
    /\ Layout.layoutNodes measureText cos sin PI canvasWidth canvasHeight devicePixelRatio
         false fresh (Some data)
       = (organized, Some data).
Proof.
  intros measureText cos sin PI canvasWidth canvasHeight devicePixelRatio edges nodes
         currentNode fresh item Hcurrent Hdistinct Hfresh. cbv zeta.
  pose proof (filter_single_find _ _ _ Hcurrent) as Hfind.
  destruct (layoutHierarchical_places measureText cos sin PI canvasWidth canvasHeight
              devicePixelRatio edges nodes currentNode Hfind) as [Hlength Hplaces].
  set (organizedPage := View.layoutHierarchical measureText cos sin PI canvasWidth
                          canvasHeight devicePixelRatio edges nodes) in *.
  assert (Hat : forall i node, nodes !! i = Some node ->
            exists qx qy, organizedPage !! i
                          = Some (View.place node (Panel.Num qx) (Panel.Num qy))).
  { intros i node Hi. destruct (Hplaces i node Hi) as (_ & Hfirst & Hother).
    destruct (Layout.isCurrentFile (View.core node)) eqn:Hflag.
    - eexists _, _. apply Hfirst; [reflexivity|].
      apply (filter_single_first _ _ _ Hcurrent i node Hi Hflag).
    - destruct (Hother eq_refl) as (_ & qx & qy & Hplace & _). eexists _, _. exact Hplace. }
  assert (Hstatic : map Layout.static (map View.core organizedPage) = map Layout.static fresh).
  { rewrite Hfresh. apply list_eq. intros i. rewrite !list_lookup_fmap.
    destruct (nodes !! i) as [node|] eqn:Hi.
    - destruct (Hat i node Hi) as (qx & qy & ->). reflexivity.
    - rewrite (lookup_ge_None_2 organizedPage); [reflexivity|].
      rewrite Hlength. apply lookup_ge_None_1, Hi. }
  assert (Hids : map Layout.id (map View.core organizedPage)
                 = map (fun n => Layout.id (View.core n)) nodes).
  { assert (Hfresh' : map Layout.static fresh = map Layout.static (map View.core nodes))
      by (rewrite map_map; exact Hfresh).
    rewrite (ids_of_static _ _ Hstatic), (ids_of_static _ _ Hfresh'), map_map. reflexivity. }
  assert (Hnodes : map View.core organizedPage <> []).
  { destruct nodes as [|n0 rest]; [discriminate|].
    destruct organizedPage; [discriminate|discriminate]. }
  assert (Hdistinct' : NoDup (map Layout.id (map View.core organizedPage)))
    by (rewrite Hids; exact Hdistinct).
  split.
  - apply saveNodePositions_parses; [exact Hnodes|].
    apply Forall_forall. intros o Ho.
    apply list_elem_of_fmap in Ho as (page & -> & Hpage).
    apply list_elem_of_lookup_1 in Hpage as (i & Hi).
    destruct (nodes !! i) as [node|] eqn:Hnode.
    + destruct (Hat i node Hnode) as (qx & qy & Hplace).
      rewrite Hplace in Hi. injection Hi as <-. cbn. split; discriminate.
    + apply lookup_lt_Some in Hi. apply lookup_ge_None_1 in Hnode. lia.
  - rewrite restore_from_saved; [|exact Hnodes|exact Hdistinct'|].
    + f_equal. apply list_eq. intros i. rewrite !list_lookup_fmap.
      assert (Hfi : Layout.static <$> fresh !! i
                    = (fun n => Layout.static (View.core n)) <$> nodes !! i).
      { pose proof (f_equal (fun l => l !! i) Hfresh) as Heq. cbn beta in Heq.
        rewrite !list_lookup_fmap in Heq. exact Heq. }
      destruct (nodes !! i) as [node|] eqn:Hnode.
      * destruct (fresh !! i) as [f|] eqn:Hf; [|discriminate].
        cbn [fmap option_fmap option_map] in Hfi.
        assert (Hs : Layout.static f = Layout.static (View.core node)) by congruence.
        clear Hfi. rename Hs into Hfi.
        destruct (Hat i node Hnode) as (qx & qy & Hplace). rewrite Hplace.
        cbn [fmap option_fmap option_map]. f_equal.
        assert (Ho : View.core (View.place node (Panel.Num qx) (Panel.Num qy))
                     ∈ map View.core organizedPage).
        { apply list_elem_of_fmap. eexists. split; [reflexivity|].
          eapply list_elem_of_lookup_2. exact Hplace. }
        rewrite (restore_by_id _ f _ Hdistinct' Ho).
        -- cbn [View.place View.core Layout.x Layout.y Layout.setPosition].
           apply (setPosition_static f (View.core node)). exact Hfi.
        -- cbn. unfold Layout.static in Hfi. congruence.
      * destruct (fresh !! i) as [f|] eqn:Hf; [discriminate|].
        rewrite (lookup_ge_None_2 organizedPage); [reflexivity|].
        rewrite Hlength. apply lookup_ge_None_1, Hnode.
    + intros i. rewrite (ids_of_static _ _ Hstatic). reflexivity.
Qed.

Lemma organized_page_is_restored_witness :
  let organized :=
    map View.core
        (View.layoutHierarchical Examples.measure Examples.cosApprox Examples.sinApprox
           Examples.piApprox 1600 1200 2 Scenarios.pageEdges Scenarios.page) in
  List.filter (fun n => Layout.isCurrentFile (View.core n)) Scenarios.page
  = [Scenarios.pageNode "/p/a.ts" true false]
  /\ NoDup (map (fun n => Layout.id (View.core n)) Scenarios.page)
  /\ fst (Layout.layoutNodes Examples.measure Examples.cosApprox Examples.sinApprox
            Examples.piApprox 1600 1200 2 false (map View.core Scenarios.page)
            (Some (Layout.SavedPositions (View.savedObject organized))))
     = organized.
Proof.
  cbv zeta.
  assert (Hcurrent : List.filter (fun n => Layout.isCurrentFile (View.core n)) Scenarios.page
                     = [Scenarios.pageNode "/p/a.ts" true false]) by reflexivity.
  assert (Hdistinct : NoDup (map (fun n => Layout.id (View.core n)) Scenarios.page)).
  { apply (bool_decide_unpack _). vm_compute. reflexivity. }
  split; [exact Hcurrent|]. split; [exact Hdistinct|].
  destruct (organized_page_is_restored Examples.measure Examples.cosApprox
              Examples.sinApprox Examples.piApprox 1600 1200 2 Scenarios.pageEdges
              Scenarios.page _ (map View.core Scenarios.page) None Hcurrent Hdistinct)
    as [_ Hlayout].
  { rewrite map_map. reflexivity. }
  rewrite Hlayout. reflexivity.
Defined.
